(* ===== verification/_CoqProject ===== *)
-Q . S2P
Prelude.v
GoStrings.v
GoFloat.v
Digits.v
GoFloatRounding.v
GoJson.v
GoFloatShortest.v
GoJsonRoundtrip.v
GoUtf8.v
Env.v
Utils.v
Config.v
SumoClient.v
SumoChunks.v
SumoEnhance.v
SumoPost.v
SumoCalls.v
SumoReader.v
GoChan.v
Workers.v
Producers.v
Consumers.v
LambdaApi.v
Extension.v
System.v
ManagedSystem.v
