(* ===== verification/Prelude.v ===== *)
(** * Sumo Logic Lambda extension: verification library

    The extension runs beside an AWS Lambda function.  It registers with the
    Lambda runtime API and subscribes to the telemetry API
    (lambdaapi/*.go), receives batches of telemetry over HTTP and queues them
    (workers/producer.go, workers/managed_instance_producer.go), and sends the
    queue to a Sumo Logic HTTP endpoint or, when that fails, to S3
    (workers/consumer.go, workers/managed_instance_consumer.go,
    sumoclient/sumoclient.go).  sumologic-extension.go starts the goroutines
    and follows the runtime's events; config/config.go reads the environment.
    All paths are under src/lambda-extensions/.

    ** Files

    - Prelude.v: Go calls as a state transformer [Go W A] that returns, panics
      or parks ([gores]); [go_fold] for range loops; the weakest precondition
      [wp] (total correctness: the call returns) with its rules; fixed-width
      integers.
    - GoStrings.v, GoFloat.v, GoJson.v, GoChan.v: what the program uses of
      Go's strings, strconv, base64, time and bytes; of float64 and its
      printing; of encoding/json (parsing, decoding into maps and structs,
      encoding, indenting); channels with their buffer, parked senders and
      closed flag.
    - Digits.v, GoFloatRounding.v, GoFloatShortest.v: decimal digits; correct
      rounding of a ratio to float64, characterised on integers; the shortest
      decimal of every float64 is parsed as that float64.
    - GoJsonRoundtrip.v: what encoding/json writes is read back: strings,
      numbers, arrays, objects, maps; what it decodes is valid UTF-8 and
      within the nesting limit.
    - GoUtf8.v: the operations that build texts keep valid UTF-8.
    - Env.v: the class [Env] of everything outside the repository (process
      environment, clock, HTTP peers, S3, KMS, UUIDs, gzip, URL and log level
      parsers), each function of the number of the call, so a theorem for all
      [Env] covers every behaviour of the outside; the mutable [world] with
      the trace of effects and the package variables of sumoclient.go.
      Hypotheses about the outside have names: [MonotoneClock], [GzipLaws].
    - Utils.v (utils/utils.go, utils/awsutils.go): Retry, StringInSlice,
      Compress, CompressBuffer, PrettyPrint, ParseJson, the init of the S3
      uploader, UploadToS3.
    - Config.v (config/config.go, version.go): the record, setDefaults, the
      steps of validateConfig in their order, GetConfig; an independent
      specification of the resulting configuration and of the errors.
    - SumoClient.v (sumoclient/sumoclient.go): every operation of the client
      and the interface [LogSender], with [LogSenderLaws], what its users rely
      on.  Its theorems have a file for each layer: SumoChunks.v (createChunks),
      SumoEnhance.v (enhanceLogs), SumoPost.v (postToSumo and the endpoint),
      SumoCalls.v (SendLogs, SendAllLogs, FlushAll, and the instance
      [client_laws] that discharges the interface for the client).
    - SumoReader.v: decoding, enhancing, chunking, encoding and decoding
      again, composed: what a reader of the posted lines gets.
    - Workers.v, Producers.v, Consumers.v (workers/*.go): the shared queue and
      signals, the two HTTP handlers and servers, the two consumers.  The
      consumers' theorems are proved against [LogSenderLaws].
    - LambdaApi.v (lambdaapi/*.go): the API client, its requests and the
      decoding of its responses.
    - Extension.v (sumologic-extension.go): the start of the process, the
      handshake, the event loop and main's recover, with the other goroutines
      as an arbitrary function of the shared state at each wait (the wait of
      the recover included) and each yield.
    - System.v: the standard mode with the channel operations of DrainQueue
      and FlushDataQueue and the handlers interleaved step by step, the
      closing of the queue and a panic of the sender included.
    - ManagedSystem.v: the same for the managed mode: any number of handlers,
      each from its arrival to its answer, and the consumer goroutine with
      its signals.

    A method of a Go type is a definition of the same name; where two types
    have a method of the same name the definition carries a prefix
    (sumo_DrainQueue and managed_DrainQueue, sumo_SendLogs, ...).  Receivers
    are explicit arguments (the configuration) or the state.

    ** What the theorems show

    - Configuration: GetConfig computes the specified record and reports an
      error exactly for the invalid environments; the range of every number.
    - Sending: the chunks are lossless and bounded; one post follows the
      protocol [delivery] (attempt, pauses, bounded retries, failover); the
      calls of the interface enhance, chunk and post every decodable payload;
      with the failover on, no error means that every item is in a body that
      the endpoint acknowledged (200), that S3 stored, or that was given up on
      a 302 or a server error, which the code treats like a 200; against an
      endpoint whose first answer is always one of those (all 200, say) each
      item is sent exactly once in order, on a line that decodes to the item.
      The hypotheses of that theorem: the function's name and version are
      valid UTF-8, and a log line that is JSON leaves one level of
      encoding/json's nesting limit.  [Retry] terminates.
    - Queue: a drain or a flush is one call of the sender with the whole
      queue, whose error decides whether the queue is empty or what it was
      ([handed_over]); the managed loop, round by round; the exact effect of
      the handlers, with the 80% threshold computed in float64.
    - Concurrency: conservation and first-in-first-out order of the
      interleaved system; the deadlock of the blocking requeue is reachable
      for every capacity and final; a flush turns handlers away.  A drain or
      a flush of Consumers.v is a run of the system in which only the main
      goroutine moves, with the same call of the sender and the same end.
      The managed system never deadlocks and always settles; without a failed
      send it loses nothing that was queued, and it settles with the queue
      below the threshold, empty behind a report; the sequential handler and
      consumer loop are runs of it, with the same calls of the sender.
    - Runtime API and main: the exact exchanges of each call, the body of the
      subscription as its reader decodes it, the handshake, the one panic
      that standard mode has from the start of the process on, what a turn of
      the loop drains or flushes, the recover of main and the end of managed
      mode.
    - Behaviours the code presumably does not intend: no cache hit for the
      decrypted endpoint, IsColdStart always false, server errors dropped,
      undecodable payloads sent again and again, null items that lose the
      queue, the nil consumer in managed mode, what stays in the managed queue
      below the threshold, a flush that closes the queue under the handlers,
      doubled slashes.

    ** Fuel

    [Retry] runs with one unit more than the attempts left, which is enough
    ([Retry_loop_fuel]); polling a channel takes one receive per value and one
    more ([recv_all_spec]).  A run that needs more than its fuel parks
    ([Block]), and [wp] excludes that.  The JSON scanner takes twice the
    length of the text, beyond which fuel changes nothing
    ([parse_value_fuel], [scan_string_fuel]).  The decimal exponent of a
    float64 is found within three of the 40 steps ([exp10_spec]), and its
    digits within the 18 tries ([try_18]).

    ** Not modelled

    Logging; the accept loop of net/http behind [Start] (each request runs the
    handler); the creation of the AWS sessions (their failure is a field of
    [Env]); context cancellation inside an HTTP call; the response that
    http.Client.Do returns beside an error when following a redirect fails,
    whose body is closed already (the code closes it again, which does
    nothing); wait groups; deploy scripts and the container example.  The consumer goroutine of managed mode
    has a context that is never done, so the interleaved managed system has no
    flush; the sequential model has it.  A panic of the sender in that
    goroutine ends the process and is no step either.  Go's own allocation limits and stack depth are
    not modelled, except encoding/json's nesting limit. *)
From stdpp Require Export base tactics list strings gmap sorting.
From Stdlib Require Export ZArith Lia.

#[export] Set Default Goal Selector "!".
Open Scope Z_scope.

(** ** Go computations

    A Go call either returns, panics, or parks its goroutine for ever (a
    blocking channel operation that nothing in the model will wake).  The
    state is kept in every case: what was done before a panic stays done. *)

Inductive gopanic :=
  | NilMapWrite        (* assignment to entry in nil map *)
  | TypeAssertion      (* interface conversion *)
  | DivideByZero       (* integer divide by zero *)
  | NilDereference     (* call of a method of a nil interface *)
  | SendOnClosed       (* send on closed channel *)
  | CloseOfClosed      (* close of closed channel *)
  | MakeChanSize       (* makechan: size out of range *)
  | ExplicitPanic.     (* a call of panic *)

Inductive gores (A : Type) :=
  | Ret (a : A)
  | Panic (p : gopanic)
  | Block.
Arguments Ret {A} a.
Arguments Panic {A} p.
Arguments Block {A}.

#[export] Instance gopanic_eq_dec : EqDecision gopanic.
Proof. solve_decision. Defined.
#[export] Instance gores_eq_dec `{EqDecision A} : EqDecision (gores A).
Proof. solve_decision. Defined.

(** [Go W A]: a Go call with result type [A] over the mutable state [W]. *)
Definition Go (W A : Type) : Type := W → gores A * W.

Definition go_ret {W A} (a : A) : Go W A := λ w, (Ret a, w).
Definition go_bind {W A B} (m : Go W A) (k : A → Go W B) : Go W B := λ w,
  match m w with
  | (Ret a, w') => k a w'
  | (Panic p, w') => (Panic p, w')
  | (Block, w') => (Block, w')
  end.
Definition go_panic {W A} (p : gopanic) : Go W A := λ w, (Panic p, w).
Definition go_block {W A} : Go W A := λ w, (Block, w).
Definition go_get {W} : Go W W := λ w, (Ret w, w).
Definition go_put {W} (w : W) : Go W unit := λ _, (Ret tt, w).
Definition go_modify {W} (f : W → W) : Go W unit := λ w, (Ret tt, f w).

Declare Scope go_scope.
Delimit Scope go_scope with go.
Notation "'let!' x := m 'in' k" := (go_bind m (fun x => k))
  (at level 200, x pattern, m at level 100, k at level 200,
   format "'[v' 'let!'  x  :=  m  'in' '/' k ']'") : go_scope.
Notation "m ;;; k" := (go_bind m (fun _ => k))
  (at level 199, right associativity) : go_scope.
Open Scope go_scope.

(** [for _, x := range l { s = body s x }] *)
Fixpoint go_fold {W S A} (body : S → A → Go W S) (s : S) (l : list A) : Go W S :=
  match l with
  | [] => go_ret s
  | x :: l' => let! s' := body s x in go_fold body s' l'
  end.

(** Two calls are interchangeable when they agree on every state: the
    equivalence under which the laws below rewrite. *)
#[export] Instance go_equiv {W A} : Equiv (Go W A) := λ m n, ∀ w, m w = n w.

#[export] Instance go_equivalence {W A} : Equivalence (@equiv (Go W A) _).
Proof.
  split.
  - by intros m w.
  - by intros m n H w.
  - intros m n o H1 H2 w. by rewrite H1.
Qed.

#[export] Instance go_bind_proper {W A B} :
  Proper (equiv ==> pointwise_relation A equiv ==> equiv) (@go_bind W A B).
Proof.
  intros m n Hm k l Hk w. unfold go_bind. rewrite (Hm w).
  destruct (n w) as [[a|p|] w']; [apply Hk | done | done].
Qed.

Lemma go_bind_ret_l {W A B} (a : A) (k : A → Go W B) :
  go_bind (go_ret a) k ≡ k a.
Proof. by intros w. Qed.

Lemma go_bind_ret_r {W A} (m : Go W A) : go_bind m go_ret ≡ m.
Proof. intros w. unfold go_bind. by destruct (m w) as [[]]. Qed.

Lemma go_bind_assoc {W A B C} (m : Go W A) (k : A → Go W B) (l : B → Go W C) :
  go_bind (go_bind m k) l ≡ go_bind m (λ a, go_bind (k a) l).
Proof. intros w. unfold go_bind. by destruct (m w) as [[]]. Qed.

(** A call on one part of the state. *)
Definition zoom {S T A} (get : S → T) (set : S → T → S) (m : Go T A) : Go S A := λ s,
  let '(r, t) := m (get s) in (r, set s t).

Lemma zoom_eq {S T A} (get : S → T) (set : S → T → S) (m : Go T A) s r t :
  m (get s) = (r, t) → zoom get set m s = (r, set s t).
Proof. unfold zoom. by intros ->. Qed.

(** *** Total correctness

    [wp m Q w]: run from [w], the call [m] returns (it neither panics nor
    parks) a result and a state that satisfy [Q]. *)
Definition wp {W A} (m : Go W A) (Q : A → W → Prop) (w : W) : Prop :=
  match m w with
  | (Ret a, w') => Q a w'
  | _ => False
  end.

Lemma wp_ret {W A} (a : A) (Q : A → W → Prop) w : Q a w → wp (go_ret a) Q w.
Proof. done. Qed.

Lemma wp_bind {W A B} (m : Go W A) (k : A → Go W B) Q w :
  wp m (λ a w', wp (k a) Q w') w → wp (go_bind m k) Q w.
Proof. unfold wp, go_bind. by destruct (m w) as [[]]. Qed.

Lemma wp_mono {W A} (m : Go W A) (Q R : A → W → Prop) w :
  wp m Q w → (∀ a w', Q a w' → R a w') → wp m R w.
Proof. unfold wp. destruct (m w) as [[]]; naive_solver. Qed.

Lemma wp_and {W A} (m : Go W A) (Q R : A → W → Prop) w :
  wp m Q w → wp m R w → wp m (λ a w', Q a w' ∧ R a w') w.
Proof. unfold wp. destruct (m w) as [[]]; naive_solver. Qed.

Lemma wp_get {W} (Q : W → W → Prop) w : Q w w → wp go_get Q w.
Proof. done. Qed.

Lemma wp_modify {W} (f : W → W) (Q : unit → W → Prop) w :
  Q tt (f w) → wp (go_modify f) Q w.
Proof. done. Qed.

Lemma wp_zoom {S T A} (get : S → T) (set : S → T → S) (m : Go T A) (Q : A → S → Prop) s :
  wp m (λ a t, Q a (set s t)) (get s) → wp (zoom get set m) Q s.
Proof. unfold wp, zoom. by destruct (m (get s)) as [[]]. Qed.

Lemma wp_proper {W A} (m n : Go W A) Q w : m ≡ n → wp n Q w → wp m Q w.
Proof. intros H. unfold wp. by rewrite (H w). Qed.

(** The loop rule: [I done s] holds of the part of the range already
    visited and of the loop's accumulator. *)
Lemma wp_fold_aux {W S A} (I : list A → S → W → Prop) (body : S → A → Go W S)
    (l : list A) : ∀ pre s w,
  I pre s w →
  (∀ pre x post s w, pre ++ x :: post = l → I pre s w → wp (body s x) (I (pre ++ [x])) w) →
  ∀ post, pre ++ post = l → wp (go_fold body s post) (I l) w.
Proof.
  intros pre s w HI Hstep post. revert pre s w HI.
  induction post as [|x post IH]; intros pre s w HI Hl; simpl.
  - apply wp_ret. rewrite app_nil_r in Hl. by subst.
  - apply wp_bind. eapply wp_mono; [by eapply Hstep|].
    intros s' w' HI'. eapply IH; [done|]. by rewrite <- app_assoc.
Qed.

Lemma wp_fold {W S A} (I : list A → S → W → Prop) (body : S → A → Go W S)
    (l : list A) s w :
  I [] s w →
  (∀ pre x post s w, pre ++ x :: post = l → I pre s w → wp (body s x) (I (pre ++ [x])) w) →
  wp (go_fold body s l) (I l) w.
Proof. intros HI Hstep. by eapply wp_fold_aux. Qed.

(** Every return path preserves [I], whether or not the call returns. *)
Definition preserves {W A} (I : W → Prop) (m : Go W A) : Prop :=
  ∀ w, I w → I (m w).2.

Lemma preserves_ret {W A} (I : W → Prop) (a : A) : preserves I (go_ret a).
Proof. by intros w. Qed.

Lemma preserves_bind {W A B} (I : W → Prop) (m : Go W A) (k : A → Go W B) :
  preserves I m → (∀ a, preserves I (k a)) → preserves I (go_bind m k).
Proof.
  intros Hm Hk w Hw. specialize (Hm w Hw). unfold go_bind.
  destruct (m w) as [[a|p|] w']; simpl in *; [by apply Hk | done | done].
Qed.

Lemma preserves_fold {W S A} (I : W → Prop) (body : S → A → Go W S) l :
  (∀ s x, preserves I (body s x)) → ∀ s, preserves I (go_fold body s l).
Proof.
  intros Hb. induction l as [|x l IH]; intros s; simpl;
    auto using preserves_ret, preserves_bind.
Qed.

Create HintDb go discriminated.
#[export] Hint Resolve wp_ret wp_get wp_modify preserves_ret preserves_bind
  preserves_fold : go.

(** ** Tactics *)

(** Split a goal or hypothesis on the scrutinee of its first match. *)
Ltac case_go :=
  match goal with
  | |- context [match ?x with _ => _ end] => destruct x eqn:?
  end.

(** Symbolic execution of a call in the weakest precondition. *)
Ltac wp_step :=
  lazymatch goal with
  | |- wp (go_bind _ _) _ _ => apply wp_bind
  | |- wp (go_ret _) _ _ => apply wp_ret
  | |- wp go_get _ _ => apply wp_get
  | |- wp (go_modify _) _ _ => apply wp_modify
  end.
Ltac wp_steps := repeat (wp_step; simpl).

(** ** Integers of Go

    [int] is 64 bits wide on every platform the extension is built for. *)
Definition wrap_int (w : Z) (x : Z) : Z :=
  (x + 2 ^ (w - 1)) `mod` 2 ^ w - 2 ^ (w - 1).
Definition int64 : Z → Z := wrap_int 64.
Definition in_int (w x : Z) : Prop := - 2 ^ (w - 1) ≤ x < 2 ^ (w - 1).

Lemma wrap_int_id w x : 0 < w → in_int w x → wrap_int w x = x.
Proof.
  intros Hw [H1 H2]. unfold wrap_int.
  assert (2 ^ w = 2 * 2 ^ (w - 1)) as E.
  { rewrite <- Z.pow_succ_r by lia. f_equal. lia. }
  rewrite Z.mod_small; lia.
Qed.

Lemma wrap_int_in w x : 0 < w → in_int w (wrap_int w x).
Proof.
  intros Hw. unfold wrap_int, in_int.
  assert (2 ^ w = 2 * 2 ^ (w - 1)) as E.
  { rewrite <- Z.pow_succ_r by lia. f_equal. lia. }
  assert (0 < 2 ^ (w - 1)) by (apply Z.pow_pos_nonneg; lia).
  pose proof (Z.mod_pos_bound (x + 2 ^ (w - 1)) (2 ^ w) ltac:(lia)). lia.
Qed.

(** ** Lists *)
Lemma last_cons_snoc {A} (x y : A) l : last (l ++ [x]) = Some y → x = y.
Proof. rewrite last_snoc. congruence. Qed.

Lemma take_app_le {A} n (l k : list A) : (n ≤ length l)%nat → take n (l ++ k) = take n l.
Proof. intros. rewrite take_app. replace (n - length l)%nat with 0%nat by lia. by rewrite take_0, app_nil_r. Qed.

(** An element added at the end, changed and removed. *)
Lemma delete_insert_snoc {A} (l : list A) x y : delete (length l) (<[length l := y]> (l ++ [x])) = l.
Proof. induction l as [|z l IH]; [done|]. simpl. by f_equal. Qed.
