(* ===== verification/GoStrings.v ===== *)
(** * Strings, numbers in text, and time of the Go standard library

    Go strings are byte sequences; they are modelled as [string] (a list of
    8-bit [ascii]).  This file models what the extension uses of [strings],
    [strconv], [encoding/base64], [fmt] (integers) and [time] (the civil
    date of a Unix time). *)
From S2P Require Import Prelude.
From Stdlib Require Import Ascii String.
Open Scope Z_scope.

#[global] Arguments String.append !_ _ / : simpl nomatch.

(** ** Bytes *)
Definition code (c : ascii) : Z := Z.of_N (N_of_ascii c).
Definition byte (z : Z) : ascii := ascii_of_N (Z.to_N z).
Definition byte1 (z : Z) : string := String (byte z) EmptyString.
Definition bytes (l : list Z) : string := foldr (λ z s, String (byte z) s) EmptyString l.

Definition is_digit (c : ascii) : bool := (48 <=? code c) && (code c <=? 57).
Definition digit_val (c : ascii) : Z := code c - 48.

(** [len(s)] *)
Definition slen (s : string) : Z := Z.of_nat (String.length s).

(** ASCII lower case of a byte. *)
Definition lower_byte (c : ascii) : ascii :=
  if (65 <=? code c) && (code c <=? 90) then byte (code c + 32) else c.

Fixpoint smap (f : ascii → ascii) (s : string) : string :=
  match s with EmptyString => EmptyString | String c s' => String (f c) (smap f s') end.

(** ** Package strings *)

(** [strings.HasPrefix(s, p)], giving the rest of [s]. *)
Fixpoint strip_prefix (p s : string) : option string :=
  match p, s with
  | EmptyString, _ => Some s
  | String a p', String b s' => if ascii_dec a b then strip_prefix p' s' else None
  | String _ _, EmptyString => None
  end.

(** [strings.Contains(s, sub)] *)
Fixpoint contains (s sub : string) : bool :=
  match strip_prefix sub s with
  | Some _ => true
  | None => match s with EmptyString => false | String _ s' => contains s' sub end
  end.

(** [strings.Split(s, sep)] for a one-byte separator. *)
Fixpoint split_on (sep : ascii) (s : string) : list string :=
  match s with
  | EmptyString => [""%string]
  | String c s' =>
      if ascii_dec c sep then ""%string :: split_on sep s'
      else match split_on sep s' with
           | [] => [String c EmptyString]
           | p :: ps => String c p :: ps
           end
  end.

(** [strings.Join(l, sep)] *)
Fixpoint join (sep : string) (l : list string) : string :=
  match l with
  | [] => EmptyString
  | [s] => s
  | s :: l' => s +:+ sep +:+ join sep l'
  end.

(** The UTF-8 encodings of the code points of Unicode's White_Space
    property, which are those [unicode.IsSpace] accepts. *)
Definition space_encodings : list string :=
  map bytes
    [[9]; [10]; [11]; [12]; [13]; [32]; [194; 133]; [194; 160]; [225; 154; 128];
     [226; 128; 128]; [226; 128; 129]; [226; 128; 130]; [226; 128; 131];
     [226; 128; 132]; [226; 128; 133]; [226; 128; 134]; [226; 128; 135];
     [226; 128; 136]; [226; 128; 137]; [226; 128; 138]; [226; 128; 168];
     [226; 128; 169]; [226; 128; 175]; [226; 129; 159]; [227; 128; 128]].

Fixpoint strip_any (ps : list string) (s : string) : option string :=
  match ps with
  | [] => None
  | p :: ps' => match strip_prefix p s with Some r => Some r | None => strip_any ps' s end
  end.

Fixpoint trim_left_with (ps : list string) (fuel : nat) (s : string) : string :=
  match fuel with
  | O => s
  | S fuel' => match strip_any ps s with
               | Some r => trim_left_with ps fuel' r
               | None => s
               end
  end.

Fixpoint srev_onto (acc s : string) : string :=
  match s with EmptyString => acc | String c s' => srev_onto (String c acc) s' end.
Definition srev (s : string) : string := srev_onto EmptyString s.

(** [strings.TrimSpace(s)].  A space code point starts at the front of [s]
    exactly when one of the encodings is a prefix, and ends at its back
    exactly when one is a suffix (each is a whole, valid encoding). *)
Definition trim_space (s : string) : string :=
  let l := trim_left_with space_encodings (String.length s) s in
  srev (trim_left_with (map srev space_encodings) (String.length l) (srev l)).

(** ** Package strconv *)
Inductive num_error := ErrSyntax | ErrRange.

#[export] Instance num_error_eq_dec : EqDecision num_error.
Proof. solve_decision. Defined.

(** The loop of [strconv.ParseUint] in base 10: it leaves on the first byte
    that is no digit and on the first value above [2^bits - 1], whichever
    comes first. *)
Fixpoint parse_uint_loop (bits : Z) (n : Z) (s : string) : Z * option num_error :=
  match s with
  | EmptyString => (n, None)
  | String c s' =>
      if is_digit c then
        let n1 := n * 10 + digit_val c in
        if 2 ^ bits - 1 <? n1 then (2 ^ bits - 1, Some ErrRange)
        else parse_uint_loop bits n1 s'
      else (0, Some ErrSyntax)
  end.

Definition parse_uint (bits : Z) (s : string) : Z * option num_error :=
  match s with
  | EmptyString => (0, Some ErrSyntax)
  | _ => parse_uint_loop bits 0 s
  end.

(** [strconv.ParseInt(s, 10, bits)] *)
Definition parse_int (bits : Z) (s : string) : Z * option num_error :=
  match s with
  | EmptyString => (0, Some ErrSyntax)
  | String c s' =>
      let neg := Z.eqb (code c) 45 in
      let digits := if (code c =? 43) || neg then s' else s in
      match parse_uint bits digits with
      | (_, Some ErrSyntax) => (0, Some ErrSyntax)
      | (un, _) =>
          let cutoff := 2 ^ (bits - 1) in
          if negb neg && (cutoff <=? un) then (cutoff - 1, Some ErrRange)
          else if neg && (cutoff <? un) then (- cutoff, Some ErrRange)
          else (if neg then - un else un, None)
      end
  end.

(** [strconv.ParseBool] *)
Definition parse_bool (s : string) : bool * option num_error :=
  if existsb (String.eqb s) ["1"; "t"; "T"; "true"; "TRUE"; "True"]%string
  then (true, None)
  else if existsb (String.eqb s) ["0"; "f"; "F"; "false"; "FALSE"; "False"]%string
  then (false, None)
  else (false, Some ErrSyntax).

(** Decimal digits of [n >= 0], most significant first. *)
Fixpoint nat_digits (fuel : nat) (n : Z) (acc : string) : string :=
  match fuel with
  | O => acc
  | S fuel' =>
      let acc' := String (byte (48 + n mod 10)) acc in
      if n <? 10 then acc' else nat_digits fuel' (n / 10) acc'
  end.

(** [strconv.Itoa], and [fmt]'s %d *)
Definition itoa (n : Z) : string :=
  let m := Z.abs n in
  let ds := nat_digits (S (Z.to_nat (Z.log2 m))) m EmptyString in
  if n <? 0 then String (byte 45) ds else ds.

(** [fmt]'s %02d, for [n >= 0] *)
Definition pad2 (n : Z) : string :=
  if n <? 10 then String (byte 48) (itoa n) else itoa n.

(** ** Package encoding/base64: [StdEncoding.DecodeString] *)
Definition b64_val (c : ascii) : option Z :=
  let z := code c in
  if (65 <=? z) && (z <=? 90) then Some (z - 65)
  else if (97 <=? z) && (z <=? 122) then Some (z - 71)
  else if (48 <=? z) && (z <=? 57) then Some (z + 4)
  else if z =? 43 then Some 62
  else if z =? 47 then Some 63
  else None.

(** CR and LF are skipped wherever they occur. *)
Fixpoint b64_clean (s : string) : list ascii :=
  match s with
  | EmptyString => []
  | String c s' => if (code c =? 10) || (code c =? 13) then b64_clean s' else c :: b64_clean s'
  end.

Fixpoint b64_quads (l : list ascii) : option string :=
  match l with
  | [] => Some EmptyString
  | [a; b; c; d] =>
      match b64_val a, b64_val b, b64_val c, b64_val d with
      | Some x, Some y, Some z, Some w =>
          Some (bytes [x * 4 + y / 16; (y mod 16) * 16 + z / 4; (z mod 4) * 64 + w])
      | Some x, Some y, Some z, None =>
          if code d =? 61 then Some (bytes [x * 4 + y / 16; (y mod 16) * 16 + z / 4]) else None
      | Some x, Some y, None, None =>
          if (code c =? 61) && (code d =? 61) then Some (bytes [x * 4 + y / 16]) else None
      | _, _, _, _ => None
      end
  | a :: b :: c :: d :: l' =>
      match b64_val a, b64_val b, b64_val c, b64_val d, b64_quads l' with
      | Some x, Some y, Some z, Some w, Some r =>
          Some (bytes [x * 4 + y / 16; (y mod 16) * 16 + z / 4; (z mod 4) * 64 + w] +:+ r)
      | _, _, _, _, _ => None
      end
  | _ => None
  end.

Definition b64_decode (s : string) : option string := b64_quads (b64_clean s).

(** ** Package time: the civil date of a Unix time in nanoseconds *)
Definition nanosecond : Z := 1.
Definition millisecond : Z := 1000000.
Definition second : Z := 1000000000.
Definition minute : Z := 60 * second.

Record civil := Civil { Year : Z; Month : Z; Day : Z; Hour : Z; Minute : Z }.

(** Days since 1970-01-01 to the proleptic Gregorian date, counting years
    from March so that the leap day is the last of the year. *)
Definition civil_of_days (days : Z) : Z * Z * Z :=
  let z := days + 719468 in
  let era := z / 146097 in
  let doe := z mod 146097 in
  let yoe := (doe - doe / 1460 + doe / 36524 - doe / 146096) / 365 in
  let doy := doe - (365 * yoe + yoe / 4 - yoe / 100) in
  let mp := (5 * doy + 2) / 153 in
  let d := doy - (153 * mp + 2) / 5 + 1 in
  let m := if mp <? 10 then mp + 3 else mp - 9 in
  let y := yoe + era * 400 + (if m <=? 2 then 1 else 0) in
  (y, m, d).

Definition civil_of_unix (ns : Z) : civil :=
  let secs := ns / second in
  let '(y, m, d) := civil_of_days (secs / 86400) in
  Civil y m d ((secs mod 86400) / 3600) ((secs mod 3600) / 60).

(** ** Lemmas *)

Lemma code_range c : 0 ≤ code c < 256.
Proof.
  unfold code. pose proof (N_ascii_bounded c). lia.
Qed.

Lemma code_inj c d : code c = code d → c = d.
Proof.
  intros H. rewrite <- (ascii_N_embedding c), <- (ascii_N_embedding d).
  unfold code in H. f_equal. lia.
Qed.

Lemma code_byte z : 0 ≤ z < 256 → code (byte z) = z.
Proof.
  intros H. unfold code, byte. rewrite N_ascii_embedding; lia.
Qed.

Lemma slen_app s t : slen (s +:+ t) = slen s + slen t.
Proof.
  unfold slen. rewrite <- Nat2Z.inj_add. f_equal.
  induction s as [|c s IH]; simpl; [done|]. by rewrite IH.
Qed.

Lemma slen_nonneg s : 0 ≤ slen s.
Proof. unfold slen. lia. Qed.

Lemma app_string_assoc (s t u : string) : (s +:+ t) +:+ u = s +:+ (t +:+ u).
Proof. induction s as [|c s IH]; simpl; [done|]. by rewrite IH. Qed.

Lemma app_string_nil_r (s : string) : s +:+ EmptyString = s.
Proof. induction s as [|c s IH]; simpl; [done|]. by rewrite IH. Qed.

(** *** Bounds and errors of the integer parsers *)
Lemma digit_val_range c : is_digit c = true → 0 ≤ digit_val c ≤ 9.
Proof. unfold is_digit, digit_val. rewrite andb_true_iff, !Z.leb_le. lia. Qed.

Lemma parse_uint_loop_range bits s : ∀ n,
  0 ≤ n ≤ 2 ^ bits - 1 → 0 ≤ (parse_uint_loop bits n s).1 ≤ 2 ^ bits - 1.
Proof.
  induction s as [|c s IH]; intros n Hn; simpl; [done|].
  destruct (is_digit c) eqn:Hc; simpl; [|lia].
  apply digit_val_range in Hc.
  case_match eqn:E; [simpl; lia|]. apply IH. rewrite Z.ltb_ge in E. lia.
Qed.

Lemma parse_uint_range bits s :
  0 ≤ bits → 0 ≤ (parse_uint bits s).1 ≤ 2 ^ bits - 1.
Proof.
  intros Hb. assert (0 < 2 ^ bits) by (apply Z.pow_pos_nonneg; lia).
  unfold parse_uint. destruct s; simpl; [lia|].
  apply (parse_uint_loop_range bits (String a s)). lia.
Qed.

(** Whatever the text, the value fits the requested width. *)
Lemma parse_int_range bits s : 0 < bits → in_int bits (parse_int bits s).1.
Proof.
  intros Hb. unfold in_int, parse_int.
  assert (0 < 2 ^ (bits - 1)) by (apply Z.pow_pos_nonneg; lia).
  destruct s as [|c s]; simpl; [lia|].
  pose proof (parse_uint_range bits
    (if (code c =? 43) || (code c =? 45) then s else String c s) ltac:(lia)) as Hu.
  destruct (parse_uint _ _) as [un [[]|]]; simpl in *; try lia.
  all: repeat (case_match; simpl); try lia.
Qed.

(** A syntax error leaves the value 0. *)
Lemma parse_int_syntax bits s v :
  0 < bits → parse_int bits s = (v, Some ErrSyntax) → v = 0.
Proof.
  intros Hb. unfold parse_int. destruct s as [|c s]; simpl; [congruence|].
  destruct (parse_uint _ _) as [un [[]|]];
    repeat case_match; congruence.
Qed.

Lemma parse_bool_err s b e : parse_bool s = (b, Some e) → b = false.
Proof. unfold parse_bool. repeat case_match; congruence. Qed.

(** *** Split and join *)
Lemma split_on_nonnil sep s : split_on sep s ≠ [].
Proof.
  destruct s as [|c s]; simpl; [done|].
  destruct (ascii_dec c sep); [done|]. by destruct (split_on sep s).
Qed.

Lemma join_split sep s : join (String sep EmptyString) (split_on sep s) = s.
Proof.
  induction s as [|c s IH]; simpl; [done|].
  destruct (ascii_dec c sep) as [->|Hc].
  - rewrite <- IH at 2. pose proof (split_on_nonnil sep s).
    by destruct (split_on sep s).
  - pose proof (split_on_nonnil sep s).
    destruct (split_on sep s) as [|p ps]; [done|].
    rewrite <- IH. by destruct ps.
Qed.

(** No byte of [s] is [c]. *)
Fixpoint lacks (c : ascii) (s : string) : Prop :=
  match s with EmptyString => True | String d s' => d ≠ c ∧ lacks c s' end.

Lemma lacks_app c s t : lacks c (s +:+ t) ↔ lacks c s ∧ lacks c t.
Proof. induction s; simpl; naive_solver. Qed.

Lemma split_on_lacks sep s : lacks sep s → split_on sep s = [s].
Proof.
  induction s as [|c s IH]; simpl; [done|]. intros [Hc Hs].
  destruct (ascii_dec c sep); [done|]. by rewrite (IH Hs).
Qed.

Lemma split_on_app sep s t :
  lacks sep s → split_on sep (s +:+ String sep t) = s :: split_on sep t.
Proof.
  induction s as [|c s IH]; simpl.
  - intros _. by destruct (ascii_dec sep sep).
  - intros [Hc Hs]. destruct (ascii_dec c sep); [done|]. by rewrite IH.
Qed.

#[export] Hint Rewrite slen_app app_string_assoc app_string_nil_r : gostr.
#[export] Hint Resolve slen_nonneg split_on_nonnil : go.

(** *** Checks against the library's documented results *)
Example parse_int_ex :
  map (parse_int 32) ["5"; "-7"; "+3"; ""; "x"; "2147483648"; "99999999999z"; "-2147483648"; "1_0"]%string
  = [(5, None); (-7, None); (3, None); (0, Some ErrSyntax); (0, Some ErrSyntax);
     (2147483647, Some ErrRange); (2147483647, Some ErrRange); (-2147483648, None);
     (0, Some ErrSyntax)].
Proof. reflexivity. Qed.
Example trim_ex :
  trim_space (bytes [32; 194; 160; 97; 32; 98; 226; 128; 137; 10]) = "a b"%string.
Proof. reflexivity. Qed.
Example split_ex : split_on ","%char "a,,b"%string = ["a"; ""; "b"]%string.
Proof. reflexivity. Qed.
Example itoa_ex : map itoa [0; 7; -12; 1048576]%Z = ["0"; "7"; "-12"; "1048576"]%string.
Proof. reflexivity. Qed.
Example b64_ex :
  map b64_decode ["aGk="; "aGkh"; "aA=="; ""; "a"; "aG!="]%string
  = [Some "hi"; Some "hi!"; Some "h"; Some ""; None; None]%string.
Proof. reflexivity. Qed.
Example civil_ex : civil_of_unix 1603812974133000000 = Civil 2020 10 27 15 36.
Proof. reflexivity. Qed.

(** ** The newline byte, which separates the lines of a payload *)
Definition nl : ascii := "010"%char.

(** Texts with no newline, closed under the operations that build them. *)
Definition one_line (s : string) : Prop := lacks nl s.

Lemma one_line_app s t : one_line s → one_line t → one_line (s +:+ t).
Proof. intros. by apply lacks_app. Qed.

Lemma one_line_cons c s : c ≠ nl → one_line s → one_line (String c s).
Proof. by split. Qed.

Lemma one_line_nil : one_line EmptyString.
Proof. done. Qed.

Lemma one_line_join sep l : one_line sep → Forall one_line l → one_line (join sep l).
Proof.
  intros Hsep Hl. induction Hl as [|s l Hs Hl IH]; [done|]. simpl.
  destruct l; [done|]. by repeat apply one_line_app.
Qed.

Lemma digit_not_nl n : 0 ≤ n < 10 → byte (48 + n) ≠ nl.
Proof.
  intros Hn E. apply (f_equal code) in E. rewrite code_byte in E; [|lia].
  change (code nl) with 10 in E. lia.
Qed.

Lemma one_line_nat_digits fuel : ∀ n acc, one_line acc → one_line (nat_digits fuel n acc).
Proof.
  induction fuel as [|fuel IH]; intros n acc H; simpl; [done|].
  assert (one_line (String (byte (48 + n mod 10)) acc)).
  { apply one_line_cons; [|done]. apply digit_not_nl. apply Z.mod_pos_bound. lia. }
  case_match; auto.
Qed.

Lemma one_line_itoa n : one_line (itoa n).
Proof.
  unfold itoa. pose proof (one_line_nat_digits (S (Z.to_nat (Z.log2 (Z.abs n)))) (Z.abs n)
    EmptyString one_line_nil).
  case_match; [|done]. by apply one_line_cons.
Qed.

Create HintDb one_line.
#[export] Hint Resolve one_line_app one_line_cons one_line_nil one_line_join
  one_line_itoa : one_line.

(** ** The lines of a payload *)

Lemma split_on_app_gen sep s t :
  split_on sep (s +:+ String sep t) = split_on sep s ++ split_on sep t.
Proof.
  induction s as [|c s IH]; simpl.
  - by destruct (ascii_dec sep sep).
  - destruct (ascii_dec c sep); [by rewrite IH|]. rewrite IH.
    pose proof (split_on_nonnil sep s). by destruct (split_on sep s).
Qed.

Definition nonempty (s : string) : bool := negb (String.eqb s EmptyString).

(** What a reader of newline-delimited JSON sees in a payload. *)
Definition payload_lines (s : string) : list string :=
  List.filter nonempty (split_on nl s).

Lemma payload_lines_line s : one_line s → s ≠ EmptyString → payload_lines s = [s].
Proof.
  intros H1 H2. unfold payload_lines. rewrite split_on_lacks by done. simpl.
  unfold nonempty. destruct (String.eqb_spec s EmptyString); done.
Qed.

Lemma payload_lines_snoc s b :
  one_line b → b ≠ EmptyString → payload_lines (s +:+ String nl b) = payload_lines s ++ [b].
Proof.
  intros H1 H2. unfold payload_lines. rewrite split_on_app_gen, List.filter_app.
  f_equal. by apply payload_lines_line.
Qed.
