(* ===== verification/GoFloat.v ===== *)
(** * float64 of Go

    A float64 is a value of Stdlib's [spec_float] at precision 53, maximal
    exponent 1024.  This file models [strconv.ParseFloat] on the number
    literals of JSON (correct rounding to nearest, ties to even, range error
    on overflow), the shortest decimal representation, its three layouts
    (%v of fmt, encoding/json's number, and %f without exponent), and the
    product of an int with a float64 constant. *)
From S2P Require Import Prelude GoStrings.
From Stdlib Require Import SpecFloat Ascii String.
Open Scope Z_scope.

Definition prec : Z := 53.
Definition emax : Z := 1024.

#[export] Instance spec_float_eq_dec : EqDecision spec_float.
Proof. solve_decision. Defined.

(** [num / den] correctly rounded. *)
Definition round_ratio (sign : bool) (num den : positive) : spec_float :=
  let '(m, e, l) := SFdiv_core_binary prec emax (Zpos num) 0 (Zpos den) 0 in
  binary_round_aux prec emax sign m e l.

(** [(-1)^sign * m * 10^e10] correctly rounded; magnitudes far outside the
    range are decided by their number of digits alone. *)
Definition round_decimal (sign : bool) (m : Z) (e10 : Z) : spec_float :=
  match m with
  | Zpos p =>
      let nd := slen (itoa m) in
      if 400 <? e10 + nd then S754_infinity sign
      else if e10 + nd <? -400 then S754_zero sign
      else if 0 <=? e10 then round_ratio sign (Z.to_pos (m * 10 ^ e10)) 1
      else round_ratio sign p (Z.to_pos (10 ^ (- e10)))
  | _ => S754_zero sign
  end.

(** ** Parsing *)
(** A number literal of JSON: its text and the parts the scanner found. *)
Record literal := Literal {
  lit_text : string; lit_neg : bool; lit_int : string; lit_frac : string; lit_exp : Z }.

Fixpoint digits_val (acc : Z) (s : string) : Z :=
  match s with EmptyString => acc | String c s' => digits_val (acc * 10 + digit_val c) s' end.

(** [strconv.ParseFloat(s, 64)]: [None] is the range error. *)
Definition parse_float (l : literal) : option spec_float :=
  let m := digits_val 0 (lit_int l +:+ lit_frac l) in
  match round_decimal (lit_neg l) m (lit_exp l - slen (lit_frac l)) with
  | S754_infinity _ | S754_nan => None
  | f => Some f
  end.

(** ** Shortest decimal *)

(** [x * 10^k <= y] for [x = m * 2^e]: compares [m * 2^e] with [10^k]. *)
Definition scaled (m e k : Z) : Z * Z :=
  (* numerator and denominator of m * 2^e * 10^k *)
  let num := m * (if 0 <=? e then 2 ^ e else 1) * (if 0 <=? k then 10 ^ k else 1) in
  let den := (if 0 <=? e then 1 else 2 ^ (- e)) * (if 0 <=? k then 1 else 10 ^ (- k)) in
  (num, den).

(** The decimal exponent [k] with [10^k <= m * 2^e < 10^(k+1)], found by
    walking from an estimate; [fuel] bounds the walk. *)
Fixpoint find_exp (fuel : nat) (m e k : Z) : Z :=
  match fuel with
  | O => k
  | S fuel' =>
      let '(n, d) := scaled m e (- k) in
      if n <? d then find_exp fuel' m e (k - 1)
      else if 10 * d <=? n then find_exp fuel' m e (k + 1)
      else k
  end.

Definition exp10 (m e : Z) : Z :=
  find_exp 40 m e (((Z.log2 m + e) * 30103) / 100000).

(** With [n] digits: the candidates just below and just above the value,
    kept when they round back to it; the nearer one wins. *)
Definition try_digits (m e : Z) (target : spec_float) (k n : Z) : option Z :=
  let '(num, den) := scaled m e (n - 1 - k) in
  let lo := num / den in
  let hi := lo + 1 in
  let back d := bool_decide (round_decimal false d (k - n + 1) = target) in
  match back lo, back hi with
  | true, true => Some (if 2 * (num - lo * den) <=? den then lo else hi)
  | true, false => Some lo
  | false, true => Some hi
  | false, false => None
  end.

Fixpoint shortest_from (fuel : nat) (m e : Z) (target : spec_float) (k n : Z) : Z * Z :=
  match fuel with
  | O => (m, 0)
  | S fuel' =>
      match try_digits m e target k n with
      | Some d => (d, k - n + 1)
      | None => shortest_from fuel' m e target k (n + 1)
      end
  end.

(** Trailing zeros moved into the exponent. *)
Fixpoint strip_zeros (fuel : nat) (d k : Z) : Z * Z :=
  match fuel with
  | O => (d, k)
  | S fuel' => if (d mod 10 =? 0) && negb (d =? 0) then strip_zeros fuel' (d / 10) (k + 1) else (d, k)
  end.

(** Digits and decimal point position: the value is [0.digits * 10^dp]. *)
Definition shortest (m e : Z) : string * Z :=
  let k := exp10 m e in
  let target := S754_finite false (Z.to_pos m) e in
  let '(d, x) := shortest_from 18 m e target k 1 in
  let '(d', x') := strip_zeros 20 d x in
  (itoa d', x' + slen (itoa d')).

(** ** Layouts *)
Fixpoint zeros (n : nat) : string :=
  match n with O => EmptyString | S n' => String "0"%char (zeros n') end.

Fixpoint stake (n : nat) (s : string) : string :=
  match n, s with S n', String c s' => String c (stake n' s') | _, _ => EmptyString end.
Fixpoint sdrop (n : nat) (s : string) : string :=
  match n, s with S n', String _ s' => sdrop n' s' | _, _ => s end.

(** %f with the shortest digits *)
Definition layout_f (ds : string) (dp : Z) : string :=
  let nd := slen ds in
  let ipart :=
    if dp <=? 0 then "0"%string
    else stake (Z.to_nat dp) ds +:+ zeros (Z.to_nat (dp - nd)) in
  let fpart :=
    if dp <=? 0 then zeros (Z.to_nat (- dp)) +:+ ds
    else sdrop (Z.to_nat dp) ds in
  match fpart with
  | EmptyString => ipart
  | _ => ipart +:+ String "."%char fpart
  end.

(** %e with the shortest digits; [two] pads the exponent to two digits. *)
Definition layout_e (two : bool) (ds : string) (dp : Z) : string :=
  let x := dp - 1 in
  let mant := match ds with
              | String c EmptyString => String c EmptyString
              | String c r => String c (String "."%char r)
              | EmptyString => EmptyString
              end in
  let ax := Z.abs x in
  let es := if two && (ax <? 10) then String "0"%char (itoa ax) else itoa ax in
  mant +:+ String "e"%char (String (if x <? 0 then "-"%char else "+"%char) es).

Definition signed (s : bool) (t : string) : string :=
  if s then String "-"%char t else t.

(** fmt's %v: %g with the shortest digits, which takes the exponent form
    for decimal exponents below -4 and from 6 on. *)
Definition fmt_float (f : spec_float) : string :=
  match f with
  | S754_zero s => signed s "0"
  | S754_infinity s => if s then "-Inf"%string else "+Inf"%string
  | S754_nan => "NaN"%string
  | S754_finite s m e =>
      let '(ds, dp) := shortest (Zpos m) e in
      let x := dp - 1 in
      signed s (if (x <? -4) || (6 <=? x) then layout_e true ds dp else layout_f ds dp)
  end.

(** encoding/json: %f, or %e when the magnitude is below [1e-6] or at least
    [1e21], with [e-09] written [e-9].  Infinities and NaN are an error. *)
Definition json_float (f : spec_float) : option string :=
  match f with
  | S754_zero s => Some (signed s "0")
  | S754_infinity _ | S754_nan => None
  | S754_finite s m e =>
      let '(ds, dp) := shortest (Zpos m) e in
      let x := dp - 1 in
      Some (signed s
        (if x <? -6 then layout_e false ds dp
         else if 21 <=? x then layout_e true ds dp
         else layout_f ds dp))
  end.

(** ** Checks *)
Definition lit (neg : bool) (i f : string) (e : Z) : literal := Literal "" neg i f e.

Example fmt_float_ex :
  map (λ l, fmt_float <$> parse_float l)
    [lit false "122066" "85" 0; lit false "120000" "" 0; lit false "1" "" 6;
     lit false "0" "1" 0; lit true "0" "" 0; lit false "123456789" "" 0;
     lit false "5" "" (-324); lit false "1" "" 400; lit false "9007199254740993" "" 0;
     lit false "5" "684341886080801" (-14); lit false "1" "" (-400); lit false "0" "00001234" 0]
  = [Some "122066.85"; Some "120000"; Some "1e+06"; Some "0.1"; Some "-0";
     Some "1.23456789e+08"; Some "5e-324"; None; Some "9.007199254740992e+15";
     Some "5.684341886080801e-14"; Some "0"; Some "1.234e-05"]%string.
Proof. vm_compute. reflexivity. Qed.

Example json_float_ex :
  map (λ l, parse_float l ≫= json_float)
    [lit false "1" "" 20; lit false "1" "" 21; lit false "1" "" (-6); lit false "1" "" (-7);
     lit false "179769313486231570" "" 291; lit false "1" "5" 0; lit true "42" "" 0]
  = [Some "100000000000000000000"; Some "1e+21"; Some "0.000001"; Some "1e-7";
     Some "1.7976931348623157e+308"; Some "1.5"; Some "-42"]%string.
Proof. vm_compute. reflexivity. Qed.

(** ** A number is written on one line *)
Lemma one_line_zeros n : one_line (zeros n).
Proof. induction n; simpl; [done|]. by apply one_line_cons. Qed.

Lemma one_line_stake n : ∀ s, one_line s → one_line (stake n s).
Proof. induction n; intros [|c s]; simpl; [done..|]. intros []. apply one_line_cons; auto. Qed.

Lemma one_line_sdrop n : ∀ s, one_line s → one_line (sdrop n s).
Proof. induction n; intros [|c s]; simpl; [done..|]. intros []. auto. Qed.

#[export] Hint Resolve one_line_zeros one_line_stake one_line_sdrop : one_line.

Lemma one_line_point i f :
  one_line i → one_line f →
  one_line (match f with EmptyString => i | _ => i +:+ String "."%char f end).
Proof.
  intros Hi Hf. destruct f; [done|]. apply one_line_app; [done|]. by apply one_line_cons.
Qed.

Lemma one_line_layout_f ds dp : one_line ds → one_line (layout_f ds dp).
Proof.
  intros H. unfold layout_f. destruct (dp <=? 0); apply one_line_point; auto with one_line.
Qed.

Lemma one_line_layout_e two ds dp : one_line ds → one_line (layout_e two ds dp).
Proof.
  intros H. unfold layout_e. apply one_line_app.
  - destruct ds as [|c [|d r]]; [done..|]. destruct H as [Hc Hr].
    apply one_line_cons; [done|]. by apply one_line_cons.
  - apply one_line_cons; [done|]. apply one_line_cons; [by case_match|].
    case_match; [apply one_line_cons; [done|]|]; apply one_line_itoa.
Qed.

Lemma one_line_json_float f s : json_float f = Some s → one_line s.
Proof.
  destruct f as [b|b| |b m e]; simpl; [|done|done|].
  - intros [= <-]. by destruct b.
  - destruct (shortest (Zpos m) e) as [ds dp] eqn:E. intros [= <-].
    assert (one_line ds).
    { revert E. unfold shortest. repeat case_match. intros [= <- <-]. apply one_line_itoa. }
    unfold signed. destruct b; [apply one_line_cons; [done|]|];
      repeat case_match; auto using one_line_layout_e, one_line_layout_f.
Qed.

(** What was read from a text can be written again. *)
Lemma parse_float_finite l f : parse_float l = Some f → is_Some (json_float f).
Proof.
  unfold parse_float. destruct (round_decimal _ _ _) as [| | |b m e] eqn:E;
    intros [= <-]; simpl; [eauto|].
  destruct (shortest _ _). eauto.
Qed.

(** ** Product with a constant

    [int(float64(n) * c)] for a non-negative int and a positive constant
    [c = m * 2^-k]: both roundings are to 53 bits, to nearest, ties to even. *)
Definition round53 (m : Z) : Z :=
  let d := Z.log2 m - 52 in
  if d <=? 0 then m
  else
    let q := m / 2 ^ d in
    let r := 2 * (m mod 2 ^ d) in
    2 ^ d * (if (2 ^ d <? r) || ((r =? 2 ^ d) && Z.odd q) then q + 1 else q).

Definition mul_trunc (n m k : Z) : Z := round53 (round53 n * m) / 2 ^ k.

(** The float64 nearest to 0.8 is [7205759403792794 * 2^-53]. *)
Definition four_fifths_m : Z := 7205759403792794.
Definition four_fifths_k : Z := 53.

Example four_fifths_ok :
  parse_float (lit false "0" "8" 0) = Some (S754_finite false 7205759403792794 (-53)).
Proof. vm_compute. reflexivity. Qed.

Lemma round53_spec m : 0 ≤ m →
  ∃ d, 0 ≤ d ∧ (d = 0 ∨ d = Z.log2 m - 52) ∧
    2 * Z.abs (round53 m - m) * 2 ^ 52 ≤ m ∧
    (∀ g, g ≤ m → (2 ^ d | g) → g ≤ round53 m).
Proof.
  intros Hm. unfold round53. destruct (Z.leb_spec (Z.log2 m - 52) 0) as [Hd|Hd].
  { exists 0. split; [lia|]. split; [by left|]. rewrite Z.sub_diag. split; [simpl; lia|done]. }
  exists (Z.log2 m - 52). set (d := Z.log2 m - 52) in *. split; [lia|]. split; [by right|].
  assert (0 < m) by (destruct (Z.eq_dec m 0) as [->|]; [by vm_compute in Hd|lia]).
  assert (0 < 2 ^ d) by (apply Z.pow_pos_nonneg; lia).
  assert (2 ^ d * 2 ^ 52 ≤ m) as Hulp.
  { rewrite <- Z.pow_add_r by lia. replace (d + 52) with (Z.log2 m) by lia. apply Z.log2_spec. lia. }
  pose proof (Z.div_mod m (2 ^ d) ltac:(lia)). pose proof (Z.mod_pos_bound m (2 ^ d) ltac:(lia)).
  set (q := m / 2 ^ d) in *. set (r := m mod 2 ^ d) in *. set (p := 2 ^ d) in *. split.
  - destruct ((p <? 2 * r) || ((2 * r =? p) && Z.odd q)) eqn:Hup.
    + assert (p ≤ 2 * r).
      { apply orb_true_iff in Hup as [?%Z.ltb_lt|[?%Z.eqb_eq _]%andb_true_iff]; lia. }
      replace (p * (q + 1) - m) with (p - r) by lia. rewrite Z.abs_eq by lia. lia.
    + apply orb_false_iff in Hup as [?%Z.ltb_ge _].
      replace (p * q - m) with (- r) by lia. rewrite Z.abs_opp, Z.abs_eq by lia. lia.
  - intros g Hg [c ->]. assert (c ≤ q) by (apply Z.div_le_lower_bound; lia).
    destruct (_ || _); nia.
Qed.

(** The truncated product with 0.8 is exact on the capacities of channels. *)
Lemma four_fifths n : 0 ≤ n < 2 ^ 49 → mul_trunc n four_fifths_m four_fifths_k = 4 * n / 5.
Proof.
  intros Hn. unfold mul_trunc. assert (round53 n = n) as ->.
  { unfold round53. destruct (Z.leb_spec (Z.log2 n - 52) 0); [done|].
    assert (Z.log2 n < 49); [|lia]. destruct (Z.eq_dec n 0) as [->|]; [by vm_compute|].
    apply Z.log2_lt_pow2; lia. }
  unfold four_fifths_m, four_fifths_k. set (M := 7205759403792794).
  destruct (round53_spec (n * M) ltac:(unfold M; lia)) as (d & Hd & Hdl & Herr & Hgrid).
  set (y := round53 (n * M)) in *.
  pose proof (Z.div_mod n 5 ltac:(lia)) as Hdm. pose proof (Z.mod_pos_bound n 5 ltac:(lia)) as Hb.
  set (a := n / 5) in *. set (b := n mod 5) in *.
  assert (2 * Z.abs (y - n * M) ≤ 2 * n) by (unfold M in *; lia).
  assert (4 * n / 5 = 4 * a + 4 * b / 5) as ->.
  { rewrite Hdm at 1. replace (4 * (5 * a + b)) with (4 * b + (4 * a) * 5) by lia. rewrite Z.div_add by lia. lia. }
  clearbody y a b. subst n. symmetry. apply Z.div_unique with (r := y - 2 ^ 53 * (4 * a + 4 * b / 5)); [|lia].
  left. assert (b = 0 ∨ b = 1 ∨ b = 2 ∨ b = 3 ∨ b = 4) as Hbs by lia.
  destruct Hbs as [->|[->|[->|[->| ->]]]].
  2-5: change (4 * 1 / 5) with 0; change (4 * 2 / 5) with 1; change (4 * 3 / 5) with 2;
       change (4 * 4 / 5) with 3; unfold M in *; lia.
  change (4 * 0 / 5) with 0. assert (2 ^ 53 * (4 * a) ≤ y); [|unfold M in *; lia].
  apply Hgrid; [unfold M; lia|].
  assert (d ≤ 55) as Hd55.
  { destruct Hdl as [->| ->]; [lia|]. destruct (Z.eq_dec a 0) as [->|]; [by vm_compute|].
    assert (Z.log2 ((5 * a + 0) * M) < 102); [|lia]. apply Z.log2_lt_pow2; unfold M; lia. }
  exists (2 ^ (55 - d) * a). replace (2 ^ 53 * (4 * a)) with (2 ^ 55 * a) by lia.
  replace 55 with (55 - d + d) at 1 by lia. rewrite Z.pow_add_r by lia. lia.
Qed.
