(* ===== verification/Digits.v ===== *)
(** * Decimal digits

    The digits of a number as a text and back: their value, their number,
    and concatenation. *)
From S2P Require Import Prelude GoStrings GoFloat.
From Stdlib Require Import Ascii String.
Open Scope Z_scope.

(** ** Texts *)
#[local] Arguments String.append : simpl never.

Lemma app_cons c s t : String c s +:+ t = String c (s +:+ t).
Proof. done. Qed.

Lemma length_app_string s t : String.length (s +:+ t) = (String.length s + String.length t)%nat.
Proof. induction s as [|c s IH]; [done|]. rewrite app_cons. simpl. by rewrite IH. Qed.

Lemma stake_app s t : stake (String.length s) (s +:+ t) = s.
Proof. induction s as [|c s IH]; [done|]. rewrite app_cons. simpl. by rewrite IH. Qed.

Lemma sdrop_app s t : sdrop (String.length s) (s +:+ t) = t.
Proof. induction s as [|c s IH]; [done|]. by rewrite app_cons. Qed.

(** ** Digits *)
Fixpoint all_digits (s : string) : bool :=
  match s with EmptyString => true | String c s' => is_digit c && all_digits s' end.

Lemma digits_val_app d e a : digits_val a (d +:+ e) = digits_val (digits_val a d) e.
Proof. revert a. induction d as [|c d IH]; intros a; [done|]. rewrite app_cons. simpl. apply IH. Qed.

Lemma all_digits_app d e : all_digits (d +:+ e) = all_digits d && all_digits e.
Proof. induction d as [|c d IH]; [done|]. rewrite app_cons. simpl. by rewrite IH, andb_assoc. Qed.

Lemma digit_byte n : 0 ≤ n < 10 → is_digit (byte (48 + n)) = true ∧ digit_val (byte (48 + n)) = n.
Proof. intros H. unfold is_digit, digit_val. rewrite code_byte by lia. split; lia. Qed.

(** The digits of a number: their value is the number, and they begin with
    no zero unless the number is zero. *)
Lemma nat_digits_spec fuel : ∀ n acc,
  0 ≤ n < 2 ^ Z.of_nat (S fuel) →
  ∃ c d, nat_digits (S fuel) n acc = String c d +:+ acc ∧ all_digits (String c d) = true ∧
    digits_val 0 (String c d) = n ∧ (n ≠ 0 → c ≠ "0"%char).
Proof.
  induction fuel as [|fuel IH]; intros n acc Hn; cbn [nat_digits].
  - change (2 ^ Z.of_nat 1) with 2 in Hn. rewrite (proj2 (Z.ltb_lt _ _)) by lia.
    exists (byte (48 + n mod 10)), EmptyString. rewrite Z.mod_small by lia.
    destruct (digit_byte n) as [H1 H2]; [lia|]. simpl. rewrite H1, H2. split_and!; [done|done|lia|].
    intros Hne E. rewrite E in H2. vm_compute in H2. lia.
  - pose proof (Z.mod_pos_bound n 10 ltac:(lia)) as Hm. destruct (digit_byte (n mod 10) Hm) as [H1 H2].
    destruct (Z.ltb_spec n 10) as [Hlt|Hge].
    + rewrite (Z.mod_small n 10) in * by lia. exists (byte (48 + n)), EmptyString. simpl. rewrite H1, H2.
      split_and!; [done|done|lia|]. intros Hne E. rewrite E in H2. vm_compute in H2. lia.
    + destruct (IH (n / 10) (String (byte (48 + n mod 10)) acc)) as (c & d & Hd & Ha & Hv & Hc).
      { rewrite Nat2Z.inj_succ, Z.pow_succ_r in Hn by lia. split; [apply Z.div_pos; lia|].
        apply Z.div_lt_upper_bound; lia. }
      exists c, (d +:+ String (byte (48 + n mod 10)) EmptyString). cbn [nat_digits] in Hd. rewrite Hd. split_and!.
      * by rewrite !app_cons, app_string_assoc.
      * rewrite <- app_cons, all_digits_app, Ha. simpl. by rewrite H1.
      * rewrite <- app_cons, digits_val_app, Hv. simpl. rewrite H2. pose proof (Z.div_mod n 10 ltac:(lia)). lia.
      * intros _. apply Hc. pose proof (Z.div_mod n 10 ltac:(lia)). lia.
Qed.

Lemma itoa_spec n : 0 ≤ n →
  ∃ c d, itoa n = String c d ∧ all_digits (String c d) = true ∧ digits_val 0 (String c d) = n ∧ (n ≠ 0 → c ≠ "0"%char).
Proof.
  intros Hn. unfold itoa. rewrite (proj2 (Z.ltb_ge n 0)), Z.abs_eq by lia.
  destruct (nat_digits_spec (Z.to_nat (Z.log2 n)) n EmptyString) as (c & d & Hd & H).
  { rewrite Nat2Z.inj_succ, Z2Nat.id by apply Z.log2_nonneg. destruct (Z.eq_dec n 0) as [->|]; [by vm_compute|].
    split; [done|]. apply Z.log2_spec. lia. }
  exists c, d. by rewrite Hd, app_string_nil_r.
Qed.

Lemma digits_val_acc d : ∀ a, digits_val a d = a * 10 ^ slen d + digits_val 0 d.
Proof.
  induction d as [|c d IH]; intros a; [unfold slen; simpl; lia|]. cbn [digits_val]. rewrite (IH (a * 10 + _)), (IH (0 * 10 + _)).
  unfold slen. simpl. rewrite Nat2Z.inj_succ, Z.pow_succ_r by lia. lia.
Qed.

Lemma digits_val_range d : all_digits d = true → 0 ≤ digits_val 0 d < 10 ^ slen d.
Proof.
  induction d as [|c d IH]; [by vm_compute|]. simpl. intros [Hc Hd]%andb_true_iff. apply digit_val_range in Hc.
  specialize (IH Hd). rewrite digits_val_acc. unfold slen in *. simpl.
  rewrite Nat2Z.inj_succ, Z.pow_succ_r by lia. nia.
Qed.

Lemma digit_val_0 c : is_digit c = true → digit_val c = 0 → c = "0"%char.
Proof. unfold digit_val. intros _ H. apply code_inj. change (code "0") with 48. lia. Qed.

Lemma digits_val_head c d :
  all_digits (String c d) = true → c ≠ "0"%char → 10 ^ slen d ≤ digits_val 0 (String c d).
Proof.
  simpl. intros [Hc Hd]%andb_true_iff Hne. pose proof (digits_val_range d Hd). rewrite digits_val_acc.
  assert (digit_val c ≠ 0) by (intros H0; by apply Hne, digit_val_0). apply digit_val_range in Hc. nia.
Qed.

(** The number of digits. *)
Lemma itoa_length n : 0 < n → 0 < slen (itoa n) ∧ 10 ^ (slen (itoa n) - 1) ≤ n < 10 ^ slen (itoa n).
Proof.
  intros Hn. destruct (itoa_spec n ltac:(lia)) as (c & d & -> & Ha & Hv & Hc).
  pose proof (digits_val_range _ Ha) as Hr. pose proof (digits_val_head _ _ Ha (Hc ltac:(lia))) as Hh.
  rewrite Hv in *. replace (slen (String c d) - 1) with (slen d) by (unfold slen; simpl; lia).
  split; [unfold slen; simpl; lia|lia].
Qed.

Lemma pow10_lt_inv a b : 0 ≤ b → 10 ^ a < 10 ^ b → a < b.
Proof. intros Hb H. apply Z.nle_gt. intros Hle. pose proof (Z.pow_le_mono_r 10 _ _ ltac:(lia) Hle). lia. Qed.

Lemma itoa_length_unique n k : 0 ≤ k → 10 ^ k ≤ n < 10 ^ (k + 1) → slen (itoa n) = k + 1.
Proof.
  intros Hk Hn. assert (0 < 10 ^ k) by (apply Z.pow_pos_nonneg; lia). destruct (itoa_length n) as [H0 Hl]; [lia|].
  set (L := slen (itoa n)) in *.
  assert (k < L) by (apply pow10_lt_inv; lia). assert (L - 1 < k + 1) by (apply pow10_lt_inv; lia). lia.
Qed.

(** Zeros appended to the digits. *)
Lemma itoa_length_shift n j : 0 < n → 0 ≤ j → slen (itoa (n * 10 ^ j)) = slen (itoa n) + j.
Proof.
  intros Hn Hj. destruct (itoa_length n Hn) as [H0 Hl]. set (L := slen (itoa n)) in *.
  rewrite (itoa_length_unique _ (L + j - 1)); [lia|lia|].
  replace (L + j - 1) with (L - 1 + j) by lia. replace (L - 1 + j + 1) with (L + j) by lia.
  rewrite !Z.pow_add_r by lia. assert (0 < 10 ^ j) by (apply Z.pow_pos_nonneg; lia). nia.
Qed.

Lemma digits_val_zeros n : digits_val 0 (zeros n) = 0 ∧ slen (zeros n) = Z.of_nat n ∧ all_digits (zeros n) = true.
Proof.
  induction n as [|n (IH1 & IH2 & IH3)]; [done|]. unfold slen in *. simpl. split_and!; [done|lia|done].
Qed.
