(* ===== verification/GoFloatRounding.v ===== *)
(** * Rounding a ratio to float64

    [round_ratio] is characterised by exact arithmetic on integers: the
    ratio has one normal form (a mantissa of 53 bits, the position of the
    ratio between two neighbours, an exponent), which only depends on the
    ratio; every float64 is what the ratios close to it are rounded to. *)
From S2P Require Import Prelude GoFloat.
From Stdlib Require Import SpecFloat.
Open Scope Z_scope.

(** ** Positions between two neighbours *)

(** [a / b] is [q] plus a fraction, which [l] compares with one half. *)
Definition at_loc (q : Z) (l : location) (a b : Z) : Prop :=
  ∃ r, a = q * b + r ∧ 0 ≤ r < b ∧
    match l with
    | loc_Exact => r = 0
    | loc_Inexact Lt => 0 < r ∧ 2 * r < b
    | loc_Inexact Eq => 2 * r = b
    | loc_Inexact Gt => b < 2 * r
    end.

Lemma at_loc_scale q l a b c : 0 < c → at_loc q l a b → at_loc q l (a * c) (b * c).
Proof.
  intros Hc (r & -> & Hr & Hl). exists (r * c). split; [lia|]. split; [nia|].
  destruct l as [|[]]; nia.
Qed.

Lemma at_loc_unique q l q' l' a b : at_loc q l a b → at_loc q' l' a b → q = q' ∧ l = l'.
Proof.
  intros (r & -> & Hr & Hl) (r' & He & Hr' & Hl').
  assert (q = q') as <- by nia. assert (r = r') as <- by lia. split; [done|].
  destruct l as [|[]], l' as [|[]]; done || lia.
Qed.

Lemma at_loc_bounds q l a b : at_loc q l a b → q * b ≤ a < (q + 1) * b.
Proof. intros (r & -> & Hr & _). lia. Qed.

Lemma new_location_spec d q r : 0 ≤ r < d → at_loc q (new_location d r) (q * d + r) d.
Proof.
  intros Hr. exists r. split; [done|]. split; [done|]. unfold new_location, new_location_even, new_location_odd.
  destruct (Z.even d) eqn:Hd; (destruct (Z.eqb_spec r 0); [done|]).
  - destruct (Z.compare_spec (2 * r) d); lia.
  - assert (2 * r ≠ d) by (intros <-; rewrite Z.even_mul in Hd; simpl in Hd; done).
    destruct (Z.compare_spec (2 * r + 1) d); lia.
Qed.

(** *** Shifting to the right *)
Definition rec_at (mrs : shr_record) (a b : Z) : Prop :=
  0 ≤ shr_m mrs ∧ at_loc (shr_m mrs) (loc_of_shr_record mrs) a b.

Lemma rec_at_loc m l a b : 0 ≤ m → at_loc m l a b → rec_at (shr_record_of_loc m l) a b.
Proof. intros Hm H. by destruct l as [|[]]. Qed.

Lemma shr_1_at mrs a b : rec_at mrs a b → rec_at (shr_1 mrs) a (b * 2).
Proof.
  destruct mrs as [m r s]. intros [Hm (x & -> & Hx & Hl)]. unfold rec_at in *. simpl in Hm.
  destruct m as [|[p|p|]|]; [| | | |done]; (split; [simpl; lia|]);
    [exists x | exists (b + x) | exists x | exists (b + x)];
    (split; [cbn [shr_m shr_1] in *; lia|]); destruct r, s; simpl in *; lia.
Qed.

Lemma iter_shr_at p : ∀ mrs a b, rec_at mrs a b → rec_at (iter_pos shr_1 p mrs) a (b * 2 ^ Zpos p).
Proof.
  induction p as [p IH|p IH|]; intros mrs a b H; simpl iter_pos.
  - replace (b * 2 ^ Zpos p~1) with (b * 2 * 2 ^ Zpos p * 2 ^ Zpos p).
    { by apply IH, IH, shr_1_at. }
    replace (Zpos p~1) with (1 + Zpos p + Zpos p) by lia. rewrite !Z.pow_add_r by lia. lia.
  - replace (b * 2 ^ Zpos p~0) with (b * 2 ^ Zpos p * 2 ^ Zpos p) by
      (replace (Zpos p~0) with (Zpos p + Zpos p) by lia; rewrite Z.pow_add_r by lia; lia).
    by apply IH, IH.
  - by apply shr_1_at.
Qed.

Lemma shr_at mrs e n a b :
  0 ≤ n → rec_at mrs a b → rec_at (shr mrs e n).1 a (b * 2 ^ n) ∧ (shr mrs e n).2 = e + n.
Proof.
  intros Hn H. destruct n as [|p|p]; [| |lia]; simpl.
  - rewrite Z.mul_1_r. split; [done|lia].
  - split; [by apply iter_shr_at|done].
Qed.

(** *** Binary digits *)
Lemma Zdigits2_spec m : 0 < m → 2 ^ (Zdigits2 m - 1) ≤ m < 2 ^ Zdigits2 m.
Proof.
  destruct m as [|p|p]; [lia| |lia]. intros _. cbn [Zdigits2].
  induction p as [p IH|p IH|]; cbn [digits2_pos]; [| |by vm_compute].
  - rewrite Pos2Z.inj_succ, Z.pow_succ_r by lia.
    replace (Z.succ (Zpos (digits2_pos p)) - 1) with (Z.succ (Zpos (digits2_pos p) - 1)) by lia.
    rewrite Z.pow_succ_r by lia. lia.
  - rewrite Pos2Z.inj_succ, Z.pow_succ_r by lia.
    replace (Z.succ (Zpos (digits2_pos p)) - 1) with (Z.succ (Zpos (digits2_pos p) - 1)) by lia.
    rewrite Z.pow_succ_r by lia. lia.
Qed.

Lemma Zdigits2_le m n : 0 ≤ m < 2 ^ n → 0 ≤ n → Zdigits2 m ≤ n.
Proof.
  intros Hm Hn. destruct (Z.eq_dec m 0) as [->|]; [done|].
  pose proof (Zdigits2_spec m ltac:(lia)) as [H _]. apply Z.nlt_ge. intros Hlt.
  assert (2 ^ n ≤ 2 ^ (Zdigits2 m - 1)) by (apply Z.pow_le_mono_r; lia). lia.
Qed.

Lemma Zdigits2_ge m n : 2 ^ n ≤ m → 0 ≤ n → n + 1 ≤ Zdigits2 m.
Proof.
  intros Hm Hn. assert (0 < 2 ^ n) by (apply Z.pow_pos_nonneg; lia).
  pose proof (Zdigits2_spec m ltac:(lia)) as [_ H']. apply Z.nlt_ge. intros Hlt.
  assert (2 ^ Zdigits2 m ≤ 2 ^ n) by (apply Z.pow_le_mono_r; lia). lia.
Qed.

Lemma Zdigits2_nonneg m : 0 ≤ Zdigits2 m.
Proof. by destruct m. Qed.

(** ** The normal form of a ratio *)

Lemma fexp64 z : fexp prec emax z = Z.max (z - 53) (-1074).
Proof. done. Qed.

(** [num / den = (m + fraction) * 2^e] with a mantissa of at most 53 bits,
    and of exactly 53 bits unless the exponent is the least one. *)
Definition normal (num den m : Z) (l : location) (e : Z) : Prop :=
  ∃ i j, 0 ≤ i ∧ 0 ≤ j ∧ e = j - i ∧ at_loc m l (num * 2 ^ i) (den * 2 ^ j) ∧
    -1074 ≤ e ∧ 0 ≤ m < 2 ^ 53 ∧ (e = -1074 ∨ 2 ^ 52 ≤ m).

Lemma pow2_pos n : 0 ≤ n → 0 < 2 ^ n.
Proof. intros. by apply Z.pow_pos_nonneg. Qed.

Lemma normal_exp_le num den num' den' m l e m' l' e' :
  0 < den → 0 < den' → num * den' = num' * den →
  normal num den m l e → normal num' den' m' l' e' → e' ≤ e.
Proof.
  intros Hd Hd' Heq (i & j & Hi & Hj & -> & Hl & Hmin & Hm & _) (i' & j' & Hi' & Hj' & -> & Hl' & _ & _ & Hlow).
  apply Z.nlt_ge. intros Hlt. destruct Hlow as [|Hlow]; [lia|].
  apply at_loc_bounds in Hl, Hl'. pose proof (pow2_pos i Hi). pose proof (pow2_pos i' Hi').
  pose proof (pow2_pos j Hj). pose proof (pow2_pos j' Hj').
  assert (num * 2 ^ i < 2 ^ 53 * (den * 2 ^ j)) as HA by nia.
  assert (2 ^ 52 * (den' * 2 ^ j') ≤ num' * 2 ^ i') as HB by nia.
  assert (2 * (2 ^ j * 2 ^ i') ≤ 2 ^ j' * 2 ^ i) as HC.
  { rewrite <- !Z.pow_add_r by lia.
    replace (2 * 2 ^ (j + i')) with (2 ^ (j + i' + 1)) by (rewrite Z.pow_add_r by lia; lia).
    apply Z.pow_le_mono_r; lia. }
  assert (num * 2 ^ i * (den' * 2 ^ i') < 2 ^ 53 * (den * 2 ^ j) * (den' * 2 ^ i')) as HF.
  { apply Z.mul_lt_mono_pos_r; [|done]. by apply Z.mul_pos_pos. }
  assert (2 ^ 52 * (den' * 2 ^ j') * (den * 2 ^ i) ≤ num' * 2 ^ i' * (den * 2 ^ i)) as HG.
  { apply Z.mul_le_mono_nonneg_r; [|done]. apply Z.lt_le_incl. by apply Z.mul_pos_pos. }
  replace (num' * 2 ^ i' * (den * 2 ^ i)) with (num' * den * (2 ^ i' * 2 ^ i)) in HG by lia.
  rewrite <- Heq in HG.
  assert (2 * (2 ^ j * 2 ^ i') * (den * den') ≤ 2 ^ j' * 2 ^ i * (den * den')).
  { apply Z.mul_le_mono_nonneg_r; [|done]. apply Z.lt_le_incl. by apply Z.mul_pos_pos. }
  lia.
Qed.

(** Equal ratios have the same normal form. *)
Lemma normal_unique num den num' den' m l e m' l' e' :
  0 < den → 0 < den' → num * den' = num' * den →
  normal num den m l e → normal num' den' m' l' e' → m = m' ∧ l = l' ∧ e = e'.
Proof.
  intros Hd Hd' Heq H H'.
  assert (e = e') as <-.
  { pose proof (normal_exp_le num den num' den' _ _ _ _ _ _ Hd Hd' Heq H H').
    pose proof (normal_exp_le num' den' num den _ _ _ _ _ _ Hd' Hd (eq_sym Heq) H' H). lia. }
  destruct H as (i & j & Hi & Hj & He & Hl & _), H' as (i' & j' & Hi' & Hj' & He' & Hl' & _).
  pose proof (pow2_pos i Hi). pose proof (pow2_pos i' Hi').
  apply (at_loc_scale _ _ _ _ (den' * 2 ^ i')) in Hl; [|by apply Z.mul_pos_pos].
  apply (at_loc_scale _ _ _ _ (den * 2 ^ i)) in Hl'; [|by apply Z.mul_pos_pos].
  assert (2 ^ j * 2 ^ i' = 2 ^ j' * 2 ^ i) as Hp by (rewrite <- !Z.pow_add_r by lia; f_equal; lia).
  replace (num' * 2 ^ i' * (den * 2 ^ i)) with (num * 2 ^ i * (den' * 2 ^ i')) in Hl' by
    (transitivity (num * den' * (2 ^ i * 2 ^ i')); [lia|rewrite Heq; lia]).
  replace (den' * 2 ^ j' * (den * 2 ^ i)) with (den * 2 ^ j * (den' * 2 ^ i')) in Hl' by
    (transitivity (den * den' * (2 ^ j * 2 ^ i')); [lia|rewrite Hp; lia]).
  destruct (at_loc_unique _ _ _ _ _ _ Hl Hl') as [-> ->]. done.
Qed.

(** *** The division computes the normal form *)
Lemma div_core num den :
  let E := Z.min (fexp prec emax (Zdigits2 (Zpos num) - Zdigits2 (Zpos den))) 0 in
  ∃ q l, SFdiv_core_binary prec emax (Zpos num) 0 (Zpos den) 0 = (q, E, l) ∧
    0 ≤ q ∧ at_loc q l (Zpos num * 2 ^ (- E)) (Zpos den).
Proof.
  intros E. unfold SFdiv_core_binary. rewrite !Z.add_0_r. change (0 - 0) with 0. fold E.
  replace (0 - E) with (- E) by lia.
  assert (match - E with Zpos _ => Z.shiftl (Zpos num) (- E) | Z0 => Zpos num | Zneg _ => 0 end
          = Zpos num * 2 ^ (- E)) as ->.
  { destruct (- E) eqn:HE; [lia| |lia]. by rewrite Z.shiftl_mul_pow2 by lia. }
  pose proof (pow2_pos (- E) ltac:(lia)).
  pose proof (Z_div_mod (Zpos num * 2 ^ (- E)) (Zpos den) ltac:(lia)) as Hdm.
  destruct (Z.div_eucl _ _) as [q r]. destruct Hdm as [Hq Hr]. exists q, (new_location (Zpos den) r).
  split; [done|]. split; [nia|]. rewrite Hq, Z.mul_comm. by apply new_location_spec.
Qed.

(** The result from the normal form. *)
Definition finish (s : bool) (m : Z) (l : location) (e : Z) : spec_float :=
  let '(mrs, e') := shr_fexp prec emax (round_nearest_even m l) e loc_Exact in
  match shr_m mrs with
  | Z0 => S754_zero s
  | Zpos p => if e' <=? 971 then S754_finite s p e' else S754_infinity s
  | Zneg _ => S754_nan
  end.

Lemma round_ratio_normal s num den :
  ∃ m l e, normal (Zpos num) (Zpos den) m l e ∧ round_ratio s num den = finish s m l e.
Proof.
  unfold round_ratio. destruct (div_core num den) as (q & l & -> & Hq & Hl).
  set (D := Zdigits2 (Zpos num) - Zdigits2 (Zpos den)) in *. rewrite fexp64 in *.
  set (E := Z.min _ 0) in *. unfold binary_round_aux, shr_fexp at 1. rewrite fexp64.
  pose proof (Zdigits2_nonneg q) as Hdq.
  pose proof (at_loc_bounds _ _ _ _ Hl) as Hb.
  assert (E ≠ -1074 → 2 ^ 52 ≤ q) as Hbig.
  { intros HE. assert (E ≤ D - 53) as HED by lia. pose proof (Zdigits2_spec (Zpos num) ltac:(lia)) as [Hn _].
    pose proof (Zdigits2_spec (Zpos den) ltac:(lia)) as [_ Hd]. set (dn := Zdigits2 (Zpos num)) in *.
    set (dd := Zdigits2 (Zpos den)) in *. assert (0 < dn ∧ 0 < dd) as [? ?] by done.
    assert (2 ^ (dn - 1) * 2 ^ (- E) ≤ Zpos num * 2 ^ (- E)) by (apply Z.mul_le_mono_nonneg_r; lia).
    assert (2 ^ 52 * 2 ^ dd ≤ 2 ^ (dn - 1) * 2 ^ (- E)).
    { rewrite <- !Z.pow_add_r by lia. apply Z.pow_le_mono_r; lia. }
    assert (2 ^ 52 * Zpos den < (q + 1) * Zpos den); [lia|]. nia. }
  set (n := Z.max (Zdigits2 q + E - 53) (-1074) - E).
  assert (0 ≤ n) as Hn.
  { destruct (Z.eq_dec E (-1074)); [lia|]. pose proof (Zdigits2_ge q 52 (Hbig ltac:(done)) ltac:(lia)). lia. }
  destruct (shr_at _ E n _ _ Hn (rec_at_loc _ _ _ _ Hq Hl)) as [[Hm1 Hl1] He1].
  destruct (shr _ E n) as [mrs e1]. simpl in Hm1, Hl1, He1. subst e1.
  exists (shr_m mrs), (loc_of_shr_record mrs), (E + n). split; [|done].
  pose proof (at_loc_bounds _ _ _ _ Hl1) as Hb1. pose proof (pow2_pos n Hn).
  exists (- E), n. split_and!; [lia|lia|lia|done|lia|done| |].
  - assert (q + 1 ≤ 2 ^ 53 * 2 ^ n); [|nia]. destruct (Z.eq_dec q 0) as [->|]; [nia|].
    pose proof (Zdigits2_spec q ltac:(lia)). rewrite <- Z.pow_add_r by lia.
    assert (2 ^ Zdigits2 q ≤ 2 ^ (53 + n)) by (apply Z.pow_le_mono_r; lia). lia.
  - destruct (Z.eq_dec (E + n) (-1074)); [by left|right].
    assert (n = Zdigits2 q - 53) as Hn' by lia. assert (0 < q) by (destruct q; [simpl in *; lia|lia|lia]).
    pose proof (Zdigits2_spec q ltac:(lia)) as [Hlo _].
    replace (Zdigits2 q - 1) with (52 + n) in Hlo by lia. rewrite Z.pow_add_r in Hlo by lia. nia.
Qed.

(** Equal ratios are rounded to the same number. *)
Lemma round_ratio_equal s num den num' den' :
  Zpos num * Zpos den' = Zpos num' * Zpos den → round_ratio s num den = round_ratio s num' den'.
Proof.
  intros Heq. destruct (round_ratio_normal s num den) as (m & l & e & H & ->).
  destruct (round_ratio_normal s num' den') as (m' & l' & e' & H' & ->).
  by destruct (normal_unique _ _ _ _ _ _ _ _ _ _ (Pos2Z.is_pos den) (Pos2Z.is_pos den') Heq H H') as (-> & -> & ->).
Qed.

(** ** Every float64 is what the close ratios are rounded to *)

(** The positive finite numbers of float64, as they are represented. *)
Definition canonical (m e : Z) : Prop :=
  0 < m < 2 ^ 53 ∧ -1074 ≤ e ≤ 971 ∧ (e = -1074 ∨ 2 ^ 52 ≤ m).

(** The representation is the one of the standard library. *)
Lemma canonical_bounded m e : bounded prec emax m e = true ↔ canonical (Zpos m) e.
Proof.
  unfold bounded, canonical_mantissa, canonical. rewrite andb_true_iff, Z.eqb_eq, Z.leb_le, fexp64.
  change (Zpos (digits2_pos m)) with (Zdigits2 (Zpos m)). change (emax - prec) with 971.
  pose proof (Zdigits2_spec (Zpos m) ltac:(lia)) as [Hlo Hhi]. split.
  - intros [He H971]. split; [split; [lia|]|].
    + assert (2 ^ Zdigits2 (Zpos m) ≤ 2 ^ 53) by (apply Z.pow_le_mono_r; lia). lia.
    + split; [lia|]. destruct (Z.eq_dec e (-1074)); [by left|right].
      by replace (Zdigits2 (Zpos m) - 1) with 52 in Hlo by lia.
  - intros ([_ Hm] & He & Hlow). pose proof (Zdigits2_le (Zpos m) 53 ltac:(lia) ltac:(lia)).
    split; [|lia]. destruct Hlow as [->|H52]; [lia|]. pose proof (Zdigits2_ge _ _ H52 ltac:(lia)). lia.
Qed.

Lemma shr_fexp_fits m e :
  0 ≤ m < 2 ^ 53 → -1074 ≤ e → e = -1074 ∨ 2 ^ 52 ≤ m →
  shr_fexp prec emax m e loc_Exact = (Build_shr_record m false false, e).
Proof.
  intros Hm He Hlow. unfold shr_fexp. rewrite fexp64. pose proof (Zdigits2_le m 53 Hm ltac:(lia)).
  assert (Z.max (Zdigits2 m + e - 53) (-1074) - e = 0) as ->; [|done].
  destruct Hlow as [->|H']; [lia|]. pose proof (Zdigits2_ge _ _ H' ltac:(lia)). lia.
Qed.

Lemma shr_fexp_carry e : -1074 ≤ e →
  shr_fexp prec emax (2 ^ 53) e loc_Exact = (Build_shr_record (2 ^ 52) false false, e + 1).
Proof.
  intros He. unfold shr_fexp. rewrite fexp64. change (Zdigits2 (2 ^ 53)) with 54.
  by replace (Z.max (54 + e - 53) (-1074) - e) with 1 by lia.
Qed.

Lemma round_range m l : 0 ≤ m → m ≤ round_nearest_even m l ≤ m + 1.
Proof. intros Hm. destruct l as [|[]]; simpl; try lia. destruct (Z.even m); lia. Qed.

(** The finite results are canonical. *)
Lemma round_ratio_canonical s num den s' p e :
  round_ratio s num den = S754_finite s' p e → s' = s ∧ canonical (Zpos p) e.
Proof.
  destruct (round_ratio_normal s num den) as (m & l & e1 & (i & j & _ & _ & _ & _ & He & Hm & Hlow) & ->).
  unfold finish. pose proof (round_range m l ltac:(lia)) as Hr. set (m' := round_nearest_even m l) in *.
  destruct (Z.eq_dec m' (2 ^ 53)) as [->|Hne].
  - rewrite shr_fexp_carry by done. cbn [shr_m]. change (2 ^ 52) with (Zpos (2 ^ 52)).
    destruct (Z.leb_spec (e1 + 1) 971); [|done]. intros [= -> <- <-]. split; [done|]. split; [done|].
    split; [lia|]. by right.
  - rewrite shr_fexp_fits by lia. cbn [shr_m]. destruct m' as [|p'|]; [done| |done].
    destruct (Z.leb_spec e1 971); [|done]. intros [= -> -> ->]. split; [done|]. unfold canonical. lia.
Qed.

(** The sign is passed on. *)
Lemma round_ratio_sign s s' num den p e :
  round_ratio s num den = S754_finite s p e → round_ratio s' num den = S754_finite s' p e.
Proof.
  unfold round_ratio. destruct (SFdiv_core_binary _ _ _ _ _ _) as [[m e1] l]. unfold binary_round_aux.
  destruct (shr_fexp _ _ m e1 l) as [mrs e2]. destruct (shr_fexp _ _ _ e2 loc_Exact) as [mrs' e3].
  destruct (shr_m mrs'); [done| |done]. destruct (_ <=? _); [|done]. by intros [= -> ->].
Qed.

(** A ratio closer to [m * 2^e] than [2^-54] of it is rounded to it. *)
Lemma round_ratio_near s num den m e i j :
  canonical m e → 0 ≤ i → 0 ≤ j → e = j - i →
  Z.abs (Zpos num * 2 ^ i - m * (Zpos den * 2 ^ j)) * 2 ^ 54 < m * (Zpos den * 2 ^ j) →
  round_ratio s num den = S754_finite s (Z.to_pos m) e.
Proof.
  intros (Hm & He & Hlow) Hi Hj Hij Hnear.
  set (a := Zpos num * 2 ^ i) in *. set (b := Zpos den * 2 ^ j) in *.
  assert (0 < b) as Hb by (apply Z.mul_pos_pos; [done|by apply pow2_pos]).
  assert (∃ m' l' e', normal (Zpos num) (Zpos den) m' l' e' ∧ finish s m' l' e' = S754_finite s (Z.to_pos m) e)
    as (m' & l' & e' & Hn & Hf).
  2: { destruct (round_ratio_normal s num den) as (m1 & l1 & e1 & H1 & ->). rewrite <- Hf.
    by destruct (normal_unique _ _ _ _ _ _ _ _ _ _ (Pos2Z.is_pos den) (Pos2Z.is_pos den) eq_refl H1 Hn) as (-> & -> & ->). }
  assert (∀ l, round_nearest_even m l = m → finish s m l e = S754_finite s (Z.to_pos m) e) as Hfin.
  { intros l Hl. unfold finish. rewrite Hl, shr_fexp_fits by lia. cbn [shr_m].
    destruct m as [|p|]; [lia| |lia]. by rewrite (proj2 (Z.leb_le _ _)) by lia. }
  destruct (Z.le_gt_cases (m * b) a) as [Hge|Hlt].
  - assert (2 * (a - m * b) < b) by nia.
    destruct (Z.eq_dec a (m * b)) as [Heq|Hne].
    + exists m, loc_Exact, e. split; [|by apply Hfin]. exists i, j. split_and!; try lia.
      exists 0. fold a b. lia.
    + exists m, (loc_Inexact Lt), e. split; [|by apply Hfin]. exists i, j. split_and!; try lia.
      exists (a - m * b). fold a b. lia.
  - assert (2 * (m * b - a) < b) by nia. destruct (Z.eq_dec m (2 ^ 52)) as [->|Hm52].
    + destruct (Z.eq_dec e (-1074)) as [He'|He'].
      * exists (2 ^ 52 - 1), (loc_Inexact Gt), e. split.
        { exists i, j. split_and!; try lia. exists (b - (2 ^ 52 * b - a)). fold a b. lia. }
        rewrite He'. by vm_compute.
      * exists (2 ^ 53 - 1), (loc_Inexact Gt), (e - 1). split.
        { exists (i + 1), j. split_and!; try lia. exists (b - 2 * (2 ^ 52 * b - a)).
          rewrite Z.pow_add_r by lia. fold b. replace (Zpos num * (2 ^ i * 2 ^ 1)) with (2 * a) by (unfold a; lia). lia. }
        unfold finish. change (round_nearest_even _ _) with (2 ^ 53). rewrite shr_fexp_carry by lia.
        cbn [shr_m]. rewrite Z.sub_add. change (2 ^ 52) with (Zpos (2 ^ 52)).
        by rewrite (proj2 (Z.leb_le e 971)) by lia.
    + exists (m - 1), (loc_Inexact Gt), e. split.
      { exists i, j. split_and!; try lia. exists (b - (m * b - a)). fold a b. lia. }
      unfold finish. change (round_nearest_even _ _) with (m - 1 + 1). rewrite Z.sub_add, shr_fexp_fits by lia.
      cbn [shr_m]. destruct m as [|p|]; [lia| |lia]. by rewrite (proj2 (Z.leb_le _ _)) by lia.
Qed.
