(* ===== verification/GoJson.v ===== *)
(** * encoding/json

    The JSON of Go's encoding/json, for the types the extension decodes into
    and encodes from.  A text is first parsed into [json] (syntax only: number
    literals keep their text, object members keep their order and their
    duplicates), and then stored into the target type: [interface{}] values
    and maps ([value], [gomap]) here, structs in the files that declare them. *)
From S2P Require Import Prelude GoStrings GoFloat.
From Stdlib Require Import SpecFloat Ascii String.
Open Scope Z_scope.

(** ** Data *)
Inductive json :=
  | JNull
  | JBool (b : bool)
  | JNum (l : literal)
  | JStr (s : string)
  | JArr (l : list json)
  | JObj (l : list (string * json)).

(** What an [interface{}] holds: nil, bool, float64, string, []interface{}
    or map[string]interface{}, whose [None] is the nil map. *)
Inductive value :=
  | VNull
  | VBool (b : bool)
  | VNum (f : spec_float)
  | VStr (s : string)
  | VArr (l : list value)
  | VMap (m : option (gmap string value)).

(** A map[string]interface{}: [None] is nil. *)
Abbreviation gomap := (option (gmap string value)).

(** ** UTF-8 *)
Definition in_rng (lo hi : Z) (c : ascii) : bool := (lo <=? code c) && (code c <=? hi).
Definition cont (c : ascii) : bool := in_rng 128 191 c.

(** Number of bytes of the valid encoding at the front of the text, [None]
    when there is none ([utf8.DecodeRune] then reads one byte). *)
Definition utf8_len (s : string) : option nat :=
  match s with
  | EmptyString => None
  | String a s1 =>
      if code a <? 128 then Some 1%nat
      else match s1 with
      | EmptyString => None
      | String b s2 =>
          if in_rng 194 223 a then (if cont b then Some 2%nat else None)
          else match s2 with
          | EmptyString => None
          | String c s3 =>
              if in_rng 224 239 a then
                if (if code a =? 224 then in_rng 160 191 b
                    else if code a =? 237 then in_rng 128 159 b else cont b) && cont c
                then Some 3%nat else None
              else match s3 with
              | EmptyString => None
              | String d _ =>
                  if in_rng 240 244 a then
                    if (if code a =? 240 then in_rng 144 191 b
                        else if code a =? 244 then in_rng 128 143 b else cont b)
                       && cont c && cont d
                    then Some 4%nat else None
                  else None
              end
          end
      end
  end.

Definition utf8_encode (r : Z) : string :=
  if r <? 128 then bytes [r]
  else if r <? 2048 then bytes [192 + r / 64; 128 + r mod 64]
  else if r <? 65536 then bytes [224 + r / 4096; 128 + (r / 64) mod 64; 128 + r mod 64]
  else bytes [240 + r / 262144; 128 + (r / 4096) mod 64; 128 + (r / 64) mod 64; 128 + r mod 64].

(** U+FFFD *)
Definition replacement : string := bytes [239; 191; 189].

(** ** Scanner *)
Definition is_ws (c : ascii) : bool :=
  (code c =? 32) || (code c =? 9) || (code c =? 10) || (code c =? 13).

Fixpoint skip_ws (s : string) : string :=
  match s with
  | String c s' => if is_ws c then skip_ws s' else s
  | EmptyString => EmptyString
  end.

Fixpoint span_digits (s : string) : string * string :=
  match s with
  | String c s' => if is_digit c then let '(a, b) := span_digits s' in (String c a, b) else (EmptyString, s)
  | EmptyString => (EmptyString, EmptyString)
  end.

(** The rest of the text after a given first byte. *)
Definition chop (c : ascii) (s : string) : option string :=
  match s with
  | String d r => if ascii_dec d c then Some r else None
  | EmptyString => None
  end.

(** The same after white space. *)
Definition eat (c : ascii) (s : string) : option string := chop c (skip_ws s).

Definition scan_frac (s : string) : option (string * string) :=
  match chop "." s with
  | Some s' =>
      match span_digits s' with
      | (EmptyString, _) => None
      | (f, r) => Some (f, r)
      end
  | None => Some (EmptyString, s)
  end.

Definition scan_exp (s : string) : option (Z * string) :=
  match s with
  | String c s' =>
      if (code c =? 101) || (code c =? 69) then
        let '(neg, s'') := match chop "-" s' with
                           | Some t => (true, t)
                           | None => (false, default s' (chop "+" s'))
                           end in
        match span_digits s'' with
        | (EmptyString, _) => None
        | (d, r) => Some (if neg : bool then - digits_val 0 d else digits_val 0 d, r)
        end
      else Some (0, s)
  | EmptyString => Some (0, s)
  end.

Definition scan_int (s : string) : option (string * string) :=
  match chop "0" s with
  | Some t => Some ("0"%string, t)
  | None => match span_digits s with
            | (EmptyString, _) => None
            | p => Some p
            end
  end.

(** -? (0 | [1-9][0-9]* ) (\.[0-9]+)? ([eE][+-]?[0-9]+)? *)
Definition scan_number (s : string) : option (literal * string) :=
  let '(neg, s1) := match chop "-" s with Some t => (true, t) | None => (false, s) end in
  match scan_int s1 with
  | None => None
  | Some (i, s2) =>
      match scan_frac s2 with
      | None => None
      | Some (f, s3) =>
          match scan_exp s3 with
          | None => None
          | Some (e, s4) =>
              Some (Literal (stake (String.length s - String.length s4) s) neg i f e, s4)
          end
      end
  end.

Definition hex_val (c : ascii) : option Z :=
  if is_digit c then Some (digit_val c)
  else if in_rng 97 102 c then Some (code c - 87)
  else if in_rng 65 70 c then Some (code c - 55)
  else None.

Definition hex4 (s : string) : option (Z * string) :=
  match s with
  | String a (String b (String c (String d r))) =>
      match hex_val a, hex_val b, hex_val c, hex_val d with
      | Some x, Some y, Some z, Some w => Some (((x * 16 + y) * 16 + z) * 16 + w, r)
      | _, _, _, _ => None
      end
  | _ => None
  end.

(** The byte a one-letter escape stands for. *)
Definition simple_escape (e : ascii) : option Z :=
  match code e with
  | 34 => Some 34 | 92 => Some 92 | 47 => Some 47 | 98 => Some 8 | 102 => Some 12
  | 110 => Some 10 | 114 => Some 13 | 116 => Some 9 | _ => None
  end.

(** The escape after a backslash: the bytes it stands for and the rest. *)
Definition scan_escape (s : string) : option (string * string) :=
  match s with
  | EmptyString => None
  | String e s' =>
      match simple_escape e with
      | Some b => Some (byte1 b, s')
      | None =>
          if negb (code e =? 117) then None
          else match hex4 s' with
          | None => None
          | Some (r, rest) =>
              if (55296 <=? r) && (r <? 57344) then
                match strip_prefix "\u" rest with
                | Some rest' =>
                    match hex4 rest' with
                    | Some (r2, rest'') =>
                        if (r <? 56320) && (56320 <=? r2) && (r2 <? 57344)
                        then Some (utf8_encode ((r - 55296) * 1024 + (r2 - 56320) + 65536), rest'')
                        else Some (replacement, rest)
                    | None => Some (replacement, rest)
                    end
                | None => Some (replacement, rest)
                end
              else Some (utf8_encode r, rest)
          end
      end
  end.

(** The body of a string after its opening quote. *)
Fixpoint scan_string (fuel : nat) (s : string) : option (string * string) :=
  match fuel with
  | O => None
  | S fuel' =>
      let cons_to (p : string) (r : string) :=
        match scan_string fuel' r with
        | Some (t, rest) => Some (p +:+ t, rest)
        | None => None
        end in
      match s with
      | EmptyString => None
      | String c s' =>
          if code c =? 34 then Some (EmptyString, s')
          else if code c =? 92 then
            match scan_escape s' with
            | Some (p, r) => cons_to p r
            | None => None
            end
          else if code c <? 32 then None
          else match utf8_len s with
               | Some n => cons_to (stake n s) (sdrop n s)
               | None => cons_to replacement s'
               end
      end
  end.

Definition max_nesting : Z := 10000.

(** A text between quotes. *)
Definition scan_quoted (s : string) : option (string * string) :=
  match eat "034" s with
  | Some s' => scan_string (S (String.length s')) s'
  | None => None
  end.

(** A value that is no string, array or object. *)
Definition scan_scalar (s0 : string) : option (json * string) :=
  let s := skip_ws s0 in
  match strip_prefix "true" s, strip_prefix "false" s, strip_prefix "null" s with
  | Some r, _, _ => Some (JBool true, r)
  | None, Some r, _ => Some (JBool false, r)
  | None, None, Some r => Some (JNull, r)
  | None, None, None =>
      match scan_number s with
      | Some (l, r) => Some (JNum l, r)
      | None => None
      end
  end.

Fixpoint parse_value (fuel : nat) (depth : Z) (s : string) : option (json * string) :=
  match fuel with
  | O => None
  | S fuel' =>
      match eat "034" s, eat "[" s, eat "{" s with
      | Some _, _, _ =>
          match scan_quoted s with
          | Some (t, r) => Some (JStr t, r)
          | None => None
          end
      | None, Some s', _ =>
          if max_nesting <? depth + 1 then None
          else match eat "]" s' with
               | Some r => Some (JArr [], r)
               | None => match parse_elems fuel' (depth + 1) s' with
                         | Some (l, r) => Some (JArr l, r)
                         | None => None
                         end
               end
      | None, None, Some s' =>
          if max_nesting <? depth + 1 then None
          else match eat "}" s' with
               | Some r => Some (JObj [], r)
               | None => match parse_members fuel' (depth + 1) s' with
                         | Some (l, r) => Some (JObj l, r)
                         | None => None
                         end
               end
      | None, None, None => scan_scalar s
      end
  end
with parse_elems (fuel : nat) (depth : Z) (s : string) : option (list json * string) :=
  match fuel with
  | O => None
  | S fuel' =>
      match parse_value fuel' depth s with
      | None => None
      | Some (v, r) =>
          match eat "," r, eat "]" r with
          | Some r', _ =>
              match parse_elems fuel' depth r' with
              | Some (l, r'') => Some (v :: l, r'')
              | None => None
              end
          | None, Some r' => Some ([v], r')
          | None, None => None
          end
      end
  end
with parse_members (fuel : nat) (depth : Z) (s : string) : option (list (string * json) * string) :=
  match fuel with
  | O => None
  | S fuel' =>
      match scan_quoted s with
      | None => None
      | Some (k, r) =>
          match eat ":" r with
          | None => None
          | Some r1 =>
              match parse_value fuel' depth r1 with
              | None => None
              | Some (v, r2) =>
                  match eat "," r2, eat "}" r2 with
                  | Some r', _ =>
                      match parse_members fuel' depth r' with
                      | Some (l, r'') => Some ((k, v) :: l, r'')
                      | None => None
                      end
                  | None, Some r' => Some ([(k, v)], r')
                  | None, None => None
                  end
              end
          end
      end
  end.

(** The whole text: a value and white space.  Twice the length is fuel
    enough ([parse_value_fuel]). *)
Definition json_parse (s : string) : option json :=
  match parse_value (2 * String.length s + 2) 0 s with
  | Some (v, r) => match skip_ws r with EmptyString => Some v | _ => None end
  | None => None
  end.

(** ** json.Unmarshal into maps and interface{} *)

(** [None]: a number is out of the range of float64. *)
Fixpoint to_value (j : json) : option value :=
  match j with
  | JNull => Some VNull
  | JBool b => Some (VBool b)
  | JNum l => VNum <$> parse_float l
  | JStr s => Some (VStr s)
  | JArr l =>
      VArr <$> (fix go (l : list json) : option (list value) :=
        match l with
        | [] => Some []
        | j :: l' => match to_value j, go l' with Some v, Some vs => Some (v :: vs) | _, _ => None end
        end) l
  | JObj l =>
      (λ m, VMap (Some m)) <$>
      (fix go (acc : gmap string value) (l : list (string * json)) : option (gmap string value) :=
        match l with
        | [] => Some acc
        | (k, j) :: l' => match to_value j with Some v => go (<[k:=v]> acc) l' | None => None end
        end) ∅ l
  end.

(** Storing into a map[string]interface{}: an object, or null for nil. *)
Definition to_gomap (j : json) : option gomap :=
  match j with
  | JNull => Some None
  | JObj _ => match to_value j with Some (VMap m) => Some m | _ => None end
  | _ => None
  end.

Fixpoint to_gomaps (l : list json) : option (list gomap) :=
  match l with
  | [] => Some []
  | j :: l' => match to_gomap j, to_gomaps l' with Some m, Some ms => Some (m :: ms) | _, _ => None end
  end.

(** [var js map[string]interface{}; json.Unmarshal(s, &js)]; [None] is an error. *)
Definition unmarshal_map (s : string) : option gomap :=
  match json_parse s with Some j => to_gomap j | None => None end.

(** [var msg []map[string]interface{}; json.Unmarshal(s, &msg)] *)
Definition unmarshal_maps (s : string) : option (list gomap) :=
  match json_parse s with
  | Some JNull => Some []
  | Some (JArr l) => to_gomaps l
  | _ => None
  end.

(** ** json.Unmarshal into structs

    A member goes to the field whose name it matches when cases are ignored
    (the long s and the Kelvin sign fold to ASCII letters); an unknown member
    is skipped, a null leaves its field alone, a value of the wrong type is an
    error but the decoding goes on. *)
Fixpoint fold_name_with (fuel : nat) (s : string) : string :=
  match fuel with
  | O => EmptyString
  | S fuel' =>
      match strip_prefix (bytes [197; 191]) s, strip_prefix (bytes [226; 132; 170]) s, s with
      | Some r, _, _ => String "s" (fold_name_with fuel' r)
      | None, Some r, _ => String "k" (fold_name_with fuel' r)
      | None, None, String c r => String (lower_byte c) (fold_name_with fuel' r)
      | None, None, EmptyString => EmptyString
      end
  end.
Definition fold_name (s : string) : string := fold_name_with (String.length s) s.

(** What storing a value into a struct gives: the struct, and whether the
    value had the right type. *)
Definition decoding (A : Type) : Type := A * bool.

Definition decode_members {A} (field : string → json → A → decoding A) (a : A)
    (l : list (string * json)) : decoding A :=
  foldl (λ d p, let d' := field (fold_name p.1) p.2 d.1 in (d'.1, d.2 && d'.2)) (a, true) l.

Definition decode_struct {A} (field : string → json → A → decoding A) (a : A) (j : json) : decoding A :=
  match j with
  | JNull => (a, true)
  | JObj l => decode_members field a l
  | _ => (a, false)
  end.

Definition decode_string {A} (set : string → A → A) (j : json) (a : A) : decoding A :=
  match j with JNull => (a, true) | JStr s => (set s a, true) | _ => (a, false) end.

Definition decode_int64 {A} (set : Z → A → A) (j : json) (a : A) : decoding A :=
  match j with
  | JNull => (a, true)
  | JNum l => match parse_int 64 (lit_text l) with (n, None) => (set n a, true) | _ => (a, false) end
  | _ => (a, false)
  end.

(** [json.Unmarshal(s, &a)] for a struct [a]; [None] is an error. *)
Definition unmarshal_struct {A} (field : string → json → A → decoding A) (zero : A) (s : string) : option A :=
  match json_parse s with
  | Some j => match decode_struct field zero j with (a, true) => Some a | _ => None end
  | None => None
  end.

(** [json.Unmarshal(s, &l)] for a slice of structs. *)
Definition unmarshal_structs {A} (field : string → json → A → decoding A) (zero : A) (s : string) : option (list A) :=
  match json_parse s with
  | Some JNull => Some []
  | Some (JArr l) =>
      let ds := map (decode_struct field zero) l in
      if forallb snd ds then Some (map fst ds) else None
  | _ => None
  end.

(** ** json.Marshal *)
Definition hex_digit (z : Z) : ascii := if z <? 10 then byte (48 + z) else byte (87 + z).

Definition escape_byte (c : ascii) : string :=
  match code c with
  | 34 => bytes [92; 34] | 92 => bytes [92; 92]
  | 8 => bytes [92; 98] | 12 => bytes [92; 102] | 10 => bytes [92; 110]
  | 13 => bytes [92; 114] | 9 => bytes [92; 116]
  | z => "\u00" +:+ String (hex_digit (z / 16)) (String (hex_digit (z mod 16)) EmptyString)
  end%string.

(** ASCII bytes written as they are; <, > and & are escaped for HTML. *)
Definition json_safe (c : ascii) : bool :=
  (32 <=? code c) && negb ((code c =? 34) || (code c =? 92) || (code c =? 60)
    || (code c =? 62) || (code c =? 38)).

(** [pending]: bytes of a multi-byte character still to come, and whether
    they are copied or were replaced by an escape. *)
Fixpoint quote_body (pending : nat) (copy : bool) (s : string) : string :=
  match s with
  | EmptyString => EmptyString
  | String c s' =>
      match pending with
      | S n => if copy then String c (quote_body n copy s') else quote_body n copy s'
      | O =>
          if code c <? 128 then
            (if json_safe c then String c EmptyString else escape_byte c) +:+ quote_body 0 true s'
          else match utf8_len s with
               | None => "\ufffd"%string +:+ quote_body 0 true s'
               | Some n =>
                   match strip_prefix (bytes [226; 128; 168]) s, strip_prefix (bytes [226; 128; 169]) s with
                   | Some _, _ => "\u2028"%string +:+ quote_body 2 false s'
                   | _, Some _ => "\u2029"%string +:+ quote_body 2 false s'
                   | _, _ => String c (quote_body (n - 1) true s')
                   end
               end
      end
  end.

Definition json_quote (s : string) : string :=
  byte1 34 +:+ quote_body 0 true s +:+ byte1 34.

(** Entries in the order of their keys. *)
Definition key_le {A} (p q : string * A) : Prop := String.leb p.1 q.1 = true.
#[export] Instance key_le_dec {A} (p q : string * A) : Decision (key_le p q).
Proof. unfold key_le. apply _. Defined.
Definition by_key {A} (l : list (string * A)) : list (string * A) := merge_sort key_le l.

(** All the parts, or [None] when one has no encoding. *)
Fixpoint all_some {A} (l : list (option A)) : option (list A) :=
  match l with
  | [] => Some []
  | Some x :: l' => match all_some l' with Some xs => Some (x :: xs) | None => None end
  | None :: _ => None
  end.

Definition encode_member (p : string * option string) : option string :=
  match p.2 with Some t => Some (json_quote p.1 +:+ ":" +:+ t) | None => None end%string.

Definition encode_object (l : list (string * option string)) : option string :=
  (λ ms, "{" +:+ join "," ms +:+ "}")%string <$> all_some (map encode_member (by_key l)).

Fixpoint marshal (v : value) : option string :=
  match v with
  | VNull => Some "null"%string
  | VBool b => Some (if b then "true"%string else "false"%string)
  | VNum f => json_float f
  | VStr s => Some (json_quote s)
  | VArr l => (λ ms, "[" +:+ join "," ms +:+ "]")%string <$> all_some (map marshal l)
  | VMap None => Some "null"%string
  | VMap (Some m) => encode_object (map_fold (λ k x acc, (k, marshal x) :: acc) [] m)
  end.

(** [json.Marshal(item)] for an item of a [responseBody] *)
Definition marshal_map (m : gomap) : option string := marshal (VMap m).

(** ** json.Indent with a tab

    What json.MarshalIndent makes of an encoding: a line for each member and
    element, indented by tabs, and a space after each colon.  [need] is set
    after an opening bracket, [quoted] inside a string and [escaped] after a
    backslash in it. *)
Fixpoint tabs (n : nat) : string := match n with O => EmptyString | S n' => String "009" (tabs n') end.
Definition new_line (depth : nat) : string := String "010" (tabs depth).

Fixpoint indent_from (quoted escaped need : bool) (depth : nat) (s : string) : string :=
  match s with
  | EmptyString => EmptyString
  | String c s' =>
      if quoted then
        String c (indent_from (escaped || negb (code c =? 34)) (negb escaped && (code c =? 92)) false depth s')
      else
        let closing := (code c =? 93) || (code c =? 125) in
        let depth1 := if need && negb closing then S depth else depth in
        let before := if need && negb closing then new_line depth1 else EmptyString in
        before +:+
        (if (code c =? 91) || (code c =? 123) then String c (indent_from false false true depth1 s')
         else if code c =? 44 then String c (new_line depth1) +:+ indent_from false false false depth1 s'
         else if code c =? 58 then String c (String " " (indent_from false false false depth1 s'))
         else if closing then
           if need then String c (indent_from false false false depth1 s')
           else new_line (pred depth1) +:+ String c (indent_from false false false (pred depth1) s')
         else String c (indent_from (code c =? 34) false false depth1 s'))
  end.
Definition json_indent (s : string) : string := indent_from false false false 0 s.

(** json.Compact on a text without comments: the white space outside strings
    goes. *)
Fixpoint compact_from (quoted escaped : bool) (s : string) : string :=
  match s with
  | EmptyString => EmptyString
  | String c s' =>
      if quoted then
        String c (compact_from (escaped || negb (code c =? 34)) (negb escaped && (code c =? 92)) s')
      else if is_ws c then compact_from false false s'
      else String c (compact_from (code c =? 34) false s')
  end.
Definition json_compact (s : string) : string := compact_from false false s.

(** ** fmt's %v of an interface{} *)
Fixpoint fmt_v (v : value) : string :=
  match v with
  | VNull => "<nil>"
  | VBool b => if b then "true" else "false"
  | VNum f => fmt_float f
  | VStr s => s
  | VArr l => "[" +:+ join " " (map fmt_v l) +:+ "]"
  | VMap None => "map[]"
  | VMap (Some m) =>
      "map[" +:+ join " " (map (λ p, p.1 +:+ ":" +:+ p.2)
                   (by_key (map_fold (λ k x acc, (k, fmt_v x) :: acc) [] m))) +:+ "]"
  end%string.

(** ** Checks *)
Definition q (s : string) : string := smap (λ c, if ascii_dec c "'"%char then "034"%char else c) s.

Example json_ex1 :
  (unmarshal_map (q "  {'b': [1, 2.50, -0, 1e3], 'a':{'x':null,'x':true}, 'c':'\u00e9\ud83d\ude00\n<'} ") ≫= marshal_map)
  = Some (q "{'a':{'x':true},'b':[1,2.5,-0,1000],'c':'" +:+ bytes [195; 169; 240; 159; 152; 128] +:+ q "\n\u003c'}")%string.
Proof. vm_compute. reflexivity. Qed.
Example json_ex2 :
  map (λ s, bool_decide (is_Some (unmarshal_map (q s))))
    ["{}"; "null"; "[]"; "{'a':}"; "{'a':01}"; "{'a':1e999}"; "{'a' 1}"; "{'a':1}x"; ""; "{'a':'\x'}"; "{'a':1,}"]%string
  = [true; true; false; false; false; false; false; false; false; false; false].
Proof. vm_compute. reflexivity. Qed.

(** ** Lemmas on values *)

Fixpoint value_size (v : value) : nat :=
  match v with
  | VArr l => S (sum_list_with value_size l)
  | VMap (Some m) => S (map_fold (λ _ x n, value_size x + n)%nat 0%nat m)
  | _ => 1
  end.

Lemma value_size_elem l x : x ∈ l → (value_size x < value_size (VArr l))%nat.
Proof.
  intros H. change (value_size x < S (sum_list_with value_size l))%nat.
  induction H as [x l|x y l H IH]; simpl; lia.
Qed.

Lemma value_size_lookup (m : gmap string value) k x :
  m !! k = Some x → (value_size x < value_size (VMap (Some m)))%nat.
Proof.
  intros H.
  change (value_size x < S (map_fold (λ _ x n, value_size x + n)%nat 0%nat m))%nat.
  rewrite map_fold_foldr. apply elem_of_map_to_list in H.
  remember (k, x) as p eqn:E. replace x with p.2 by by subst. clear E.
  induction H as [[] l|[] [] l H IH]; simpl in *; lia.
Qed.

(** Induction on values, with hypotheses for the members of arrays and maps. *)
Lemma value_rect_strong (P : value → Prop) :
  P VNull → (∀ b, P (VBool b)) → (∀ f, P (VNum f)) → (∀ s, P (VStr s)) →
  (∀ l, (∀ x, x ∈ l → P x) → P (VArr l)) → P (VMap None) →
  (∀ m, (∀ k x, m !! k = Some x → P x) → P (VMap (Some m))) →
  ∀ v, P v.
Proof.
  intros H1 H2 H3 H4 H5 H6 H7 v.
  remember (value_size v) as n eqn:Hn. revert v Hn.
  induction n as [n IH] using (well_founded_induction lt_wf). intros v ->.
  destruct v as [| | | |l|[m|]]; auto.
  - apply H5. intros x Hx. eapply IH; [|done]. by apply value_size_elem.
  - apply H7. intros k x Hx. eapply IH; [|done]. by eapply value_size_lookup.
Qed.

Lemma all_some_Some {A} (l : list (option A)) xs :
  all_some l = Some xs ↔ l = map Some xs.
Proof.
  revert xs. induction l as [|[x|] l IH]; intros xs; simpl.
  - split; [by intros [= <-]|]. by destruct xs.
  - destruct (all_some l) as [ys|].
    + split.
      * intros [= <-]. simpl. f_equal. by apply IH.
      * destruct xs as [|x' xs]; [done|]. simpl. intros [= -> H].
        apply IH in H. by injection H as ->.
    + split; [done|]. destruct xs as [|x' xs]; [done|]. simpl. intros [= -> H].
      by apply IH in H.
  - split; [done|]. by destruct xs.
Qed.

Lemma all_some_is_Some {A} (l : list (option A)) :
  is_Some (all_some l) ↔ Forall is_Some l.
Proof.
  induction l as [|[x|] l IH]; simpl.
  - split; eauto.
  - rewrite Forall_cons, <- IH. destruct (all_some l); split; intuition eauto.
    all: by match goal with H : is_Some None |- _ => destruct H end.
  - rewrite Forall_cons. split; [by intros [? ?]|]. by intros [[? ?] _].
Qed.

Lemma map_fold_entries {A B} (f : A → B) (m : gmap string A) :
  map_fold (λ k x acc, (k, f x) :: acc) [] m = map (λ p, (p.1, f p.2)) (map_to_list m).
Proof.
  rewrite map_fold_foldr. by induction (map_to_list m) as [|[k x] l IH]; simpl; f_equal.
Qed.

Lemma by_key_Permutation {A} (l : list (string * A)) : by_key l ≡ₚ l.
Proof. apply merge_sort_Permutation. Qed.

Lemma marshal_arr_Some l : is_Some (marshal (VArr l)) ↔ Forall (λ x, is_Some (marshal x)) l.
Proof.
  simpl. rewrite fmap_is_Some, all_some_is_Some. by rewrite Forall_map.
Qed.

(** A map is written when each of its values is. *)
Lemma marshal_map_Some (m : gmap string value) :
  is_Some (marshal (VMap (Some m))) ↔ ∀ k x, m !! k = Some x → is_Some (marshal x).
Proof.
  simpl. unfold encode_object. rewrite fmap_is_Some, all_some_is_Some, Forall_map,
    by_key_Permutation, map_fold_entries, Forall_map, Forall_forall. split.
  - intros H k x Hx. apply elem_of_map_to_list in Hx. specialize (H _ Hx).
    unfold encode_member in H. simpl in H. destruct (marshal x); [eauto|]. by destruct H.
  - intros H [k x] Hx. apply elem_of_map_to_list in Hx. destruct (H _ _ Hx) as [t Ht].
    unfold encode_member. simpl. rewrite Ht. eauto.
Qed.

(** ** Every encoding is a single line *)
Definition high (c : ascii) : Prop := 128 ≤ code c.

Lemma high_not_nl c : high c → c ≠ nl.
Proof. intros H ->. unfold high in H. vm_compute in H. done. Qed.

Lemma in_rng_high lo hi c : 128 ≤ lo → in_rng lo hi c = true → high c.
Proof. unfold in_rng, high. rewrite andb_true_iff, !Z.leb_le. lia. Qed.

Fixpoint high_prefix (n : nat) (s : string) : Prop :=
  match n, s with
  | S n', String c s' => high c ∧ high_prefix n' s'
  | _, _ => True
  end.

Lemma utf8_len_high c s n :
  128 ≤ code c → utf8_len (String c s) = Some n → high_prefix (n - 1) s.
Proof.
  intros Hc. unfold utf8_len, cont.
  destruct (Z.ltb_spec (code c) 128); [lia|].
  destruct s as [|b [|d [|e s]]]; simpl; try done;
  repeat case_match; try done; intros [= <-]; simpl;
  repeat match goal with H : _ && _ = true |- _ => apply andb_true_iff in H as [? ?] end;
  repeat split; (eapply in_rng_high; [|done]; lia).
Qed.

Lemma escape_byte_one_line c : one_line (escape_byte c).
Proof. destruct c as [[] [] [] [] [] [] [] []]; vm_compute; intuition discriminate. Qed.

#[local] Arguments utf8_len : simpl never.
#[local] Arguments strip_prefix : simpl never.
#[local] Arguments String.append : simpl never.

Lemma quote_body_one_line s : ∀ pending copy,
  (copy = true → high_prefix pending s) → one_line (quote_body pending copy s).
Proof.
  induction s as [|c s IH]; intros pending copy Hp; [done|].
  destruct pending as [|n].
  - cbn [quote_body]. destruct (Z.ltb_spec (code c) 128) as [Hc|Hc].
    + apply one_line_app; [|by apply IH].
      destruct (json_safe c) eqn:Hs; [|apply escape_byte_one_line].
      apply one_line_cons; [|done]. intros ->. vm_compute in Hs. done.
    + destruct (utf8_len (String c s)) as [n|] eqn:Hl;
        [|apply one_line_app; [by vm_compute; intuition discriminate|by apply IH]].
      pose proof (utf8_len_high _ _ _ Hc Hl).
      repeat case_match; try (apply one_line_app; [by vm_compute; intuition discriminate|by apply IH]).
      apply one_line_cons; [by apply high_not_nl|by apply IH].
  - destruct copy; simpl in Hp; cbn [quote_body]; [|by apply IH].
    destruct (Hp eq_refl). apply one_line_cons; [by apply high_not_nl|]. auto.
Qed.

Lemma json_quote_one_line s : one_line (json_quote s).
Proof.
  unfold json_quote. apply one_line_app; [done|]. apply one_line_app; [|done].
  by apply quote_body_one_line.
Qed.

(** json.Marshal never writes a newline byte. *)
Lemma marshal_one_line v : ∀ s, marshal v = Some s → one_line s.
Proof.
  induction v as [|b|f|t|l IH| |m IH] using value_rect_strong; intros s; simpl.
  - by intros [= <-].
  - intros [= <-]. by destruct b.
  - apply one_line_json_float.
  - intros [= <-]. apply json_quote_one_line.
  - intros (ms & Hms & ->)%fmap_Some. apply one_line_cons; [done|].
    apply one_line_app; [|done]. apply one_line_join; [done|].
    apply all_some_Some in Hms. apply Forall_forall. intros t Ht.
    assert (Some t ∈ map marshal l) as Hin.
    { rewrite Hms. by apply list_elem_of_fmap_2. }
    apply list_elem_of_fmap_1 in Hin as (x & Hx & Hl). by eapply IH.
  - by intros [= <-].
  - unfold encode_object. intros (ms & Hms & ->)%fmap_Some. apply one_line_cons; [done|].
    apply one_line_app; [|done]. apply one_line_join; [done|].
    apply all_some_Some in Hms. apply Forall_forall. intros t Ht.
    assert (Some t ∈ map Some ms) as Hin by (by apply list_elem_of_fmap_2).
    rewrite <- Hms, map_fold_entries in Hin.
    apply list_elem_of_fmap_1 in Hin as ([k o] & Ho & Hin).
    rewrite by_key_Permutation in Hin.
    apply list_elem_of_fmap_1 in Hin as ([k' x] & [= -> ->] & Hl).
    apply elem_of_map_to_list in Hl. unfold encode_member in Ho. simpl in Ho.
    destruct (marshal x) as [u|] eqn:Hu; [|done]. injection Ho as ->.
    apply one_line_app; [apply json_quote_one_line|]. apply one_line_app; [done|].
    by eapply IH.
Qed.

(** ** What was decoded can be encoded *)
Lemma to_value_marshal : ∀ j v, to_value j = Some v → is_Some (marshal v).
Proof.
  fix IH 1. intros [|b|l|s|l|l] v; simpl.
  - intros [= <-]. eauto.
  - intros [= <-]. simpl. eauto.
  - intros (f & Hf & ->)%fmap_Some. by eapply parse_float_finite.
  - intros [= <-]. simpl. eauto.
  - intros (vs & Hvs & ->)%fmap_Some. apply marshal_arr_Some.
    revert vs Hvs. induction l as [|j l IHl]; intros vs Hvs.
    + injection Hvs as <-. constructor.
    + destruct (to_value j) eqn:Hj; [|done]. destruct (_ l) eqn:Hl in Hvs; [|done].
      injection Hvs as <-. constructor; [by eapply IH|by apply IHl].
  - intros (m & Hm & ->)%fmap_Some. apply marshal_map_Some.
    assert (∀ k x, (∅ : gmap string value) !! k = Some x → is_Some (marshal x)) as H0.
    { intros k x. by rewrite lookup_empty. }
    revert H0 Hm. generalize (∅ : gmap string value) as acc.
    induction l as [|[k j] l IHl]; intros acc Hacc Hm.
    + by injection Hm as <-.
    + destruct (to_value j) as [u|] eqn:Hj; [|done]. eapply IHl; [|exact Hm].
      intros k' x. destruct (decide (k = k')) as [<-|Hk].
      * rewrite lookup_insert_eq. intros [= <-]. by eapply IH.
      * rewrite lookup_insert_ne by done. apply Hacc.
Qed.

Lemma to_gomap_marshal j m : to_gomap j = Some m → is_Some (marshal_map m).
Proof.
  destruct j as [| | | | |l]; unfold to_gomap; try done.
  - intros [= <-]. by eexists.
  - destruct (to_value (JObj l)) as [[| | | | |m']|] eqn:E; try done. intros [= <-].
    by eapply to_value_marshal.
Qed.

Lemma to_gomaps_marshal l ms :
  to_gomaps l = Some ms → Forall (λ m, is_Some (marshal_map m)) ms.
Proof.
  revert ms. induction l as [|j l IH]; intros ms; simpl.
  - intros [= <-]. constructor.
  - destruct (to_gomap j) eqn:Hj; [|done]. destruct (to_gomaps l); [|done].
    intros [= <-]. constructor; [by eapply to_gomap_marshal|by apply IH].
Qed.

Lemma unmarshal_maps_marshal s ms :
  unmarshal_maps s = Some ms → Forall (λ m, is_Some (marshal_map m)) ms.
Proof.
  unfold unmarshal_maps. destruct (json_parse s) as [[]|]; try done.
  - by intros [= <-].
  - apply to_gomaps_marshal.
Qed.

Lemma unmarshal_map_marshal s m : unmarshal_map s = Some m → is_Some (marshal_map m).
Proof.
  unfold unmarshal_map. destruct (json_parse s); [|done]. apply to_gomap_marshal.
Qed.

Lemma marshal_map_nonempty m s : marshal_map m = Some s → s ≠ EmptyString.
Proof.
  destruct m as [m|]; unfold marshal_map; simpl; [|by intros [= <-]].
  unfold encode_object. by intros (ms & Hms & ->)%fmap_Some.
Qed.

Lemma marshal_map_one_line m s : marshal_map m = Some s → one_line s.
Proof. apply marshal_one_line. Qed.
#[export] Hint Resolve marshal_map_nonempty marshal_map_one_line : one_line.

(** ** The scanner's fuel is enough

    Every scanner returns a shorter rest, so the fuel that [scan_string] and
    [json_parse] take cannot run out: more of it changes nothing. *)
Definition shorter (s : string) {A} (r : option (A * string)) : Prop :=
  match r with Some (_, t) => (String.length t < String.length s)%nat | None => True end.
Definition no_longer (s : string) {A} (r : option (A * string)) : Prop :=
  match r with Some (_, t) => (String.length t ≤ String.length s)%nat | None => True end.

Lemma skip_ws_length s : (String.length (skip_ws s) ≤ String.length s)%nat.
Proof. induction s as [|c s IH]; simpl; [lia|]. destruct (is_ws c); simpl; lia. Qed.

Lemma chop_length c s r : chop c s = Some r → String.length s = S (String.length r).
Proof. destruct s as [|d s]; simpl; [done|]. destruct (ascii_dec d c); [|done]. by intros [= <-]. Qed.

Lemma eat_length c s r : eat c s = Some r → (String.length r < String.length s)%nat.
Proof. intros H%chop_length. pose proof (skip_ws_length s). lia. Qed.

Lemma strip_prefix_length p : ∀ s r, strip_prefix p s = Some r → (String.length r ≤ String.length s)%nat.
Proof.
  induction p as [|c p IH]; intros [|d s] r; simpl; try (intros [= <-]; simpl; lia); try done.
  change (strip_prefix (String c p) (String d s)) with (if ascii_dec c d then strip_prefix p s else None).
  destruct (ascii_dec c d); [|done]. intros H%IH. lia.
Qed.

Lemma span_digits_length s : (String.length (span_digits s).2 ≤ String.length s)%nat.
Proof.
  induction s as [|c s IH]; simpl; [lia|]. destruct (is_digit c); [|simpl; lia].
  destruct (span_digits s). simpl in *. lia.
Qed.

Lemma span_digits_no_longer s t d r :
  (String.length s ≤ String.length t)%nat → span_digits s = (d, r) → (String.length r ≤ String.length t)%nat.
Proof. intros H E. pose proof (span_digits_length s) as H'. rewrite E in H'. simpl in H'. lia. Qed.

Lemma scan_int_length s : no_longer s (scan_int s).
Proof.
  unfold scan_int. destruct (chop "0" s) eqn:E; [apply chop_length in E; simpl; lia|].
  destruct (span_digits s) as [[|c d] r] eqn:E'; [done|]. by eapply span_digits_no_longer.
Qed.

Lemma scan_frac_length s : no_longer s (scan_frac s).
Proof.
  unfold scan_frac. destruct (chop "." s) eqn:E; [|simpl; lia]. apply chop_length in E.
  destruct (span_digits _) as [[|c d] r] eqn:E'; [done|]. eapply span_digits_no_longer; [|done]. lia.
Qed.

Lemma scan_exp_length s : no_longer s (scan_exp s).
Proof.
  destruct s as [|c s]; simpl; [lia|]. destruct (_ || _); [|simpl; lia].
  destruct (chop "-" s) as [t|] eqn:E.
  - apply chop_length in E. destruct (span_digits t) as [[|? d] r] eqn:E'; [done|].
    simpl. eapply (span_digits_no_longer t (String c s)); [simpl; lia|done].
  - assert (String.length (default s (chop "+" s)) ≤ String.length s)%nat.
    { destruct (chop "+" s) eqn:E2; [apply chop_length in E2; simpl; lia|simpl; lia]. }
    destruct (span_digits _) as [[|? d] r] eqn:E'; [done|].
    simpl. eapply (span_digits_no_longer _ (String c s)); [|done]. simpl. lia.
Qed.

Lemma scan_number_length s : no_longer s (scan_number s).
Proof.
  unfold scan_number. destruct (match chop "-" s with Some t => (true, t) | None => (false, s) end) as [neg s1] eqn:E1.
  assert (String.length s1 ≤ String.length s)%nat.
  { destruct (chop "-" s) eqn:E; simplify_eq; [apply chop_length in E|]; lia. }
  pose proof (scan_int_length s1). destruct (scan_int s1) as [[i s2]|]; [|done].
  pose proof (scan_frac_length s2). destruct (scan_frac s2) as [[f s3]|]; [|done].
  pose proof (scan_exp_length s3). destruct (scan_exp s3) as [[e s4]|]; [|done]. simpl in *. lia.
Qed.

Lemma hex4_length s : no_longer s (hex4 s).
Proof. destruct s as [|a [|b [|c [|d r]]]]; simpl; try done. repeat case_match; simpl; try done; lia. Qed.

Lemma scan_escape_length s : no_longer s (scan_escape s).
Proof.
  destruct s as [|e s]; simpl; [done|]. destruct (simple_escape e); [simpl; lia|].
  destruct (negb _); [done|]. pose proof (hex4_length s). destruct (hex4 s) as [[r rest]|]; [|done].
  simpl in *. destruct (_ && _); [|simpl; lia].
  destruct (strip_prefix _ rest) as [rest'|] eqn:E; [|simpl; lia]. apply strip_prefix_length in E.
  pose proof (hex4_length rest'). destruct (hex4 rest') as [[r2 rest'']|]; [|simpl; lia].
  simpl in *. destruct (_ && _); simpl; lia.
Qed.

Lemma sdrop_length n s : (String.length (sdrop n s) ≤ String.length s - n)%nat.
Proof. revert s. induction n as [|n IH]; intros [|c s]; simpl; try lia. apply IH. Qed.

Lemma utf8_len_pos s n : utf8_len s = Some n → (0 < n)%nat.
Proof. unfold utf8_len. intros H. repeat case_match; simplify_eq; lia. Qed.

(** One step of [scan_string]: what is copied and where it goes on. *)
Lemma scan_string_step fuel s :
  shorter s (scan_string fuel s).
Proof.
  revert s. induction fuel as [|fuel IH]; intros s; [done|]. destruct s as [|c s]; [done|].
  cbn [scan_string]. destruct (code c =? 34); [simpl; lia|].
  destruct (code c =? 92).
  { pose proof (scan_escape_length s). destruct (scan_escape s) as [[p r]|]; [|done].
    specialize (IH r). destruct (scan_string fuel r) as [[t rest]|]; [|done]. simpl in *. lia. }
  destruct (code c <? 32); [done|].
  destruct (utf8_len (String c s)) as [n|] eqn:E.
  - apply utf8_len_pos in E. pose proof (sdrop_length n (String c s)) as Hd. specialize (IH (sdrop n (String c s))).
    destruct (scan_string fuel _) as [[t rest]|]; [|done]. simpl in *. lia.
  - specialize (IH s). destruct (scan_string fuel s) as [[t rest]|]; [|done]. simpl in *. lia.
Qed.

Lemma scan_string_fuel f1 : ∀ f2 s,
  (String.length s < f1)%nat → (String.length s < f2)%nat → scan_string f1 s = scan_string f2 s.
Proof.
  induction f1 as [|f1 IH]; intros [|f2] s H1 H2; try lia. destruct s as [|c s]; [done|].
  cbn [scan_string]. simpl in H1, H2. destruct (code c =? 34); [done|].
  destruct (code c =? 92).
  { pose proof (scan_escape_length s). destruct (scan_escape s) as [[p r]|]; [|done].
    simpl in *. rewrite (IH f2 r) by lia. done. }
  destruct (code c <? 32); [done|].
  destruct (utf8_len (String c s)) as [n|] eqn:E.
  - apply utf8_len_pos in E. pose proof (sdrop_length n (String c s)) as Hd. simpl String.length in Hd.
    rewrite (IH f2 (sdrop n (String c s))) by lia. done.
  - rewrite (IH f2 s) by lia. done.
Qed.

Lemma scan_quoted_length s : shorter s (scan_quoted s).
Proof.
  unfold scan_quoted. destruct (eat "034" s) as [s'|] eqn:E; [|done]. apply eat_length in E.
  pose proof (scan_string_step (S (String.length s')) s') as H.
  destruct (scan_string _ s') as [[t r]|]; [|done]. simpl in *. lia.
Qed.

Lemma scan_scalar_length s : no_longer s (scan_scalar s).
Proof.
  unfold scan_scalar. pose proof (skip_ws_length s).
  destruct (strip_prefix "true" (skip_ws s)) eqn:E1; [apply strip_prefix_length in E1; simpl; lia|].
  destruct (strip_prefix "false" (skip_ws s)) eqn:E2; [apply strip_prefix_length in E2; simpl; lia|].
  destruct (strip_prefix "null" (skip_ws s)) eqn:E3; [apply strip_prefix_length in E3; simpl; lia|].
  pose proof (scan_number_length (skip_ws s)). destruct (scan_number _) as [[l r]|]; [|done]. simpl in *. lia.
Qed.

Lemma parse_length fuel :
  (∀ d s, no_longer s (parse_value fuel d s)) ∧
  (∀ d s, no_longer s (parse_elems fuel d s)) ∧
  (∀ d s, no_longer s (parse_members fuel d s)).
Proof.
  induction fuel as [|fuel (IHv & IHe & IHm)]; [done|]. split; [|split]; intros d s; simpl.
  - destruct (eat "034" s) eqn:E1.
    { pose proof (scan_quoted_length s). destruct (scan_quoted s) as [[t r]|]; [|done]. simpl in *. lia. }
    destruct (eat "[" s) as [s'|] eqn:E2.
    { apply eat_length in E2. destruct (_ <? _); [done|]. destruct (eat "]" s') as [r|] eqn:E.
      - apply eat_length in E. simpl. lia.
      - specialize (IHe (d + 1) s'). destruct (parse_elems fuel _ s') as [[l r]|]; [|done]. simpl in *. lia. }
    destruct (eat "{" s) as [s'|] eqn:E3.
    { apply eat_length in E3. destruct (_ <? _); [done|]. destruct (eat "}" s') as [r|] eqn:E.
      - apply eat_length in E. simpl. lia.
      - specialize (IHm (d + 1) s'). destruct (parse_members fuel _ s') as [[l r]|]; [|done]. simpl in *. lia. }
    apply scan_scalar_length.
  - specialize (IHv d s). destruct (parse_value fuel d s) as [[v r]|]; [|done]. simpl in IHv.
    destruct (eat "," r) as [r'|] eqn:E1.
    { apply eat_length in E1. specialize (IHe d r'). destruct (parse_elems fuel d r') as [[l r'']|]; [|done]. simpl in *. lia. }
    destruct (eat "]" r) as [r'|] eqn:E2; [|done]. apply eat_length in E2. simpl. lia.
  - pose proof (scan_quoted_length s). destruct (scan_quoted s) as [[k r]|]; [|done].
    destruct (eat ":" r) as [r1|] eqn:E1; [|done]. apply eat_length in E1.
    specialize (IHv d r1). destruct (parse_value fuel d r1) as [[v r2]|]; [|done]. simpl in *.
    destruct (eat "," r2) as [r'|] eqn:E2.
    { apply eat_length in E2. specialize (IHm d r'). destruct (parse_members fuel d r') as [[l r'']|]; [|done]. simpl in *. lia. }
    destruct (eat "}" r2) as [r'|] eqn:E3; [|done]. apply eat_length in E3. simpl. lia.
Qed.

(** Fuel beyond twice the length changes nothing. *)
Lemma parse_fuel f1 : ∀ f2,
  (∀ d s, (2 * String.length s < f1)%nat → (2 * String.length s < f2)%nat → parse_value f1 d s = parse_value f2 d s) ∧
  (∀ d s, (2 * String.length s + 1 < f1)%nat → (2 * String.length s + 1 < f2)%nat → parse_elems f1 d s = parse_elems f2 d s) ∧
  (∀ d s, (2 * String.length s + 1 < f1)%nat → (2 * String.length s + 1 < f2)%nat → parse_members f1 d s = parse_members f2 d s).
Proof.
  induction f1 as [|f1 IH]; [intros f2; split_and!; intros; lia|].
  intros [|f2]; [split_and!; intros; lia|]. destruct (IH f2) as (IHv & IHe & IHm). clear IH.
  destruct (parse_length f2) as (Lv & Le & Lm).
  split; [|split]; intros d s H1 H2; simpl.
  - destruct (eat "034" s); [done|].
    destruct (eat "[" s) as [s'|] eqn:E2; [apply eat_length in E2; by rewrite IHe by lia|].
    destruct (eat "{" s) as [s'|] eqn:E3; [apply eat_length in E3; by rewrite IHm by lia|done].
  - rewrite IHv by lia. specialize (Lv d s). destruct (parse_value f2 d s) as [[v r]|]; [|done]. simpl in Lv.
    destruct (eat "," r) as [r'|] eqn:E1; [|done]. apply eat_length in E1. by rewrite IHe by lia.
  - pose proof (scan_quoted_length s). destruct (scan_quoted s) as [[k r]|]; [|done]. simpl in *.
    destruct (eat ":" r) as [r1|] eqn:E1; [|done]. apply eat_length in E1. rewrite IHv by lia.
    specialize (Lv d r1). destruct (parse_value f2 d r1) as [[v r2]|]; [|done]. simpl in Lv.
    destruct (eat "," r2) as [r'|] eqn:E2; [|done]. apply eat_length in E2. by rewrite IHm by lia.
Qed.

Lemma parse_value_fuel fuel d s :
  (2 * String.length s + 2 ≤ fuel)%nat → parse_value fuel d s = parse_value (2 * String.length s + 2) d s.
Proof. intros H. apply parse_fuel; lia. Qed.

(** ** Indenting only adds white space *)
Lemma compact_new_line depth s : compact_from false false (new_line depth +:+ s) = compact_from false false s.
Proof. unfold new_line. simpl. by induction depth. Qed.

Lemma compact_unquoted escaped s : compact_from false escaped s = compact_from false false s.
Proof. by destruct s. Qed.

Lemma compact_cons c s :
  is_ws c = false → compact_from false false (String c s) = String c (compact_from (code c =? 34) false s).
Proof. simpl. by intros ->. Qed.

Lemma compact_indent_from s : ∀ quoted escaped need depth,
  compact_from quoted escaped (indent_from quoted escaped need depth s) = compact_from quoted escaped s.
Proof.
  induction s as [|c s IH]; intros quoted escaped need depth; [done|]. cbn [indent_from].
  destruct quoted; [simpl; by rewrite IH|]. rewrite !(compact_unquoted escaped). cbv zeta.
  generalize (if need && negb ((code c =? 93) || (code c =? 125)) then S depth else depth) as d. intros d.
  assert (∀ (b : bool) x, compact_from false false ((if b then new_line d else EmptyString) +:+ x) =
    compact_from false false x) as -> by (intros [] x; [apply compact_new_line|done]).
  assert (∀ k, code c = k → k ≠ 34 → k ≠ 32 → k ≠ 9 → k ≠ 10 → k ≠ 13 →
    is_ws c = false ∧ (code c =? 34) = false) as Hc.
  { intros k Hk ?????. unfold is_ws. rewrite !orb_false_iff, !Z.eqb_neq. lia. }
  destruct (Z.eqb_spec (code c) 91) as [H|H1]; [|destruct (Z.eqb_spec (code c) 123) as [H|H2]]; simpl orb; cbv iota.
  1,2: destruct (Hc _ H) as [Hw Hq]; [done..|]; by rewrite !compact_cons, Hq, IH.
  destruct (Z.eqb_spec (code c) 44) as [H|H3].
  { destruct (Hc _ H) as [Hw Hq]; [done..|]. change (String c ?a +:+ ?x) with (String c (a +:+ x)). rewrite !compact_cons, Hq by done.
    by rewrite compact_new_line, IH. }
  destruct (Z.eqb_spec (code c) 58) as [H|H4].
  { destruct (Hc _ H) as [Hw Hq]; [done..|]. rewrite !compact_cons, Hq by done. simpl. by rewrite IH. }
  destruct ((code c =? 93) || (code c =? 125)) eqn:H5.
  { assert (is_ws c = false ∧ (code c =? 34) = false) as [Hw Hq].
    { apply orb_true_iff in H5. rewrite !Z.eqb_eq in H5. by destruct H5 as [H|H]; apply (Hc _ H). }
    destruct need; [|rewrite compact_new_line]; by rewrite !compact_cons, Hq, IH. }
  simpl. destruct (is_ws c) eqn:Hw; [|by rewrite IH].
  assert ((code c =? 34) = false) as ->; [|by apply IH].
  unfold is_ws in Hw. apply Z.eqb_neq. intros Hq. rewrite Hq in Hw. done.
Qed.

(** Taking the white space out again gives the same text, compact. *)
Lemma compact_indent s : json_compact (json_indent s) = json_compact s.
Proof. apply compact_indent_from. Qed.

Example json_indent_ex :
  json_indent (q "{'a':[1,'{,'],'b':{},'c':[]}") =
  q (String.concat (String "010" EmptyString)
    ["{"; String "009" "'a': ["; String "009" (String "009" "1,"); String "009" (String "009" "'{,'"); String "009" "],";
     String "009" "'b': {},"; String "009" "'c': []"; "}"]%string).
Proof. vm_compute. reflexivity. Qed.
