(* ===== verification/GoFloatShortest.v ===== *)
(** * The shortest decimal reads back

    [shortest] always finds digits that are rounded back to the number it
    prints: the decimal exponent is found within the fuel, and 18 digits are
    close enough.  The two layouts of encoding/json are literals with the
    same value, so what is printed for a float64 is parsed as that float64. *)
From S2P Require Import Prelude GoStrings GoFloat Digits GoFloatRounding GoJson.
From Stdlib Require Import SpecFloat Ascii String.
Open Scope Z_scope.

(** ** Decimals *)
Lemma pow10_pos n : 0 ≤ n → 0 < 10 ^ n.
Proof. intros. by apply Z.pow_pos_nonneg. Qed.

Lemma round_decimal_eq s m x : 0 < m →
  round_decimal s m x =
    let nd := slen (itoa m) in
    if 400 <? x + nd then S754_infinity s
    else if x + nd <? -400 then S754_zero s
    else if 0 <=? x then round_ratio s (Z.to_pos (m * 10 ^ x)) 1
    else round_ratio s (Z.to_pos m) (Z.to_pos (10 ^ (- x))).
Proof. by destruct m. Qed.

(** Zeros at the end of the digits go to the exponent. *)
Lemma round_decimal_shift s m j x :
  0 < m → 0 ≤ j → round_decimal s (m * 10 ^ j) x = round_decimal s m (x + j).
Proof.
  intros Hm Hj. pose proof (pow10_pos j Hj). assert (0 < m * 10 ^ j) by (by apply Z.mul_pos_pos).
  rewrite !round_decimal_eq, itoa_length_shift by done. cbv zeta.
  replace (x + (slen (itoa m) + j)) with (x + j + slen (itoa m)) by lia.
  destruct (_ <? _); [done|]. destruct (_ <? _); [done|].
  destruct (Z.leb_spec 0 x) as [Hx|Hx], (Z.leb_spec 0 (x + j)) as [Hxj|Hxj]; try lia.
  - f_equal. f_equal. rewrite (Z.add_comm x), Z.pow_add_r by lia. lia.
  - pose proof (pow10_pos (- x) ltac:(lia)). pose proof (pow10_pos (x + j) ltac:(lia)).
    apply round_ratio_equal. rewrite !Z2Pos.id by (done || by apply Z.mul_pos_pos).
    rewrite Z.mul_1_r, <- Z.mul_assoc, <- Z.pow_add_r by lia. by replace (x + j + - x) with j by lia.
  - pose proof (pow10_pos (- x) ltac:(lia)). pose proof (pow10_pos (- (x + j)) ltac:(lia)).
    apply round_ratio_equal. rewrite !Z2Pos.id by done.
    rewrite <- Z.mul_assoc, <- Z.pow_add_r by lia. by replace (j + - (x + j)) with (- x) by lia.
Qed.

Lemma round_decimal_finite s m x s' p e :
  round_decimal s m x = S754_finite s' p e → 0 < m ∧ s' = s ∧ canonical (Zpos p) e.
Proof.
  intros H. assert (0 < m) as Hm by by destruct m. split; [done|]. rewrite round_decimal_eq in H by done. cbv zeta in H.
  destruct (_ <? _); [done|]. destruct (_ <? _); [done|]. destruct (_ <=? _); by eapply round_ratio_canonical.
Qed.

Lemma round_decimal_sign s s' m x p e :
  round_decimal s m x = S754_finite s p e → round_decimal s' m x = S754_finite s' p e.
Proof.
  intros H. pose proof H as (Hm & _ & _)%round_decimal_finite. rewrite round_decimal_eq in * by done. cbv zeta in *.
  destruct (_ <? _); [done|]. destruct (_ <? _); [done|]. destruct (_ <=? _); by eapply round_ratio_sign.
Qed.

(** ** The decimal exponent *)
Lemma scaled_eq m e k :
  scaled m e k = (m * 2 ^ Z.max e 0 * 10 ^ Z.max k 0, 2 ^ Z.max (- e) 0 * 10 ^ Z.max (- k) 0).
Proof.
  unfold scaled. destruct (Z.leb_spec 0 e), (Z.leb_spec 0 k);
    rewrite ?(Z.max_l e), ?(Z.max_r e), ?(Z.max_l k), ?(Z.max_r k), ?(Z.max_l (- e)), ?(Z.max_r (- e)),
      ?(Z.max_l (- k)), ?(Z.max_r (- k)) by lia; f_equal; lia.
Qed.

(** [10^k <= m * 2^e] *)
Definition at_least (m e k : Z) : Prop :=
  2 ^ Z.max (- e) 0 * 10 ^ Z.max k 0 ≤ m * 2 ^ Z.max e 0 * 10 ^ Z.max (- k) 0.

#[export] Instance at_least_dec m e k : Decision (at_least m e k).
Proof. unfold at_least. apply _. Defined.

Lemma at_least_succ m e k :
  at_least m e (k + 1) ↔ 10 * (2 ^ Z.max (- e) 0 * 10 ^ Z.max k 0) ≤ m * 2 ^ Z.max e 0 * 10 ^ Z.max (- k) 0.
Proof.
  unfold at_least. generalize (2 ^ Z.max (- e) 0), (m * 2 ^ Z.max e 0). intros b a.
  destruct (Z.le_gt_cases 0 k).
  - rewrite (Z.max_l (k + 1)), (Z.max_l k), (Z.max_r (- (k + 1))), (Z.max_r (- k)), Z.pow_add_r by lia. lia.
  - rewrite (Z.max_r (k + 1)), (Z.max_r k), (Z.max_l (- (k + 1))), (Z.max_l (- k)) by lia.
    replace (- k) with (1 + - (k + 1)) by lia. rewrite (Z.pow_add_r 10 1) by lia. lia.
Qed.

Lemma at_least_mono m e k k' : k ≤ k' → at_least m e k' → at_least m e k.
Proof.
  intros Hk. replace k' with (k + (k' - k)) by lia. generalize (k' - k), (proj2 (Z.le_0_sub _ _) Hk).
  intros n Hn. revert n Hn. apply (natlike_ind (λ n, at_least m e (k + n) → at_least m e k)).
  - by rewrite Z.add_0_r.
  - intros n Hn IH H. apply IH. rewrite Z.add_succ_r, <- Z.add_1_r in H. apply at_least_succ in H.
    unfold at_least. pose proof (pow2_pos (Z.max (- e) 0) ltac:(lia)).
    pose proof (pow10_pos (Z.max (k + n) 0) ltac:(lia)). nia.
Qed.

(** The walk ends at the exponent, when it starts within its fuel of it. *)
Lemma find_exp_spec m e K : (∀ k, at_least m e k ↔ k ≤ K) →
  ∀ fuel k, Z.abs (k - K) < Z.of_nat fuel → find_exp fuel m e k = K.
Proof.
  intros HK. induction fuel as [|fuel IH]; intros k Hk; [lia|]. cbn [find_exp]. rewrite scaled_eq.
  pose proof (HK k) as H0. pose proof (HK (k + 1)) as H1. rewrite at_least_succ in H1. unfold at_least in H0.
  rewrite Z.opp_involutive. destruct (Z.ltb_spec (m * 2 ^ Z.max e 0 * 10 ^ Z.max (- k) 0)
    (2 ^ Z.max (- e) 0 * 10 ^ Z.max k 0)); [apply IH; lia|].
  destruct (Z.leb_spec (10 * (2 ^ Z.max (- e) 0 * 10 ^ Z.max k 0)) (m * 2 ^ Z.max e 0 * 10 ^ Z.max (- k) 0));
    [apply IH; lia|lia].
Qed.

Lemma pow2_max n : 0 < 2 ^ Z.max n 0.
Proof. apply pow2_pos. lia. Qed.
Lemma pow10_max n : 0 < 10 ^ Z.max n 0.
Proof. apply pow10_pos. lia. Qed.

(** Chaining two comparisons of ratios. *)
Lemma cross_le a b p q u v : 0 < q → 0 ≤ b → 0 ≤ v → b * p ≤ a * q → q * u ≤ p * v → b * u ≤ a * v.
Proof.
  intros Hq Hb Hv H1 H2. apply (Z.mul_le_mono_pos_r _ _ q); [done|].
  apply Z.le_trans with (b * p * v); nia.
Qed.
Lemma cross_lt a b p q u v : 0 < q → 0 ≤ b → 0 < v → a * q < b * p → p * v ≤ q * u → a * v < b * u.
Proof.
  intros Hq Hb Hv H1 H2. apply (Z.mul_lt_mono_pos_r q); [done|].
  apply Z.lt_le_trans with (b * p * v); nia.
Qed.

(** The estimate, checked for every binary exponent. *)
Definition estimate (L : Z) : Z := L * 30103 / 100000.

Definition estimate_ok (L : Z) : bool :=
  let k := estimate L in
  (2 ^ Z.max (- L) 0 * 10 ^ Z.max (k - 1) 0 <=? 2 ^ Z.max L 0 * 10 ^ Z.max (1 - k) 0) &&
  (2 ^ Z.max (L + 1) 0 * 10 ^ Z.max (- (k + 2)) 0 <=? 2 ^ Z.max (- (L + 1)) 0 * 10 ^ Z.max (k + 2) 0) &&
  (-330 <=? k) && (k <=? 330).

Lemma estimate_table L : -1074 ≤ L < 1024 → estimate_ok L = true.
Proof.
  intros HL. assert (forallb (λ n, estimate_ok (Z.of_nat n - 1074)) (seq 0 2098) = true) as H by by vm_compute.
  rewrite forallb_forall in H. replace L with (Z.of_nat (Z.to_nat (L + 1074)) - 1074) by lia. apply H.
  apply List.in_seq. lia.
Qed.

(** [2^lm <= m < 2^(lm+1)] bounds [m * 2^e] by the powers of [lm + e]. *)
Lemma binary_exponent m e (L := Z.log2 m + e) : 0 < m →
  2 ^ Z.max (- e) 0 * 2 ^ Z.max L 0 ≤ m * 2 ^ Z.max e 0 * 2 ^ Z.max (- L) 0 ∧
  m * 2 ^ Z.max e 0 * 2 ^ Z.max (- (L + 1)) 0 < 2 ^ Z.max (- e) 0 * 2 ^ Z.max (L + 1) 0.
Proof.
  intros Hm. destruct (Z.log2_spec m Hm) as [Hlo Hhi]. pose proof (Z.log2_nonneg m).
  pose proof (pow2_pos (Z.max e 0) ltac:(lia)). split.
  - transitivity (2 ^ Z.log2 m * 2 ^ Z.max e 0 * 2 ^ Z.max (- L) 0).
    + rewrite <- !Z.pow_add_r by lia. apply Z.pow_le_mono_r; lia.
    + pose proof (pow2_pos (Z.max (- L) 0) ltac:(lia)). nia.
  - apply Z.lt_le_trans with (2 ^ Z.succ (Z.log2 m) * 2 ^ Z.max e 0 * 2 ^ Z.max (- (L + 1)) 0).
    + pose proof (pow2_pos (Z.max (- (L + 1)) 0) ltac:(lia)). nia.
    + rewrite <- !Z.pow_add_r by lia. apply Z.pow_le_mono_r; lia.
Qed.

Lemma estimate_near m e : canonical m e →
  at_least m e (estimate (Z.log2 m + e) - 1) ∧ ¬ at_least m e (estimate (Z.log2 m + e) + 2) ∧
  -330 ≤ estimate (Z.log2 m + e) ≤ 330.
Proof.
  intros (Hm & He & _). set (L := Z.log2 m + e).
  assert (-1074 ≤ L < 1024) as HL.
  { pose proof (Z.log2_nonneg m). assert (Z.log2 m < 53) by (apply Z.log2_lt_pow2; lia). lia. }
  pose proof (estimate_table L HL) as Ht. unfold estimate_ok in Ht. set (k := estimate L) in *. clearbody k.
  rewrite !andb_true_iff, !Z.leb_le in Ht. destruct Ht as [[[H1 H2] H3] H4].
  destruct (binary_exponent m e) as [Hlo Hhi]; [lia|]. fold L in Hlo, Hhi. clearbody L.
  unfold at_least. replace (- (k - 1)) with (1 - k) by lia. split_and!; [| |done|done].
  - eapply cross_le; [apply pow2_max|apply Z.lt_le_incl, pow2_max|apply Z.lt_le_incl, pow10_max|exact Hlo|exact H1].
  - apply Z.nle_gt. eapply cross_lt; [apply pow2_max|apply Z.lt_le_incl, pow2_max|apply pow10_max|exact Hhi|exact H2].
Qed.

(** The decimal exponent [K] with [10^K <= m * 2^e < 10^(K+1)]. *)
Lemma exp10_spec m e : canonical m e →
  ∃ K, exp10 m e = K ∧ (∀ k, at_least m e k ↔ k ≤ K) ∧ -331 ≤ K ≤ 331.
Proof.
  intros Hc. destruct (estimate_near m e Hc) as (Hlo & Hhi & Hk). unfold exp10. fold (estimate (Z.log2 m + e)).
  set (k0 := estimate (Z.log2 m + e)) in *. clearbody k0.
  assert (∃ K, at_least m e K ∧ ¬ at_least m e (K + 1) ∧ k0 - 1 ≤ K ≤ k0 + 1) as (K & HK & HK' & Hnear).
  { destruct (decide (at_least m e k0)).
    - destruct (decide (at_least m e (k0 + 1))); [exists (k0 + 1)|exists k0]; (split_and!; [done| |lia|lia]); [|done].
      by replace (k0 + 1 + 1) with (k0 + 2) by lia.
    - exists (k0 - 1). rewrite Z.sub_add. split_and!; [done|done|lia|lia]. }
  assert (∀ k, at_least m e k ↔ k ≤ K) as Hiff.
  { intros k. split; [|intros; by eapply at_least_mono]. intros Hl. apply Z.nlt_ge. intros Hlt. apply HK'.
    eapply at_least_mono; [|exact Hl]. lia. }
  exists K. split; [|split; [done|lia]]. apply find_exp_spec; [done|lia].
Qed.

(** ** The digits *)

(** 18 digits below the number are closer to it than [2^-54] of it. *)
Lemma scaled_18 m e K num den :
  0 < m → (∀ k, at_least m e k ↔ k ≤ K) → scaled m e (17 - K) = (num, den) →
  0 < den ∧ 10 ^ 17 * den ≤ num < 10 ^ 18 * den.
Proof.
  intros Hm HK. pose proof (proj2 (HK K) ltac:(lia)) as Hlo.
  assert (¬ at_least m e (K + 1)) as Hhi by (rewrite HK; lia). rewrite at_least_succ in Hhi. unfold at_least in Hlo.
  rewrite scaled_eq. replace (- (17 - K)) with (K - 17) by lia. intros [= <- <-].
  pose proof (pow2_max (- e)). pose proof (pow2_max e).
  pose proof (pow10_max (K - 17)). pose proof (pow10_max (17 - K)).
  pose proof (pow10_max K). pose proof (pow10_max (- K)).
  assert (10 ^ Z.max (- K) 0 * 10 ^ Z.max (K - 17) 0 * 10 ^ 17 = 10 ^ Z.max (17 - K) 0 * 10 ^ Z.max K 0) as Hp.
  { rewrite <- !Z.pow_add_r by lia. f_equal. lia. }
  revert Hlo Hhi Hp. generalize dependent (10 ^ Z.max (- K) 0). intros u Hu. generalize dependent (10 ^ Z.max K 0).
  intros v Hv. generalize dependent (10 ^ Z.max (K - 17) 0). intros y Hy.
  generalize dependent (10 ^ Z.max (17 - K) 0). intros x Hx. generalize dependent (2 ^ Z.max (- e) 0). intros b Hb.
  generalize (m * 2 ^ Z.max e 0) as a. intros a Hlo Hhi Hp. split; [by apply Z.mul_pos_pos|].
  replace (10 ^ 18) with (10 * 10 ^ 17) by done. revert Hp.
  assert (0 < 10 ^ 17) as Hc by done. revert Hc. generalize (10 ^ 17). intros c Hc Hp.
  assert (a * x * v = a * u * (y * c)) as Hax by (transitivity (a * (x * v)); [lia|rewrite <- Hp; lia]).
  assert (0 < y * c) by by apply Z.mul_pos_pos.
  split.
  - apply (Z.mul_le_mono_pos_r _ _ v); [done|]. rewrite Hax.
    replace (c * (b * y) * v) with (b * v * (y * c)) by lia. apply Z.mul_le_mono_nonneg_r; lia.
  - apply (Z.mul_lt_mono_pos_r v); [done|]. rewrite Hax.
    replace (10 * c * (b * y) * v) with (10 * (b * v) * (y * c)) by lia. apply Z.mul_lt_mono_pos_r; lia.
Qed.

Lemma try_18 m e K :
  canonical m e → (∀ k, at_least m e k ↔ k ≤ K) → -331 ≤ K ≤ 331 →
  try_digits m e (S754_finite false (Z.to_pos m) e) K 18 ≠ None.
Proof.
  intros Hc HK HKr. pose proof Hc as (Hm & _). unfold try_digits.
  replace (18 - 1 - K) with (17 - K) by lia. replace (K - 18 + 1) with (K - 17) by lia.
  destruct (scaled m e (17 - K)) as [num den] eqn:Hs.
  destruct (scaled_18 m e K num den ltac:(lia) HK Hs) as (Hden & Hlo & Hhi).
  pose proof (Z.div_mod num den ltac:(lia)) as Hdm. pose proof (Z.mod_pos_bound num den Hden) as Hr.
  set (lo := num / den) in *. set (r := num mod den) in *. clearbody lo r.
  assert (10 ^ 17 ≤ lo < 10 ^ (17 + 1)) as Hlen by (change (10 ^ (17 + 1)) with (10 ^ 18); nia).
  assert (round_decimal false lo (K - 17) = S754_finite false (Z.to_pos m) e) as Hback.
  { rewrite round_decimal_eq by lia. cbv zeta. rewrite (itoa_length_unique lo 17) by (done || lia).
    rewrite (proj2 (Z.ltb_ge _ _)), (proj2 (Z.ltb_ge _ _)) by lia.
    rewrite scaled_eq in Hs. injection Hs as Hnum Hd.
    assert (Z.abs (lo * den - num) * 2 ^ 54 < num) as Hnear.
    { assert (2 ^ 54 * den < num); [|lia]. assert (2 ^ 54 < 10 ^ 17) by done. nia. }
    destruct (Z.leb_spec 0 (K - 17)) as [H0|H0];
      (eapply (round_ratio_near _ _ _ _ _ (Z.max (- e) 0) (Z.max e 0)); [done|lia..|]).
    - pose proof (pow10_pos (K - 17) H0). rewrite Z2Pos.id by nia.
      rewrite (Z.max_r (17 - K)) in Hnum by lia. rewrite (Z.max_l (- (17 - K))) in Hd by lia.
      replace (- (17 - K)) with (K - 17) in Hd by lia. subst num den. lia.
    - pose proof (pow10_pos (- (K - 17)) ltac:(lia)). rewrite !Z2Pos.id by lia.
      rewrite (Z.max_l (17 - K)) in Hnum by lia. rewrite (Z.max_r (- (17 - K))) in Hd by lia.
      replace (17 - K) with (- (K - 17)) in Hnum by lia. subst num den. lia. }
  rewrite (bool_decide_eq_true_2 _ Hback). by destruct (bool_decide _).
Qed.

Lemma try_digits_back m e t k n d : try_digits m e t k n = Some d → round_decimal false d (k - n + 1) = t.
Proof.
  unfold try_digits. destruct (scaled _ _ _) as [num den].
  destruct (bool_decide _) eqn:H1, (bool_decide (round_decimal _ (_ + 1) _ = _)) eqn:H2; try done;
    rewrite ?bool_decide_eq_true in *; [destruct (_ <=? _)|..]; by intros [= <-].
Qed.

Lemma shortest_from_back m e t k n' : try_digits m e t k n' ≠ None →
  ∀ fuel n d x, n ≤ n' < n + Z.of_nat fuel → shortest_from fuel m e t k n = (d, x) → round_decimal false d x = t.
Proof.
  intros Hn'. induction fuel as [|fuel IH]; intros n d x Hn; [lia|]. cbn [shortest_from].
  destruct (try_digits m e t k n) as [d'|] eqn:Ht.
  - intros [= <- <-]. by eapply try_digits_back.
  - apply IH. assert (n ≠ n') by by intros ->. lia.
Qed.

Lemma strip_zeros_spec fuel : ∀ d x d' x', 0 < d → strip_zeros fuel d x = (d', x') →
  0 < d' ∧ x ≤ x' ∧ d = d' * 10 ^ (x' - x).
Proof.
  induction fuel as [|fuel IH]; intros d x d' x' Hd; cbn [strip_zeros].
  - intros [= <- <-]. rewrite Z.sub_diag. lia.
  - destruct (Z.eqb_spec (d mod 10) 0) as [H0|]; simpl.
    2: { intros [= <- <-]. rewrite Z.sub_diag. lia. }
    destruct (Z.eqb_spec d 0); [lia|]. simpl. pose proof (Z.div_mod d 10 ltac:(lia)).
    intros Hz. apply IH in Hz as (H1 & H2 & H3); [|lia]. split; [done|]. split; [lia|].
    replace (x' - x) with (x' - (x + 1) + 1) by lia. rewrite Z.pow_add_r by lia. lia.
Qed.

(** The digits that are printed are rounded back to the number. *)
Lemma shortest_spec p e : canonical (Zpos p) e →
  ∃ d x, 0 < d ∧ shortest (Zpos p) e = (itoa d, x + slen (itoa d)) ∧ round_decimal false d x = S754_finite false p e.
Proof.
  intros Hc. destruct (exp10_spec _ _ Hc) as (K & HK & Hiff & Hr). unfold shortest. rewrite HK.
  pose proof (try_18 _ _ _ Hc Hiff Hr) as H18. cbn [Z.to_pos] in *.
  destruct (shortest_from _ _ _ _ _ _) as [d x] eqn:Hs. eapply shortest_from_back in Hs; [|exact H18|lia].
  pose proof Hs as (Hd & _)%round_decimal_finite. destruct (strip_zeros 20 d x) as [d' x'] eqn:Hz.
  destruct (strip_zeros_spec _ _ _ _ _ Hd Hz) as (Hd' & Hx & ->). exists d', x'. split_and!; [done|done|].
  rewrite round_decimal_shift in Hs by lia. by replace (x + (x' - x)) with x' in Hs by lia.
Qed.

(** ** Number literals *)
#[local] Arguments String.append : simpl never.

Definition no_digit (s : string) : Prop := match s with EmptyString => True | String c _ => is_digit c = false end.

Lemma span_digits_stop d rest : all_digits d = true → no_digit rest → span_digits (d +:+ rest) = (d, rest).
Proof.
  intros Hd Hr. induction d as [|c d IH].
  - change (EmptyString +:+ rest) with rest. destruct rest as [|c rest]; [done|]. simpl in *. by rewrite Hr.
  - simpl in Hd. apply andb_true_iff in Hd as [Hc Hd]. rewrite app_cons. simpl. by rewrite Hc, (IH Hd).
Qed.

Lemma span_all_digits d : all_digits d = true → span_digits d = (d, EmptyString).
Proof. intros Hd. rewrite <- (app_string_nil_r d) at 1. by apply span_digits_stop. Qed.

Definition frac_text (f : string) : string := match f with EmptyString => EmptyString | _ => String "." f end.

(** The integer part of a literal: a zero alone, or digits with no zero in front. *)
Definition int_part (i : string) : Prop :=
  i = "0"%string ∨ ∃ c d, i = String c d ∧ all_digits i = true ∧ c ≠ "0"%char.

(** The exponent part and its value. *)
Inductive exp_part : string → Z → Prop :=
  | no_exp : exp_part EmptyString 0
  | exp_sign (neg : bool) c d :
      all_digits (String c d) = true →
      exp_part (String "e" (String (if neg then "-" else "+")%char (String c d)))
        (if neg then - digits_val 0 (String c d) else digits_val 0 (String c d)).

Lemma exp_part_start ex e : exp_part ex e → no_digit ex ∧ chop "." ex = None.
Proof. by intros []. Qed.

Lemma scan_int_part i rest : int_part i → no_digit rest → scan_int (i +:+ rest) = Some (i, rest).
Proof.
  intros [->|(c & d & -> & Ha & Hc)] Hr; [done|]. unfold scan_int.
  assert (chop "0" (String c d +:+ rest) = None) as ->.
  { rewrite app_cons. simpl. by destruct (ascii_dec c "0"). }
  by rewrite (span_digits_stop (String c d)).
Qed.

Lemma scan_frac_part f ex e :
  all_digits f = true → exp_part ex e → scan_frac (frac_text f +:+ ex) = Some (f, ex).
Proof.
  intros Hf [Hn Hdot]%exp_part_start. unfold scan_frac. destruct f as [|c f].
  - change (frac_text EmptyString +:+ ex) with ex. by rewrite Hdot.
  - change (chop "." (frac_text (String c f) +:+ ex)) with (Some (String c f +:+ ex)).
    cbv iota. by rewrite span_digits_stop.
Qed.

Lemma scan_exp_part ex e : exp_part ex e → scan_exp ex = Some (e, EmptyString).
Proof.
  intros [|neg c d Hd]; [done|]. pose proof (span_all_digits _ Hd) as Hs. unfold scan_exp.
  change ((code "e" =? 101) || (code "e" =? 69)) with true. cbv iota.
  assert (match chop "-" (String (if neg then "-" else "+")%char (String c d)) with
          | Some t => (true, t)
          | None => (false, default (String (if neg then "-" else "+")%char (String c d))
                              (chop "+" (String (if neg then "-" else "+")%char (String c d))))
          end = (neg, String c d)) as -> by by destruct neg.
  by rewrite Hs.
Qed.

(** A text of the grammar is scanned as the literal with its parts. *)
Lemma scan_number_text neg i f ex e :
  int_part i → all_digits f = true → exp_part ex e →
  ∃ text, scan_number (signed neg (i +:+ frac_text f +:+ ex)) = Some (Literal text neg i f e, EmptyString).
Proof.
  intros Hi Hf Hex. unfold scan_number.
  assert (match chop "-" (signed neg (i +:+ frac_text f +:+ ex)) with
          | Some t => (true, t) | None => (false, signed neg (i +:+ frac_text f +:+ ex)) end
          = (neg, i +:+ frac_text f +:+ ex)) as ->.
  { destruct neg; [done|]. simpl signed. destruct Hi as [->|(c & d & -> & Ha & _)]; [done|].
    rewrite app_cons. simpl. destruct (ascii_dec c "-") as [->|]; [|done]. done. }
  assert (no_digit (frac_text f +:+ ex)) as Hn.
  { destruct f; [|done]. by apply (exp_part_start _ _ Hex). }
  rewrite (scan_int_part _ _ Hi Hn), (scan_frac_part _ _ _ Hf Hex), (scan_exp_part _ _ Hex). by eexists.
Qed.

(** ** The layouts *)

(** [t] is a literal with the value of the digits of [d] and the decimal
    point at [dp]. *)
Definition literal_of (t : string) (d dp : Z) : Prop :=
  ∃ i f ex e, t = i +:+ frac_text f +:+ ex ∧ int_part i ∧ all_digits f = true ∧ exp_part ex e ∧
    ∀ s, round_decimal s (digits_val 0 (i +:+ f)) (e - slen f) = round_decimal s d (dp - slen (itoa d)).

Lemma stake_sdrop n : ∀ s, stake n s +:+ sdrop n s = s.
Proof. induction n as [|n IH]; intros [|c s]; try done. simpl. by rewrite app_cons, IH. Qed.

Lemma slen_sdrop n : ∀ s, slen (sdrop n s) = Z.max 0 (slen s - Z.of_nat n).
Proof.
  unfold slen. induction n as [|n IH]; intros [|c s]; simpl; [lia..|]. rewrite IH. lia.
Qed.

Lemma sdrop_all n : ∀ s, slen s ≤ Z.of_nat n → sdrop n s = EmptyString ∧ stake n s = s.
Proof.
  unfold slen. induction n as [|n IH]; intros [|c s]; simpl; [done|lia|done|]. intros H.
  destruct (IH s) as [-> ->]; [lia|done].
Qed.

Lemma layout_f_frac ds dp :
  layout_f ds dp =
    (if dp <=? 0 then "0"%string else stake (Z.to_nat dp) ds +:+ zeros (Z.to_nat (dp - slen ds))) +:+
    frac_text (if dp <=? 0 then zeros (Z.to_nat (- dp)) +:+ ds else sdrop (Z.to_nat dp) ds) +:+ EmptyString.
Proof.
  unfold layout_f. rewrite app_string_nil_r.
  by destruct (if dp <=? 0 then zeros _ +:+ ds else _); [rewrite app_string_nil_r|].
Qed.

Lemma layout_f_literal d dp : 0 < d → literal_of (layout_f (itoa d) dp) d dp.
Proof.
  intros Hd. destruct (itoa_spec d ltac:(lia)) as (c & r & Hi & Ha & Hv & Hc). specialize (Hc ltac:(lia)).
  rewrite layout_f_frac. eexists _, _, _, _. split; [reflexivity|].
  set (ds := itoa d) in *. pose proof (slen_nonneg ds) as HL. rewrite <- Hi in Ha, Hv.
  destruct (Z.leb_spec dp 0) as [Hdp|Hdp].
  - destruct (digits_val_zeros (Z.to_nat (- dp))) as (Hz1 & Hz2 & Hz3).
    split; [by left|]. split; [by rewrite all_digits_app, Hz3|]. split; [constructor|]. intros s.
    rewrite slen_app, Hz2. change ("0" +:+ ?x)%string with (String "0" x). cbn [digits_val].
    change (0 * 10 + digit_val "0") with 0. rewrite digits_val_app, Hz1, Hv. f_equal. lia.
  - pose proof (stake_sdrop (Z.to_nat dp) ds) as Hsd.
    assert (all_digits (stake (Z.to_nat dp) ds) = true ∧ all_digits (sdrop (Z.to_nat dp) ds) = true) as [Ht Hs].
    { rewrite <- Hsd, all_digits_app in Ha. by apply andb_true_iff in Ha. }
    destruct (digits_val_zeros (Z.to_nat (dp - slen ds))) as (Hz1 & Hz2 & Hz3).
    split.
    { right. destruct (Z.to_nat dp) as [|n] eqn:Hn; [lia|]. rewrite Hi in Ht |- *. simpl in *.
      exists c, (stake n r +:+ zeros (Z.to_nat (dp - slen (String c r)))). split; [done|]. split; [|done].
      apply andb_true_iff in Ht as [-> Ht]. rewrite all_digits_app, Ht. simpl.
      by destruct (digits_val_zeros (Z.to_nat (dp - slen (String c r)))) as (_ & _ & ->). }
    split; [done|]. split; [constructor|]. intros s. destruct (Z.le_gt_cases (slen ds) dp) as [Hle|Hgt].
    + destruct (sdrop_all (Z.to_nat dp) ds ltac:(lia)) as [-> ->]. change (slen EmptyString) with 0.
      rewrite app_string_nil_r, digits_val_app, Hv, digits_val_acc, Hz1, Hz2, Z.add_0_r, Z2Nat.id by lia.
      rewrite round_decimal_shift by lia. f_equal.
    + replace (Z.to_nat (dp - slen ds)) with 0%nat by lia. simpl zeros. rewrite app_string_nil_r, Hsd, Hv, slen_sdrop.
      f_equal. lia.
Qed.

Lemma layout_e_literal two d dp : 0 < d → literal_of (layout_e two (itoa d) dp) d dp.
Proof.
  intros Hd. destruct (itoa_spec d ltac:(lia)) as (c & r & Hi & Ha & Hv & Hc). specialize (Hc ltac:(lia)).
  unfold literal_of, layout_e. rewrite Hi.
  destruct (itoa_spec (Z.abs (dp - 1)) ltac:(lia)) as (c1 & r1 & Hi1 & Ha1 & Hv1 & _).
  set (es := if two && (Z.abs (dp - 1) <? 10) then String "0" (itoa (Z.abs (dp - 1))) else itoa (Z.abs (dp - 1))).
  assert (∃ c2 r2, es = String c2 r2 ∧ all_digits es = true ∧ digits_val 0 es = Z.abs (dp - 1)) as (c2 & r2 & He & Ha2 & Hv2).
  { unfold es. rewrite Hi1. destruct (two && _); [|by eauto]. eexists _, _. split; [done|]. split; [done|]. done. }
  exists (String c EmptyString), r, (String "e" (String (if dp - 1 <? 0 then "-"%char else "+"%char) es)),
    (if dp - 1 <? 0 then - digits_val 0 es else digits_val 0 es).
  split; [by destruct r|]. split.
  { right. exists c, EmptyString. simpl in Ha |- *. by apply andb_true_iff in Ha as [-> _]. }
  split; [simpl in Ha; by apply andb_true_iff in Ha as [_ ?]|]. split; [rewrite He in Ha2 |- *; by constructor|].
  intros s. change (String c EmptyString +:+ r) with (String c r). rewrite Hv, Hv2. f_equal.
  replace (slen (String c r)) with (slen r + 1) by (unfold slen; simpl; lia).
  destruct (Z.ltb_spec (dp - 1) 0); lia.
Qed.

(** ** Every float64 is written as a text that reads back *)

(** The finite float64s, the ones JSON can write. *)
Definition is_float64 (f : spec_float) : bool :=
  match f with
  | S754_zero _ => true
  | S754_finite _ m e => bounded prec emax m e
  | S754_infinity _ | S754_nan => false
  end.

Theorem float64_reads_back f : is_float64 f = true →
  ∃ t l, json_float f = Some t ∧ scan_number t = Some (l, EmptyString) ∧ parse_float l = Some f.
Proof.
  destruct f as [s| | |s p e]; try done; [by intros _; destruct s; eexists _, _|].
  intros Hc%canonical_bounded. destruct (shortest_spec p e Hc) as (d & x & Hd & Hs & Hback).
  unfold json_float. rewrite Hs. set (dp := x + slen (itoa d)).
  assert (∃ t, (if dp - 1 <? -6 then layout_e false (itoa d) dp
     else if 21 <=? dp - 1 then layout_e true (itoa d) dp else layout_f (itoa d) dp) = t ∧ literal_of t d dp)
    as (t & -> & i & f & ex & e' & -> & Hi & Hf & Hex & Hr).
  { eexists. split; [reflexivity|]. repeat case_match; by apply layout_e_literal || apply layout_f_literal. }
  destruct (scan_number_text s i f ex e' Hi Hf Hex) as [text Ht]. eexists _, _. split; [done|]. split; [exact Ht|].
  unfold parse_float. cbn [lit_int lit_frac lit_neg lit_exp]. rewrite Hr.
  replace (dp - slen (itoa d)) with x by lia. by rewrite (round_decimal_sign _ s _ _ _ _ Hback).
Qed.

Lemma parse_float64 l f : parse_float l = Some f → is_float64 f = true.
Proof.
  unfold parse_float. destruct (round_decimal _ _ _) as [s| | |s p e] eqn:Hr; intros [= <-]; [done|].
  apply round_decimal_finite in Hr as (_ & _ & Hc). by apply canonical_bounded.
Qed.
