(* ===== verification/GoJsonRoundtrip.v ===== *)
(** * The round trip of encoding/json

    What [json.Marshal] writes for a decoded map is read back by
    [json.Unmarshal] as the same map, for the values that JSON can carry:
    texts in valid UTF-8, finite float64s, no nil map inside a value, and
    nesting within the scanner's limit.  The parts follow the scanner: runes and
    strings, numbers, arrays, objects. *)
From S2P Require Import Prelude GoStrings GoFloat Digits GoJson GoFloatShortest.
From Stdlib Require Import SpecFloat Ascii String.
Open Scope Z_scope.

(** ** Definitions *)

(** Valid UTF-8; [skip] bytes of the current rune are still to come. *)
Fixpoint utf8_valid_from (skip : nat) (s : string) : bool :=
  match s with
  | EmptyString => true
  | String _ s' =>
      match skip with
      | S n => utf8_valid_from n s'
      | O => match utf8_len s with Some n => utf8_valid_from (n - 1) s' | None => false end
      end
  end.
Definition utf8_valid (s : string) : bool := utf8_valid_from 0 s.

(** The values that JSON can carry within [depth] levels of nesting. *)
Fixpoint faithful (depth : nat) (v : value) : bool :=
  match v with
  | VNull | VBool _ => true
  | VNum f => is_float64 f
  | VStr s => utf8_valid s
  | VArr l => match depth with O => false | S d => forallb (faithful d) l end
  | VMap None => false
  | VMap (Some m) =>
      match depth with
      | O => false
      | S d => forallb (λ p, utf8_valid p.1 && faithful d p.2) (map_to_list m)
      end
  end.

Definition faithful_map (m : gomap) : bool :=
  match m with None => true | Some _ => faithful (Z.to_nat max_nesting) (VMap m) end.

(** ** Strings *)
#[local] Arguments String.append : simpl never.

(** One encoded character. *)
Definition rune (r : string) : Prop := utf8_len r = Some (String.length r).

(** The shapes of a rune, by its first byte. *)
Inductive rune_shape : string → Prop :=
  | rune1 a : code a < 128 → rune_shape (String a "")
  | rune2 a b : 194 ≤ code a ≤ 223 → rune_shape (String a (String b ""))
  | rune3 a b c : 224 ≤ code a ≤ 239 → rune_shape (String a (String b (String c "")))
  | rune4 a b c d : 240 ≤ code a ≤ 244 → rune_shape (String a (String b (String c (String d "")))).

(** The front of a text that [utf8_len] accepts is a rune, whatever follows. *)
Lemma utf8_len_rune s n :
  utf8_len s = Some n →
  ∃ r x, s = r +:+ x ∧ n = String.length r ∧ rune_shape r ∧ ∀ y, utf8_len (r +:+ y) = Some n.
Proof.
  destruct s as [|a s]; [done|]. unfold utf8_len at 1.
  destruct (Z.ltb_spec (code a) 128) as [Ha|Ha].
  { intros [= <-]. exists (String a ""), s. split_and!; [done|done|by constructor|].
    intros y. rewrite app_cons. unfold utf8_len. by rewrite (proj2 (Z.ltb_lt _ _)). }
  destruct s as [|b s]; [done|]. destruct (in_rng 194 223 a) eqn:H2.
  { destruct (cont b) eqn:Hb; [|done]. intros [= <-]. exists (String a (String b "")), s.
    split_and!; [done|done|constructor; unfold in_rng in H2; apply andb_true_iff in H2; rewrite !Z.leb_le in H2; lia|].
    intros y. rewrite !app_cons. unfold utf8_len. by rewrite (proj2 (Z.ltb_ge _ _)), H2, Hb. }
  destruct s as [|c s]; [done|]. destruct (in_rng 224 239 a) eqn:H3.
  { destruct (_ && cont c) eqn:Hc; [|done]. intros [= <-]. exists (String a (String b (String c ""))), s.
    split_and!; [done|done|constructor; unfold in_rng in H3; apply andb_true_iff in H3; rewrite !Z.leb_le in H3; lia|].
    intros y. rewrite !app_cons. unfold utf8_len. by rewrite (proj2 (Z.ltb_ge _ _)), H2, H3, Hc. }
  destruct s as [|d s]; [done|]. destruct (in_rng 240 244 a) eqn:H4; [|done].
  destruct (_ && cont c && cont d) eqn:Hd; [|done]. intros [= <-].
  exists (String a (String b (String c (String d "")))), s.
  split_and!; [done|done|constructor; unfold in_rng in H4; apply andb_true_iff in H4; rewrite !Z.leb_le in H4; lia|].
  intros y. rewrite !app_cons. unfold utf8_len. by rewrite (proj2 (Z.ltb_ge _ _)), H2, H3, H4, Hd.
Qed.

Lemma valid_skip r s : utf8_valid_from (String.length r) (r +:+ s) = utf8_valid s.
Proof. induction r as [|c r IH]; [done|]. by rewrite app_cons. Qed.

(** Induction on the runes of a valid text. *)
Lemma utf8_valid_ind (P : string → Prop) :
  P EmptyString →
  (∀ r s, rune_shape r → (∀ y, utf8_len (r +:+ y) = Some (String.length r)) → utf8_valid s = true →
          P s → P (r +:+ s)) →
  ∀ s, utf8_valid s = true → P s.
Proof.
  intros H0 Hr s. remember (String.length s) as n eqn:Hn. revert s Hn.
  induction n as [n IH] using (well_founded_induction lt_wf). intros s -> Hv.
  destruct s as [|c s]; [done|]. unfold utf8_valid in Hv. cbn [utf8_valid_from] in Hv.
  destruct (utf8_len (String c s)) as [n|] eqn:El; [|done].
  destruct (utf8_len_rune _ _ El) as (r & x & Hs & -> & Hsh & Hloc). rewrite Hs.
  destruct r as [|c' r]; [inversion Hsh|]. rewrite app_cons in Hs. injection Hs as -> ->.
  simpl in Hv. rewrite Nat.sub_0_r, valid_skip in Hv. apply Hr; [done..|].
  eapply IH; [|done|done]. simpl. rewrite length_app_string. lia.
Qed.

(** *** Writing a rune *)
Lemma quote_copy copy s : quote_body 0 copy s = quote_body 0 true s.
Proof. by destruct s. Qed.

(** The text that is written for a rune. *)
Definition quote_rune (r : string) : string := quote_body 0 true r.

Lemma strip_prefix_cons c p d s :
  strip_prefix (String c p) (String d s) = if ascii_dec c d then strip_prefix p s else None.
Proof. done. Qed.

Lemma strip3 p1 p2 p3 a b c y :
  strip_prefix (bytes [p1; p2; p3]) (String a (String b (String c y))) =
  (λ _, y) <$> strip_prefix (bytes [p1; p2; p3]) (String a (String b (String c ""))).
Proof. simpl. repeat (destruct (ascii_dec _ _); [|done]). done. Qed.

Lemma strip_head p1 p a y : 0 ≤ p1 < 256 → code a ≠ p1 → strip_prefix (String (byte p1) p) (String a y) = None.
Proof.
  intros Hp Ha. rewrite strip_prefix_cons. destruct (ascii_dec _ _) as [<-|]; [|done].
  by rewrite code_byte in Ha.
Qed.

Lemma quote_low c s : code c < 128 →
  quote_body 0 true (String c s) = (if json_safe c then String c EmptyString else escape_byte c) +:+ quote_body 0 true s.
Proof. intros H. cbn [quote_body]. by rewrite (proj2 (Z.ltb_lt _ _)). Qed.

Lemma quote_high c s n : 128 ≤ code c → utf8_len (String c s) = Some n →
  quote_body 0 true (String c s) =
    match strip_prefix (bytes [226; 128; 168]) (String c s), strip_prefix (bytes [226; 128; 169]) (String c s) with
    | Some _, _ => "\u2028"%string +:+ quote_body 2 false s
    | _, Some _ => "\u2029"%string +:+ quote_body 2 false s
    | _, _ => String c (quote_body (n - 1) true s)
    end.
Proof. intros H Hn. cbn [quote_body]. by rewrite (proj2 (Z.ltb_ge _ _)), Hn. Qed.

Lemma quote_body_rune r s :
  rune_shape r → (∀ y, utf8_len (r +:+ y) = Some (String.length r)) →
  quote_body 0 true (r +:+ s) = quote_rune r +:+ quote_body 0 true s.
Proof.
  intros Hsh Hloc. pose proof (Hloc s) as Hs. pose proof (Hloc EmptyString) as H0. rewrite app_string_nil_r in H0.
  unfold quote_rune. destruct Hsh as [a Ha|a b Ha|a b c Ha|a b c d Ha]; rewrite ?app_cons in *.
  - rewrite !quote_low by done. by rewrite app_string_assoc.
  - rewrite (quote_high a _ _ ltac:(lia) Hs), (quote_high a _ _ ltac:(lia) H0). cbn [bytes foldr].
    by rewrite !strip_head by lia.
  - rewrite (quote_high a _ _ ltac:(lia) Hs), (quote_high a _ _ ltac:(lia) H0).
    rewrite (strip3 _ _ 168 a b c (EmptyString +:+ s)), (strip3 _ _ 169 a b c (EmptyString +:+ s)).
    destruct (strip_prefix (bytes [226; 128; 168]) _), (strip_prefix (bytes [226; 128; 169]) _);
      simpl; by rewrite ?quote_copy.
  - rewrite (quote_high a _ _ ltac:(lia) Hs), (quote_high a _ _ ltac:(lia) H0). cbn [bytes foldr].
    by rewrite !strip_head by lia.
Qed.

(** *** Reading it back *)
Lemma scan_escape_byte c x :
  code c < 128 → json_safe c = false →
  ∃ e, escape_byte c = String "\" e ∧ scan_escape (e +:+ x) = Some (String c EmptyString, x).
Proof.
  intros H1 H2. destruct c as [[] [] [] [] [] [] [] []]; try (vm_compute in H1; discriminate H1);
    try (vm_compute in H2; discriminate H2); eexists; (split; [reflexivity|]); reflexivity.
Qed.

Lemma scan_escaped fuel e x r y :
  scan_escape e = Some (r, x) → scan_string fuel x = Some y →
  scan_string (S fuel) (String "\" e) = Some (r +:+ y.1, y.2).
Proof. intros H1 H2. cbn [scan_string]. change (code "\" =? 34) with false. change (code "\" =? 92) with true.
  cbv iota. rewrite H1, H2. by destruct y. Qed.

Lemma scan_copied fuel r x y :
  rune_shape r → (∀ y, utf8_len (r +:+ y) = Some (String.length r)) →
  match r with String c _ => 128 ≤ code c ∨ json_safe c = true | _ => False end →
  scan_string fuel x = Some y → scan_string (S fuel) (r +:+ x) = Some (r +:+ y.1, y.2).
Proof.
  intros Hsh Hloc Hc Hx. destruct r as [|c r]; [done|]. specialize (Hloc x).
  assert (34 ≠ code c ∧ 92 ≠ code c ∧ 32 ≤ code c) as (H1 & H2 & H3).
  { destruct Hc as [|Hc]; [lia|]. unfold json_safe in Hc. apply andb_true_iff in Hc as [Hc1 Hc2].
    rewrite negb_true_iff, !orb_false_iff, !Z.eqb_neq in Hc2. apply Z.leb_le in Hc1. lia. }
  rewrite app_cons in *. cbn [scan_string]. rewrite (proj2 (Z.eqb_neq _ 34)), (proj2 (Z.eqb_neq _ 92)), (proj2 (Z.ltb_ge _ 32)) by lia.
  rewrite Hloc, <- app_cons, stake_app, sdrop_app, Hx. by destruct y.
Qed.

Lemma strip3_eq p1 p2 p3 a b c y :
  strip_prefix (bytes [p1; p2; p3]) (String a (String b (String c EmptyString))) = Some y →
  String a (String b (String c EmptyString)) = bytes [p1; p2; p3].
Proof. simpl. by repeat (destruct (ascii_dec _ _) as [->|]; [|done]). Qed.

(** A rune is written as it is, or as an escape that stands for it. *)
Lemma quote_rune_cases r x :
  rune_shape r → utf8_len r = Some (String.length r) →
  quote_rune r = r ∧ match r with String c _ => 128 ≤ code c ∨ json_safe c = true | _ => False end ∨
  ∃ e, quote_rune r = String "\" e ∧ scan_escape (e +:+ x) = Some (r, x).
Proof.
  unfold quote_rune. intros [a Ha|a b Ha|a b c Ha|a b c d Ha] H0.
  - rewrite quote_low by done. change (quote_body 0 true EmptyString) with EmptyString. rewrite app_string_nil_r.
    destruct (json_safe a) eqn:Hs; [by left; auto|right]. by apply scan_escape_byte.
  - left. split; [|left; lia]. rewrite (quote_high a _ _ ltac:(lia) H0). cbn [bytes foldr]. by rewrite !strip_head by lia.
  - rewrite (quote_high a _ _ ltac:(lia) H0).
    destruct (strip_prefix (bytes [226; 128; 168]) _) eqn:E1.
    { right. rewrite (strip3_eq _ _ _ _ _ _ _ E1). by exists "u2028"%string. }
    destruct (strip_prefix (bytes [226; 128; 169]) _) eqn:E2.
    { right. rewrite (strip3_eq _ _ _ _ _ _ _ E2). by exists "u2029"%string. }
    left. split; [done|left; lia].
  - left. split; [|left; lia]. rewrite (quote_high a _ _ ltac:(lia) H0). cbn [bytes foldr]. by rewrite !strip_head by lia.
Qed.

Lemma scan_rune fuel r x y :
  rune_shape r → (∀ y, utf8_len (r +:+ y) = Some (String.length r)) →
  scan_string fuel x = Some y → scan_string (S fuel) (quote_rune r +:+ x) = Some (r +:+ y.1, y.2).
Proof.
  intros Hsh Hloc Hx. pose proof (Hloc EmptyString) as H0. rewrite app_string_nil_r in H0.
  destruct (quote_rune_cases r x Hsh H0) as [[-> Hc]|(e & -> & He)].
  - by apply scan_copied.
  - rewrite app_cons. by eapply scan_escaped.
Qed.

(** A quoted string is read back, whatever follows it. *)
Lemma scan_quote_body s rest :
  utf8_valid s = true →
  ∃ fuel, scan_string fuel (quote_body 0 true s +:+ byte1 34 +:+ rest) = Some (s, rest).
Proof.
  revert s. apply utf8_valid_ind; [by exists 1%nat|]. intros r s Hsh Hloc _ [fuel IH].
  exists (S fuel). rewrite quote_body_rune, app_string_assoc by done. by eapply scan_rune in IH as ->.
Qed.

(** More fuel keeps a result. *)
Lemma scan_string_mono f1 : ∀ f2 s y, (f1 ≤ f2)%nat → scan_string f1 s = Some y → scan_string f2 s = Some y.
Proof.
  induction f1 as [|f1 IH]; intros [|f2] s y Hf; try done; [lia|]. cbn [scan_string].
  assert (∀ p r, match scan_string f1 r with Some (t, rest) => Some (p +:+ t, rest) | None => None end = Some y →
    match scan_string f2 r with Some (t, rest) => Some (p +:+ t, rest) | None => None end = Some y) as Hstep.
  { intros p r. destruct (scan_string f1 r) as [[t rest]|] eqn:E; [|done]. by rewrite (IH f2 r (t, rest)) by (done || lia). }
  destruct s as [|c s]; [done|]. destruct (_ =? 34); [done|].
  destruct (_ =? 92); [destruct (scan_escape s) as [[p r]|]; [|done]; apply Hstep|].
  destruct (_ <? 32); [done|]. destruct (utf8_len _); apply Hstep.
Qed.

Lemma scan_string_any fuel s y :
  scan_string fuel s = Some y → scan_string (S (String.length s)) s = Some y.
Proof.
  intros H. destruct (Nat.le_gt_cases fuel (S (String.length s))) as [Hle|Hlt].
  - by eapply scan_string_mono.
  - rewrite <- H. apply scan_string_fuel; lia.
Qed.

Lemma eat_cons c d s : is_ws d = false → eat c (String d s) = if ascii_dec d c then Some s else None.
Proof. intros H. unfold eat, chop. simpl. by rewrite H. Qed.

Lemma eat_same c s : is_ws c = false → eat c (String c s) = Some s.
Proof. intros H. rewrite eat_cons by done. by destruct (ascii_dec c c). Qed.

Lemma eat_other c d s : is_ws d = false → d ≠ c → eat c (String d s) = None.
Proof. intros H Hd. rewrite eat_cons by done. by destruct (ascii_dec d c). Qed.

Lemma scan_json_quote s rest :
  utf8_valid s = true → scan_quoted (json_quote s +:+ rest) = Some (s, rest).
Proof.
  intros Hs. destruct (scan_quote_body s rest Hs) as [fuel Hf]. apply scan_string_any in Hf.
  unfold json_quote, scan_quoted. change (byte1 34) with (String "034" EmptyString) at 1.
  rewrite !app_cons, eat_cons, !app_string_assoc by done. done.
Qed.

(** ** Numbers *)

(** What may follow a value in an encoding. *)
Definition stop (c : ascii) : bool := (code c =? 44) || (code c =? 93) || (code c =? 125).
Definition ends (rest : string) : Prop := match rest with EmptyString => True | String c _ => stop c = true end.

Lemma stop_cases c : stop c = true → c = ","%char ∨ c = "]"%char ∨ c = "}"%char.
Proof.
  unfold stop. rewrite !orb_true_iff, !Z.eqb_eq.
  intros [[H|H]|H]; [left|right; left|right; right]; by apply code_inj.
Qed.

(** A scanner that stops at the end of a text stops there when [rest] follows. *)
Definition local {A} (scan : string → option (A * string)) : Prop :=
  ∀ s a r rest, ends rest → scan s = Some (a, r) → scan (s +:+ rest) = Some (a, r +:+ rest).

Lemma ends_not rest c : ends rest → stop c = false → chop c rest = None.
Proof.
  destruct rest as [|d rest]; [done|]. intros H Hc. simpl. destruct (ascii_dec d c) as [->|]; [|done].
  simpl in H. congruence.
Qed.

Lemma chop_app c s rest : ends rest → stop c = false → chop c (s +:+ rest) = (λ r, r +:+ rest) <$> chop c s.
Proof.
  intros Hr Hc. destruct s as [|d s]; [by apply ends_not|]. rewrite app_cons. simpl. by destruct (ascii_dec d c).
Qed.

Lemma span_digits_app s rest :
  ends rest → span_digits (s +:+ rest) = ((span_digits s).1, (span_digits s).2 +:+ rest).
Proof.
  intros Hr. induction s as [|c s IH].
  - change (EmptyString +:+ rest) with rest. destruct rest as [|c rest]; [done|]. simpl in *.
    by destruct (stop_cases c Hr) as [->|[->| ->]].
  - rewrite app_cons. simpl. destruct (is_digit c); [|done]. rewrite IH. by destruct (span_digits s).
Qed.

Lemma scan_int_local : local scan_int.
Proof.
  intros s a r rest Hr. unfold scan_int. rewrite chop_app, span_digits_app by done.
  destruct (chop "0" s); simpl; [by intros [= <- <-]|]. destruct (span_digits s) as [[|c d] t]; [done|].
  by intros [= <- <-].
Qed.

Lemma scan_frac_local : local scan_frac.
Proof.
  intros s a r rest Hr. unfold scan_frac. rewrite chop_app by done.
  destruct (chop "." s) as [t|]; simpl; [|by intros [= <- <-]]. rewrite span_digits_app by done.
  destruct (span_digits t) as [[|c d] u]; [done|]. by intros [= <- <-].
Qed.

Lemma scan_exp_local : local scan_exp.
Proof.
  intros s a r rest Hr. destruct s as [|c s].
  - intros [= <- <-]. change (EmptyString +:+ rest) with rest. destruct rest as [|c rest]; [done|].
    simpl in Hr. by destruct (stop_cases c Hr) as [->|[->| ->]].
  - rewrite app_cons. unfold scan_exp. destruct (_ || _); [|by intros [= <- <-]].
    rewrite !chop_app by done. destruct (chop "-" s) as [t|]; simpl.
    + rewrite span_digits_app by done. destruct (span_digits t) as [[|d u] v]; [done|]. by intros [= <- <-].
    + replace (default (s +:+ rest) ((λ r, r +:+ rest) <$> chop "+" s)) with (default s (chop "+" s) +:+ rest)
        by by destruct (chop "+" s).
      rewrite span_digits_app by done. destruct (span_digits _) as [[|d u] v]; [done|]. by intros [= <- <-].
Qed.

Lemma scan_number_app s l rest :
  ends rest → scan_number s = Some (l, EmptyString) → scan_number (s +:+ rest) = Some (l, rest).
Proof.
  intros Hr. unfold scan_number. rewrite chop_app by done.
  replace (match (λ r, r +:+ rest) <$> chop "-" s with Some t => (true, t) | None => (false, s +:+ rest) end)
    with ((match chop "-" s with Some t => (true, t) | None => (false, s) end).1,
          (match chop "-" s with Some t => (true, t) | None => (false, s) end).2 +:+ rest) by by destruct (chop "-" s).
  destruct (match chop "-" s with Some t => (true, t) | None => (false, s) end) as [neg s1]. simpl.
  destruct (scan_int s1) as [[i s2]|] eqn:E1; [|done]. rewrite (scan_int_local _ _ _ _ Hr E1).
  destruct (scan_frac s2) as [[f s3]|] eqn:E2; [|done]. rewrite (scan_frac_local _ _ _ _ Hr E2).
  destruct (scan_exp s3) as [[e s4]|] eqn:E3; [|done]. rewrite (scan_exp_local _ _ _ _ Hr E3).
  intros [= <- ->]. change (EmptyString +:+ rest) with rest. f_equal. f_equal. f_equal.
  rewrite length_app_string. simpl. rewrite Nat.sub_0_r.
  replace (String.length s + String.length rest - String.length rest)%nat with (String.length s) by lia.
  rewrite stake_app. symmetry. rewrite <- (app_string_nil_r s) at 2. apply stake_app.
Qed.

Lemma span_digits_head s c d r : span_digits s = (String c d, r) → ∃ s', s = String c s' ∧ is_digit c = true.
Proof.
  destruct s as [|c' s]; [done|]. simpl. destruct (is_digit c') eqn:E; [|done].
  destruct (span_digits s). intros [= <- _ _]. eauto.
Qed.

Lemma chop_head c s r : chop c s = Some r → s = String c r.
Proof. destruct s as [|d s]; [done|]. simpl. destruct (ascii_dec d c) as [->|]; [|done]. by intros [= <-]. Qed.

Lemma scan_number_head s y :
  scan_number s = Some y → ∃ c s', s = String c s' ∧ (c = "-"%char ∨ is_digit c = true).
Proof.
  unfold scan_number. destruct (chop "-" s) as [t|] eqn:E; [apply chop_head in E; eauto|].
  unfold scan_int. destruct (chop "0" s) as [t|] eqn:E2; [apply chop_head in E2; eauto|].
  destruct (span_digits s) as [[|c d] r] eqn:E3; [done|].
  apply span_digits_head in E3 as (s' & -> & Hc). eauto.
Qed.

(** ** Values *)

(** [t] is read as [j], whatever may follow it. *)
Record reads (t : string) (d : Z) (j : json) : Prop := {
  rd_head : match t with String c _ => is_ws c = false ∧ c ≠ "]"%char ∧ c ≠ "}"%char | EmptyString => False end;
  rd_parse rest fuel : ends rest → (2 * String.length (t +:+ rest) + 2 ≤ fuel)%nat →
    parse_value fuel d (t +:+ rest) = Some (j, rest) }.

(** The scalars begin with no quote, bracket or brace. *)
Lemma reads_scalar c t d j :
  is_ws c = false → c ≠ "]"%char → c ≠ "}"%char → c ≠ "034"%char → c ≠ "["%char → c ≠ "{"%char →
  (∀ rest, ends rest → scan_scalar (String c t +:+ rest) = Some (j, rest)) →
  reads (String c t) d j.
Proof.
  intros Hw H1 H2 H3 H4 H5 Hs. split; [done|]. intros rest [|fuel] Hr Hf; [lia|].
  specialize (Hs rest Hr). rewrite app_cons in *. cbn [parse_value]. rewrite !eat_cons by done.
  by do 3 (destruct (ascii_dec c _); [congruence|]).
Qed.

Lemma reads_bool (b : bool) d : reads (if b then "true" else "false")%string d (JBool b).
Proof. destruct b; by apply reads_scalar. Qed.

Lemma reads_null d : reads "null" d JNull.
Proof. by apply reads_scalar. Qed.

Lemma reads_number t l d : scan_number t = Some (l, EmptyString) → reads t d (JNum l).
Proof.
  intros Hs. destruct (scan_number_head _ _ Hs) as (c & t' & -> & Hc).
  assert (∀ x, is_digit x = false → x ≠ "-"%char → c ≠ x) as Hne by (intros x Hx Hm ->; destruct Hc; congruence).
  assert (is_ws c = false) as Hw.
  { destruct Hc as [->|Hc]; [done|]. unfold is_digit, is_ws in *. apply andb_true_iff in Hc.
    rewrite !Z.leb_le in Hc. rewrite !orb_false_iff, !Z.eqb_neq. lia. }
  apply reads_scalar; try done; try by apply Hne.
  intros rest Hr. pose proof (scan_number_app _ _ _ Hr Hs) as Hn. rewrite app_cons in *.
  assert (∀ x p, is_digit x = false → x ≠ "-"%char → strip_prefix (String x p) (String c (t' +:+ rest)) = None) as Hno.
  { intros x p Hx Hm. rewrite strip_prefix_cons. destruct (ascii_dec x c) as [->|]; [|done]. by destruct (Hne c). }
  unfold scan_scalar. simpl skip_ws. rewrite Hw, !Hno by done. by rewrite Hn.
Qed.

Lemma reads_num f t d :
  is_float64 f = true → json_float f = Some t → ∃ l, parse_float l = Some f ∧ reads t d (JNum l).
Proof.
  intros (t' & l & Ht & Hs & Hl)%float64_reads_back. rewrite Ht. intros [= <-]. exists l.
  split; [done|by apply reads_number].
Qed.

Lemma json_quote_cons s : json_quote s = String "034" (quote_body 0 true s +:+ byte1 34).
Proof. done. Qed.

Lemma reads_str s d : utf8_valid s = true → reads (json_quote s) d (JStr s).
Proof.
  intros Hs. split; [done|]. intros rest [|fuel] Hr Hf; [lia|]. pose proof (scan_json_quote s rest Hs) as Hq.
  rewrite json_quote_cons, app_cons in *. cbn [parse_value]. rewrite eat_cons by done. by rewrite Hq.
Qed.

(** The elements of an array, up to its bracket. *)
Lemma reads_elems ts js d : ∀ t0 j0 fuel rest,
  reads t0 d j0 → Forall2 (λ t j, reads t d j) ts js →
  (2 * String.length (join "," (t0 :: ts) +:+ "]" +:+ rest) + 3 ≤ fuel)%nat →
  parse_elems fuel d (join "," (t0 :: ts) +:+ "]" +:+ rest) = Some (j0 :: js, rest).
Proof.
  intros t0 j0 fuel rest H0 H. revert t0 j0 fuel H0.
  induction H as [|t j ts js Ht Hts IH]; intros t0 j0 [|fuel] [_ H0] Hf; try lia; cbn [parse_elems].
  - change (join "," [t0]) with t0 in *. rewrite H0 by (done || lia).
    change ("]" +:+ rest) with (String "]" rest). by rewrite !eat_cons.
  - change (join "," (t0 :: t :: ts)) with (t0 +:+ "," +:+ join "," (t :: ts)) in *.
    rewrite !app_string_assoc in *. rewrite H0 by (done || lia).
    change ("," +:+ join "," (t :: ts) +:+ "]" +:+ rest) with (String "," (join "," (t :: ts) +:+ "]" +:+ rest)) in *.
    rewrite eat_same by done. rewrite (IH t j); [done|done|].
    rewrite length_app_string in Hf. cbn [String.length] in Hf. lia.
Qed.

Lemma reads_arr ts js d :
  d + 1 ≤ max_nesting → Forall2 (λ t j, reads t (d + 1) j) ts js →
  reads ("[" +:+ join "," ts +:+ "]") d (JArr js).
Proof.
  intros Hd H. split; [done|]. intros rest [|fuel] Hr Hf; [lia|]. rewrite !app_string_assoc in *.
  change ("[" +:+ join "," ts +:+ "]" +:+ rest) with (String "[" (join "," ts +:+ "]" +:+ rest)) in *.
  cbn [parse_value]. rewrite eat_same, eat_other by done. rewrite (proj2 (Z.ltb_ge _ _)) by done.
  destruct H as [|t j ts js Ht Hts].
  - change (join "," [] +:+ "]" +:+ rest) with (String "]" rest). by rewrite eat_cons.
  - assert (∃ c x, join "," (t :: ts) +:+ "]" +:+ rest = String c x ∧ is_ws c = false ∧ c ≠ "]"%char) as (c & x & Hj & Hw & Hc).
    { destruct Ht as [Hh _]. destruct t as [|c t]; [done|]. destruct Hh as (? & ? & _).
      destruct ts; simpl; rewrite !app_cons; eauto. }
    assert (eat "]" (join "," (t :: ts) +:+ "]" +:+ rest) = None) as ->.
    { rewrite Hj, eat_cons by done. by destruct (ascii_dec _ _). }
    rewrite (reads_elems ts js (d + 1) t j); [done|done|done|]. cbn [String.length] in Hf. lia.
Qed.

(** The members of an object, up to its brace. *)
Definition member_text (p : string * string) : string := json_quote p.1 +:+ ":" +:+ p.2.
Definition reads_member (d : Z) (p : string * string) (m : string * json) : Prop :=
  p.1 = m.1 ∧ utf8_valid p.1 = true ∧ reads p.2 d m.2.

Lemma reads_members ps ms d : ∀ p m fuel rest,
  reads_member d p m → Forall2 (reads_member d) ps ms →
  (2 * String.length (join "," (map member_text (p :: ps)) +:+ "}" +:+ rest) + 3 ≤ fuel)%nat →
  parse_members fuel d (join "," (map member_text (p :: ps)) +:+ "}" +:+ rest) = Some (m :: ms, rest).
Proof.
  assert (∀ (p : string * string) (m : string * json) x, reads_member d p m →
    scan_quoted (member_text p +:+ x) = Some (m.1, ":" +:+ p.2 +:+ x)) as Hkey.
  { intros [k t] m x (Hk & Hv & _). unfold member_text. rewrite !app_string_assoc, scan_json_quote by done.
    by rewrite <- Hk. }
  assert (∀ (p : string * string) x, (String.length (p.2 +:+ x) < String.length (member_text p +:+ x))%nat) as Hlen.
  { intros p x. unfold member_text. rewrite !length_app_string. simpl. lia. }
  intros p m fuel rest H0 H. revert p m fuel H0.
  induction H as [|p' m' ps ms Hp Hps IH]; intros p m [|fuel] Hpm Hf; try lia; cbn [parse_members];
    destruct m as [k j]; pose proof Hpm as (_ & _ & [_ Hr]).
  - change (join "," (map member_text [p])) with (member_text p) in *. rewrite (Hkey p (k, j)) by done.
    change (":" +:+ p.2 +:+ "}" +:+ rest) with (String ":" (p.2 +:+ "}" +:+ rest)). rewrite eat_same by done.
    pose proof (Hlen p ("}" +:+ rest)). simpl in Hr. rewrite Hr by (done || lia).
    change ("}" +:+ rest) with (String "}" rest). by rewrite eat_other, eat_same.
  - change (join "," (map member_text (p :: p' :: ps))) with (member_text p +:+ "," +:+ join "," (map member_text (p' :: ps))) in *.
    rewrite !app_string_assoc in *. set (more := join "," (map member_text (p' :: ps)) +:+ "}" +:+ rest) in *.
    rewrite (Hkey p (k, j)) by done.
    change (":" +:+ p.2 +:+ "," +:+ more) with (String ":" (p.2 +:+ "," +:+ more)). rewrite eat_same by done.
    pose proof (Hlen p ("," +:+ more)). simpl in Hr. rewrite Hr by (done || lia).
    change ("," +:+ more) with (String "," more) in *. rewrite eat_same by done.
    subst more. rewrite (IH p' m'); [done|done|].
    rewrite length_app_string in Hf. cbn [String.length] in Hf. lia.
Qed.

Lemma reads_obj ps ms d :
  d + 1 ≤ max_nesting → Forall2 (reads_member (d + 1)) ps ms →
  reads ("{" +:+ join "," (map member_text ps) +:+ "}") d (JObj ms).
Proof.
  intros Hd H. split; [done|]. intros rest [|fuel] Hr Hf; [lia|]. rewrite !app_string_assoc in *.
  change ("{" +:+ join "," (map member_text ps) +:+ "}" +:+ rest)
    with (String "{" (join "," (map member_text ps) +:+ "}" +:+ rest)) in *.
  cbn [parse_value]. rewrite !eat_other, eat_same by done. rewrite (proj2 (Z.ltb_ge _ _)) by done.
  destruct H as [|p m ps ms Hp Hps].
  - change (join "," (map member_text []) +:+ "}" +:+ rest) with (String "}" rest). by rewrite eat_same.
  - assert (∃ x, join "," (map member_text (p :: ps)) +:+ "}" +:+ rest = String "034" x) as [x Hx].
    { destruct ps; eexists; cbn [map join]; unfold member_text at 1; rewrite json_quote_cons, !app_cons; reflexivity. }
    assert (eat "}" (join "," (map member_text (p :: ps)) +:+ "}" +:+ rest) = None) as -> by by rewrite Hx, eat_other.
    rewrite (reads_members ps ms (d + 1) p m); [done|done|done|]. cbn [String.length] in Hf. lia.
Qed.

(** ** What is read is the value that was written *)
Definition reads_back (d : Z) (t : string) (v : value) : Prop := ∃ j, to_value j = Some v ∧ reads t d j.

Lemma to_value_arr js vs :
  Forall2 (λ j v, to_value j = Some v) js vs → to_value (JArr js) = Some (VArr vs).
Proof.
  intros H. simpl. apply fmap_Some. exists vs. split; [|done].
  induction H as [|j v js vs Hj Hjs IH]; [done|]. by rewrite Hj, IH.
Qed.

Lemma foldl_insert_union (kvs : list (string * value)) : ∀ acc : gmap string value,
  NoDup kvs.*1 → foldl (λ m p, <[p.1:=p.2]> m) acc kvs = list_to_map kvs ∪ acc.
Proof.
  induction kvs as [|[k v] kvs IH]; intros acc Hnd; simpl; [by rewrite (left_id_L ∅ (∪))|].
  apply NoDup_cons in Hnd as [Hk Hnd]. rewrite IH by done.
  rewrite <- insert_union_l. rewrite <- insert_union_r; [done|]. by apply not_elem_of_list_to_map.
Qed.

Lemma to_value_obj ms (m : gmap string value) kvs :
  kvs ≡ₚ map_to_list m → Forall2 (λ q p, q.1 = p.1 ∧ to_value q.2 = Some p.2) ms kvs →
  to_value (JObj ms) = Some (VMap (Some m)).
Proof.
  intros Hp H. simpl. apply fmap_Some. exists m. split; [|done].
  assert (NoDup kvs.*1) as Hnd by (rewrite Hp; apply NoDup_fst_map_to_list).
  assert (foldl (λ m p, <[p.1:=p.2]> m) ∅ kvs = m) as Hm.
  { rewrite foldl_insert_union, (right_id_L ∅ (∪)) by done. rewrite <- (list_to_map_to_list m).
    by apply list_to_map_proper. }
  rewrite <- Hm. clear Hp Hnd Hm. generalize (∅ : gmap string value) as acc.
  induction H as [|[k j] [k' v] ms kvs [Hk Hj] Hms IH]; intros acc; [done|]. simpl in *. subst k'. rewrite Hj. apply IH.
Qed.

Lemma elems_read_back d l ts :
  Forall (λ v, ∀ t, marshal v = Some t → reads_back d t v) l → all_some (map marshal l) = Some ts →
  ∃ js, Forall2 (λ t j, reads t d j) ts js ∧ Forall2 (λ j v, to_value j = Some v) js l.
Proof.
  intros H. rewrite all_some_Some. revert ts. induction H as [|v l Hv Hl IH]; intros [|t ts]; try done; simpl.
  - by exists [].
  - intros [= Ht Hts]. destruct (Hv t Ht) as (j & Hj & Hr). destruct (IH ts Hts) as (js & H1 & H2).
    exists (j :: js). by split; constructor.
Qed.

Lemma members_read_back d kvs texts :
  Forall (λ p, utf8_valid p.1 = true ∧ ∀ t, marshal p.2 = Some t → reads_back d t p.2) kvs →
  all_some (map encode_member (map (λ p, (p.1, marshal p.2)) kvs)) = Some texts →
  ∃ ps ms, texts = map member_text ps ∧ Forall2 (reads_member d) ps ms ∧
    Forall2 (λ q p, q.1 = p.1 ∧ to_value q.2 = Some p.2) ms kvs.
Proof.
  intros H. rewrite all_some_Some. revert texts. induction H as [|[k v] l [Hk Hv] Hl IH]; intros [|x texts]; try done; simpl.
  - by exists [], [].
  - unfold encode_member at 1. simpl in *. destruct (marshal v) as [t|]; [|done]. intros [= <- Hts].
    destruct (Hv t eq_refl) as (j & Hj & Hr). destruct (IH texts Hts) as (ps & ms & -> & H1 & H2).
    exists ((k, t) :: ps), ((k, j) :: ms). split; [done|]. by split; (constructor; [|done]); split_and!.
Qed.

Lemma marshal_reads_back v : ∀ n d t,
  faithful n v = true → d + Z.of_nat n ≤ max_nesting → marshal v = Some t → reads_back d t v.
Proof.
  induction v as [|b|f|s|l IH| |m IH] using value_rect_strong; intros n d t Hf Hd Ht; cbn [marshal] in *.
  - injection Ht as <-. exists JNull. split; [done|apply reads_null].
  - injection Ht as <-. exists (JBool b). split; [done|apply reads_bool].
  - assert (is_float64 f = true) as Hok by by destruct n.
    destruct (reads_num f t d Hok Ht) as (l & Hl & Hr). exists (JNum l). simpl. by rewrite Hl.
  - injection Ht as <-. exists (JStr s). split; [done|]. apply reads_str. by destruct n.
  - destruct n as [|n]; [done|]. apply fmap_Some in Ht as (ts & Hts & ->).
    destruct (elems_read_back (d + 1) l ts) as (js & H1 & H2); [|done|].
    { apply Forall_forall. intros v Hv t Ht. apply (IH v Hv n); [|lia|done].
      simpl in Hf. rewrite forallb_forall in Hf. by apply Hf, list_elem_of_In. }
    exists (JArr js). split; [by apply to_value_arr|]. apply reads_arr; [lia|done].
  - by destruct n.
  - destruct n as [|n]; [done|]. unfold encode_object in Ht. rewrite map_fold_entries in Ht.
    apply fmap_Some in Ht as (texts & Hts & ->).
    destruct (Permutation_map_inv _ _ (by_key_Permutation (map (λ p, (p.1, marshal p.2)) (map_to_list m)))) as (kvs & Hk & Hp).
    rewrite Hk in Hts. destruct (members_read_back (d + 1) kvs texts) as (ps & ms & -> & H1 & H2); [|done|].
    { rewrite <- Hp. apply Forall_forall. intros [k v] Hin. simpl in Hf. rewrite forallb_forall in Hf.
      specialize (Hf (k, v) (proj1 (list_elem_of_In _ _) Hin)). apply andb_true_iff in Hf as [Hk' Hv]. split; [done|].
      intros t Ht. apply elem_of_map_to_list in Hin. apply (IH k v Hin n); [done|lia|done]. }
    exists (JObj ms). split; [by eapply to_value_obj|]. apply reads_obj; [lia|done].
Qed.

Lemma reads_parse t j : reads t 0 j → json_parse t = Some j.
Proof.
  intros [_ Hr]. unfold json_parse. rewrite <- (app_string_nil_r t) at 2. by rewrite Hr by (done || rewrite app_string_nil_r; lia).
Qed.


(** ** The round trip of json.Marshal and json.Unmarshal on maps *)
Lemma unmarshal_marshal_map m t :
  faithful_map m = true → marshal_map m = Some t → unmarshal_map t = Some m.
Proof.
  unfold marshal_map, unmarshal_map. destruct m as [m|]; [|by intros _ [= <-]]. intros Hf Ht.
  destruct (marshal_reads_back (VMap (Some m)) _ 0 t Hf) as (j & Hj & Hr); [vm_compute; discriminate|done|].
  rewrite (reads_parse _ _ Hr).
  assert (∃ l, j = JObj l) as [l ->].
  { destruct j; eauto; try done; by apply fmap_Some in Hj as (? & _ & [=]). }
  unfold to_gomap. by rewrite Hj.
Qed.

(** What JSON can carry has an encoding. *)
Lemma faithful_marshal v : ∀ n, faithful n v = true → is_Some (marshal v).
Proof.
  induction v as [|b|f|s|l IH| |m IH] using value_rect_strong; intros n Hf; try by eexists.
  - assert (is_float64 f = true) as (t & _ & Ht & _)%float64_reads_back by by destruct n. by exists t.
  - destruct n as [|n]; [done|]. apply marshal_arr_Some, Forall_forall. intros v Hv. apply (IH v Hv n).
    simpl in Hf. rewrite forallb_forall in Hf. by apply Hf, list_elem_of_In.
  - destruct n as [|n]; [done|]. apply marshal_map_Some. intros k x Hx. apply (IH k x Hx n).
    simpl in Hf. rewrite forallb_forall in Hf. apply elem_of_map_to_list in Hx.
    specialize (Hf (k, x) (proj1 (list_elem_of_In _ _) Hx)). by apply andb_true_iff in Hf as [_ Hf].
Qed.

Lemma faithful_map_marshal m : faithful_map m = true → is_Some (marshal_map m).
Proof. destruct m as [m|]; [apply faithful_marshal|by eexists]. Qed.

(** ** What was decoded can be carried *)

Lemma utf8_valid_app s t : utf8_valid s = true → utf8_valid t = true → utf8_valid (s +:+ t) = true.
Proof.
  intros Hs Ht. revert s Hs. apply utf8_valid_ind; [done|]. intros r s Hsh Hloc _ IH.
  rewrite app_string_assoc. unfold utf8_valid. destruct r as [|c r]; [inversion Hsh|].
  rewrite app_cons. cbn [utf8_valid_from]. rewrite <- app_cons, Hloc. simpl. by rewrite Nat.sub_0_r, valid_skip.
Qed.

Lemma rune_valid r : utf8_len r = Some (String.length r) → utf8_valid r = true.
Proof.
  destruct r as [|c r]; [done|]. intros H. unfold utf8_valid. cbn [utf8_valid_from]. rewrite H. simpl.
  rewrite Nat.sub_0_r. rewrite <- (app_string_nil_r r) at 2. by rewrite valid_skip.
Qed.

Lemma utf8_encode_valid r :
  0 ≤ r < 55296 ∨ 57344 ≤ r < 1114112 → utf8_valid (utf8_encode r) = true.
Proof.
  intros Hr. apply rune_valid. unfold utf8_encode.
  pose proof (Z.div_mod r 64 ltac:(lia)). pose proof (Z.mod_pos_bound r 64 ltac:(lia)).
  pose proof (Z.div_mod (r / 64) 64 ltac:(lia)). pose proof (Z.mod_pos_bound (r / 64) 64 ltac:(lia)).
  pose proof (Z.div_mod (r / 4096) 64 ltac:(lia)). pose proof (Z.mod_pos_bound (r / 4096) 64 ltac:(lia)).
  assert (r / 4096 = r / 64 / 64) by (rewrite Z.div_div by lia; done).
  assert (r / 262144 = r / 4096 / 64) by (rewrite Z.div_div by lia; done).
  assert (∀ (b : bool) {A} (x y : A), b = true → (if b then x else y) = x) as Hif by by intros [].
  assert (∀ (b : bool) {A} (x y : A), b = false → (if b then x else y) = y) as Hif' by by intros [].
  destruct (Z.ltb_spec r 128); [|destruct (Z.ltb_spec r 2048); [|destruct (Z.ltb_spec r 65536)]];
    cbn [bytes foldr String.length]; unfold utf8_len, cont, in_rng; rewrite !code_byte by lia.
  - by rewrite Hif by lia.
  - rewrite Hif' by lia. rewrite !Hif by lia. done.
  - rewrite Hif' by lia. rewrite Hif' by lia. rewrite Hif by lia. rewrite Hif; [done|].
    apply andb_true_iff. split; [|lia]. destruct (Z.eqb_spec (224 + r / 4096) 224); [lia|].
    destruct (Z.eqb_spec (224 + r / 4096) 237); lia.
  - rewrite Hif' by lia. rewrite Hif' by lia. rewrite Hif' by lia. rewrite Hif by lia. rewrite Hif; [done|].
    apply andb_true_iff. split; [apply andb_true_iff; split|lia]; [|lia].
    destruct (Z.eqb_spec (240 + r / 262144) 240); [lia|]. destruct (Z.eqb_spec (240 + r / 262144) 244); lia.
Qed.

Lemma hex_val_range c x : hex_val c = Some x → 0 ≤ x < 16.
Proof.
  unfold hex_val, is_digit, in_rng, digit_val. pose proof (code_range c).
  destruct (_ && _) eqn:E1; [intros [= <-]; lia|]. destruct (_ && _) eqn:E2 in |- *; [intros [= <-]; lia|].
  destruct (_ && _) eqn:E3 in |- *; [intros [= <-]; lia|done].
Qed.

Lemma hex4_range s r t : hex4 s = Some (r, t) → 0 ≤ r < 65536.
Proof.
  destruct s as [|a [|b [|c [|d s]]]]; simpl; try done.
  destruct (hex_val a) eqn:Ha, (hex_val b) eqn:Hb, (hex_val c) eqn:Hc, (hex_val d) eqn:Hd; try done.
  apply hex_val_range in Ha, Hb, Hc, Hd. intros [= <- _]. lia.
Qed.

Lemma scan_escape_valid s p r : scan_escape s = Some (p, r) → utf8_valid p = true.
Proof.
  unfold scan_escape. destruct s as [|e s]; [done|]. destruct (simple_escape e) as [b|] eqn:Eb.
  { intros [= <- _]. revert Eb. unfold simple_escape. destruct (code e) as [|x|]; try done.
    do 8 (destruct x as [x|x|]; try done; try (by intros [= <-])). }
  destruct (negb _); [done|]. destruct (hex4 s) as [[x rest]|] eqn:Ex; [|done]. apply hex4_range in Ex.
  destruct ((55296 <=? x) && (x <? 57344)) eqn:Esur; [|intros [= <- _]; apply utf8_encode_valid; lia].
  destruct (strip_prefix _ rest) as [rest'|]; [|by intros [= <- _]].
  destruct (hex4 rest') as [[y rest'']|] eqn:Ey; [|by intros [= <- _]]. apply hex4_range in Ey.
  destruct (_ && (y <? 57344)) eqn:Elow; [|by intros [= <- _]]. intros [= <- _]. apply utf8_encode_valid. lia.
Qed.

Lemma scan_string_valid fuel : ∀ s t r, scan_string fuel s = Some (t, r) → utf8_valid t = true.
Proof.
  induction fuel as [|fuel IH]; intros s t r; [done|]. cbn [scan_string].
  assert (∀ p x, utf8_valid p = true →
    match scan_string fuel x with Some (u, rest) => Some (p +:+ u, rest) | None => None end = Some (t, r) →
    utf8_valid t = true) as Hstep.
  { intros p x Hp. destruct (scan_string fuel x) as [[u rest]|] eqn:E; [|done]. intros [= <- _].
    apply utf8_valid_app; [done|by eapply IH]. }
  destruct s as [|c s]; [done|]. destruct (_ =? 34); [by intros [= <- _]|].
  destruct (_ =? 92).
  { destruct (scan_escape s) as [[p x]|] eqn:E; [|done]. apply Hstep. by eapply scan_escape_valid. }
  destruct (_ <? 32); [done|]. destruct (utf8_len (String c s)) as [n|] eqn:El; [|by apply Hstep].
  apply Hstep. destruct (utf8_len_rune _ _ El) as (u & x & -> & -> & _ & Hloc). rewrite stake_app.
  apply rune_valid. rewrite <- (app_string_nil_r u) at 1. apply Hloc.
Qed.

Lemma scan_quoted_valid s t r : scan_quoted s = Some (t, r) → utf8_valid t = true.
Proof. unfold scan_quoted. destruct (eat "034" s); [|done]. apply scan_string_valid. Qed.

(** The texts are valid and the nesting is within [depth]. *)
Fixpoint json_ok (depth : nat) (j : json) : bool :=
  match j with
  | JNull | JBool _ | JNum _ => true
  | JStr s => utf8_valid s
  | JArr l => match depth with O => false | S d => forallb (json_ok d) l end
  | JObj l => match depth with O => false | S d => forallb (λ p, utf8_valid p.1 && json_ok d p.2) l end
  end.

Definition left_at (d : Z) : nat := Z.to_nat (max_nesting - d).

Lemma left_at_succ d : d + 1 ≤ max_nesting → left_at d = S (left_at (d + 1)).
Proof. unfold left_at. intros H. lia. Qed.

Lemma scan_scalar_ok s j r n : scan_scalar s = Some (j, r) → json_ok n j = true.
Proof. unfold scan_scalar. intros H. repeat case_match; simplify_eq; by destruct n. Qed.

Lemma parse_ok fuel :
  (∀ d s j r, parse_value fuel d s = Some (j, r) → json_ok (left_at d) j = true) ∧
  (∀ d s l r, parse_elems fuel d s = Some (l, r) → forallb (json_ok (left_at d)) l = true) ∧
  (∀ d s l r, parse_members fuel d s = Some (l, r) →
     forallb (λ p, utf8_valid p.1 && json_ok (left_at d) p.2) l = true).
Proof.
  induction fuel as [|fuel (IHv & IHe & IHm)]; [done|]. split; [|split]; intros d s x r; simpl.
  - destruct (eat "034" s).
    { destruct (scan_quoted s) as [[t u]|] eqn:E; [|done]. intros [= <- _]. apply scan_quoted_valid in E.
      by destruct (left_at d). }
    destruct (eat "[" s) as [s'|].
    { destruct (Z.ltb_spec max_nesting (d + 1)); [done|]. rewrite left_at_succ by done.
      destruct (eat "]" s'); [by intros [= <- _]|].
      destruct (parse_elems fuel (d + 1) s') as [[l u]|] eqn:E; [|done]. intros [= <- _]. by eapply IHe. }
    destruct (eat "{" s) as [s'|]; [|apply scan_scalar_ok].
    destruct (Z.ltb_spec max_nesting (d + 1)); [done|]. rewrite left_at_succ by done.
    destruct (eat "}" s'); [by intros [= <- _]|].
    destruct (parse_members fuel (d + 1) s') as [[l u]|] eqn:E; [|done]. intros [= <- _]. by eapply IHm.
  - destruct (parse_value fuel d s) as [[v u]|] eqn:Ev; [|done]. apply IHv in Ev. destruct (eat "," u) as [u'|].
    + destruct (parse_elems fuel d u') as [[l u'']|] eqn:E; [|done]. intros [= <- _]. simpl. by rewrite Ev, (IHe _ _ _ _ E).
    + destruct (eat "]" u); [|done]. intros [= <- _]. simpl. by rewrite Ev.
  - destruct (scan_quoted s) as [[k u]|] eqn:Ek; [|done]. apply scan_quoted_valid in Ek. destruct (eat ":" u) as [u1|]; [|done].
    destruct (parse_value fuel d u1) as [[v u2]|] eqn:Ev; [|done]. apply IHv in Ev. destruct (eat "," u2) as [u'|].
    + destruct (parse_members fuel d u') as [[l u'']|] eqn:E; [|done]. intros [= <- _]. simpl. by rewrite Ek, Ev, (IHm _ _ _ _ E).
    + destruct (eat "}" u2); [|done]. intros [= <- _]. simpl. by rewrite Ek, Ev.
Qed.

Lemma json_parse_ok s j : json_parse s = Some j → json_ok (left_at 0) j = true.
Proof.
  unfold json_parse. destruct (parse_value _ 0 s) as [[v r]|] eqn:E; [|done].
  apply (proj1 (parse_ok _)) in E. destruct (skip_ws r); [|done]. by intros [= <-].
Qed.

Lemma to_value_arr_inv l v :
  to_value (JArr l) = Some v → ∃ vs, v = VArr vs ∧ Forall2 (λ j v, to_value j = Some v) l vs.
Proof.
  simpl. intros (vs & Hvs & ->)%fmap_Some. exists vs. split; [done|]. revert vs Hvs.
  induction l as [|j l IH]; intros vs; [by intros [= <-]|]. destruct (to_value j) eqn:Ej; [|done].
  destruct (_ l) eqn:El in |- *; [|done]. intros [= <-]. constructor; auto.
Qed.

(** A map that is read from an object: every entry comes from a member. *)
Lemma to_value_obj_inv l v :
  to_value (JObj l) = Some v →
  ∃ m, v = VMap (Some m) ∧ ∀ k x, m !! k = Some x → ∃ j, (k, j) ∈ l ∧ to_value j = Some x.
Proof.
  simpl. intros (m & Hm & ->)%fmap_Some. exists m. split; [done|].
  assert (∀ k x, (∅ : gmap string value) !! k = Some x → ∃ j, (k, j) ∈ l ∧ to_value j = Some x) as Hacc.
  { intros k x. by rewrite lookup_empty. }
  revert Hacc Hm. generalize (∅ : gmap string value) as acc. assert (l ⊆ l) as Hsub by done.
  revert Hsub. generalize l at 1 4 as l'. induction l' as [|[k j] l' IH]; intros Hsub acc Hacc Hgo; [by injection Hgo as <-|].
  destruct (to_value j) as [v|] eqn:Ej; [|done]. refine (IH _ (<[k:=v]> acc) _ Hgo); [set_solver|].
  intros k' x'. destruct (decide (k = k')) as [<-|Hne].
  - rewrite lookup_insert_eq. intros [= <-]. exists j. split; [set_solver|done].
  - rewrite lookup_insert_ne by done. apply Hacc.
Qed.

Lemma to_value_faithful n : ∀ j v,
  json_ok n j = true → to_value j = Some v → faithful n v = true.
Proof.
  induction n as [|n IH]; intros [|b|l|s|l|l] v Hj Hv; try done;
    try (by injection Hv as <-);
    try (simpl in Hv; apply fmap_Some in Hv as (f & Hf & ->); by apply parse_float64 in Hf).
  - apply to_value_arr_inv in Hv as (vs & -> & Hvs). simpl in *. rewrite forallb_forall in *.
    intros x Hx%list_elem_of_In. apply list_elem_of_lookup in Hx as [i Hi].
    destruct (Forall2_lookup_r _ _ _ _ _ Hvs Hi) as (j & Hl & Hjx). apply list_elem_of_lookup_2, list_elem_of_In in Hl. eauto.
  - apply to_value_obj_inv in Hv as (m & -> & Hm). simpl in *. rewrite forallb_forall in *.
    intros [k x] Hx%list_elem_of_In. apply elem_of_map_to_list in Hx.
    destruct (Hm k x Hx) as (j & Hl%list_elem_of_In & Hjx). specialize (Hj _ Hl). simpl in *.
    apply andb_true_iff in Hj as [-> Hj]. simpl. eauto.
Qed.

Lemma faithful_mono n : ∀ k v, (n ≤ k)%nat → faithful n v = true → faithful k v = true.
Proof.
  induction n as [|n IH]; intros k [|b|f|s|l|[m|]] Hk Hf; try done; try (by destruct k);
    destruct k as [|k]; try lia; simpl in *; rewrite forallb_forall in *; intros x Hx.
  - apply IH; [lia|auto].
  - specialize (Hf x Hx). apply andb_true_iff in Hf as [-> Hf]. simpl. apply IH; [lia|done].
Qed.

Lemma to_gomap_faithful n j m :
  (n ≤ Z.to_nat max_nesting)%nat → json_ok n j = true → to_gomap j = Some m →
  faithful_map m = true.
Proof.
  intros Hle Hj. unfold to_gomap. destruct j as [| | | | |l]; try done; [by intros [= <-]|].
  destruct (to_value (JObj l)) as [[| | | | |g]|] eqn:E; try done. intros [= <-].
  destruct g as [g|]; [|done]. exact (faithful_mono n _ _ Hle (to_value_faithful n (JObj l) _ Hj E)).
Qed.

Lemma to_gomaps_faithful n l : ∀ ms,
  (n ≤ Z.to_nat max_nesting)%nat → forallb (json_ok n) l = true →
  to_gomaps l = Some ms → Forall (λ m, faithful_map m = true) ms.
Proof.
  induction l as [|j l IH]; intros ms Hle Hp; cbn [forallb to_gomaps] in *.
  - intros [= <-]. constructor.
  - apply andb_true_iff in Hp as [Hj Hp]. destruct (to_gomap j) as [m|] eqn:Em; [|discriminate].
    destruct (to_gomaps l) as [ms'|]; [|discriminate]. intros [= <-].
    constructor; [exact (to_gomap_faithful n j m Hle Hj Em)|exact (IH ms' Hle Hp eq_refl)].
Qed.

(** The items of a payload can all be carried. *)
Lemma unmarshal_maps_faithful s ms :
  unmarshal_maps s = Some ms → Forall (λ m, faithful_map m = true) ms.
Proof.
  unfold unmarshal_maps. destruct (json_parse s) as [j|] eqn:Hp; [|done]. apply json_parse_ok in Hp.
  assert (∃ n, left_at 0 = S n ∧ (n ≤ Z.to_nat max_nesting)%nat) as (n & Hl & Hle).
  { exists (left_at 1). split; [by apply left_at_succ|]. unfold left_at. lia. }
  rewrite Hl in Hp. clear Hl. destruct j as [| | | |l|]; try discriminate.
  - intros [= <-]. constructor.
  - exact (to_gomaps_faithful n l ms Hle Hp).
Qed.

Lemma unmarshal_map_faithful s m :
  unmarshal_map s = Some m → faithful_map m = true.
Proof.
  unfold unmarshal_map. destruct (json_parse s) as [j|] eqn:Hp; [|done]. apply json_parse_ok in Hp.
  intros Hm. refine (to_gomap_faithful (left_at 0) j m _ Hp Hm). unfold left_at. by rewrite Z.sub_0_r.
Qed.

(** ** Encoded objects and lists of strings *)
Lemma all_members_Some ps : all_some (map encode_member (map (λ p, (p.1, Some p.2)) ps)) = Some (map member_text ps).
Proof. apply all_some_Some. by rewrite !map_map. Qed.

Lemma encode_object_reads l ps ms d :
  by_key l = map (λ p, (p.1, Some p.2)) ps → d + 1 ≤ max_nesting → Forall2 (reads_member (d + 1)) ps ms →
  ∃ t, encode_object l = Some t ∧ reads t d (JObj ms).
Proof.
  intros Hl Hd Hps. eexists. split; [|by apply reads_obj]. unfold encode_object. by rewrite Hl, all_members_Some.
Qed.

Lemma strings_read l d :
  d + 1 ≤ max_nesting → Forall (λ s, utf8_valid s = true) l →
  ∃ t, marshal (VArr (map VStr l)) = Some t ∧ reads t d (JArr (map JStr l)).
Proof.
  intros Hd Hl. exists ("[" +:+ join "," (map json_quote l) +:+ "]"). split.
  - simpl. apply fmap_Some. exists (map json_quote l). split; [|done]. apply all_some_Some. by rewrite !map_map.
  - apply reads_arr; [done|]. induction Hl; simpl; constructor; [by apply reads_str|done].
Qed.

(** ** Integers *)
Lemma parse_uint_digits bits d : ∀ a,
  0 ≤ a → all_digits d = true → digits_val a d ≤ 2 ^ bits - 1 → parse_uint_loop bits a d = (digits_val a d, None).
Proof.
  induction d as [|c d IH]; intros a Ha Hd Hv; [done|]. simpl in *. apply andb_true_iff in Hd as [Hc Hd]. rewrite Hc.
  apply digit_val_range in Hc. assert (∀ d b, 0 ≤ b → all_digits d = true → b ≤ digits_val b d) as Hle.
  { clear. induction d as [|c d IH]; intros b Hb Hd; simpl; [lia|]. simpl in Hd. apply andb_true_iff in Hd as [Hc Hd].
    apply digit_val_range in Hc. pose proof (IH (b * 10 + digit_val c) ltac:(lia) Hd). lia. }
  pose proof (Hle d (a * 10 + digit_val c) ltac:(lia) Hd). rewrite (proj2 (Z.ltb_ge _ _)) by lia. apply IH; [lia|done..].
Qed.

(** A decimal integer is read as a number literal that has its value. *)
Definition int_literal (n : Z) (l : literal) : Prop := parse_int 64 (lit_text l) = (n, None).

Lemma reads_int n d : 0 ≤ n < 2 ^ 63 → ∃ l, int_literal n l ∧ reads (itoa n) d (JNum l).
Proof.
  intros Hn. destruct (itoa_spec n) as (c & s & Hi & Ha & Hv & Hc); [lia|].
  assert (is_digit c = true) as Hd by by (simpl in Ha; apply andb_true_iff in Ha as [? _]).
  assert (∃ l, scan_number (itoa n) = Some (l, EmptyString) ∧ lit_text l = itoa n) as (l & Hs & Ht).
  { rewrite Hi. unfold scan_number. assert (chop "-" (String c s) = None) as ->.
    { simpl. destruct (ascii_dec c "-") as [->|]; done. }
    assert (scan_int (String c s) = Some (String c s, EmptyString)) as ->.
    { unfold scan_int. destruct (Z.eq_dec n 0) as [->|Hnz].
      - vm_compute in Hi. by injection Hi as <- <-.
      - assert (chop "0" (String c s) = None) as ->; [|by rewrite span_all_digits].
        simpl. destruct (ascii_dec c "0") as [->|]; [by destruct (Hc Hnz)|done]. }
    eexists. split; [reflexivity|]. cbn [lit_text]. rewrite Nat.sub_0_r.
    rewrite <- (app_string_nil_r (String c s)) at 2. apply stake_app. }
  exists l. split.
  - unfold int_literal. rewrite Ht, Hi. unfold parse_int, parse_uint. unfold is_digit in Hd.
    apply andb_true_iff in Hd as [H1%Z.leb_le H2%Z.leb_le].
    rewrite (proj2 (Z.eqb_neq _ 43)), (proj2 (Z.eqb_neq _ 45)) by lia. simpl orb. cbv iota.
    rewrite parse_uint_digits by (done || lia). rewrite Hv. simpl negb.
    by rewrite (proj2 (Z.leb_gt _ _)) by lia.
  - by apply reads_number.
Qed.
