(* ===== verification/GoUtf8.v ===== *)
(** * Texts that stay valid UTF-8

    ASCII, concatenation, the printing of numbers and of decoded values, and
    the removal of white space at both ends keep a text valid UTF-8. *)
From S2P Require Import Prelude GoStrings GoFloat Digits GoJson GoFloatShortest GoJsonRoundtrip.
From Stdlib Require Import SpecFloat Ascii String.
Open Scope Z_scope.

#[local] Arguments String.append : simpl never.

(** ** ASCII *)
Fixpoint ascii_only (s : string) : bool :=
  match s with EmptyString => true | String c s' => (code c <? 128) && ascii_only s' end.

Lemma utf8_valid_cons c s : code c < 128 → utf8_valid (String c s) = utf8_valid s.
Proof.
  intros Hc. unfold utf8_valid. cbn [utf8_valid_from].
  assert (utf8_len (String c s) = Some 1%nat) as ->; [|done]. unfold utf8_len. by rewrite (proj2 (Z.ltb_lt _ _)).
Qed.

Lemma ascii_only_valid s : ascii_only s = true → utf8_valid s = true.
Proof.
  induction s as [|c s IH]; [done|]. simpl. intros [Hc%Z.ltb_lt Hs]%andb_true_iff.
  rewrite utf8_valid_cons by done. auto.
Qed.

Lemma ascii_only_app s t : ascii_only (s +:+ t) = ascii_only s && ascii_only t.
Proof. induction s as [|c s IH]; [done|]. rewrite app_cons. simpl. by rewrite IH, andb_assoc. Qed.

Lemma all_digits_ascii d : all_digits d = true → ascii_only d = true.
Proof.
  induction d as [|c d IH]; [done|]. simpl. unfold is_digit. rewrite !andb_true_iff, !Z.leb_le, Z.ltb_lt.
  intros [? ?]. split; [lia|auto].
Qed.

Lemma itoa_ascii n : ascii_only (itoa n) = true.
Proof.
  assert (∀ n, 0 ≤ n → ascii_only (itoa n) = true) as Hpos.
  { intros k Hk. destruct (itoa_spec k Hk) as (c & d & -> & Hd & _). by apply all_digits_ascii. }
  destruct (Z.le_gt_cases 0 n); [by apply Hpos|].
  assert (itoa n = String (byte 45) (itoa (- n))) as ->; [|by apply Hpos; lia].
  unfold itoa. rewrite Z.abs_opp. rewrite (proj2 (Z.ltb_lt n 0)), (proj2 (Z.ltb_ge (- n) 0)) by lia. done.
Qed.

Lemma pad2_ascii n : ascii_only (pad2 n) = true.
Proof. unfold pad2. destruct (_ <? _); [|apply itoa_ascii]. simpl. by rewrite itoa_ascii. Qed.

Lemma zeros_ascii n : ascii_only (zeros n) = true.
Proof. by induction n. Qed.

Lemma stake_ascii n : ∀ s, ascii_only s = true → ascii_only (stake n s) = true.
Proof. induction n as [|n IH]; intros [|c s]; try done. simpl. intros [-> H]%andb_true_iff. by apply IH. Qed.

Lemma sdrop_ascii n : ∀ s, ascii_only s = true → ascii_only (sdrop n s) = true.
Proof. induction n as [|n IH]; intros [|c s]; try done. simpl. intros [_ H]%andb_true_iff. by apply IH. Qed.

#[export] Hint Resolve itoa_ascii pad2_ascii zeros_ascii stake_ascii sdrop_ascii ascii_only_valid utf8_valid_app : utf8.

Lemma layout_f_ascii ds dp : ascii_only ds = true → ascii_only (layout_f ds dp) = true.
Proof.
  intros H. rewrite layout_f_frac, app_string_nil_r, ascii_only_app. apply andb_true_iff. split.
  - destruct (dp <=? 0); [done|]. rewrite ascii_only_app. apply andb_true_iff. auto with utf8.
  - assert (∀ f, ascii_only f = true → ascii_only (frac_text f) = true) as Hf by by intros [].
    apply Hf. destruct (dp <=? 0); [|auto with utf8]. rewrite ascii_only_app. apply andb_true_iff. auto with utf8.
Qed.

Lemma layout_e_ascii two ds dp : ascii_only ds = true → ascii_only (layout_e two ds dp) = true.
Proof.
  intros H. unfold layout_e. rewrite ascii_only_app. apply andb_true_iff. split.
  - destruct ds as [|c [|d r]]; [done..|]. simpl in *. by apply andb_true_iff in H as [-> ->].
  - simpl. apply andb_true_iff. split; [by case_match|]. case_match; [simpl|]; apply itoa_ascii.
Qed.

Lemma fmt_float_ascii f : ascii_only (fmt_float f) = true.
Proof.
  destruct f as [s|s| |s m e]; [by destruct s|by destruct s|done|]. simpl.
  destruct (shortest (Zpos m) e) as [ds dp] eqn:E.
  assert (ascii_only ds = true).
  { revert E. unfold shortest. repeat case_match. intros [= <- <-]. apply itoa_ascii. }
  assert (∀ t, ascii_only t = true → ascii_only (signed s t) = true) as Hs by by destruct s.
  apply Hs. case_match; auto using layout_e_ascii, layout_f_ascii.
Qed.

(** ** Printed values *)
Lemma join_valid sep l :
  utf8_valid sep = true → Forall (λ s, utf8_valid s = true) l → utf8_valid (join sep l) = true.
Proof.
  intros Hsep Hl. induction Hl as [|x l Hx Hl IH]; [done|]. destruct l as [|y l]; [done|].
  change (join sep (x :: y :: l)) with (x +:+ sep +:+ join sep (y :: l)). auto with utf8.
Qed.

Lemma fmt_v_valid v : ∀ n, faithful n v = true → utf8_valid (fmt_v v) = true.
Proof.
  induction v as [|b|f|s|l IH| |m IH] using value_rect_strong; intros n Hv; cbn [fmt_v].
  - done.
  - by destruct b.
  - apply ascii_only_valid, fmt_float_ascii.
  - by destruct n.
  - destruct n as [|n]; [done|]. apply utf8_valid_app; [done|]. apply utf8_valid_app; [|done].
    apply join_valid; [done|]. simpl in Hv. rewrite forallb_forall in Hv. apply Forall_forall.
    intros s Hs. apply list_elem_of_fmap_1 in Hs as (x & -> & Hx). apply (IH x Hx n), Hv. by apply list_elem_of_In.
  - by destruct n.
  - destruct n as [|n]; [done|]. apply utf8_valid_app; [done|]. apply utf8_valid_app; [|done].
    apply join_valid; [done|]. simpl in Hv. rewrite forallb_forall in Hv. apply Forall_forall. intros s Hs.
    rewrite map_fold_entries in Hs. apply list_elem_of_fmap_1 in Hs as (p & -> & Hp).
    rewrite by_key_Permutation in Hp. apply list_elem_of_fmap_1 in Hp as ([k x] & -> & Hp).
    pose proof (Hv _ (proj1 (list_elem_of_In _ _) Hp)) as [Hk Hx]%andb_true_iff. simpl in *.
    apply elem_of_map_to_list in Hp. pose proof (IH k x Hp n Hx). apply utf8_valid_app; [done|].
    by apply utf8_valid_app.
Qed.

(** ** White space at the ends *)
Lemma strip_prefix_eq p : ∀ s r, strip_prefix p s = Some r → s = p +:+ r.
Proof.
  induction p as [|c p IH]; intros s r; [by intros [= ->]|]. destruct s as [|d s]; [done|].
  rewrite strip_prefix_cons. destruct (ascii_dec c d) as [<-|]; [|done]. intros H. by rewrite app_cons, (IH _ _ H).
Qed.

Lemma utf8_valid_rune r s :
  r ≠ EmptyString → utf8_len (r +:+ s) = Some (String.length r) → utf8_valid (r +:+ s) = utf8_valid s.
Proof.
  intros Hr Hl. destruct r as [|c r]; [done|]. unfold utf8_valid at 1. rewrite app_cons in *.
  cbn [utf8_valid_from]. rewrite Hl. simpl. by rewrite Nat.sub_0_r, valid_skip.
Qed.

(** A valid text in front does not matter. *)
Lemma utf8_valid_drop p s : utf8_valid p = true → utf8_valid (p +:+ s) = utf8_valid s.
Proof.
  revert p. apply utf8_valid_ind; [done|]. intros r p Hsh Hl _ IH.
  rewrite app_string_assoc, utf8_valid_rune; [done| |apply Hl]. intros ->. inversion Hsh.
Qed.

(** Only the first byte of a rune is no continuation byte. *)
Fixpoint all_cont (s : string) : bool :=
  match s with EmptyString => true | String c s' => cont c && all_cont s' end.

Lemma in_rng_cont lo hi c : 128 ≤ lo → hi ≤ 191 → in_rng lo hi c = true → cont c = true.
Proof. unfold cont, in_rng. rewrite !andb_true_iff, !Z.leb_le. lia. Qed.

Lemma rune_tail a t : utf8_len (String a t) = Some (S (String.length t)) → all_cont t = true.
Proof.
  destruct t as [|b [|c [|d [|e t]]]]; unfold utf8_len; repeat case_match; try done; intros _; simpl;
    rewrite ?andb_true_iff in *; destruct_and?; split_and?; try done;
    (eapply in_rng_cont; [| |eassumption]; lia).
Qed.

Lemma valid_head c s : utf8_valid (String c s) = true → cont c = false.
Proof.
  unfold utf8_valid. cbn [utf8_valid_from]. destruct (utf8_len (String c s)) as [n|] eqn:Hl; [|done]. intros _.
  destruct (cont c) eqn:Hc; [|done]. unfold cont, in_rng in Hc. apply andb_true_iff in Hc.
  rewrite !Z.leb_le in Hc. exfalso. revert Hl. unfold utf8_len, in_rng.
  rewrite (proj2 (Z.ltb_ge (code c) 128)), (proj2 (Z.leb_gt 194 (code c))), (proj2 (Z.leb_gt 224 (code c))),
    (proj2 (Z.leb_gt 240 (code c))) by lia. simpl. by repeat case_match.
Qed.

Lemma app_string_split r : ∀ p x s, r +:+ p = x +:+ s →
  (∃ r', r = x +:+ r' ∧ s = r' +:+ p) ∨ (∃ c x', x = r +:+ String c x' ∧ p = String c x' +:+ s).
Proof.
  induction r as [|a r IH]; intros p x s H.
  - destruct x as [|c x]; [left; by exists EmptyString|right; by exists c, x].
  - destruct x as [|b x]; [left; by exists (String a r)|]. rewrite !app_cons in H. injection H as -> H.
    destruct (IH p x s H) as [(r' & -> & ->)|(c & x' & -> & ->)]; [left; by exists r'|right; by exists c, x'].
Qed.

Lemma all_cont_app s t : all_cont (s +:+ t) = all_cont s && all_cont t.
Proof. induction s as [|c s IH]; [done|]. rewrite app_cons. simpl. by rewrite IH, andb_assoc. Qed.

(** Nor does a valid text behind. *)
Lemma utf8_valid_take p : utf8_valid p = true → ∀ s, utf8_valid s = true → ∀ r, s = r +:+ p → utf8_valid r = true.
Proof.
  intros Hp. apply (utf8_valid_ind (λ s, ∀ r, s = r +:+ p → utf8_valid r = true)).
  - by intros [|c r].
  - intros x s Hsh Hl Hs IH r He. symmetry in He.
    assert (x ≠ EmptyString) as Hx by (intros ->; inversion Hsh).
    destruct (app_string_split _ _ _ _ He) as [(r' & -> & ->)|(c & x' & -> & ->)].
    + rewrite utf8_valid_rune; [by apply IH|done|apply Hl].
    + destruct r as [|a r]; [done|]. apply valid_head in Hp. specialize (Hl EmptyString).
      rewrite app_string_nil_r, app_cons in Hl. apply rune_tail in Hl. rewrite all_cont_app in Hl. simpl in Hl.
      rewrite Hp in Hl. by rewrite andb_false_r in Hl.
Qed.

Lemma srev_onto_app s : ∀ acc, srev_onto acc s = srev s +:+ acc.
Proof.
  unfold srev. induction s as [|c s IH]; intros acc; [done|]. simpl. rewrite IH, (IH (String c EmptyString)).
  by rewrite app_string_assoc.
Qed.

Lemma srev_cons c s : srev (String c s) = srev s +:+ String c EmptyString.
Proof. exact (srev_onto_app s (String c EmptyString)). Qed.

Lemma srev_app s t : srev (s +:+ t) = srev t +:+ srev s.
Proof.
  induction s as [|c s IH]; [by rewrite app_string_nil_r|]. by rewrite app_cons, !srev_cons, IH, app_string_assoc.
Qed.

Lemma srev_involutive s : srev (srev s) = s.
Proof. induction s as [|c s IH]; [done|]. by rewrite srev_cons, srev_app, IH. Qed.

Lemma strip_any_eq ps s r : strip_any ps s = Some r → ∃ p, p ∈ ps ∧ s = p +:+ r.
Proof.
  induction ps as [|p ps IH]; [done|]. simpl. destruct (strip_prefix p s) as [r'|] eqn:Hp.
  - intros [= <-]. exists p. split; [by left|by apply strip_prefix_eq].
  - intros H. destruct (IH H) as (p' & ? & ?). exists p'. split; [by right|done].
Qed.

Lemma trim_left_ind (P : string → Prop) ps fuel : (∀ p s, p ∈ ps → P (p +:+ s) → P s) →
  ∀ s, P s → P (trim_left_with ps fuel s).
Proof.
  intros HP. induction fuel as [|fuel IH]; intros s Hs; [done|]. cbn [trim_left_with].
  destruct (strip_any ps s) as [r|] eqn:Hr; [|done]. apply IH. apply strip_any_eq in Hr as (p & Hp & ->). eauto.
Qed.

Lemma spaces_valid p : p ∈ space_encodings → utf8_valid p = true.
Proof.
  intros Hp. assert (forallb utf8_valid space_encodings = true) as H by by vm_compute.
  rewrite forallb_forall in H. by apply H, list_elem_of_In.
Qed.

Lemma trim_space_valid s : utf8_valid s = true → utf8_valid (trim_space s) = true.
Proof.
  intros Hs. unfold trim_space.
  apply (trim_left_ind (λ s, utf8_valid (srev s) = true)).
  - intros p t (p' & -> & Hp)%list_elem_of_fmap_1 H. rewrite srev_app, srev_involutive in H.
    eapply utf8_valid_take; [by apply spaces_valid|exact H|done].
  - rewrite srev_involutive. apply (trim_left_ind (λ s, utf8_valid s = true)); [|done].
    intros p t Hp. by rewrite utf8_valid_drop by by apply spaces_valid.
Qed.
