(* ===== verification/Env.v ===== *)
(** * The environment of the extension

    What the extension calls and the repository does not contain: the clock,
    the HTTP peers (Sumo Logic's endpoint, the Lambda runtime API), S3, KMS,
    UUIDs, gzip, logrus' level parser, the process environment.  They are the
    fields of the class [Env], which every definition that uses them takes.
    The peers may answer differently at every call: their functions take the
    number of the call ([tick]), so a statement for all [Env] covers every
    behaviour of the outside world.

    [world] is the mutable state shared by the calls of one process: that
    counter, the trace of the effects visible outside, and the package
    variables of sumoclient/sumoclient.go. *)
From S2P Require Import Prelude GoStrings.
From Stdlib Require Import String.
Open Scope Z_scope.

(** ** Values exchanged with the outside *)
Record request := Request {
  req_method : string;
  req_url : string;
  req_header : gmap string string;
  req_body : string }.

(** [res_body] is [None] when reading the body fails. *)
Record response := Response {
  StatusCode : Z;
  res_header : gmap string string;
  res_body : option string }.

Record kms_input := KmsInput {
  CiphertextBlob : string;
  KeyId : string;
  EncryptionContext : gmap string string }.

Class Env := {
  (** [os.LookupEnv] *)
  env_lookup : string → option string;
  (** [filepath.Base(os.Args[0])] *)
  env_program : string;
  (** [time.Now()], in nanoseconds of Unix time *)
  env_now : nat → Z;
  (** seconds east of UTC of the local zone at a time *)
  env_zone : Z → Z;
  (** [http.Client.Do]: [None] is an error.  (When following a redirect
      fails, Do also returns the last response, its body closed; the second
      close of the caller has no effect and is not an event here.) *)
  env_http : nat → request → option response;
  (** [url.Parse] accepts the text, so [http.NewRequest] builds the request *)
  env_url_ok : string → bool;
  (** [url.ParseRequestURI] accepts the text *)
  env_uri_ok : string → bool;
  (** [uuid.NewUUID] *)
  env_uuid : nat → option string;
  (** [uploader.Upload] of a bucket, a key and a body succeeds *)
  env_upload : nat → string → string → string → bool;
  (** [config.LoadDefaultConfig] of the AWS SDK succeeds *)
  env_aws_config : nat → bool;
  (** [kms.Client.Decrypt]: the plaintext *)
  env_decrypt : nat → kms_input → option string;
  (** a [gzip.Writer] over a fresh buffer after [Write], and the buffer after
      [Close]; [None] is an error *)
  env_gzip_write : string → option string;
  env_gzip_close : string → option string;
  (** [logrus.ParseLevel] *)
  env_parse_level : string → option Z;
  (** [http.ListenAndServe] binds the address, and then serves until the
      process ends; otherwise it returns an error *)
  env_listen : nat → string → bool }.

Definition getenv `{Env} (k : string) : string := default EmptyString (env_lookup k).

(** Documented behaviour of the outside the theorems rely on, each by name. *)

(** Go's clock readings carry a monotonic time. *)
Class MonotoneClock (E : Env) : Prop :=
  now_mono : ∀ i j, (i ≤ j)%nat → env_now i ≤ env_now j.

(** gzip never fails on a memory buffer and can be undone. *)
Class GzipLaws (E : Env) := {
  gunzip : string → string;
  gzip_total : ∀ s, ∃ w z, env_gzip_write s = Some w ∧ env_gzip_close w = Some z ∧ gunzip z = s }.

(** ** Errors

    One constructor for each place that makes an error, with the values the
    message shows. *)
Inductive error :=
  | ErrTransport                                   (* http.Client.Do *)
  | ErrBadURL                                      (* http.NewRequest *)
  | ErrNewRequest (e : error)                      (* http.NewRequest() error *)
  | ErrGetEndpoint (e : error)                     (* failed to get SUMO HTTP Endpoint *)
  | ErrAwsConfig | ErrBase64 | ErrDecrypt | ErrNoEndpoint
  | ErrStatus (code : Z)                           (* statuscode %v *)
  | ErrMaxRetriesReached                           (* exceeded retry limit *)
  | ErrUUID | ErrUpload
  | ErrSendToS3 (bucket key : string) (e : error)  (* failed to send to s3 bucket *)
  | ErrGzipWrite | ErrGzipClose
  | ErrCompress (e : error) | ErrFlushCompress (e : error)
  | ErrParsePayload (raw : string)                 (* error in parsing payload *)
  | ErrDropping (n : Z)                            (* dropping %d messages *)
  | ErrSendLogsTransform (e : error) | ErrSendLogsChunks (e : error)
  | ErrSendLogsPost (n : Z)
  | ErrSendAllChunks (e : error) | ErrSendAllPost (n : Z)
  | ErrFlushAll (n : Z) (e : option error)
  | ErrReadBody | ErrRequestFailed (code : Z) (body : string) | ErrUnmarshal
  | ErrMarshal
  | ErrListen.                                     (* http.ListenAndServe *)

(** ** The world *)
Inductive event :=
  | EvHttp (r : request) (res : option response)
  | EvBodyClose
  | EvSleep (d : Z)
  | EvUpload (bucket key data : string) (ok : bool)
  | EvDecrypt (i : kms_input) (res : option string).

Record world := World {
  tick : nat;
  trace : list event;
  isColdStart : bool;
  decryptedSumoHttpEndpoint : string;
  kmsEndpointCacheTime : Z }.

Definition set_tick n w :=
  World n (trace w) (isColdStart w) (decryptedSumoHttpEndpoint w) (kmsEndpointCacheTime w).
Definition set_trace t w :=
  World (tick w) t (isColdStart w) (decryptedSumoHttpEndpoint w) (kmsEndpointCacheTime w).
Definition set_isColdStart b w :=
  World (tick w) (trace w) b (decryptedSumoHttpEndpoint w) (kmsEndpointCacheTime w).
Definition set_kmsEndpointCacheTime t w :=
  World (tick w) (trace w) (isColdStart w) (decryptedSumoHttpEndpoint w) t.

Section effects.
Context `{E : Env}.

Definition next_tick : Go world nat := λ w, (Ret (tick w), set_tick (S (tick w)) w).
Definition emit (e : event) : Go world unit := go_modify (λ w, set_trace (trace w ++ [e]) w).

(** [time.Now()] *)
Definition time_now : Go world Z := let! n := next_tick in go_ret (env_now n).

(** [time.Sleep(d)] *)
Definition time_sleep (d : Z) : Go world unit := emit (EvSleep d).

(** [client.Do(request)] *)
Definition http_do (r : request) : Go world (option response) :=
  let! n := next_tick in
  let res := env_http n r in
  emit (EvHttp r res) ;;; go_ret res.

(** [response.Body.Close()]; its error is only logged *)
Definition body_close : Go world unit := emit EvBodyClose.

Definition new_uuid : Go world (option string) := let! n := next_tick in go_ret (env_uuid n).

Definition kms_decrypt (i : kms_input) : Go world (option string) :=
  let! n := next_tick in
  let res := env_decrypt n i in
  emit (EvDecrypt i res) ;;; go_ret res.

(** ** Traces only grow *)
Definition extends (w w' : world) : Prop :=
  (tick w ≤ tick w')%nat ∧ ∃ evs, trace w' = trace w ++ evs.

#[export] Instance extends_preorder : PreOrder extends.
Proof.
  split.
  - intros w. split; [lia|]. exists []. by rewrite app_nil_r.
  - intros w1 w2 w3 [H1 [e1 E1]] [H2 [e2 E2]]. split; [lia|].
    exists (e1 ++ e2). by rewrite E2, E1, app_assoc.
Qed.
End effects.

(** The status codes of the answered requests and [None] for the failed
    ones, in order. *)
Fixpoint exchanges (evs : list event) : list (option response) :=
  match evs with
  | [] => []
  | EvHttp _ res :: evs' => res :: exchanges evs'
  | _ :: evs' => exchanges evs'
  end.

(** The bodies that were posted, in order. *)
Fixpoint bodies (evs : list event) : list string :=
  match evs with
  | [] => []
  | EvHttp r _ :: evs' => req_body r :: bodies evs'
  | _ :: evs' => bodies evs'
  end.

Fixpoint uploads (evs : list event) : list (string * bool) :=
  match evs with
  | [] => []
  | EvUpload _ _ data ok :: evs' => (data, ok) :: uploads evs'
  | _ :: evs' => uploads evs'
  end.

(** How many response bodies were closed. *)
Fixpoint closes (evs : list event) : nat :=
  match evs with
  | [] => 0
  | EvBodyClose :: evs' => S (closes evs')
  | _ :: evs' => closes evs'
  end.

Lemma exchanges_app e1 e2 : exchanges (e1 ++ e2) = exchanges e1 ++ exchanges e2.
Proof. induction e1 as [|[] e1 IH]; simpl; by rewrite ?IH. Qed.
Lemma bodies_app e1 e2 : bodies (e1 ++ e2) = bodies e1 ++ bodies e2.
Proof. induction e1 as [|[] e1 IH]; simpl; by rewrite ?IH. Qed.
Lemma uploads_app e1 e2 : uploads (e1 ++ e2) = uploads e1 ++ uploads e2.
Proof. induction e1 as [|[] e1 IH]; simpl; by rewrite ?IH. Qed.

Lemma closes_app e1 e2 : closes (e1 ++ e2) = (closes e1 + closes e2)%nat.
Proof. induction e1 as [|[] e1 IH]; simpl; by rewrite ?IH. Qed.

#[export] Hint Rewrite exchanges_app bodies_app uploads_app closes_app : trace.

(** [wp] that also names the events the call adds. *)
Definition wpe {A} (m : Go world A) (Q : A → list event → world → Prop) (w : world) : Prop :=
  wp m (λ a w', ∃ evs, trace w' = trace w ++ evs ∧ Q a evs w') w.

Lemma wpe_ret {A} (a : A) (Q : A → list event → world → Prop) w :
  Q a [] w → wpe (go_ret a) Q w.
Proof. intros H. apply wp_ret. exists []. by rewrite app_nil_r. Qed.

Lemma wpe_bind {A B} (m : Go world A) (k : A → Go world B) Q w :
  wpe m (λ a evs w', wpe (k a) (λ b evs' w'', Q b (evs ++ evs') w'') w') w →
  wpe (go_bind m k) Q w.
Proof.
  intros H. apply wp_bind. eapply wp_mono; [exact H|].
  intros a w' (evs & He & Hk). eapply wp_mono; [exact Hk|].
  intros b w'' (evs' & He' & HQ). exists (evs ++ evs').
  by rewrite He', He, app_assoc.
Qed.

Lemma wpe_mono {A} (m : Go world A) (Q R : A → list event → world → Prop) w :
  wpe m Q w → (∀ a evs w', Q a evs w' → R a evs w') → wpe m R w.
Proof. intros H HQR. eapply wp_mono; [exact H|]. naive_solver. Qed.

Lemma wpe_silent {A} (m : Go world A) (Q : A → list event → world → Prop) w :
  wp m (λ a w', trace w' = trace w ∧ Q a [] w') w → wpe m Q w.
Proof.
  intros H. eapply wp_mono; [exact H|]. intros a w' [Ht HQ]. exists [].
  by rewrite app_nil_r.
Qed.

Lemma wpe_emit e (Q : unit → list event → world → Prop) w :
  Q tt [e] (set_trace (trace w ++ [e]) w) → wpe (emit e) Q w.
Proof. intros H. apply wp_modify. by exists [e]. Qed.

Lemma wpe_http_do `{E : Env} r (Q : option response → list event → world → Prop) w :
  (∀ n res w', res = env_http n r → isColdStart w' = isColdStart w →
     kmsEndpointCacheTime w' = kmsEndpointCacheTime w → Q res [EvHttp r res] w') →
  wpe (http_do r) Q w.
Proof.
  intros H. unfold http_do, next_tick, go_bind, wpe, wp, emit, go_modify, go_ret. simpl.
  eexists. split; [done|]. by eapply H.
Qed.

Lemma wpe_time_now `{E : Env} (Q : Z → list event → world → Prop) w :
  Q (env_now (tick w)) [] (set_tick (S (tick w)) w) → wpe time_now Q w.
Proof. intros H. by apply wpe_silent. Qed.

Ltac wpe_step :=
  lazymatch goal with
  | |- wpe (go_bind _ _) _ _ => apply wpe_bind
  | |- wpe (go_ret _) _ _ => apply wpe_ret
  | |- wpe (emit _) _ _ => apply wpe_emit
  | |- wpe time_now _ _ => apply wpe_time_now
  end.

(** ** A concrete environment, for the examples

    Variables from a map, HTTP answers from a function, a clock that advances
    by a nanosecond a call, uploads that all succeed or all fail, a gzip that
    writes a one-byte header. *)
Definition sample_env (vars : gmap string string) (http : nat → request → option response)
    (uploads_ok : bool) : Env := {|
  env_lookup := λ k, vars !! k;
  env_program := "sumologic-extension";
  env_now := λ n, 1603812974133000000 + Z.of_nat n;
  env_zone := λ _, 0;
  env_http := http;
  env_url_ok := λ _, true;
  env_uri_ok := λ s, match strip_prefix "http" s with Some _ => true | None => false end;
  env_uuid := λ _, Some "00000000-0000-1000-8000-000000000000"%string;
  env_upload := λ _ _ _ _, uploads_ok;
  env_aws_config := λ _, true;
  env_decrypt := λ _ i, Some (CiphertextBlob i);
  env_gzip_write := λ s, Some s;
  env_gzip_close := λ s, Some (String (byte 31) s);
  env_parse_level := λ s, if String.eqb s "debug" then Some 5 else None;
  env_listen := λ _ _, true |}.

Definition status (code : Z) : option response := Some (Response code ∅ (Some EmptyString)).

(** Every request is answered with the same status. *)
Definition always (r : option response) : nat → request → option response := λ _ _, r.

#[export] Instance sample_clock vars http ok : MonotoneClock (sample_env vars http ok).
Proof. intros i j H. simpl. lia. Qed.

#[export, refine] Instance sample_gzip vars http ok : GzipLaws (sample_env vars http ok) :=
  {| gunzip := λ z, match z with String _ s => s | EmptyString => EmptyString end |}.
Proof. intros s. exists s, (String (byte 31) s). done. Defined.

Definition world0 : world := World 0 [] true EmptyString 0.
