(* ===== verification/Utils.v ===== *)
(** * Package utils (utils/utils.go, utils/awsutils.go)

    The retry loop, the string search, the two gzip wrappers, the JSON probe
    and the S3 upload. *)
From S2P Require Import Prelude GoStrings GoFloat GoJson Env.
From Stdlib Require Import String.
Open Scope Z_scope.

(** ** Definitions *)

(** [Func]: what can be retried: whether to go on, and the error. *)
Definition Func (W : Type) : Type := Z → Go W (bool * option error).

(** The loop of [Retry]: [fuel] bounds the number of iterations; a run that
    needs more is one that does not return. *)
Fixpoint Retry_loop {W} (fuel : nat) (fn : Func W) (maxRetries attempt : Z) : Go W (option error) :=
  match fuel with
  | O => go_block
  | S fuel' =>
      if maxRetries <? attempt then go_ret (Some ErrMaxRetriesReached)
      else
        let! (cont, err) := fn attempt in
        match cont, err with
        | false, _ | _, None => go_ret err
        | true, Some _ => Retry_loop fuel' fn maxRetries (int64 (attempt + 1))
        end
  end.

(** One iteration more than [maxRetries] leaves the loop. *)
Definition Retry {W} (fn : Func W) (maxRetries : Z) : Go W (option error) :=
  Retry_loop (S (Z.to_nat maxRetries)) fn maxRetries 1.

Fixpoint StringInSlice (a : string) (list : list string) : bool :=
  match list with
  | [] => false
  | b :: list' => if String.eqb b a then true else StringInSlice a list'
  end.

Section with_env.
Context `{E : Env}.

Definition Compress (logStringToSend : string) : string * option error :=
  match env_gzip_write logStringToSend with
  | None => (EmptyString, Some ErrGzipWrite)
  | Some g =>
      match env_gzip_close g with
      | None => (EmptyString, Some ErrGzipClose)
      | Some buf => (buf, None)
      end
  end.

Definition CompressBuffer (inputbuf : string) : option string * option error :=
  match env_gzip_write inputbuf with
  | None => (None, Some ErrGzipWrite)
  | Some g =>
      match env_gzip_close g with
      | None => (None, Some ErrGzipClose)
      | Some outputbuf => (Some outputbuf, None)
      end
  end.

(** [init] of awsutils.go: the region of the uploader; an AWS configuration
    that cannot be loaded ends the process. *)
Definition utils_init : Go world string :=
  let awsRegion :=
    match env_lookup "SUMO_S3_BUCKET_REGION" with
    | Some region => region
    | None => getenv "AWS_REGION"
    end in
  let! n := next_tick in
  if env_aws_config n then go_ret awsRegion else go_panic ExplicitPanic.

Definition UploadToS3 (bucketName keyName data : string) : Go world (option error) :=
  let! n := next_tick in
  let ok := env_upload n bucketName keyName data in
  emit (EvUpload bucketName keyName data ok) ;;;
  go_ret (if ok then None else Some ErrUpload).
End with_env.

(** [json.MarshalIndent] of what [json.Marshal] makes of the argument, if it
    makes something of it. *)
Definition PrettyPrint (encoded : option string) : string :=
  match encoded with
  | Some data => json_indent data
  | None => EmptyString
  end.

(** The map the text decodes to, or the error (the decoded map is nil then:
    no caller looks at it). *)
Definition ParseJson (s : string) : gomap * option error :=
  match unmarshal_map s with
  | Some js => (js, None)
  | None => (None, Some ErrUnmarshal)
  end.

(** ** Theorems *)

(** *** Retry *)
Section retry.
Context {W : Type} (fn : Func W) (maxRetries : Z).
Hypothesis Hmax : maxRetries < 2 ^ 63 - 1.

Lemma attempt_succ attempt :
  1 ≤ attempt → attempt ≤ maxRetries → int64 (attempt + 1) = attempt + 1.
Proof. intros. apply wrap_int_id; [lia|]. split; lia. Qed.

(** Fuel beyond the number of attempts left changes nothing. *)
Lemma Retry_loop_fuel f1 f2 attempt :
  1 ≤ attempt →
  (Z.to_nat (maxRetries + 1 - attempt) < f1)%nat →
  (Z.to_nat (maxRetries + 1 - attempt) < f2)%nat →
  Retry_loop f1 fn maxRetries attempt ≡ Retry_loop f2 fn maxRetries attempt.
Proof.
  revert f2 attempt. induction f1 as [|f1 IH]; intros [|f2] attempt Ha H1 H2; try lia.
  intros w. simpl. destruct (Z.ltb_spec maxRetries attempt); [done|].
  unfold go_bind. destruct (fn attempt w) as [[[[] [e|]]|p|] w']; try done.
  rewrite attempt_succ by lia. apply IH; lia.
Qed.

(** The loop as the code writes it, without fuel. *)
Lemma Retry_unfold attempt :
  1 ≤ attempt →
  Retry_loop (S (Z.to_nat (maxRetries + 1 - attempt))) fn maxRetries attempt ≡
    if maxRetries <? attempt then go_ret (Some ErrMaxRetriesReached)
    else
      let! (cont, err) := fn attempt in
      match cont, err with
      | true, Some _ =>
          Retry_loop (S (Z.to_nat (maxRetries + 1 - (attempt + 1)))) fn maxRetries (attempt + 1)
      | _, _ => go_ret err
      end.
Proof.
  intros Ha w. simpl Retry_loop at 1. destruct (Z.ltb_spec maxRetries attempt); [done|].
  unfold go_bind. destruct (fn attempt w) as [[[[] [e|]]|p|] w']; try done.
  rewrite attempt_succ by lia. apply Retry_loop_fuel; lia.
Qed.

(** Rule for the loop: [I k] holds when [k] attempts have failed and were
    to be continued. *)
Lemma wp_Retry (I : Z → W → Prop) (Q : option error → W → Prop) w :
  I 0 w →
  (∀ k w, 0 ≤ k < maxRetries → I k w →
     wp (fn (k + 1)) (λ r w', match r with
                              | (true, Some _) => I (k + 1) w'
                              | (_, err) => Q err w'
                              end) w) →
  (∀ w, I (Z.max 0 maxRetries) w → Q (Some ErrMaxRetriesReached) w) →
  wp (Retry fn maxRetries) Q w.
Proof.
  intros H0 Hstep Hdone.
  assert (∀ n k w, 0 ≤ k → k ≤ Z.max 0 maxRetries → n = Z.to_nat (maxRetries - k) → I k w →
    wp (Retry_loop (S n) fn maxRetries (k + 1)) Q w) as Hloop.
  { clear w H0. induction n as [|n IH]; intros k w Hk Hk' Hn HI; subst;
      simpl; (destruct (Z.ltb_spec maxRetries (k + 1)); [apply wp_ret, Hdone;
        replace (Z.max 0 maxRetries) with k by lia; done|]).
    - lia.
    - apply wp_bind. eapply wp_mono; [apply Hstep; [lia|done]|].
      intros [[] [e|]] w' HQ; try by apply wp_ret.
      rewrite attempt_succ by lia. apply IH; try lia. done. }
  unfold Retry. replace maxRetries with (maxRetries - 0) at 1 by lia.
  apply (Hloop _ 0); [lia|lia|done|done].
Qed.

(** [k] attempts, from the first, that failed and were to be continued. *)
Inductive continued : Z → W → W → Prop :=
  | continued_0 w : continued 0 w w
  | continued_succ k w w1 w2 e :
      continued k w w1 → fn (k + 1) w1 = (Ret (true, Some e), w2) → continued (k + 1) w w2.

(** What the loop does when every attempt returns. *)
Definition settles (w : W) (err : option error) (w' : W) : Prop :=
  (∃ k w1 cont, 0 ≤ k < maxRetries ∧ continued k w w1 ∧
     fn (k + 1) w1 = (Ret (cont, err), w') ∧ (cont = false ∨ err = None)) ∨
  (continued (Z.max 0 maxRetries) w w' ∧ err = Some ErrMaxRetriesReached).

Lemma wp_Retry_settles w :
  (∀ a w, ∃ r w', fn a w = (Ret r, w')) → wp (Retry fn maxRetries) (settles w) w.
Proof.
  intros Hret. apply (wp_Retry (λ k w', continued k w w')).
  - constructor.
  - intros k w1 Hk Hc. destruct (Hret (k + 1) w1) as ([cont err] & w2 & Hf). unfold wp. rewrite Hf.
    destruct cont; [destruct err as [e|]|]; [by econstructor|..]; left; exists k, w1; eauto 10.
  - intros w' Hc. by right.
Qed.
End retry.

(** C35. Termination of [Retry]: for any function whose calls all return and
    any limit below the largest int, the loop returns.  It stops after the
    first attempt, counted from 1, that succeeds or asks to stop, and gives
    that attempt's error; or else after exactly [maxRetries] attempts (none
    when the limit is not positive) with the error of too many retries. *)
Theorem Retry_terminates {W} (fn : Func W) maxRetries w :
  maxRetries < 2 ^ 63 - 1 → (∀ a w, ∃ r w', fn a w = (Ret r, w')) →
  ∃ err w', Retry fn maxRetries w = (Ret err, w') ∧ settles fn maxRetries w err w'.
Proof.
  intros Hmax Hret. pose proof (wp_Retry_settles fn maxRetries Hmax w Hret) as H. unfold wp in H.
  destruct (Retry fn maxRetries w) as [[err|p|] w']; [eauto|done..].
Qed.

(** The limit that the bound leaves out: the counter wraps, and a function
    that never succeeds is called again for as long as one looks. *)
Theorem Retry_max_int_never_stops {W} (fn : Func W) (w : W) fuel :
  (∀ a w, ∃ e, fn a w = (Ret (true, Some e), w)) → (Retry_loop fuel fn (2 ^ 63 - 1) 1 w).1 = Block.
Proof.
  intros Hf. assert (∀ a w, a ≤ 2 ^ 63 - 1 → (Retry_loop fuel fn (2 ^ 63 - 1) a w).1 = Block) as H; [|by apply H].
  induction fuel as [|fuel IH]; intros a w' Ha; [done|]. cbn [Retry_loop].
  destruct (Z.ltb_spec (2 ^ 63 - 1) a); [lia|]. unfold go_bind. destruct (Hf a w') as [e ->]. apply IH.
  pose proof (wrap_int_in 64 (a + 1) ltac:(lia)) as [_ H1]. unfold int64. lia.
Qed.

(** *** PrettyPrint and the region *)

(** Pretty printing adds nothing but white space outside the strings, and
    what cannot be encoded is printed as nothing. *)
Theorem PrettyPrint_spec encoded :
  json_compact (PrettyPrint encoded) = json_compact (default EmptyString encoded).
Proof. destruct encoded; [apply compact_indent|done]. Qed.

(** The bucket's region wins as soon as its variable exists, even empty. *)
Theorem utils_init_spec `{E : Env} w :
  utils_init w =
    (if env_aws_config (tick w)
     then Ret (default (getenv "AWS_REGION") (env_lookup "SUMO_S3_BUCKET_REGION")) else Panic ExplicitPanic,
     set_tick (S (tick w)) w).
Proof.
  unfold utils_init, go_bind, next_tick. destruct (env_aws_config (tick w)); [|done].
  by destruct (env_lookup "SUMO_S3_BUCKET_REGION").
Qed.

(** *** StringInSlice *)
Lemma StringInSlice_spec a l : StringInSlice a l = true ↔ a ∈ l.
Proof.
  induction l as [|b l IH]; simpl.
  - split; [done|]. by intros ?%not_elem_of_nil.
  - rewrite elem_of_cons, <- IH. destruct (String.eqb_spec b a); naive_solver.
Qed.

(** *** Compression *)
Lemma Compress_total `{E : Env} `{!GzipLaws E} s :
  ∃ z, Compress s = (z, None) ∧ gunzip z = s.
Proof.
  destruct (gzip_total s) as (w & z & Hw & Hz & Hu). exists z.
  unfold Compress. by rewrite Hw, Hz.
Qed.

Lemma CompressBuffer_total `{E : Env} `{!GzipLaws E} s :
  ∃ z, CompressBuffer s = (Some z, None) ∧ gunzip z = s.
Proof.
  destruct (gzip_total s) as (w & z & Hw & Hz & Hu). exists z.
  unfold CompressBuffer. by rewrite Hw, Hz.
Qed.

(** ** Examples *)

(** A function that fails twice, and counts its calls. *)
Definition third_time : Func nat := λ attempt n,
  (Ret (true, if attempt <? 3 then Some ErrTransport else None), S n).

Example third_time_ex : Retry third_time 5 0%nat = (Ret None, 3%nat) ∧ Retry third_time 2 0%nat = (Ret (Some ErrMaxRetriesReached), 2%nat).
Proof. split; reflexivity. Qed.

Lemma Retry_terminates_witness :
  5 < 2 ^ 63 - 1 ∧ ∃ err w', Retry third_time 5 0%nat = (Ret err, w') ∧ settles third_time 5 0%nat err w'.
Proof. split; [lia|]. apply (Retry_terminates third_time 5 0%nat); [lia|]. intros a w. by eexists _, _. Defined.
