(* ===== verification/Config.v ===== *)
(** * Package config (config/config.go, config/version.go)

    The configuration record, the defaults for absent variables, and the
    validation that overwrites them with what the environment says. *)
From S2P Require Import Prelude GoStrings Env Utils.
From Stdlib Require Import Ascii String.
Open Scope Z_scope.

(** ** Data *)
(** Durations are in nanoseconds; [LogLevel] is logrus' number. *)
Record LambdaExtensionConfig := Config {
  SumoHTTPEndpoint : string;
  KMSKeyId : string;
  EnableFailover : bool;
  S3BucketName : string;
  S3BucketRegion : string;
  NumRetry : Z;
  AWSLambdaRuntimeAPI : string;
  LogTypes : list string;
  FunctionName : string;
  FunctionVersion : string;
  LogLevel : Z;
  MaxDataQueueLength : Z;
  MaxConcurrentRequests : Z;
  MaxRetryAttempts : Z;
  RetrySleepTime : Z;
  ConnectionTimeoutValue : Z;
  MaxDataPayloadSize : Z;
  LambdaRegion : string;
  SourceCategoryOverride : string;
  EnhanceJsonLogs : bool;
  EnableSpanDrops : bool;
  KmsCacheSeconds : Z;
  TelemetryTimeoutMs : Z;
  TelemetryMaxBytes : Z;
  TelemetryMaxItems : Z }.

(** Assignments to one field. *)
Definition set_EnableFailover (v : bool) (c : LambdaExtensionConfig) : LambdaExtensionConfig :=
  Config (SumoHTTPEndpoint c) (KMSKeyId c) v (S3BucketName c) (S3BucketRegion c) (NumRetry c)
    (AWSLambdaRuntimeAPI c) (LogTypes c) (FunctionName c) (FunctionVersion c) (LogLevel c)
    (MaxDataQueueLength c) (MaxConcurrentRequests c) (MaxRetryAttempts c) (RetrySleepTime c)
    (ConnectionTimeoutValue c) (MaxDataPayloadSize c) (LambdaRegion c)
    (SourceCategoryOverride c) (EnhanceJsonLogs c) (EnableSpanDrops c) (KmsCacheSeconds c)
    (TelemetryTimeoutMs c) (TelemetryMaxBytes c) (TelemetryMaxItems c).
Definition set_NumRetry (v : Z) (c : LambdaExtensionConfig) : LambdaExtensionConfig :=
  Config (SumoHTTPEndpoint c) (KMSKeyId c) (EnableFailover c) (S3BucketName c)
    (S3BucketRegion c) v (AWSLambdaRuntimeAPI c) (LogTypes c) (FunctionName c)
    (FunctionVersion c) (LogLevel c) (MaxDataQueueLength c) (MaxConcurrentRequests c)
    (MaxRetryAttempts c) (RetrySleepTime c) (ConnectionTimeoutValue c) (MaxDataPayloadSize c)
    (LambdaRegion c) (SourceCategoryOverride c) (EnhanceJsonLogs c) (EnableSpanDrops c)
    (KmsCacheSeconds c) (TelemetryTimeoutMs c) (TelemetryMaxBytes c) (TelemetryMaxItems c).
Definition set_AWSLambdaRuntimeAPI (v : string) (c : LambdaExtensionConfig) : LambdaExtensionConfig :=
  Config (SumoHTTPEndpoint c) (KMSKeyId c) (EnableFailover c) (S3BucketName c)
    (S3BucketRegion c) (NumRetry c) v (LogTypes c) (FunctionName c) (FunctionVersion c)
    (LogLevel c) (MaxDataQueueLength c) (MaxConcurrentRequests c) (MaxRetryAttempts c)
    (RetrySleepTime c) (ConnectionTimeoutValue c) (MaxDataPayloadSize c) (LambdaRegion c)
    (SourceCategoryOverride c) (EnhanceJsonLogs c) (EnableSpanDrops c) (KmsCacheSeconds c)
    (TelemetryTimeoutMs c) (TelemetryMaxBytes c) (TelemetryMaxItems c).
Definition set_LogTypes (v : list string) (c : LambdaExtensionConfig) : LambdaExtensionConfig :=
  Config (SumoHTTPEndpoint c) (KMSKeyId c) (EnableFailover c) (S3BucketName c)
    (S3BucketRegion c) (NumRetry c) (AWSLambdaRuntimeAPI c) v (FunctionName c)
    (FunctionVersion c) (LogLevel c) (MaxDataQueueLength c) (MaxConcurrentRequests c)
    (MaxRetryAttempts c) (RetrySleepTime c) (ConnectionTimeoutValue c) (MaxDataPayloadSize c)
    (LambdaRegion c) (SourceCategoryOverride c) (EnhanceJsonLogs c) (EnableSpanDrops c)
    (KmsCacheSeconds c) (TelemetryTimeoutMs c) (TelemetryMaxBytes c) (TelemetryMaxItems c).
Definition set_LogLevel (v : Z) (c : LambdaExtensionConfig) : LambdaExtensionConfig :=
  Config (SumoHTTPEndpoint c) (KMSKeyId c) (EnableFailover c) (S3BucketName c)
    (S3BucketRegion c) (NumRetry c) (AWSLambdaRuntimeAPI c) (LogTypes c) (FunctionName c)
    (FunctionVersion c) v (MaxDataQueueLength c) (MaxConcurrentRequests c) (MaxRetryAttempts c)
    (RetrySleepTime c) (ConnectionTimeoutValue c) (MaxDataPayloadSize c) (LambdaRegion c)
    (SourceCategoryOverride c) (EnhanceJsonLogs c) (EnableSpanDrops c) (KmsCacheSeconds c)
    (TelemetryTimeoutMs c) (TelemetryMaxBytes c) (TelemetryMaxItems c).
Definition set_MaxDataQueueLength (v : Z) (c : LambdaExtensionConfig) : LambdaExtensionConfig :=
  Config (SumoHTTPEndpoint c) (KMSKeyId c) (EnableFailover c) (S3BucketName c)
    (S3BucketRegion c) (NumRetry c) (AWSLambdaRuntimeAPI c) (LogTypes c) (FunctionName c)
    (FunctionVersion c) (LogLevel c) v (MaxConcurrentRequests c) (MaxRetryAttempts c)
    (RetrySleepTime c) (ConnectionTimeoutValue c) (MaxDataPayloadSize c) (LambdaRegion c)
    (SourceCategoryOverride c) (EnhanceJsonLogs c) (EnableSpanDrops c) (KmsCacheSeconds c)
    (TelemetryTimeoutMs c) (TelemetryMaxBytes c) (TelemetryMaxItems c).
Definition set_MaxConcurrentRequests (v : Z) (c : LambdaExtensionConfig) : LambdaExtensionConfig :=
  Config (SumoHTTPEndpoint c) (KMSKeyId c) (EnableFailover c) (S3BucketName c)
    (S3BucketRegion c) (NumRetry c) (AWSLambdaRuntimeAPI c) (LogTypes c) (FunctionName c)
    (FunctionVersion c) (LogLevel c) (MaxDataQueueLength c) v (MaxRetryAttempts c)
    (RetrySleepTime c) (ConnectionTimeoutValue c) (MaxDataPayloadSize c) (LambdaRegion c)
    (SourceCategoryOverride c) (EnhanceJsonLogs c) (EnableSpanDrops c) (KmsCacheSeconds c)
    (TelemetryTimeoutMs c) (TelemetryMaxBytes c) (TelemetryMaxItems c).
Definition set_RetrySleepTime (v : Z) (c : LambdaExtensionConfig) : LambdaExtensionConfig :=
  Config (SumoHTTPEndpoint c) (KMSKeyId c) (EnableFailover c) (S3BucketName c)
    (S3BucketRegion c) (NumRetry c) (AWSLambdaRuntimeAPI c) (LogTypes c) (FunctionName c)
    (FunctionVersion c) (LogLevel c) (MaxDataQueueLength c) (MaxConcurrentRequests c)
    (MaxRetryAttempts c) v (ConnectionTimeoutValue c) (MaxDataPayloadSize c) (LambdaRegion c)
    (SourceCategoryOverride c) (EnhanceJsonLogs c) (EnableSpanDrops c) (KmsCacheSeconds c)
    (TelemetryTimeoutMs c) (TelemetryMaxBytes c) (TelemetryMaxItems c).
Definition set_EnhanceJsonLogs (v : bool) (c : LambdaExtensionConfig) : LambdaExtensionConfig :=
  Config (SumoHTTPEndpoint c) (KMSKeyId c) (EnableFailover c) (S3BucketName c)
    (S3BucketRegion c) (NumRetry c) (AWSLambdaRuntimeAPI c) (LogTypes c) (FunctionName c)
    (FunctionVersion c) (LogLevel c) (MaxDataQueueLength c) (MaxConcurrentRequests c)
    (MaxRetryAttempts c) (RetrySleepTime c) (ConnectionTimeoutValue c) (MaxDataPayloadSize c)
    (LambdaRegion c) (SourceCategoryOverride c) v (EnableSpanDrops c) (KmsCacheSeconds c)
    (TelemetryTimeoutMs c) (TelemetryMaxBytes c) (TelemetryMaxItems c).
Definition set_EnableSpanDrops (v : bool) (c : LambdaExtensionConfig) : LambdaExtensionConfig :=
  Config (SumoHTTPEndpoint c) (KMSKeyId c) (EnableFailover c) (S3BucketName c)
    (S3BucketRegion c) (NumRetry c) (AWSLambdaRuntimeAPI c) (LogTypes c) (FunctionName c)
    (FunctionVersion c) (LogLevel c) (MaxDataQueueLength c) (MaxConcurrentRequests c)
    (MaxRetryAttempts c) (RetrySleepTime c) (ConnectionTimeoutValue c) (MaxDataPayloadSize c)
    (LambdaRegion c) (SourceCategoryOverride c) (EnhanceJsonLogs c) v (KmsCacheSeconds c)
    (TelemetryTimeoutMs c) (TelemetryMaxBytes c) (TelemetryMaxItems c).
Definition set_KmsCacheSeconds (v : Z) (c : LambdaExtensionConfig) : LambdaExtensionConfig :=
  Config (SumoHTTPEndpoint c) (KMSKeyId c) (EnableFailover c) (S3BucketName c)
    (S3BucketRegion c) (NumRetry c) (AWSLambdaRuntimeAPI c) (LogTypes c) (FunctionName c)
    (FunctionVersion c) (LogLevel c) (MaxDataQueueLength c) (MaxConcurrentRequests c)
    (MaxRetryAttempts c) (RetrySleepTime c) (ConnectionTimeoutValue c) (MaxDataPayloadSize c)
    (LambdaRegion c) (SourceCategoryOverride c) (EnhanceJsonLogs c) (EnableSpanDrops c) v
    (TelemetryTimeoutMs c) (TelemetryMaxBytes c) (TelemetryMaxItems c).
Definition set_TelemetryTimeoutMs (v : Z) (c : LambdaExtensionConfig) : LambdaExtensionConfig :=
  Config (SumoHTTPEndpoint c) (KMSKeyId c) (EnableFailover c) (S3BucketName c)
    (S3BucketRegion c) (NumRetry c) (AWSLambdaRuntimeAPI c) (LogTypes c) (FunctionName c)
    (FunctionVersion c) (LogLevel c) (MaxDataQueueLength c) (MaxConcurrentRequests c)
    (MaxRetryAttempts c) (RetrySleepTime c) (ConnectionTimeoutValue c) (MaxDataPayloadSize c)
    (LambdaRegion c) (SourceCategoryOverride c) (EnhanceJsonLogs c) (EnableSpanDrops c)
    (KmsCacheSeconds c) v (TelemetryMaxBytes c) (TelemetryMaxItems c).
Definition set_TelemetryMaxBytes (v : Z) (c : LambdaExtensionConfig) : LambdaExtensionConfig :=
  Config (SumoHTTPEndpoint c) (KMSKeyId c) (EnableFailover c) (S3BucketName c)
    (S3BucketRegion c) (NumRetry c) (AWSLambdaRuntimeAPI c) (LogTypes c) (FunctionName c)
    (FunctionVersion c) (LogLevel c) (MaxDataQueueLength c) (MaxConcurrentRequests c)
    (MaxRetryAttempts c) (RetrySleepTime c) (ConnectionTimeoutValue c) (MaxDataPayloadSize c)
    (LambdaRegion c) (SourceCategoryOverride c) (EnhanceJsonLogs c) (EnableSpanDrops c)
    (KmsCacheSeconds c) (TelemetryTimeoutMs c) v (TelemetryMaxItems c).
Definition set_TelemetryMaxItems (v : Z) (c : LambdaExtensionConfig) : LambdaExtensionConfig :=
  Config (SumoHTTPEndpoint c) (KMSKeyId c) (EnableFailover c) (S3BucketName c)
    (S3BucketRegion c) (NumRetry c) (AWSLambdaRuntimeAPI c) (LogTypes c) (FunctionName c)
    (FunctionVersion c) (LogLevel c) (MaxDataQueueLength c) (MaxConcurrentRequests c)
    (MaxRetryAttempts c) (RetrySleepTime c) (ConnectionTimeoutValue c) (MaxDataPayloadSize c)
    (LambdaRegion c) (SourceCategoryOverride c) (EnhanceJsonLogs c) (EnableSpanDrops c)
    (KmsCacheSeconds c) (TelemetryTimeoutMs c) (TelemetryMaxBytes c) v.

Definition defaultLogTypes : list string := ["platform"; "function"]%string.
Definition validLogTypes : list string := ["platform"; "function"; "extension"]%string.

(** [logrus.InfoLevel] *)
Definition InfoLevel : Z := 4.

(** What [validateConfig] appends to [allErrors]. *)
Inductive config_error :=
  | EndpointNotSet
  | EndpointNotValid
  | UnableToParse (var : string)
  | S3BucketNameNotSet
  | S3BucketRegionNotSet
  | LogTypeUnsupported (logType : string).

(** The values of its variable [err]. *)
Inductive validate_error :=
  | ErrUri
  | ErrNum (e : num_error)
  | ErrJoined (l : list config_error).

(** The variables of [validateConfig]: the receiver, [allErrors], [err]. *)
Record vstate := VState {
  v_cfg : LambdaExtensionConfig;
  v_errs : list config_error;
  v_err : option validate_error }.

(** config/version.go *)
Definition layerVersion : string := "11".
Definition ExtensionName `{Env} : string := env_program.
Definition SumoLogicExtensionLayerVersionSuffix `{Env} : string :=
  ExtensionName +:+ "-prod:" +:+ layerVersion.

Section config.
Context `{E : Env}.

(** [if b { f(cfg) }] *)
Definition assign_if (b : bool) (f : LambdaExtensionConfig → LambdaExtensionConfig)
    (cfg : LambdaExtensionConfig) : LambdaExtensionConfig :=
  if b then f cfg else cfg.

Definition setDefaults (cfg : LambdaExtensionConfig) : LambdaExtensionConfig :=
  let unset k := String.eqb (getenv k) EmptyString in
  let cfg := assign_if (unset "TELEMETRY_TIMEOUT_MS") (set_TelemetryTimeoutMs 1000) cfg in
  let cfg := assign_if (unset "TELEMETRY_MAX_BYTES") (set_TelemetryMaxBytes 262144) cfg in
  let cfg := assign_if (unset "TELEMETRY_MAX_ITEMS") (set_TelemetryMaxItems 10000) cfg in
  let cfg := assign_if (unset "SUMO_NUM_RETRIES") (set_NumRetry 3) cfg in
  let cfg := assign_if (unset "SUMO_LOG_LEVEL") (set_LogLevel InfoLevel) cfg in
  let cfg := assign_if (unset "SUMO_MAX_DATAQUEUE_LENGTH") (set_MaxDataQueueLength 20) cfg in
  let cfg := assign_if (unset "SUMO_MAX_CONCURRENT_REQUESTS") (set_MaxConcurrentRequests 3) cfg in
  let cfg := assign_if (unset "SUMO_ENABLE_FAILOVER") (set_EnableFailover false) cfg in
  let cfg := assign_if (String.eqb (AWSLambdaRuntimeAPI cfg) EmptyString)
               (set_AWSLambdaRuntimeAPI "127.0.0.1:9001") cfg in
  let cfg := if unset "SUMO_LOG_TYPES" then set_LogTypes defaultLogTypes cfg
             else set_LogTypes (split_on ","%char (getenv "SUMO_LOG_TYPES")) cfg in
  let cfg := assign_if (unset "SUMO_RETRY_SLEEP_TIME_MS") (set_RetrySleepTime (300 * millisecond)) cfg in
  let cfg := assign_if (unset "SUMO_ENHANCE_JSON_LOGS") (set_EnhanceJsonLogs true) cfg in
  let cfg := assign_if (unset "SUMO_SPAN_DROP") (set_EnableSpanDrops false) cfg in
  let cfg := assign_if (unset "KMS_CACHE_SECONDS") (set_KmsCacheSeconds 5) cfg in
  cfg.

(** [allErrors = append(allErrors, e)] *)
Definition report (e : config_error) (s : vstate) : vstate :=
  VState (v_cfg s) (v_errs s ++ [e]) (v_err s).
Definition with_cfg (f : LambdaExtensionConfig → LambdaExtensionConfig) (s : vstate) : vstate :=
  VState (f (v_cfg s)) (v_errs s) (v_err s).
Definition with_err (e : option validate_error) (s : vstate) : vstate :=
  VState (v_cfg s) (v_errs s) e.

Definition validateEndpoint (s : vstate) : vstate :=
  let s := if String.eqb (SumoHTTPEndpoint (v_cfg s)) EmptyString
           then report EndpointNotSet s else s in
  if negb (String.eqb (SumoHTTPEndpoint (v_cfg s)) EmptyString)
     && String.eqb (KMSKeyId (v_cfg s)) EmptyString
  then
    if env_uri_ok (SumoHTTPEndpoint (v_cfg s)) then with_err None s
    else report EndpointNotValid (with_err (Some ErrUri) s)
  else s.

(** A boolean variable: the field and the outer [err] are assigned in any
    case, and a failure is reported. *)
Definition validateBool (var : string) (set : bool → LambdaExtensionConfig → LambdaExtensionConfig)
    (s : vstate) : vstate :=
  if String.eqb (getenv var) EmptyString then s
  else
    let '(b, err) := parse_bool (getenv var) in
    let s := with_err (ErrNum <$> err) (with_cfg (set b) s) in
    match err with Some _ => report (UnableToParse var) s | None => s end.

Definition validateFailover (s : vstate) : vstate :=
  if EnableFailover (v_cfg s) then
    let s := if String.eqb (S3BucketName (v_cfg s)) EmptyString
             then report S3BucketNameNotSet s else s in
    if String.eqb (S3BucketRegion (v_cfg s)) EmptyString
    then report S3BucketRegionNotSet s else s
  else s.

(** A 32-bit variable: [err] is local to the block, and the field is
    assigned only when the text parses. *)
Definition validateInt (var : string) (set : Z → LambdaExtensionConfig → LambdaExtensionConfig)
    (s : vstate) : vstate :=
  if String.eqb (getenv var) EmptyString then s
  else match parse_int 32 (getenv var) with
       | (_, Some _) => report (UnableToParse var) s
       | (v, None) => with_cfg (set v) s
       end.

Definition validateLogLevel (s : vstate) : vstate :=
  if String.eqb (getenv "SUMO_LOG_LEVEL") EmptyString then s
  else match env_parse_level (getenv "SUMO_LOG_LEVEL") with
       | None => report (UnableToParse "SUMO_LOG_LEVEL") s
       | Some l => with_cfg (set_LogLevel l) s
       end.

(** The field is assigned even when the text does not parse. *)
Definition validateKmsCache (s : vstate) : vstate :=
  if String.eqb (getenv "KMS_CACHE_SECONDS") EmptyString then s
  else
    let '(v, err) := parse_int 32 (getenv "KMS_CACHE_SECONDS") in
    let s := with_err (ErrNum <$> err) (with_cfg (set_KmsCacheSeconds v) s) in
    match err with Some _ => report (UnableToParse "KMS_CACHE_SECONDS") s | None => s end.

Definition validateTelemetryTimeoutMs (s : vstate) : vstate :=
  if String.eqb (getenv "TELEMETRY_TIMEOUT_MS") EmptyString then s
  else
    let s := validateInt "TELEMETRY_TIMEOUT_MS" set_TelemetryTimeoutMs s in
    let s := with_cfg (λ c, set_TelemetryTimeoutMs (Z.max (TelemetryTimeoutMs c) 25) c) s in
    with_cfg (λ c, set_TelemetryTimeoutMs (Z.min (TelemetryTimeoutMs c) 30000) c) s.

Definition validateTelemetryMaxBytes (s : vstate) : vstate :=
  if String.eqb (getenv "TELEMETRY_MAX_BYTES") EmptyString then s
  else
    let '(v, err) := parse_int 64 (getenv "TELEMETRY_MAX_BYTES") in
    let s := with_err (ErrNum <$> err) (with_cfg (set_TelemetryMaxBytes v) s) in
    let s := match err with Some _ => report (UnableToParse "TELEMETRY_MAX_BYTES") s | None => s end in
    let s := with_cfg (λ c, set_TelemetryMaxBytes (Z.max (TelemetryMaxBytes c) 262144) c) s in
    with_cfg (λ c, set_TelemetryMaxBytes (Z.min (TelemetryMaxBytes c) 1048576) c) s.

Definition validateTelemetryMaxItems (s : vstate) : vstate :=
  if String.eqb (getenv "TELEMETRY_MAX_ITEMS") EmptyString then s
  else
    let s := validateInt "TELEMETRY_MAX_ITEMS" set_TelemetryMaxItems s in
    let s := with_cfg (λ c, set_TelemetryMaxItems (Z.max (TelemetryMaxItems c) 1000) c) s in
    with_cfg (λ c, set_TelemetryMaxItems (Z.min (TelemetryMaxItems c) 10000) c) s.

Fixpoint validateLogTypes (l : list string) (s : vstate) : vstate :=
  match l with
  | [] => s
  | logType :: l' =>
      validateLogTypes l'
        (if StringInSlice (trim_space logType) validLogTypes then s
         else report (LogTypeUnsupported logType) s)
  end.

Definition validateConfig (cfg : LambdaExtensionConfig)
    : LambdaExtensionConfig * option validate_error :=
  let s := VState cfg [] None in
  let s := validateEndpoint s in
  let s := validateBool "SUMO_ENABLE_FAILOVER" set_EnableFailover s in
  let s := validateFailover s in
  let s := validateInt "SUMO_NUM_RETRIES" set_NumRetry s in
  let s := validateInt "SUMO_RETRY_SLEEP_TIME_MS" (λ v, set_RetrySleepTime (v * millisecond)) s in
  let s := validateInt "SUMO_MAX_DATAQUEUE_LENGTH" set_MaxDataQueueLength s in
  let s := validateInt "SUMO_MAX_CONCURRENT_REQUESTS" set_MaxConcurrentRequests s in
  let s := validateLogLevel s in
  let s := validateBool "SUMO_ENHANCE_JSON_LOGS" set_EnhanceJsonLogs s in
  let s := validateBool "SUMO_SPAN_DROP" set_EnableSpanDrops s in
  let s := validateKmsCache s in
  let s := validateTelemetryTimeoutMs s in
  let s := validateTelemetryMaxBytes s in
  let s := validateTelemetryMaxItems s in
  let s := validateLogTypes (LogTypes (v_cfg s)) s in
  let s := match v_errs s with
           | [] => s
           | l => with_err (Some (ErrJoined l)) s
           end in
  (v_cfg s, v_err s).

(** The literal [GetConfig] starts from. *)
Definition initialConfig : LambdaExtensionConfig := {|
  SumoHTTPEndpoint := getenv "SUMO_HTTP_ENDPOINT";
  KMSKeyId := getenv "KMS_KEY_ID";
  EnableFailover := false;
  S3BucketName := getenv "SUMO_S3_BUCKET_NAME";
  S3BucketRegion := getenv "SUMO_S3_BUCKET_REGION";
  NumRetry := 0;
  AWSLambdaRuntimeAPI := getenv "AWS_LAMBDA_RUNTIME_API";
  LogTypes := [];
  FunctionName := getenv "AWS_LAMBDA_FUNCTION_NAME";
  FunctionVersion := getenv "AWS_LAMBDA_FUNCTION_VERSION";
  LogLevel := 0;
  MaxDataQueueLength := 0;
  MaxConcurrentRequests := 0;
  MaxRetryAttempts := 5;
  RetrySleepTime := 0;
  ConnectionTimeoutValue := 10000 * millisecond;
  MaxDataPayloadSize := 1024 * 1024;
  LambdaRegion := getenv "AWS_REGION";
  SourceCategoryOverride := getenv "SOURCE_CATEGORY_OVERRIDE";
  EnhanceJsonLogs := false;
  EnableSpanDrops := false;
  KmsCacheSeconds := 0;
  TelemetryTimeoutMs := 0;
  TelemetryMaxBytes := 0;
  TelemetryMaxItems := 0 |}.

(** The configuration is returned whether or not it is valid. *)
Definition GetConfig : LambdaExtensionConfig * option validate_error :=
  validateConfig (setDefaults initialConfig).
End config.

(** ** Specification

    Each field is a function of its own variable, and the reported problems
    are the concatenation of independent checks. *)
Section spec.
Context `{E : Env}.

Definition is_unset (var : string) : bool := String.eqb (getenv var) EmptyString.

(** A variable that is set but does not parse leaves the field's zero
    value, not its default. *)
Definition int_spec (var : string) (dflt : Z) : Z :=
  if is_unset var then dflt
  else match parse_int 32 (getenv var) with (v, None) => v | _ => 0 end.
Definition bool_spec (var : string) (dflt : bool) : bool :=
  if is_unset var then dflt else (parse_bool (getenv var)).1.
Definition clamp (lo hi v : Z) : Z := Z.min (Z.max v lo) hi.
Definition log_types_spec : list string :=
  if is_unset "SUMO_LOG_TYPES" then defaultLogTypes
  else split_on ","%char (getenv "SUMO_LOG_TYPES").

Definition config_spec : LambdaExtensionConfig := {|
  SumoHTTPEndpoint := getenv "SUMO_HTTP_ENDPOINT";
  KMSKeyId := getenv "KMS_KEY_ID";
  EnableFailover := bool_spec "SUMO_ENABLE_FAILOVER" false;
  S3BucketName := getenv "SUMO_S3_BUCKET_NAME";
  S3BucketRegion := getenv "SUMO_S3_BUCKET_REGION";
  NumRetry := int_spec "SUMO_NUM_RETRIES" 3;
  AWSLambdaRuntimeAPI := if is_unset "AWS_LAMBDA_RUNTIME_API" then "127.0.0.1:9001"%string
                         else getenv "AWS_LAMBDA_RUNTIME_API";
  LogTypes := log_types_spec;
  FunctionName := getenv "AWS_LAMBDA_FUNCTION_NAME";
  FunctionVersion := getenv "AWS_LAMBDA_FUNCTION_VERSION";
  LogLevel := if is_unset "SUMO_LOG_LEVEL" then InfoLevel
              else default 0 (env_parse_level (getenv "SUMO_LOG_LEVEL"));
  MaxDataQueueLength := int_spec "SUMO_MAX_DATAQUEUE_LENGTH" 20;
  MaxConcurrentRequests := int_spec "SUMO_MAX_CONCURRENT_REQUESTS" 3;
  MaxRetryAttempts := 5;
  RetrySleepTime := int_spec "SUMO_RETRY_SLEEP_TIME_MS" 300 * millisecond;
  ConnectionTimeoutValue := 10 * second;
  MaxDataPayloadSize := 1048576;
  LambdaRegion := getenv "AWS_REGION";
  SourceCategoryOverride := getenv "SOURCE_CATEGORY_OVERRIDE";
  EnhanceJsonLogs := bool_spec "SUMO_ENHANCE_JSON_LOGS" true;
  EnableSpanDrops := bool_spec "SUMO_SPAN_DROP" false;
  KmsCacheSeconds := if is_unset "KMS_CACHE_SECONDS" then 5
                     else (parse_int 32 (getenv "KMS_CACHE_SECONDS")).1;
  TelemetryTimeoutMs := if is_unset "TELEMETRY_TIMEOUT_MS" then 1000
                        else clamp 25 30000 (int_spec "TELEMETRY_TIMEOUT_MS" 0);
  TelemetryMaxBytes := if is_unset "TELEMETRY_MAX_BYTES" then 262144
                       else clamp 262144 1048576 (parse_int 64 (getenv "TELEMETRY_MAX_BYTES")).1;
  TelemetryMaxItems := if is_unset "TELEMETRY_MAX_ITEMS" then 10000
                       else clamp 1000 10000 (int_spec "TELEMETRY_MAX_ITEMS" 0) |}.

Definition check (b : bool) (e : config_error) : list config_error := if b then [] else [e].

Definition parses {A} (var : string) (p : string → A * option num_error) : bool :=
  is_unset var || bool_decide ((p (getenv var)).2 = None).
Definition parses_int (bits : Z) (var : string) : bool := parses var (parse_int bits).
Definition parses_bool (var : string) : bool := parses var parse_bool.

Definition endpoint_errors : list config_error :=
  if is_unset "SUMO_HTTP_ENDPOINT" then [EndpointNotSet]
  else check (negb (is_unset "KMS_KEY_ID") || env_uri_ok (getenv "SUMO_HTTP_ENDPOINT")) EndpointNotValid.

Definition failover_errors : list config_error :=
  if bool_spec "SUMO_ENABLE_FAILOVER" false then
    check (negb (is_unset "SUMO_S3_BUCKET_NAME")) S3BucketNameNotSet ++
    check (negb (is_unset "SUMO_S3_BUCKET_REGION")) S3BucketRegionNotSet
  else [].

Definition log_type_errors (l : list string) : list config_error :=
  flat_map (λ t, check (StringInSlice (trim_space t) validLogTypes) (LogTypeUnsupported t)) l.

Definition int_errors (bits : Z) (var : string) : list config_error :=
  check (parses_int bits var) (UnableToParse var).
Definition bool_errors (var : string) : list config_error :=
  check (parses_bool var) (UnableToParse var).

Definition config_errors : list config_error :=
  endpoint_errors ++ bool_errors "SUMO_ENABLE_FAILOVER" ++ failover_errors ++
  int_errors 32 "SUMO_NUM_RETRIES" ++ int_errors 32 "SUMO_RETRY_SLEEP_TIME_MS" ++
  int_errors 32 "SUMO_MAX_DATAQUEUE_LENGTH" ++ int_errors 32 "SUMO_MAX_CONCURRENT_REQUESTS" ++
  check (is_unset "SUMO_LOG_LEVEL" || bool_decide (is_Some (env_parse_level (getenv "SUMO_LOG_LEVEL"))))
    (UnableToParse "SUMO_LOG_LEVEL") ++
  bool_errors "SUMO_ENHANCE_JSON_LOGS" ++ bool_errors "SUMO_SPAN_DROP" ++
  int_errors 32 "KMS_CACHE_SECONDS" ++ int_errors 32 "TELEMETRY_TIMEOUT_MS" ++
  int_errors 64 "TELEMETRY_MAX_BYTES" ++ int_errors 32 "TELEMETRY_MAX_ITEMS" ++
  log_type_errors log_types_spec.
End spec.

(** ** Theorems *)

Section effects.
Context `{E : Env}.

(** [err] is never left set without a report. *)
Definition consistent (s : vstate) : Prop := v_errs s = [] → v_err s = None.

(** A block of [validateConfig] that turns the configuration [c] into
    [f c] and reports [es]. *)
Definition acts (step : vstate → vstate) (f : LambdaExtensionConfig → LambdaExtensionConfig)
    (es : LambdaExtensionConfig → list config_error) : Prop :=
  ∀ s, consistent s →
    v_cfg (step s) = f (v_cfg s) ∧ v_errs (step s) = v_errs s ++ es (v_cfg s) ∧
    consistent (step s).

Lemma acts_apply step f es s c errs :
  acts step f es → consistent s ∧ v_cfg s = c ∧ v_errs s = errs →
  consistent (step s) ∧ v_cfg (step s) = f c ∧ v_errs (step s) = errs ++ es c.
Proof. intros Ha (Hs & <- & <-). destruct (Ha s Hs) as (? & ? & ?). done. Qed.

Lemma snoc_not_nil {A} (l : list A) x : l ++ [x] ≠ [].
Proof. by destruct l. Qed.

Ltac acts_done :=
  unfold consistent in *; simpl; rewrite ?app_nil_r;
  repeat split; try done; by intros ?%snoc_not_nil.

Lemma acts_endpoint :
  acts validateEndpoint id
    (λ c, if String.eqb (SumoHTTPEndpoint c) EmptyString then [EndpointNotSet]
          else check (negb (String.eqb (KMSKeyId c) EmptyString) || env_uri_ok (SumoHTTPEndpoint c))
                 EndpointNotValid).
Proof.
  unfold validateEndpoint, report, with_err. intros [c errs err] Hs.
  unfold consistent in *. simpl in *.
  destruct (String.eqb (SumoHTTPEndpoint c) EmptyString) eqn:H1; simpl; rewrite ?H1; simpl.
  { acts_done. }
  destruct (String.eqb (KMSKeyId c) EmptyString); simpl; [|by rewrite app_nil_r].
  destruct (env_uri_ok _); simpl; [by rewrite app_nil_r|]. acts_done.
Qed.

Lemma acts_bool var get set :
  (∀ c, set (get c) c = c) →
  acts (validateBool var set) (λ c, set (bool_spec var (get c)) c) (λ _, bool_errors var).
Proof.
  intros Hset. unfold validateBool, bool_spec, bool_errors, parses_bool, parses, is_unset.
  destruct (String.eqb (getenv var) EmptyString); simpl.
  - intros s Hs. rewrite Hset, app_nil_r. done.
  - destruct (parse_bool _) as [b [e|]]; simpl; intros s Hs; acts_done.
Qed.

Lemma acts_failover :
  acts validateFailover id
    (λ c, if EnableFailover c then
            check (negb (String.eqb (S3BucketName c) EmptyString)) S3BucketNameNotSet ++
            check (negb (String.eqb (S3BucketRegion c) EmptyString)) S3BucketRegionNotSet
          else []).
Proof.
  unfold validateFailover, report. intros [c errs err] Hs. unfold consistent in *. simpl in *.
  destruct (EnableFailover c); simpl; [|by rewrite app_nil_r].
  destruct (String.eqb (S3BucketName c) EmptyString); simpl;
    destruct (String.eqb (S3BucketRegion c) EmptyString); simpl;
    rewrite ?app_nil_r, <- ?app_assoc; repeat split; try done; by intros [? ?]%app_nil.
Qed.

Lemma acts_int {A} var (conv : Z → A) (get : LambdaExtensionConfig → A) set setter :
  (∀ c, set (get c) c = c) → (∀ v c, setter v c = set (conv v) c) →
  acts (validateInt var setter)
    (λ c, set (if is_unset var then get c
               else match parse_int 32 (getenv var) with (v, None) => conv v | _ => get c end) c)
    (λ _, int_errors 32 var).
Proof.
  intros Hset Hconv. unfold validateInt, int_errors, parses_int, parses, is_unset.
  destruct (String.eqb (getenv var) EmptyString); simpl.
  - intros s Hs. rewrite Hset, app_nil_r. done.
  - destruct (parse_int _ _) as [v [e|]]; simpl; intros s Hs; rewrite ?Hset, ?Hconv; acts_done.
Qed.

Lemma acts_level :
  acts validateLogLevel
    (λ c, set_LogLevel (if is_unset "SUMO_LOG_LEVEL" then LogLevel c
                        else default (LogLevel c) (env_parse_level (getenv "SUMO_LOG_LEVEL"))) c)
    (λ _, check (is_unset "SUMO_LOG_LEVEL" ||
            bool_decide (is_Some (env_parse_level (getenv "SUMO_LOG_LEVEL"))))
            (UnableToParse "SUMO_LOG_LEVEL")).
Proof.
  unfold validateLogLevel, is_unset.
  destruct (String.eqb _ EmptyString); simpl; [|destruct (env_parse_level _); simpl];
    intros [[] errs err] Hs; acts_done.
Qed.

Lemma acts_kms :
  acts validateKmsCache
    (λ c, set_KmsCacheSeconds (if is_unset "KMS_CACHE_SECONDS" then KmsCacheSeconds c
                               else (parse_int 32 (getenv "KMS_CACHE_SECONDS")).1) c)
    (λ _, int_errors 32 "KMS_CACHE_SECONDS").
Proof.
  unfold validateKmsCache, int_errors, parses_int, parses, is_unset.
  destruct (String.eqb _ EmptyString); simpl;
    [|destruct (parse_int _ _) as [v [e|]]; simpl];
    intros [[] errs err] Hs; acts_done.
Qed.

(** The clamped blocks. *)
Lemma acts_clamped var get set lo hi :
  (∀ c, set (get c) c = c) → (∀ v c, get (set v c) = v) → (∀ u v c, set u (set v c) = set u c) →
  acts (λ s, if String.eqb (getenv var) EmptyString then s
             else with_cfg (λ c, set (Z.min (get c) hi) c)
                    (with_cfg (λ c, set (Z.max (get c) lo) c) (validateInt var set s)))
    (λ c, set (if is_unset var then get c
               else clamp lo hi (match parse_int 32 (getenv var) with (v, None) => v | _ => get c end)) c)
    (λ _, int_errors 32 var).
Proof.
  intros Hid Hget Hset s Hs.
  destruct (acts_int var id get set set Hid (λ _ _, eq_refl) s Hs) as (Hc & He & Ho).
  unfold id, is_unset in *.
  destruct (String.eqb (getenv var) EmptyString) eqn:Hu.
  - unfold validateInt in *. rewrite Hu in *. rewrite Hid in *. done.
  - unfold with_cfg, consistent in *. simpl. split_and!; [|done..].
    by rewrite Hc, !Hget, !Hset.
Qed.

Lemma acts_timeout :
  acts validateTelemetryTimeoutMs
    (λ c, set_TelemetryTimeoutMs
            (if is_unset "TELEMETRY_TIMEOUT_MS" then TelemetryTimeoutMs c
             else clamp 25 30000 (match parse_int 32 (getenv "TELEMETRY_TIMEOUT_MS") with
                                  | (v, None) => v | _ => TelemetryTimeoutMs c end)) c)
    (λ _, int_errors 32 "TELEMETRY_TIMEOUT_MS").
Proof. apply acts_clamped; by intros; destruct c. Qed.

Lemma acts_items :
  acts validateTelemetryMaxItems
    (λ c, set_TelemetryMaxItems
            (if is_unset "TELEMETRY_MAX_ITEMS" then TelemetryMaxItems c
             else clamp 1000 10000 (match parse_int 32 (getenv "TELEMETRY_MAX_ITEMS") with
                                    | (v, None) => v | _ => TelemetryMaxItems c end)) c)
    (λ _, int_errors 32 "TELEMETRY_MAX_ITEMS").
Proof. apply acts_clamped; by intros; destruct c. Qed.

Lemma acts_bytes :
  acts validateTelemetryMaxBytes
    (λ c, set_TelemetryMaxBytes
            (if is_unset "TELEMETRY_MAX_BYTES" then TelemetryMaxBytes c
             else clamp 262144 1048576 (parse_int 64 (getenv "TELEMETRY_MAX_BYTES")).1) c)
    (λ _, int_errors 64 "TELEMETRY_MAX_BYTES").
Proof.
  unfold validateTelemetryMaxBytes, int_errors, parses_int, parses, is_unset.
  destruct (String.eqb _ EmptyString); simpl;
    [|destruct (parse_int _ _) as [v [e|]]; simpl];
    intros [[] errs err] Hs; acts_done.
Qed.

Lemma acts_log_types l : acts (validateLogTypes l) id (λ _, log_type_errors l).
Proof.
  induction l as [|t l IH]; intros s Hs; [simpl; by rewrite app_nil_r|].
  unfold log_type_errors. cbn [validateLogTypes flat_map]. fold (log_type_errors l).
  destruct (StringInSlice (trim_space t) validLogTypes); [by apply IH|].
  destruct (IH (report (LogTypeUnsupported t) s)) as (H1 & H2 & H3).
  { acts_done. }
  rewrite H1, H2. simpl. by rewrite <- app_assoc.
Qed.

(** [setDefaults] field by field. *)
Lemma set_if {A} (get : LambdaExtensionConfig → A) set (b : bool) v c :
  (∀ c, set (get c) c = c) → assign_if b (set v) c = set (if b then v else get c) c.
Proof. intros H. unfold assign_if. destruct b; [done|]. by rewrite H. Qed.

#[local] Arguments set_EnableFailover _ !_ /.
#[local] Arguments set_NumRetry _ !_ /.
#[local] Arguments set_AWSLambdaRuntimeAPI _ !_ /.
#[local] Arguments set_LogTypes _ !_ /.
#[local] Arguments set_LogLevel _ !_ /.
#[local] Arguments set_MaxDataQueueLength _ !_ /.
#[local] Arguments set_MaxConcurrentRequests _ !_ /.
#[local] Arguments set_RetrySleepTime _ !_ /.
#[local] Arguments set_EnhanceJsonLogs _ !_ /.
#[local] Arguments set_EnableSpanDrops _ !_ /.
#[local] Arguments set_KmsCacheSeconds _ !_ /.
#[local] Arguments set_TelemetryTimeoutMs _ !_ /.
#[local] Arguments set_TelemetryMaxBytes _ !_ /.
#[local] Arguments set_TelemetryMaxItems _ !_ /.

Lemma set_if_else {A} (set : A → LambdaExtensionConfig → LambdaExtensionConfig) (b : bool) v v' c :
  (if b then set v c else set v' c) = set (if b then v else v') c.
Proof. by destruct b. Qed.

(** Reduce projections and assignments of the configuration record. *)
Ltac reduce_config H :=
  cbv beta iota zeta delta [
    id initialConfig SumoHTTPEndpoint KMSKeyId EnableFailover S3BucketName
    S3BucketRegion NumRetry AWSLambdaRuntimeAPI LogTypes FunctionName
    FunctionVersion LogLevel MaxDataQueueLength MaxConcurrentRequests
    MaxRetryAttempts RetrySleepTime ConnectionTimeoutValue MaxDataPayloadSize
    LambdaRegion SourceCategoryOverride EnhanceJsonLogs EnableSpanDrops
    KmsCacheSeconds TelemetryTimeoutMs TelemetryMaxBytes TelemetryMaxItems
    set_EnableFailover set_NumRetry set_AWSLambdaRuntimeAPI set_LogTypes
    set_LogLevel set_MaxDataQueueLength set_MaxConcurrentRequests
    set_RetrySleepTime set_EnhanceJsonLogs set_EnableSpanDrops set_KmsCacheSeconds
    set_TelemetryTimeoutMs set_TelemetryMaxBytes set_TelemetryMaxItems] in H.

Ltac reduce_config_goal :=
  cbn [
    id initialConfig SumoHTTPEndpoint KMSKeyId EnableFailover S3BucketName
    S3BucketRegion NumRetry AWSLambdaRuntimeAPI LogTypes FunctionName
    FunctionVersion LogLevel MaxDataQueueLength MaxConcurrentRequests
    MaxRetryAttempts RetrySleepTime ConnectionTimeoutValue MaxDataPayloadSize
    LambdaRegion SourceCategoryOverride EnhanceJsonLogs EnableSpanDrops
    KmsCacheSeconds TelemetryTimeoutMs TelemetryMaxBytes TelemetryMaxItems
    set_EnableFailover set_NumRetry set_AWSLambdaRuntimeAPI set_LogTypes
    set_LogLevel set_MaxDataQueueLength set_MaxConcurrentRequests
    set_RetrySleepTime set_EnhanceJsonLogs set_EnableSpanDrops set_KmsCacheSeconds
    set_TelemetryTimeoutMs set_TelemetryMaxBytes set_TelemetryMaxItems].

Lemma setDefaults_spec c :
  setDefaults c =
    set_KmsCacheSeconds (if is_unset "KMS_CACHE_SECONDS" then 5 else KmsCacheSeconds c)
    (set_EnableSpanDrops (if is_unset "SUMO_SPAN_DROP" then false else EnableSpanDrops c)
    (set_EnhanceJsonLogs (if is_unset "SUMO_ENHANCE_JSON_LOGS" then true else EnhanceJsonLogs c)
    (set_RetrySleepTime (if is_unset "SUMO_RETRY_SLEEP_TIME_MS" then 300 * millisecond else RetrySleepTime c)
    (set_LogTypes log_types_spec
    (set_AWSLambdaRuntimeAPI (if String.eqb (AWSLambdaRuntimeAPI c) EmptyString
                              then "127.0.0.1:9001"%string else AWSLambdaRuntimeAPI c)
    (set_EnableFailover (if is_unset "SUMO_ENABLE_FAILOVER" then false else EnableFailover c)
    (set_MaxConcurrentRequests (if is_unset "SUMO_MAX_CONCURRENT_REQUESTS" then 3 else MaxConcurrentRequests c)
    (set_MaxDataQueueLength (if is_unset "SUMO_MAX_DATAQUEUE_LENGTH" then 20 else MaxDataQueueLength c)
    (set_LogLevel (if is_unset "SUMO_LOG_LEVEL" then InfoLevel else LogLevel c)
    (set_NumRetry (if is_unset "SUMO_NUM_RETRIES" then 3 else NumRetry c)
    (set_TelemetryMaxItems (if is_unset "TELEMETRY_MAX_ITEMS" then 10000 else TelemetryMaxItems c)
    (set_TelemetryMaxBytes (if is_unset "TELEMETRY_MAX_BYTES" then 262144 else TelemetryMaxBytes c)
    (set_TelemetryTimeoutMs (if is_unset "TELEMETRY_TIMEOUT_MS" then 1000 else TelemetryTimeoutMs c) c))))))))))))).
Proof.
  destruct c. unfold setDefaults, log_types_spec, is_unset. cbv zeta beta.
  rewrite (set_if_else set_LogTypes).
  rewrite (set_if TelemetryTimeoutMs set_TelemetryTimeoutMs) by (by intros []). reduce_config_goal.
  rewrite (set_if TelemetryMaxBytes set_TelemetryMaxBytes) by (by intros []). reduce_config_goal.
  rewrite (set_if TelemetryMaxItems set_TelemetryMaxItems) by (by intros []). reduce_config_goal.
  rewrite (set_if NumRetry set_NumRetry) by (by intros []). reduce_config_goal.
  rewrite (set_if LogLevel set_LogLevel) by (by intros []). reduce_config_goal.
  rewrite (set_if MaxDataQueueLength set_MaxDataQueueLength) by (by intros []). reduce_config_goal.
  rewrite (set_if MaxConcurrentRequests set_MaxConcurrentRequests) by (by intros []). reduce_config_goal.
  rewrite (set_if EnableFailover set_EnableFailover) by (by intros []). reduce_config_goal.
  rewrite (set_if AWSLambdaRuntimeAPI set_AWSLambdaRuntimeAPI) by (by intros []). reduce_config_goal.
  rewrite (set_if RetrySleepTime set_RetrySleepTime) by (by intros []). reduce_config_goal.
  rewrite (set_if EnhanceJsonLogs set_EnhanceJsonLogs) by (by intros []). reduce_config_goal.
  rewrite (set_if EnableSpanDrops set_EnableSpanDrops) by (by intros []). reduce_config_goal.
  rewrite (set_if KmsCacheSeconds set_KmsCacheSeconds) by (by intros []). reduce_config_goal.
  reflexivity.
Qed.

(** One more block of [validateConfig] run. *)
Ltac block L :=
  match goal with
  | H : consistent ?t ∧ _ |- _ =>
      eapply acts_apply in H; [|apply L; by intros []];
      match type of H with
      | consistent ?t' ∧ _ => revert H; generalize t'; clear; intros ? H
      end;
      reduce_config H
  end.

(** The blocks run in sequence on the defaults give the specification. *)
Lemma GetConfig_eq :
  GetConfig = (config_spec, match config_errors with [] => None | l => Some (ErrJoined l) end).
Proof.
  unfold GetConfig, validateConfig. rewrite setDefaults_spec. cbv zeta.
  set (c0 := set_KmsCacheSeconds _ _). reduce_config c0.
  assert (consistent (VState c0 [] None) ∧ v_cfg (VState c0 [] None) = c0 ∧
          v_errs (VState c0 [] None) = []) as H by done.
  revert H. generalize (VState c0 [] None) as s. subst c0. intros s H.
  block acts_endpoint.
  block (acts_bool "SUMO_ENABLE_FAILOVER" EnableFailover set_EnableFailover).
  block acts_failover.
  block (acts_int "SUMO_NUM_RETRIES" id NumRetry set_NumRetry set_NumRetry).
  block (acts_int "SUMO_RETRY_SLEEP_TIME_MS" (λ v, v * millisecond) RetrySleepTime set_RetrySleepTime
    (λ v, set_RetrySleepTime (v * millisecond))).
  block (acts_int "SUMO_MAX_DATAQUEUE_LENGTH" id MaxDataQueueLength set_MaxDataQueueLength set_MaxDataQueueLength).
  block (acts_int "SUMO_MAX_CONCURRENT_REQUESTS" id MaxConcurrentRequests set_MaxConcurrentRequests set_MaxConcurrentRequests).
  block acts_level.
  block (acts_bool "SUMO_ENHANCE_JSON_LOGS" EnhanceJsonLogs set_EnhanceJsonLogs).
  block (acts_bool "SUMO_SPAN_DROP" EnableSpanDrops set_EnableSpanDrops).
  block acts_kms.
  block acts_timeout.
  block acts_bytes.
  block acts_items.
  destruct H as (Hs & Hc & He).
  match goal with |- context [validateLogTypes (LogTypes (v_cfg ?v)) ?v] =>
    destruct (acts_log_types (LogTypes (v_cfg v)) v Hs) as (Hc' & He' & Hs');
    revert Hc' He' Hs'; generalize (validateLogTypes (LogTypes (v_cfg v)) v)
  end.
  intros s Hc' He' Hs'. rewrite Hc in Hc', He'. rewrite He in He'. clear Hs Hc He.
  assert (v_cfg s = config_spec) as E1.
  { rewrite Hc'. clear. unfold config_spec, int_spec, bool_spec, id.
    f_equal; match goal with |- context [is_unset ?v] => destruct (is_unset v) end;
      try reflexivity; destruct (parse_int 32 _) as [? []]; reflexivity. }
  assert (v_errs s = config_errors) as E2.
  { rewrite He'. unfold config_errors. rewrite <- !app_assoc. cbn [app].
    repeat f_equal. unfold failover_errors, bool_spec.
    by destruct (is_unset "SUMO_ENABLE_FAILOVER"). }
  rewrite E2. unfold consistent in Hs'. rewrite E2 in Hs'.
  destruct config_errors as [|e l]; simpl; rewrite E1; [|done]. by rewrite Hs'.
Qed.
End effects.

(** ** What GetConfig promises *)
Section properties.
Context `{E : Env}.

(** C20. [GetConfig] refines its specification: every field is the stated
    function of its own variable, whatever the other variables hold, and the
    error joins exactly the problems of the independent checks, in order. *)
Theorem GetConfig_refines_spec :
  GetConfig = (config_spec, match config_errors with [] => None | l => Some (ErrJoined l) end).
Proof. exact GetConfig_eq. Qed.

(** Whatever the environment holds, valid or not, the telemetry
    subscription limits are within the bounds of the Telemetry API. *)
Theorem GetConfig_telemetry_bounds :
  let c := GetConfig.1 in
  25 ≤ TelemetryTimeoutMs c ≤ 30000 ∧ 262144 ≤ TelemetryMaxBytes c ≤ 1048576 ∧
  1000 ≤ TelemetryMaxItems c ≤ 10000.
Proof.
  cbv zeta. rewrite GetConfig_eq. cbn. unfold clamp.
  destruct (is_unset "TELEMETRY_TIMEOUT_MS"), (is_unset "TELEMETRY_MAX_BYTES"),
    (is_unset "TELEMETRY_MAX_ITEMS"); lia.
Qed.

Lemma int_spec_range var d : in_int 32 d → in_int 32 (int_spec var d).
Proof.
  intros Hd. unfold int_spec. destruct (is_unset var); [done|].
  pose proof (parse_int_range 32 (getenv var) ltac:(lia)) as H.
  destruct (parse_int 32 (getenv var)) as [v [e|]]; [|done]. unfold in_int. lia.
Qed.

Lemma int_range_ms v : in_int 32 v → int64 (v * millisecond) = v * millisecond.
Proof. intros H. apply wrap_int_id; [lia|]. unfold in_int, millisecond in *. lia. Qed.

(** C40. The range of every number of the configuration, whatever the
    environment holds: the integers that are read as such fit an int32, the
    retry pause is an int32 of milliseconds, whose conversion to the
    nanoseconds of [time.Duration] (an int64) does not overflow, the
    telemetry limits are within the bounds of the Telemetry API, the others
    are constants, and the log level is one that logrus' parser gave, the
    default, or the zero that a value it refuses leaves. *)
Theorem GetConfig_width :
  let c := GetConfig.1 in
  in_int 32 (NumRetry c) ∧ in_int 32 (MaxDataQueueLength c) ∧
  in_int 32 (MaxConcurrentRequests c) ∧ in_int 32 (KmsCacheSeconds c) ∧
  (∃ ms, in_int 32 ms ∧ RetrySleepTime c = ms * millisecond ∧ int64 (RetrySleepTime c) = RetrySleepTime c) ∧
  25 ≤ TelemetryTimeoutMs c ≤ 30000 ∧ 262144 ≤ TelemetryMaxBytes c ≤ 1048576 ∧ 1000 ≤ TelemetryMaxItems c ≤ 10000 ∧
  MaxRetryAttempts c = 5 ∧ ConnectionTimeoutValue c = 10 * second ∧ MaxDataPayloadSize c = 2 ^ 20 ∧
  (LogLevel c = InfoLevel ∨ LogLevel c = 0 ∨ env_parse_level (getenv "SUMO_LOG_LEVEL") = Some (LogLevel c)).
Proof.
  pose proof GetConfig_telemetry_bounds as (Ht & Hb & Hi). cbv zeta. split_and!; try apply Ht; try apply Hb; try apply Hi;
    rewrite GetConfig_eq; cbn [fst config_spec NumRetry MaxDataQueueLength MaxConcurrentRequests KmsCacheSeconds
      RetrySleepTime MaxRetryAttempts ConnectionTimeoutValue MaxDataPayloadSize LogLevel];
    try (apply int_spec_range; unfold in_int; lia); try done.
  - destruct (is_unset _); [unfold in_int; lia|]. by apply parse_int_range.
  - assert (in_int 32 (int_spec "SUMO_RETRY_SLEEP_TIME_MS" 300)) as H by (apply int_spec_range; unfold in_int; lia).
    eexists. split; [exact H|]. split; [done|]. by apply int_range_ms.
  - destruct (is_unset "SUMO_LOG_LEVEL"); [by left|right]. destruct (env_parse_level _); [by right|by left].
Qed.

Lemma check_nil b e : check b e = [] ↔ b = true.
Proof. by destruct b. Qed.

Lemma log_type_errors_nil l :
  log_type_errors l = [] ↔ Forall (λ t, trim_space t ∈ validLogTypes) l.
Proof.
  induction l as [|t l IH]; [done|].
  unfold log_type_errors. cbn [flat_map]. fold (log_type_errors l).
  rewrite app_nil, check_nil, Forall_cons, StringInSlice_spec. by rewrite IH.
Qed.

(** An environment that configures the extension completely. *)
Record valid_env : Prop := {
  ve_endpoint : is_unset "SUMO_HTTP_ENDPOINT" = false;
  ve_uri : is_unset "KMS_KEY_ID" = true → env_uri_ok (getenv "SUMO_HTTP_ENDPOINT") = true;
  ve_bools : Forall (λ v, parses_bool v = true)
    ["SUMO_ENABLE_FAILOVER"; "SUMO_ENHANCE_JSON_LOGS"; "SUMO_SPAN_DROP"]%string;
  ve_ints : Forall (λ v, parses_int 32 v = true)
    ["SUMO_NUM_RETRIES"; "SUMO_RETRY_SLEEP_TIME_MS"; "SUMO_MAX_DATAQUEUE_LENGTH";
     "SUMO_MAX_CONCURRENT_REQUESTS"; "KMS_CACHE_SECONDS"; "TELEMETRY_TIMEOUT_MS";
     "TELEMETRY_MAX_ITEMS"]%string;
  ve_bytes : parses_int 64 "TELEMETRY_MAX_BYTES" = true;
  ve_level : is_unset "SUMO_LOG_LEVEL" = false → is_Some (env_parse_level (getenv "SUMO_LOG_LEVEL"));
  ve_bucket : bool_spec "SUMO_ENABLE_FAILOVER" false = true →
    is_unset "SUMO_S3_BUCKET_NAME" = false ∧ is_unset "SUMO_S3_BUCKET_REGION" = false;
  ve_types : Forall (λ t, trim_space t ∈ validLogTypes) log_types_spec }.

Lemma endpoint_errors_nil :
  endpoint_errors = [] ↔ is_unset "SUMO_HTTP_ENDPOINT" = false ∧
    (is_unset "KMS_KEY_ID" = true → env_uri_ok (getenv "SUMO_HTTP_ENDPOINT") = true).
Proof.
  unfold endpoint_errors. destruct (is_unset "SUMO_HTTP_ENDPOINT"); [naive_solver|].
  rewrite check_nil. destruct (is_unset "KMS_KEY_ID"); simpl; naive_solver.
Qed.

Lemma failover_errors_nil :
  failover_errors = [] ↔ (bool_spec "SUMO_ENABLE_FAILOVER" false = true →
    is_unset "SUMO_S3_BUCKET_NAME" = false ∧ is_unset "SUMO_S3_BUCKET_REGION" = false).
Proof.
  unfold failover_errors. destruct (bool_spec _ _); [|naive_solver].
  rewrite app_nil, !check_nil, !negb_true_iff. naive_solver.
Qed.

Lemma level_parses :
  (is_unset "SUMO_LOG_LEVEL" ||
   bool_decide (is_Some (env_parse_level (getenv "SUMO_LOG_LEVEL"))) = true) ↔
  (is_unset "SUMO_LOG_LEVEL" = false → is_Some (env_parse_level (getenv "SUMO_LOG_LEVEL"))).
Proof.
  destruct (is_unset "SUMO_LOG_LEVEL"); simpl; [naive_solver|].
  rewrite bool_decide_eq_true. naive_solver.
Qed.

(** C21. [GetConfig] reports no error exactly for the environments that
    configure the extension: an endpoint that parses (or KMS), numbers,
    booleans and level that parse, a bucket and a region when failover is
    on, known log types. *)
Theorem GetConfig_valid_iff : GetConfig.2 = None ↔ valid_env.
Proof.
  rewrite GetConfig_eq. trans (config_errors = []); [by destruct config_errors|].
  unfold config_errors, int_errors, bool_errors.
  rewrite !app_nil, !check_nil, endpoint_errors_nil, failover_errors_nil, log_type_errors_nil,
    level_parses. split.
  - intros. destruct_and!. split; rewrite ?Forall_cons, ?Forall_nil; tauto.
  - intros [? ? Hb Hi ? ? ? ?]. rewrite !Forall_cons in Hb. rewrite !Forall_cons in Hi. tauto.
Qed.
End properties.

(** ** Checks on concrete environments *)
Definition sample_vars : gmap string string := list_to_map
  [("SUMO_HTTP_ENDPOINT", "http://localhost/"); ("AWS_LAMBDA_FUNCTION_NAME", "himlambda");
   ("AWS_LAMBDA_FUNCTION_VERSION", "Latest$"); ("AWS_REGION", "us-east-1");
   ("SUMO_LOG_TYPES", "function, platform"); ("SUMO_NUM_RETRIES", "2")]%string.

Example GetConfig_ex1 :
  @GetConfig (sample_env sample_vars (always None) true) =
  (Config "http://localhost/" "" false "" "" 2 "127.0.0.1:9001" ["function"; " platform"]
     "himlambda" "Latest$" 4 20 3 5 300000000 10000000000 1048576 "us-east-1" ""
     true false 5 1000 262144 10000, None)%string.
Proof. vm_compute. reflexivity. Qed.

(** A variable that does not parse: an error, and zero rather than the default. *)
Example GetConfig_ex2 :
  let r := @GetConfig (sample_env (<["SUMO_MAX_DATAQUEUE_LENGTH" := "many"]>
             (<["TELEMETRY_MAX_BYTES" := "9223372036854775808"]> sample_vars)) (always None) true)%string in
  (MaxDataQueueLength r.1, TelemetryMaxBytes r.1, r.2) =
  (0, 1048576, Some (ErrJoined [UnableToParse "SUMO_MAX_DATAQUEUE_LENGTH"; UnableToParse "TELEMETRY_MAX_BYTES"]))%string.
Proof. vm_compute. reflexivity. Qed.
