(* ===== verification/SumoClient.v ===== *)
(** * Package sumoclient (sumoclient/sumoclient.go)

    Decoding and enhancing the payloads, cutting them into chunks, posting a
    chunk with its retries, the S3 failover, and the three calls of the
    [LogSender] interface.  The receiver [s *sumoLogicClient] is its [config];
    the package variables are fields of [world].  Logging is left out.  The
    theorems are in SumoChunks.v, SumoEnhance.v, SumoPost.v, SumoCalls.v. *)
From S2P Require Import Prelude GoStrings GoFloat GoJson Env Utils Config.
From Stdlib Require Import Ascii String.
Open Scope Z_scope.

(** ** Data *)

(** [LogSender interface] *)
Class LogSender (W : Type) := {
  SendLogs : string → Go W (option error);
  SendAllLogs : list string → Go W (option error);
  FlushAll : list string → Go W (option error) }.

(** What a client of the interface may rely on.  A call on payloads the
    sender can handle returns, and when it reports no error the payloads are
    delivered between the two states; later calls do not undo a delivery;
    [FlushAll] promises delivery only when the sender stores. *)
Class LogSenderLaws {W} (S : LogSender W) := {
  handled : list string → Prop;
  later : relation W;
  delivered : list string → W → W → Prop;
  stores : Prop;
  handled_nil : handled [];
  later_preorder :: PreOrder later;
  delivered_later ps w0 w1 w2 w3 :
    later w0 w1 → delivered ps w1 w2 → later w2 w3 → delivered ps w0 w3;
  SendAllLogs_law ps w :
    handled ps → wp (SendAllLogs ps) (λ err w', later w w' ∧ (err = None → delivered ps w w')) w;
  SendLogs_law p w :
    handled [p] → wp (SendLogs p) (λ err w', later w w' ∧ (err = None → p ≠ EmptyString → delivered [p] w w')) w;
  FlushAll_law ps w :
    handled ps → wp (FlushAll ps) (λ err w', later w w' ∧ (stores → err = None → delivered ps w w')) w }.

(** [type responseBody []map[string]interface{}] *)
Abbreviation responseBody := (list gomap).

(** ** Maps of Go

    Reading a missing key, or any key of the nil map, gives nil; writing to
    the nil map panics. *)
Definition map_get (m : gomap) (k : string) : value :=
  match m with Some g => default VNull (g !! k) | None => VNull end.
Definition map_has (m : gomap) (k : string) : bool :=
  match m with Some g => bool_decide (is_Some (g !! k)) | None => false end.
Definition map_set {W} (m : gomap) (k : string) (v : value) : Go W gomap :=
  match m with
  | Some g => go_ret (Some (<[k:=v]> g))
  | None => go_panic NilMapWrite
  end.
(** [delete(m, k)], a no-op on the nil map *)
Definition map_delete (m : gomap) (k : string) : gomap := delete k <$> m.

(** Type assertions with a result [ok]. *)
Definition as_string (v : value) : option string := match v with VStr s => Some s | _ => None end.
Definition as_map (v : value) : option gomap := match v with VMap m => Some m | _ => None end.

(** ** Operations *)
Section client.
Context `{E : Env} (config : LambdaExtensionConfig).

(** The package variables when the process starts. *)
Definition package_vars : Go world unit :=
  let! now := time_now in
  go_modify (λ w, World (tick w) (trace w) true EmptyString (now + - 5 * minute)).

Definition getColdStart : Go world bool :=
  let! w := go_get in
  (if isColdStart w then go_modify (set_isColdStart false) else go_ret tt) ;;;
  let! w := go_get in
  go_ret (isColdStart w).

Definition getLogGroup : string := "/aws/lambda/" +:+ FunctionName config.

Definition log_stream (ns : Z) : string :=
  let c := civil_of_unix ns in
  (itoa (Year c) +:+ "/" +:+ pad2 (Month c) +:+ "/" +:+ pad2 (Day c) +:+
   "/[" +:+ FunctionVersion config +:+ "]" +:+ ExtensionName)%string.

Definition getLogStream : Go world string :=
  let! currentTime := time_now in
  go_ret (log_stream currentTime).

Definition DecodeData (input : kms_input) : Go world (option string) := kms_decrypt input.

(** The fresh decryption of the endpoint.  The decrypted text is bound to
    a new local variable: the package variable of the same name keeps its
    value. *)
Definition refreshHttpEndpoint : Go world (string * option error) :=
  let! n := next_tick in
  if negb (env_aws_config n) then go_ret (EmptyString, Some ErrAwsConfig)
  else match b64_decode (SumoHTTPEndpoint config) with
       | None => go_ret (EmptyString, Some ErrBase64)
       | Some blob =>
           let input := KmsInput blob (KMSKeyId config)
             {["LambdaFunctionName"%string := getenv "AWS_LAMBDA_FUNCTION_NAME"]} in
           let! result := DecodeData input in
           match result with
           | None => go_ret (EmptyString, Some ErrDecrypt)
           | Some plaintext =>
               let decryptedSumoHttpEndpoint := plaintext in
               let! t := time_now in
               go_modify (set_kmsEndpointCacheTime t) ;;;
               go_ret (decryptedSumoHttpEndpoint, None)
           end
       end.

Definition getHttpEndpoint : Go world (string * option error) :=
  if String.eqb (KMSKeyId config) EmptyString then go_ret (SumoHTTPEndpoint config, None)
  else
    let! now1 := time_now in
    let! w := go_get in
    if 0 <? kmsEndpointCacheTime w - now1 then go_ret (decryptedSumoHttpEndpoint w, None)
    else
      let! now2 := time_now in
      if (kmsEndpointCacheTime w - now2 <=? 0) || (KmsCacheSeconds config =? 0)
      then refreshHttpEndpoint
      else go_ret (EmptyString, Some ErrNoEndpoint).

Definition makeRequest (buf : string) : Go world (option response * option error) :=
  let! (endpoint, err) := getHttpEndpoint in
  match err with
  | Some e => go_ret (None, Some (ErrGetEndpoint e))
  | None =>
      if negb (env_url_ok endpoint) then go_ret (None, Some (ErrNewRequest ErrBadURL))
      else
        let! stream := getLogStream in
        let header : gmap string string :=
          <["X-Sumo-Host" := getLogGroup]> (<["X-Sumo-Name" := stream]>
          (<["X-Sumo-Client" := SumoLogicExtensionLayerVersionSuffix]>
          (<["Content-Encoding" := "gzip"]> ∅)))%string in
        let header :=
          if String.eqb (SourceCategoryOverride config) EmptyString then header
          else <["X-Sumo-Category"%string := SourceCategoryOverride config]> header in
        let! res := http_do (Request "POST" endpoint header buf) in
        go_ret (res, match res with Some _ => None | None => Some ErrTransport end)
  end.

(** The local date, and the minute without padding. *)
Definition s3_key (currentTime : Z) (uniqueID : string) : string :=
  let c := civil_of_unix (currentTime + env_zone currentTime * second) in
  (ExtensionName +:+ "/" +:+ LambdaRegion config +:+ "/" +:+ FunctionName config +:+ "/" +:+
   FunctionVersion config +:+ "/" +:+ itoa (Year c) +:+ "/" +:+ pad2 (Month c) +:+ "/" +:+
   pad2 (Day c) +:+ "/" +:+ pad2 (Hour c) +:+ "/" +:+ itoa (Minute c) +:+ "/" +:+
   uniqueID +:+ ".gz")%string.

Definition getS3KeyName : Go world (string * option error) :=
  let! currentTime := time_now in
  let! uniqueID := new_uuid in
  match uniqueID with
  | None => go_ret (EmptyString, Some ErrUUID)
  | Some uniqueID =>
      go_ret (s3_key currentTime uniqueID, None)
  end.

Definition failoverHandler (buf : string) : Go world (option error) :=
  if EnableFailover config then
    let! (keyName, err) := getS3KeyName in
    match err with
    | Some e => go_ret (Some e)
    | None =>
        let! err := UploadToS3 (S3BucketName config) keyName buf in
        go_ret (match err with
                | Some e => Some (ErrSendToS3 (S3BucketName config) keyName e)
                | None => None
                end)
    end
  else go_ret None.

(** The line of CloudWatch for a report. *)
Definition tab : string := byte1 9.
Definition report_line (message metric : gomap) : string :=
  ("REPORT RequestId: " +:+ fmt_v (map_get message "requestId") +:+ tab +:+
   "Duration: " +:+ fmt_v (map_get metric "durationMs") +:+ " ms" +:+ tab +:+
   "Billed Duration: " +:+ fmt_v (map_get metric "billedDurationMs") +:+ " ms " +:+ tab +:+
   "Memory Size: " +:+ fmt_v (map_get metric "memorySizeMB") +:+ " MB" +:+ tab +:+
   "Max Memory Used: " +:+ fmt_v (map_get metric "maxMemoryUsedMB") +:+ " MB" +:+
   match map_get metric "initDurationMs" with
   | VNull => EmptyString
   | v => tab +:+ "Init Duration: " +:+ fmt_v v +:+ " ms"
   end)%string.

(** The record's type assertion is checked, that of the metrics is not. *)
Definition createCWLogLine (item : gomap) : Go world gomap :=
  let message := default None (as_map (map_get item "record")) in
  match as_map (map_get message "metrics") with
  | None => go_panic TypeAssertion
  | Some metric => map_set item "message" (VStr (report_line message metric))
  end.

(** One iteration of [enhanceLogs]: what [msg[idx]] is after it. *)
Definition enhanceItem (item : gomap) : Go world gomap :=
  let! item := map_set item "logGroup" (VStr getLogGroup) in
  let! stream := getLogStream in
  let! item := map_set item "logStream" (VStr stream) in
  let! cold := getColdStart in
  let! item := map_set item "IsColdStart" (VBool cold) in
  let! item := map_set item "LayerVersion" (VStr SumoLogicExtensionLayerVersionSuffix) in
  match as_string (map_get item "type") with
  | Some logType =>
      if String.eqb logType "function" then
        let record := as_string (map_get item "record") in
        let item := match record with Some _ => map_delete item "record" | None => item end in
        let message := trim_space (default EmptyString record) in
        let '(json, err) := ParseJson message in
        match err with
        | Some _ =>
            if EnhanceJsonLogs config then map_set item "message" (VStr message)
            else go_ret (Some {["message"%string := VStr message]})
        | None =>
            if EnhanceJsonLogs config then map_set item "message" (VMap json)
            else go_ret json
        end
      else if String.eqb logType "platform.report" then createCWLogLine item
      else if String.eqb logType "platform.runtimeDone" then
        match as_map (map_get item "record") with
        | Some message =>
            if map_has message "spans" && EnableSpanDrops config
            then map_set item "record" (VMap (map_delete message "spans"))
            else go_ret item
        | None => go_ret item
        end
      else go_ret item
  | None => go_ret item
  end.

Definition enhanceLogs (msg : responseBody) : Go world responseBody :=
  go_fold (λ done item, let! item' := enhanceItem item in go_ret (done ++ [item'])) [] msg.

Definition transformBytesToArrayOfMap (rawmsg : string) : responseBody * option error :=
  match unmarshal_maps rawmsg with
  | Some msg => (msg, None)
  | None => ([], Some (ErrParsePayload rawmsg))
  end.

(** The variables of [createChunks]. *)
Record chunk_state := ChunkState {
  chunks : list string;
  currentChunk : string;
  chunkSize : Z;
  errorCount : Z }.

Definition newline : string := String nl EmptyString.

Definition addItem (st : chunk_state) (item : gomap) : chunk_state :=
  match marshal_map item with
  | None => ChunkState (chunks st) (currentChunk st) (chunkSize st) (errorCount st + 1)
  | Some b =>
      let itemSize := slen b in
      if MaxDataPayloadSize config <=? chunkSize st + itemSize + 1
      then ChunkState (chunks st ++ [currentChunk st]) b itemSize (errorCount st)
      else ChunkState (chunks st) (currentChunk st +:+ newline +:+ b)
             (chunkSize st + (itemSize + 1)) (errorCount st)
  end.

Definition createChunks (msgArr : responseBody) : list string * option error :=
  let st := foldl addItem (ChunkState [] EmptyString 0 0) msgArr in
  (chunks st ++ [currentChunk st],
   if 0 <? errorCount st then Some (ErrDropping (errorCount st)) else None).

(** A post that is tried again: an error, or a status that is neither 200
    nor 302 and is below 500. *)
Definition not_posted (response : option response) (err : option error) : bool :=
  match err, response with
  | Some _, _ => true
  | None, Some r => negb (StatusCode r =? 200) && negb (StatusCode r =? 302) && (StatusCode r <? 500)
  | None, None => true
  end.

(** The closure [postToSumo] retries. *)
Definition retryPost (bytedata : string) : Func world := λ attempt,
  time_sleep (RetrySleepTime config) ;;;
  let! (retryResponse, errRetry) := makeRequest bytedata in
  if not_posted retryResponse errRetry then
    let errRetry := match errRetry with
                    | Some e => Some e
                    | None => ErrStatus <$> (StatusCode <$> retryResponse)
                    end in
    go_ret (attempt <? MaxRetryAttempts config, errRetry)
  else match retryResponse with
       | Some r =>
           if StatusCode r =? 200 then go_ret (true, None)
           else go_ret (attempt <? MaxRetryAttempts config, errRetry)
       | None => go_ret (attempt <? MaxRetryAttempts config, errRetry)
       end.

Definition postToSumo (logStringToSend : string) : Go world (option error) :=
  let '(bytedata, err) := Compress logStringToSend in
  match err with
  | Some e => go_ret (Some (ErrCompress e))
  | None =>
      let! (response, err) := makeRequest bytedata in
      let! result :=
        if not_posted response err then
          let! err := Retry (retryPost bytedata) (NumRetry config) in
          match err with
          | Some _ => if EnableFailover config then failoverHandler bytedata else go_ret None
          | None => go_ret None
          end
        else go_ret None in
      (* the deferred close of the first response *)
      match response with
      | Some _ => body_close
      | None => go_ret tt
      end ;;;
      go_ret result
  end.

(** The posts of a list of chunks: the number of errors. *)
Definition postChunks (errorCount : Z) (chunks : list string) : Go world Z :=
  go_fold (λ n strobj, let! err := postToSumo strobj in
                       go_ret (match err with Some _ => n + 1 | None => n end))
    errorCount chunks.

Definition sumo_SendLogs (rawmsg : string) : Go world (option error) :=
  if 0 <? slen rawmsg then
    let '(msgArr, err) := transformBytesToArrayOfMap rawmsg in
    match err with
    | Some e => go_ret (Some (ErrSendLogsTransform e))
    | None =>
        let! msgArr := enhanceLogs msgArr in
        let '(chunks, err) := createChunks msgArr in
        match err with
        | Some e => go_ret (Some (ErrSendLogsChunks e))
        | None =>
            let! errorCount := postChunks 0 chunks in
            go_ret (if 0 <? errorCount then Some (ErrSendLogsPost errorCount) else None)
        end
    end
  else go_ret None.

(** The loop of [SendAllLogs] over the payloads: the error count and the
    enhanced items so far. *)
Definition collectPayload (st : Z * responseBody) (rawmsg : string) : Go world (Z * responseBody) :=
  let '(errorCount, payload) := st in
  let '(msgArr, err) := transformBytesToArrayOfMap rawmsg in
  match err with
  | Some _ => go_ret (errorCount + 1, payload)
  | None =>
      match msgArr with
      | [] => go_ret (errorCount, payload)
      | _ => let! msgArr := enhanceLogs msgArr in go_ret (errorCount, payload ++ msgArr)
      end
  end.

Definition sumo_SendAllLogs (allMessages : list string) : Go world (option error) :=
  match allMessages with
  | [] => go_ret None
  | _ =>
      let! (errorCount, payload) := go_fold collectPayload (0, []) allMessages in
      let '(chunks, err) := createChunks payload in
      match err with
      | Some e => go_ret (Some (ErrSendAllChunks e))
      | None =>
          let! errorCount := postChunks errorCount chunks in
          go_ret (if 0 <? errorCount then Some (ErrSendAllPost errorCount) else None)
      end
  end.

(** The items of one payload written to the buffer of [FlushAll]. *)
Definition flushItem (st : Z * string) (item : gomap) : Z * string :=
  match marshal_map item with
  | None => (st.1 + 1, st.2)
  | Some b => (st.1, st.2 +:+ newline +:+ b)
  end.

Definition flushPayload (st : Z * string) (rawmsg : string) : Go world (Z * string) :=
  let '(msgArr, err) := transformBytesToArrayOfMap rawmsg in
  match err with
  | Some _ => go_ret (st.1 + 1, st.2)
  | None =>
      match msgArr with
      | [] => go_ret st
      | _ => let! msgArr := enhanceLogs msgArr in go_ret (foldl flushItem st msgArr)
      end
  end.

Definition sumo_FlushAll (msgQueue : list string) : Go world (option error) :=
  if (0 <? Z.of_nat (List.length msgQueue)) && EnableFailover config then
    let! (errorCount, payload) := go_fold flushPayload (0, EmptyString) msgQueue in
    let '(gzippedBuffer, err) := CompressBuffer payload in
    match err, gzippedBuffer with
    | Some e, _ => go_ret (Some (ErrFlushCompress e))
    | None, buf =>
        let! senderr := failoverHandler (default EmptyString buf) in
        if (0 <? errorCount) || bool_decide (is_Some senderr)
        then go_ret (Some (ErrFlushAll errorCount senderr))
        else go_ret None
    end
  else go_ret None.

(** [NewLogSenderClient] *)
Definition NewLogSenderClient : LogSender world := {|
  SendLogs := sumo_SendLogs;
  SendAllLogs := sumo_SendAllLogs;
  FlushAll := sumo_FlushAll |}.
End client.

(** ** What a queue of payloads holds *)
(** The items of the payloads that can be decoded, and the number of the
    others. *)
Definition decoded (ps : list string) : responseBody :=
  flat_map (λ p, default [] (unmarshal_maps p)) ps.
Definition undecodable (ps : list string) : Z :=
  Z.of_nat (List.length (List.filter (λ p, bool_decide (unmarshal_maps p = None)) ps)).

(** ** Samples for the examples *)
Definition sample_config (failover : bool) (max : Z) : LambdaExtensionConfig :=
  Config "https://collectors.example.com/receiver" EmptyString failover "bucket" "us-east-1" 3
    "127.0.0.1:9001" ["platform"; "function"] "fn" "7" 4 20 3 5 (300 * millisecond)
    (10000 * millisecond) max "us-east-1" EmptyString true true 0 1000 262144 10000.

Definition kms_config : LambdaExtensionConfig :=
  Config "aGVsbG8=" "key" false "bucket" "us-east-1" 3
    "127.0.0.1:9001" ["platform"; "function"] "fn" "7" 4 20 3 5 (300 * millisecond)
    (10000 * millisecond) 1000 "us-east-1" EmptyString true true 0 1000 262144 10000.

Definition answering (code : Z) : Env := sample_env ∅ (always (status code)) true.
#[export] Instance answering_gzip code : GzipLaws (answering code) := sample_gzip _ _ _.

Definition sample_payloads : list string :=
  [q "[{'type':'function','record':'hello'},{'type':'platform.report','record':{'requestId':'r','metrics':{'durationMs':1.5}}}]";
   q "[]"; q "{'no':'array'}";
   q "[{'type':'function','record':'{\'a\':1}'}]"].

(** Settle a decidable side condition by evaluating it. *)
Ltac computed := apply (bool_decide_unpack _); vm_compute; exact I.
