(* ===== verification/SumoChunks.v ===== *)
(** * Cutting the items into chunks: nothing lost, nothing too large ([createChunks]) *)
From S2P Require Import Prelude GoStrings GoFloat GoJson Env Utils Config SumoClient.
From Stdlib Require Import Ascii String.
Open Scope Z_scope.

Section chunks.
Context (config : LambdaExtensionConfig).

(** What [createChunks] has after the items [msgs]: the lines that are
    encoded, in order, in its chunks; the size of the current chunk. *)
Record chunks_inv (msgs : responseBody) (st : chunk_state) : Prop := {
  ci_lines : flat_map payload_lines (chunks st ++ [currentChunk st]) = omap marshal_map msgs;
  ci_size : chunkSize st = slen (currentChunk st);
  ci_errors : errorCount st = Z.of_nat (List.length msgs - List.length (omap marshal_map msgs)) }.

Lemma omap_length {A B} (f : A → option B) l : (List.length (omap f l) ≤ List.length l)%nat.
Proof. induction l as [|x l IH]; csimpl; [done|]. destruct (f x); csimpl; lia. Qed.

Lemma omap_snoc {A B} (f : A → option B) l x :
  omap f (l ++ [x]) = omap f l ++ match f x with Some y => [y] | None => [] end.
Proof. rewrite omap_app. simpl. by destruct (f x). Qed.

Lemma chunks_inv_init : chunks_inv [] (ChunkState [] EmptyString 0 0).
Proof. done. Qed.

Lemma chunks_inv_step msgs st item :
  chunks_inv msgs st → chunks_inv (msgs ++ [item]) (addItem config st item).
Proof.
  intros [H1 H2 H3]. unfold addItem.
  pose proof (omap_length marshal_map msgs) as Hle.
  destruct (marshal_map item) as [b|] eqn:Hb.
  - assert (one_line b) by eauto with one_line.
    assert (b ≠ EmptyString) by eauto with one_line.
    destruct (MaxDataPayloadSize config <=? chunkSize st + slen b + 1);
      split; csimpl; try done; rewrite ?omap_snoc, ?Hb.
    + by rewrite flat_map_app, H1; csimpl; rewrite payload_lines_line.
    + rewrite !List.length_app. csimpl. lia.
    + rewrite flat_map_app in *. csimpl in *. rewrite app_nil_r in *.
      rewrite payload_lines_snoc by done.
      by rewrite app_assoc, H1.
    + change (String nl b) with (newline +:+ b). rewrite !slen_app, H2.
      change (slen newline) with 1. lia.
    + rewrite !List.length_app. csimpl. lia.
  - split; csimpl; rewrite ?omap_snoc, ?Hb, ?app_nil_r; try done.
    rewrite List.length_app. csimpl. lia.
Qed.

Lemma chunks_inv_all msgs : chunks_inv msgs (foldl (addItem config) (ChunkState [] EmptyString 0 0) msgs).
Proof.
  induction msgs as [|item msgs IH] using rev_ind; [apply chunks_inv_init|].
  rewrite foldl_snoc. by apply chunks_inv_step.
Qed.

(** The encoding of some item, on its own and as long as a chunk may be. *)
Definition oversized (msgs : responseBody) (c : string) : Prop :=
  ∃ m, m ∈ msgs ∧ marshal_map m = Some c ∧ MaxDataPayloadSize config ≤ slen c + 1.
Definition fits (msgs : responseBody) (c : string) : Prop :=
  slen c < MaxDataPayloadSize config ∨ oversized msgs c.

Lemma fits_mono msgs msgs' c : fits msgs c → fits (msgs ++ msgs') c.
Proof.
  intros [?|(m & ? & ? & ?)]; [by left|]. right. exists m. set_solver.
Qed.

Lemma chunks_fit msgs :
  0 < MaxDataPayloadSize config →
  let st := foldl (addItem config) (ChunkState [] EmptyString 0 0) msgs in
  Forall (fits msgs) (chunks st ++ [currentChunk st]).
Proof.
  intros Hmax st. subst st. induction msgs as [|item msgs IH] using rev_ind.
  { apply Forall_singleton. by left. }
  rewrite foldl_snoc. pose proof (ci_size _ _ (chunks_inv_all msgs)) as Hsz.
  revert IH Hsz. generalize (foldl (addItem config) (ChunkState [] EmptyString 0 0) msgs).
  intros st IH Hsz. apply Forall_app in IH as [IH1 [IH2 _]%Forall_cons].
  assert (Forall (fits (msgs ++ [item])) (chunks st)).
  { eapply Forall_impl; [exact IH1|]. intros. by apply fits_mono. }
  apply (fits_mono _ [item]) in IH2.
  unfold addItem. destruct (marshal_map item) as [b|] eqn:Hb; simpl.
  - destruct (Z.leb_spec (MaxDataPayloadSize config) (chunkSize st + slen b + 1)); simpl.
    + rewrite !Forall_app, !Forall_singleton. split_and!; [done..|].
      destruct (Z.lt_ge_cases (slen b) (MaxDataPayloadSize config)); [by left|].
      right. exists item. split_and!; [set_solver|done|lia].
    + rewrite Forall_app, Forall_singleton. split; [done|]. left.
      change (String nl b) with (newline +:+ b). rewrite !slen_app. change (slen newline) with 1. lia.
  - rewrite Forall_app, Forall_singleton. done.
Qed.

(** C17. The chunks carry exactly the encoded items: cut at newlines, their
    lines are the encodings of the items in order, nothing lost, repeated,
    reordered or split, and the error counts the items with no encoding. *)
Theorem createChunks_lossless msgs :
  let '(cs, err) := createChunks config msgs in
  flat_map payload_lines cs = omap marshal_map msgs ∧
  let bad := Z.of_nat (List.length msgs - List.length (omap marshal_map msgs)) in
  err = if 0 <? bad then Some (ErrDropping bad) else None.
Proof.
  unfold createChunks. destruct (chunks_inv_all msgs) as [H1 _ H3]. by rewrite H1, H3.
Qed.

(** C18. No chunk reaches the maximal payload size, except one that is the
    encoding of a single item which alone leaves no room. *)
Theorem createChunks_bounds msgs :
  0 < MaxDataPayloadSize config →
  Forall (fits msgs) (createChunks config msgs).1.
Proof. intros H. by apply chunks_fit. Qed.

(** The only empty chunks: none was encoded, or the first encoding did not
    fit beside the empty chunk the loop starts with. *)
Definition empty_inv (lines : list string) (st : chunk_state) : Prop :=
  match lines with
  | [] => chunks st = [] ∧ currentChunk st = EmptyString
  | b :: _ => currentChunk st ≠ EmptyString ∧
              (EmptyString ∈ chunks st ↔ MaxDataPayloadSize config ≤ slen b + 1)
  end.

Lemma empty_inv_all msgs :
  empty_inv (omap marshal_map msgs) (foldl (addItem config) (ChunkState [] EmptyString 0 0) msgs).
Proof.
  induction msgs as [|item msgs IH] using rev_ind; [done|].
  rewrite foldl_snoc. pose proof (ci_size _ _ (chunks_inv_all msgs)) as Hsz.
  revert IH Hsz. generalize (foldl (addItem config) (ChunkState [] EmptyString 0 0) msgs).
  intros st IH Hsz. rewrite omap_snoc. unfold addItem.
  destruct (marshal_map item) as [b|] eqn:Hb; [|by rewrite app_nil_r].
  assert (b ≠ EmptyString) by eauto with one_line.
  destruct (Z.leb_spec (MaxDataPayloadSize config) (chunkSize st + slen b + 1));
    destruct (omap marshal_map msgs) as [|b' l]; destruct IH as [IH1 IH2]; csimpl.
  - rewrite Hsz, IH2 in *. change (slen EmptyString) with 0 in *. split; [done|].
    rewrite IH1. split; [lia|]. intros _. set_solver.
  - split; [done|]. rewrite elem_of_app, list_elem_of_singleton, IH2. naive_solver.
  - rewrite Hsz, IH2 in *. change (slen EmptyString) with 0 in *. split; [done|].
    rewrite IH1. split; [by intros ?%not_elem_of_nil|lia].
  - split; [|done]. by destruct (currentChunk st).
Qed.

(** An empty chunk is produced exactly when no item is encoded, or when
    the first encoding leaves no room in a chunk. *)
Theorem createChunks_empty_chunk msgs :
  EmptyString ∈ (createChunks config msgs).1 ↔
    match omap marshal_map msgs with
    | [] => True
    | b :: _ => MaxDataPayloadSize config ≤ slen b + 1
    end.
Proof.
  unfold createChunks. simpl. pose proof (empty_inv_all msgs) as H. unfold empty_inv in H.
  rewrite elem_of_app, list_elem_of_singleton.
  destruct (omap marshal_map msgs) as [|b l], H as [H1 H2]; [naive_solver|].
  rewrite H2. naive_solver.
Qed.
End chunks.

(** ** Examples *)
Lemma createChunks_bounds_witness :
  0 < 100 ∧ Forall (fits (sample_config true 100) (decoded sample_payloads))
    (createChunks (sample_config true 100) (decoded sample_payloads)).1.
Proof. split; [lia|]. by apply createChunks_bounds. Defined.
