(* ===== verification/SumoEnhance.v ===== *)
(** * Enhancing the items ([enhanceLogs], [createCWLogLine])

    The loop over the items as a function of the log stream, and exactly
    when it panics. *)
From S2P Require Import Prelude GoStrings GoFloat GoJson Env Utils Config SumoClient.
From Stdlib Require Import Ascii String.
Open Scope Z_scope.

Section enhance.
Context `{E : Env} (config : LambdaExtensionConfig).

(** What one iteration makes of an item, as a function of the log stream:
    [None] is the failed type assertion of [createCWLogLine]. *)
Definition stamped (stream : string) (g : gmap string value) : gmap string value :=
  <["LayerVersion" := VStr SumoLogicExtensionLayerVersionSuffix]>
  (<["IsColdStart" := VBool false]> (<["logStream" := VStr stream]>
  (<["logGroup" := VStr (getLogGroup config)]> g)))%string.

Inductive item_kind := KFunction | KReport | KRuntimeDone | KOther.
Definition kind_of (g : gmap string value) : item_kind :=
  match g !! "type"%string with
  | Some (VStr t) => if String.eqb t "function" then KFunction
                     else if String.eqb t "platform.report" then KReport
                     else if String.eqb t "platform.runtimeDone" then KRuntimeDone else KOther
  | _ => KOther
  end.

(** The text of a function's log line. *)
Definition function_text (g : gmap string value) : string :=
  match g !! "record"%string with Some (VStr s) => trim_space s | _ => EmptyString end.
Definition drop_text (g : gmap string value) : gmap string value :=
  match g !! "record"%string with Some (VStr _) => delete "record"%string g | _ => g end.
Definition metrics_of (g : gmap string value) : option (gomap * gomap) :=
  let message := match g !! "record"%string with Some (VMap m) => m | _ => None end in
  match map_get message "metrics" with VMap metric => Some (message, metric) | _ => None end.

Definition enhanced (stream : string) (g : gmap string value) : option gomap :=
  let b := stamped stream g in
  match kind_of g with
  | KFunction =>
      Some (match ParseJson (function_text g) with
            | (json, None) =>
                if EnhanceJsonLogs config then Some (<["message"%string := VMap json]> (drop_text b)) else json
            | (_, Some _) =>
                if EnhanceJsonLogs config
                then Some (<["message"%string := VStr (function_text g)]> (drop_text b))
                else Some {["message"%string := VStr (function_text g)]}
            end)
  | KReport =>
      match metrics_of g with
      | Some (message, metric) => Some (Some (<["message"%string := VStr (report_line message metric)]> b))
      | None => None
      end
  | KRuntimeDone =>
      Some (Some (match g !! "record"%string with
                  | Some (VMap m) =>
                      if map_has m "spans" && EnableSpanDrops config
                      then <["record"%string := VMap (map_delete m "spans")]> b else b
                  | _ => b
                  end))
  | KOther => Some (Some b)
  end.

Definition after_item (w : world) : world := set_isColdStart false (set_tick (S (tick w)) w).

Lemma getColdStart_eq w : getColdStart w = (Ret false, set_isColdStart false w).
Proof. unfold getColdStart, go_bind, go_get, go_modify, go_ret. by destruct w as [? ? []]. Qed.

Lemma stamped_type stream g : stamped stream g !! "type"%string = g !! "type"%string.
Proof. unfold stamped. by rewrite !lookup_insert_ne. Qed.
Lemma stamped_record stream g : stamped stream g !! "record"%string = g !! "record"%string.
Proof. unfold stamped. by rewrite !lookup_insert_ne. Qed.

Lemma enhanceItem_nil w : enhanceItem config None w = (Panic NilMapWrite, w).
Proof. done. Qed.

Lemma createCWLogLine_eq g w :
  createCWLogLine (Some g) w =
  (match metrics_of g with
   | Some (message, metric) => Ret (Some (<["message"%string := VStr (report_line message metric)]> g))
   | None => Panic TypeAssertion
   end, w).
Proof.
  unfold createCWLogLine, metrics_of.
  change (map_get (Some g) "record") with (default VNull (g !! "record"%string)).
  destruct (g !! "record"%string) as [[| | | | |m]|]; cbn [default as_map from_option id]; try done.
  by destruct (map_get m "metrics").
Qed.

Lemma metrics_of_stamped stream g : metrics_of (stamped stream g) = metrics_of g.
Proof. unfold metrics_of. by rewrite stamped_record. Qed.

Lemma enhanceItem_eq g w :
  enhanceItem config (Some g) w =
  (match enhanced (log_stream config (env_now (tick w))) g with
   | Some m => Ret m
   | None => Panic TypeAssertion
   end, after_item w).
Proof.
  unfold enhanceItem, getLogStream, time_now, next_tick, go_bind, map_set.
  unfold go_ret at 1 2 3 4 5. rewrite getColdStart_eq. unfold go_ret at 1 2.
  change (set_isColdStart false (set_tick (S (tick w)) w)) with (after_item w).
  generalize (log_stream config (env_now (tick w))) as stream. intros stream.
  fold (stamped stream g). unfold enhanced, kind_of.
  unfold map_get. rewrite stamped_type.
  destruct (g !! "type"%string) as [[| | |t| |]|]; simpl; try done.
  destruct (String.eqb t "function") eqn:H1; simpl.
  - unfold function_text, drop_text. rewrite stamped_record.
    destruct (g !! "record"%string) as [[| | |r| |]|];
      cbn [default as_string from_option id map_delete fmap option_fmap option_map];
      change (trim_space EmptyString) with EmptyString;
      match goal with |- context [ParseJson ?s] => destruct (ParseJson s) as [json [e|]] end;
      by destruct (EnhanceJsonLogs config).
  - destruct (String.eqb t "platform.report"); simpl.
    + rewrite createCWLogLine_eq, metrics_of_stamped. by destruct (metrics_of g) as [[]|].
    + destruct (String.eqb t "platform.runtimeDone"); simpl; [|done].
      rewrite stamped_record. destruct (g !! "record"%string) as [[| | | | |m]|]; simpl; try done.
      by destruct (map_has m "spans" && EnableSpanDrops config).
Qed.

(** An item [enhanceLogs] can handle: not nil and, for a report, with a
    map of metrics. *)
Definition enhanceable (item : gomap) : Prop :=
  match item with
  | None => False
  | Some g => kind_of g = KReport → is_Some (metrics_of g)
  end.

#[export] Instance item_kind_eq_dec : EqDecision item_kind.
Proof. solve_decision. Defined.

#[export] Instance enhanceable_dec item : Decision (enhanceable item).
Proof. destruct item; apply _. Defined.

Lemma enhanced_is_Some stream g : is_Some (enhanced stream g) ↔ enhanceable (Some g).
Proof.
  unfold enhanced, enhanceable. destruct (kind_of g); try (split; [done|eauto]).
  destruct (metrics_of g) as [[]|]; split; eauto.
  - intros [? [=]].
  - intros H. by destruct (H eq_refl).
Qed.

(** The log stream of some reading of the clock makes [m] of [item]. *)
Definition enhances_to (item m : gomap) : Prop :=
  ∃ g n, item = Some g ∧ enhanced (log_stream config (env_now n)) g = Some m.

(** The state after the loop: only the call counter and the cold start
    flag change. *)
Definition quiet (w w' : world) : Prop :=
  trace w' = trace w ∧ kmsEndpointCacheTime w' = kmsEndpointCacheTime w ∧
  decryptedSumoHttpEndpoint w' = decryptedSumoHttpEndpoint w ∧ (tick w ≤ tick w')%nat.

#[export] Instance quiet_preorder : PreOrder quiet.
Proof.
  split; [by repeat split|]. intros w1 w2 w3 (?&?&?&?) (?&?&?&?).
  repeat split; try lia; congruence.
Qed.

Lemma quiet_after_item w : quiet w (after_item w).
Proof. repeat split. simpl. lia. Qed.

Lemma wp_enhanceLogs msg w :
  Forall enhanceable msg →
  wp (enhanceLogs config msg) (λ msg' w', Forall2 enhances_to msg msg' ∧ quiet w w') w.
Proof.
  intros Hall. unfold enhanceLogs.
  apply (wp_fold (λ pre done w', Forall2 enhances_to pre done ∧ quiet w w')).
  { split; [constructor|done]. }
  intros pre item post done w1 Hl [HF Hq].
  assert (enhanceable item) as He.
  { rewrite <- Hl in Hall. by apply Forall_app in Hall as [_ [? _]%Forall_cons]. }
  destruct item as [g|]; [|done]. apply wp_bind. unfold wp at 1. rewrite enhanceItem_eq.
  destruct (proj2 (enhanced_is_Some (log_stream config (env_now (tick w1))) g) He) as [m Hm].
  rewrite Hm. apply wp_ret. split.
  - apply Forall2_app; [done|]. constructor; [|constructor]. by exists g, (tick w1).
  - by etrans; [exact Hq|apply quiet_after_item].
Qed.

(** The first item that cannot be handled stops the extension's goroutine
    with a panic. *)
Lemma enhanceLogs_panics pre item post w :
  Forall enhanceable pre → ¬ enhanceable item →
  ∃ p w', enhanceLogs config (pre ++ item :: post) w = (Panic p, w').
Proof.
  intros Hpre Hitem. unfold enhanceLogs.
  match goal with |- context [go_fold ?f [] _] => set (body := f) end.
  generalize (@nil gomap) as acc. subst body.
  revert w. induction Hpre as [|x pre Hx Hpre IH]; intros w acc; simpl.
  - unfold go_bind. destruct item as [g|]; [|rewrite enhanceItem_nil; eauto].
    rewrite enhanceItem_eq. destruct (enhanced _ g) eqn:He; [|eauto].
    destruct Hitem. eapply enhanced_is_Some. eauto.
  - unfold go_bind at 1. destruct x as [g|]; [|done]. unfold go_bind at 1. rewrite enhanceItem_eq.
    destruct (proj2 (enhanced_is_Some (log_stream config (env_now (tick w))) g) Hx) as [m ->].
    apply IH.
Qed.
End enhance.

(** ** Exactly when the loop panics *)
Section panics.
Context `{E : Env} (config : LambdaExtensionConfig).

(** *** Panics *)
Lemma enhanceLogs_panics_iff msg w :
  ¬ Forall enhanceable msg → ∃ p w', enhanceLogs config msg w = (Panic p, w').
Proof.
  intros H. assert (Exists (not ∘ enhanceable) msg) as Hex.
  { destruct (decide (Exists (not ∘ enhanceable) msg)) as [|Hn]; [done|].
    destruct H. apply not_Exists_Forall in Hn; [|solve_decision].
    eapply Forall_impl; [exact Hn|]. intros x Hx. by apply dec_stable. }
  assert (∃ pre item post, msg = pre ++ item :: post ∧ Forall enhanceable pre ∧ ¬ enhanceable item)
    as (pre & item & post & -> & Hpre & Hitem); [|by apply enhanceLogs_panics].
  clear H. induction msg as [|x msg IH]; [by inversion Hex|].
  destruct (decide (enhanceable x)) as [Hx|Hx]; [|by exists [], x, msg].
  apply Exists_cons in Hex as [?|Hex]; [done|].
  destruct (IH Hex) as (pre & item & post & -> & Hpre & Hitem).
  exists (x :: pre), item, post. split; [done|]. split; [by constructor|done].
Qed.

(** C19. [enhanceLogs] returns exactly for the lists of non-null items whose
    reports have metrics; it then changes every item as [enhanced] says and
    has no effect but the clock and the cold start flag; otherwise it
    panics. *)
Theorem enhanceLogs_spec msg w :
  (Forall enhanceable msg ∧
     wp (enhanceLogs config msg) (λ msg' w', Forall2 (enhances_to config) msg msg' ∧ quiet w w') w) ∨
  (¬ Forall enhanceable msg ∧ ∃ p w', enhanceLogs config msg w = (Panic p, w')).
Proof.
  destruct (decide (Forall enhanceable msg)).
  - left. split; [done|by apply wp_enhanceLogs].
  - right. split; [done|by apply enhanceLogs_panics_iff].
Qed.

(** [IsColdStart] is false on every item, also on the first of a fresh
    process, whose flag is still set. *)
Theorem IsColdStart_always_false msg w :
  EnhanceJsonLogs config = true → Forall enhanceable msg →
  wp (enhanceLogs config msg)
    (λ msg' _, Forall (λ m, map_get m "IsColdStart" = VBool false) msg') w.
Proof.
  intros Hj Hmsg. eapply wp_mono; [by apply wp_enhanceLogs|]. intros msg' w' [HF _].
  assert (∀ stream g, stamped config stream g !! "IsColdStart"%string = Some (VBool false)) as Hst.
  { intros. unfold stamped. by simplify_map_eq. }
  induction HF as [|x m ms ms' (g & n & -> & He) HF IH]; constructor; [|by apply IH; inversion Hmsg].
  revert He. generalize (log_stream config (env_now n)). intros stream He.
  unfold enhanced in He. rewrite Hj in He. destruct (kind_of g).
  - assert (drop_text (stamped config stream g) !! "IsColdStart"%string = Some (VBool false)).
    { unfold drop_text. repeat case_match; by simplify_map_eq. }
    destruct (ParseJson _) as [json []]; simplify_eq; simpl; by simplify_map_eq.
  - destruct (metrics_of g) as [[]|]; simplify_eq; simpl; by simplify_map_eq.
  - repeat case_match; simplify_eq; simpl; by simplify_map_eq.
  - simplify_eq. simpl. by simplify_map_eq.
Qed.
End panics.

(** ** Examples *)
Lemma IsColdStart_always_false_witness :
  wp (enhanceLogs (E := answering 200) (sample_config true 100) (decoded sample_payloads))
      (λ msg' _, Forall (λ m, map_get m "IsColdStart" = VBool false) msg') world0.
Proof. apply (IsColdStart_always_false (E := answering 200)); [done|computed]. Defined.
