(* ===== verification/SumoPost.v ===== *)
(** * Posting one chunk ([postToSumo], [makeRequest], [getHttpEndpoint], [failoverHandler])

    The events of one post, as a protocol: what the code may do, in which
    order, with which verdict. *)
From S2P Require Import Prelude GoStrings GoFloat GoJson Env Utils Config SumoClient.
From Stdlib Require Import Ascii String.
Open Scope Z_scope.

Section posting.
Context `{E : Env} (config : LambdaExtensionConfig).

Definition is_decrypt (e : event) : Prop := match e with EvDecrypt _ _ => True | _ => False end.

(** A well-formed post of [body]. *)
Record post_request (body : string) (r : request) : Prop := {
  pr_method : req_method r = "POST"%string;
  pr_body : req_body r = body;
  pr_encoding : req_header r !! "Content-Encoding"%string = Some "gzip"%string;
  pr_client : req_header r !! "X-Sumo-Client"%string = Some SumoLogicExtensionLayerVersionSuffix;
  pr_host : req_header r !! "X-Sumo-Host"%string = Some (getLogGroup config);
  pr_name : ∃ t, req_header r !! "X-Sumo-Name"%string = Some (log_stream config t);
  pr_category : req_header r !! "X-Sumo-Category"%string =
    if String.eqb (SourceCategoryOverride config) EmptyString then None
    else Some (SourceCategoryOverride config);
  pr_url : KMSKeyId config = EmptyString → req_url r = SumoHTTPEndpoint config }.

(** One call of [makeRequest]: its result and its events. *)
Inductive attempt (body : string) : option response → option error → list event → Prop :=
  | attempt_unsent d e :
      Forall is_decrypt d → (KMSKeyId config = EmptyString → env_url_ok (SumoHTTPEndpoint config) = false) →
      attempt body None (Some e) d
  | attempt_sent d n r res :
      Forall is_decrypt d → post_request body r → res = env_http n r →
      attempt body res (match res with Some _ => None | None => Some ErrTransport end)
        (d ++ [EvHttp r res]).

(** The last attempt of the retry loop. *)
Definition last_try : Z := Z.min (NumRetry config) (Z.max 1 (MaxRetryAttempts config)).

(** The retries from the [k]th on: whether one of them posted. *)
Inductive tries (body : string) : Z → list event → bool → Prop :=
  | tries_none k : last_try < k → tries body k [] false
  | tries_posted k res err d :
      k ≤ last_try → attempt body res err d → not_posted res err = false →
      tries body k (EvSleep (RetrySleepTime config) :: d) true
  | tries_again k res err d evs b :
      k ≤ last_try → attempt body res err d → not_posted res err = true →
      tries body (k + 1) evs b →
      tries body k (EvSleep (RetrySleepTime config) :: d ++ evs) b.

(** The failover: its events and its error. *)
Inductive failover (body : string) : list event → option error → Prop :=
  | failover_off : EnableFailover config = false → failover body [] None
  | failover_no_key : EnableFailover config = true → failover body [] (Some ErrUUID)
  | failover_done t id :
      EnableFailover config = true →
      failover body [EvUpload (S3BucketName config) (s3_key config t id) body true] None
  | failover_failed t id :
      EnableFailover config = true →
      failover body [EvUpload (S3BucketName config) (s3_key config t id) body false]
        (Some (ErrSendToS3 (S3BucketName config) (s3_key config t id) ErrUpload)).

(** The deferred close of the first response. *)
Definition closing (res : option response) : list event :=
  match res with Some _ => [EvBodyClose] | None => [] end.

(** A whole post. *)
Inductive delivery (body : string) : list event → option error → Prop :=
  | delivery_first res err d :
      attempt body res err d → not_posted res err = false →
      delivery body (d ++ closing res) None
  | delivery_retried res err d evs :
      attempt body res err d → not_posted res err = true → tries body 1 evs true →
      delivery body (d ++ evs ++ closing res) None
  | delivery_failed res err d evs f ferr :
      attempt body res err d → not_posted res err = true → tries body 1 evs false →
      failover body f ferr →
      delivery body (d ++ evs ++ f ++ closing res) ferr.

(** *** The code follows the protocol *)
Lemma wpe_getHttpEndpoint w :
  wpe (getHttpEndpoint config) (λ r evs _, Forall is_decrypt evs ∧
    (KMSKeyId config = EmptyString → r = (SumoHTTPEndpoint config, None))) w.
Proof.
  unfold getHttpEndpoint. destruct (String.eqb_spec (KMSKeyId config) EmptyString) as [|Hk].
  { apply wpe_ret. by split. }
  wpe_step. wpe_step. apply wpe_bind, wpe_silent, wp_get. split; [done|].
  simpl. case_match; [by apply wpe_ret|]. wpe_step. wpe_step.
  case_match; [|by apply wpe_ret].
  unfold refreshHttpEndpoint. apply wpe_bind, wpe_silent. split; [done|].
  case_match; [by apply wpe_ret|]. case_match; [|by apply wpe_ret].
  wpe_step. unfold DecodeData, kms_decrypt. wpe_step. apply wpe_silent. split; [done|].
  wpe_step. wpe_step. wpe_step.
  case_match; [|apply wpe_ret; split; [by repeat constructor|done]].
  wpe_step. wpe_step. wpe_step. apply wpe_silent, wp_modify. split; [done|].
  apply wpe_ret. split; [by repeat constructor|done].
Qed.

Lemma wpe_makeRequest body w :
  wpe (makeRequest config body) (λ r evs _, attempt body r.1 r.2 evs) w.
Proof.
  unfold makeRequest. wpe_step. eapply wpe_mono; [apply wpe_getHttpEndpoint|].
  intros [endpoint err] d w1 [Hd Hplain]. simpl.
  assert (Forall is_decrypt (d ++ [])) by (by rewrite app_nil_r).
  destruct err as [e|].
  { apply wpe_ret. apply attempt_unsent; [done|]. by intros [=]%Hplain. }
  destruct (env_url_ok endpoint) eqn:Hurl; simpl.
  2: { apply wpe_ret. apply attempt_unsent; [done|]. by intros [= ->]%Hplain. }
  unfold getLogStream. wpe_step. wpe_step. wpe_step. wpe_step. wpe_step.
  apply wpe_http_do. intros n res w2 Hres _ _. apply wpe_ret. simpl.
  rewrite ?app_nil_r. eapply attempt_sent; [done| |done].
  split; try done; simpl.
  - destruct (String.eqb _ _); by simplify_map_eq.
  - destruct (String.eqb _ _); by simplify_map_eq.
  - destruct (String.eqb _ _); by simplify_map_eq.
  - eexists. destruct (String.eqb _ _); by simplify_map_eq.
  - destruct (String.eqb _ _); by simplify_map_eq.
  - by intros [= ->]%Hplain.
Qed.

Lemma wpe_failoverHandler body w :
  wpe (failoverHandler config body) (λ err evs _, failover body evs err) w.
Proof.
  unfold failoverHandler. destruct (EnableFailover config) eqn:He.
  2: { apply wpe_ret. by constructor. }
  unfold getS3KeyName. wpe_step. wpe_step. wpe_step. wpe_step.
  apply wpe_silent. split; [done|]. simpl.
  destruct (env_uuid _) as [id|]; [|by repeat wpe_step; constructor].
  do 2 wpe_step. unfold UploadToS3, next_tick. wpe_step. apply wpe_silent. split; [done|].
  wpe_step. wpe_step. wpe_step. wpe_step. simpl. destruct (env_upload _ _ _ _); by constructor.
Qed.

Lemma wpe_retryPost body k w :
  wpe (retryPost config body k) (λ r evs _, ∃ res err d,
    evs = EvSleep (RetrySleepTime config) :: d ∧ attempt body res err d ∧
    if not_posted res err then r.1 = (k <? MaxRetryAttempts config) ∧ is_Some r.2
    else r.2 = None) w.
Proof.
  unfold retryPost. wpe_step. apply wpe_emit. wpe_step.
  eapply wpe_mono; [apply wpe_makeRequest|]. intros [res err] d w1 Ha. simpl in Ha.
  destruct (not_posted res err) eqn:Hn.
  - apply wpe_ret. exists res, err, d. rewrite app_nil_r. split; [done|]. split; [done|].
    rewrite Hn. split; [done|]. destruct err; [by eexists|]. destruct res; [by eexists|].
    inversion Ha as [|? ? ? [] ? ? ?]; simplify_eq.
  - destruct err as [e|]; [done|]. destruct res as [r|]; [|done].
    destruct (StatusCode r =? 200); apply wpe_ret; exists (Some r), None, d; rewrite app_nil_r, Hn; done.
Qed.

Hypothesis Hretry : NumRetry config < 2 ^ 63 - 1.

Lemma wpe_retries body w :
  wpe (Retry (retryPost config body) (NumRetry config))
    (λ err evs _, tries body 1 evs (bool_decide (err = None))) w.
Proof.
  unfold wpe. apply (wp_Retry _ _ Hretry (λ k w', ∃ evs, trace w' = trace w ++ evs ∧
    (0 < k → k < MaxRetryAttempts config) ∧
    ∀ evs' b, tries body (k + 1) evs' b → tries body 1 (evs ++ evs') b)).
  - exists []. rewrite app_nil_r. split; [done|]. split; [lia|done].
  - intros k w1 Hk (evs & Ht & Hm & Hevs). eapply wp_mono; [apply wpe_retryPost|].
    intros [c err] w2 (d' & Ht2 & res & e & d & -> & Ha & Hr).
    assert (k + 1 ≤ last_try) by (unfold last_try; lia).
    destruct (not_posted res e) eqn:Hn; simpl in Hr.
    + destruct Hr as [-> [x ->]]. destruct (Z.ltb_spec (k + 1) (MaxRetryAttempts config)).
      * exists (evs ++ EvSleep (RetrySleepTime config) :: d). rewrite Ht2, Ht, app_assoc.
        split; [done|]. split; [done|]. intros evs' b Htr. rewrite <- app_assoc. simpl.
        apply Hevs. by eapply tries_again.
      * exists (evs ++ EvSleep (RetrySleepTime config) :: d). rewrite Ht2, Ht, app_assoc.
        split; [done|]. apply Hevs. rewrite <- (app_nil_r d).
        eapply tries_again; [done|done|done|]. constructor. unfold last_try. lia.
    + subst err. destruct c; (exists (evs ++ EvSleep (RetrySleepTime config) :: d);
        rewrite Ht2, Ht, app_assoc; split; [done|]; apply Hevs; by eapply tries_posted).
  - intros w1 (evs & Ht & Hm & Hevs). exists evs. split; [done|].
    rewrite <- (app_nil_r evs). apply Hevs. constructor. unfold last_try. lia.
Qed.

Lemma wpe_postToSumo `{!GzipLaws E} chunk w :
  wpe (postToSumo config chunk) (λ err evs _, ∃ body, gunzip body = chunk ∧ delivery body evs err) w.
Proof.
  unfold postToSumo. destruct (Compress_total chunk) as (body & -> & Hbody).
  wpe_step. eapply wpe_mono; [apply wpe_makeRequest|]. intros [res err] d w1 Ha. simpl in Ha.
  assert (Hclose : ∀ (result : option error) ws,
    wpe (match res with Some _ => body_close | None => go_ret tt end ;;; go_ret result)
      (λ r evs _, r = result ∧ evs = closing res) ws).
  { intros. wpe_step. destruct res; simpl.
    - apply wpe_emit. by apply wpe_ret.
    - apply wpe_ret. by apply wpe_ret. }
  destruct (not_posted res err) eqn:Hn; wpe_step.
  - wpe_step. eapply wpe_mono; [apply wpe_retries|]. intros rerr evs w2 Ht. simpl in Ht.
    assert (∀ f ferr ws, failover body f ferr → rerr ≠ None → wpe (match res with Some _ => body_close | None => go_ret tt end ;;;
       go_ret ferr) (λ r evs' _, ∃ b, gunzip b = chunk ∧ delivery b (d ++ (evs ++ f) ++ evs') r) ws).
    { intros f ferr ws Hf Hr. eapply wpe_mono; [apply Hclose|]. simpl. intros ? ? ? [-> ->].
      exists body. split; [done|]. rewrite <- app_assoc.
      eapply delivery_failed; [done|done| |done]. by rewrite bool_decide_eq_false_2 in Ht. }
    destruct rerr as [e|].
    + destruct (EnableFailover config) eqn:He.
      * eapply wpe_mono; [apply wpe_failoverHandler|]. simpl. intros ferr f w3 Hf. by apply H.
      * apply wpe_ret. apply H; [by constructor|done].
    + apply wpe_ret. eapply wpe_mono; [apply Hclose|]. simpl. intros ? ? ? [-> ->].
      exists body. split; [done|]. rewrite app_nil_r. by eapply delivery_retried.
  - apply wpe_ret. eapply wpe_mono; [apply Hclose|]. simpl. intros ? ? ? [-> ->].
    exists body. split; [done|]. by eapply delivery_first.
Qed.
End posting.

(** *** What a post amounts to *)
Section outcome.
Context `{E : Env} (config : LambdaExtensionConfig).

(** The endpoint has the body. *)
Definition acknowledged (res : option response) : bool :=
  match res with Some r => StatusCode r =? 200 | None => false end.

(** The answers that the code handles like an acknowledgement although
    they are none: the body is neither sent again nor stored. *)
Definition lossy (res : option response) : bool :=
  match res with
  | Some r => (StatusCode r =? 302) || (500 <=? StatusCode r)
  | None => false
  end.

(** The answers after which nothing is tried again. *)
Definition final_answer (res : option response) : bool := acknowledged res || lossy res.

Lemma not_posted_final res :
  not_posted res (match res with Some _ => None | None => Some ErrTransport end) = negb (final_answer res).
Proof.
  destruct res as [r|]; [|done]. unfold final_answer. simpl.
  rewrite Z.leb_antisym. by destruct (_ =? 200), (_ =? 302), (_ <? 500).
Qed.

(** The effects of a post, by kind. *)
Record tally := Tally {
  t_answers : list (option response);
  t_bodies : list string;
  t_uploads : list (string * bool);
  t_closes : nat }.
Definition tally_of (evs : list event) : tally :=
  Tally (exchanges evs) (bodies evs) (uploads evs) (closes evs).
Definition tally_add (a b : tally) : tally :=
  Tally (t_answers a ++ t_answers b) (t_bodies a ++ t_bodies b)
    (t_uploads a ++ t_uploads b) (t_closes a + t_closes b).

Lemma tally_app e1 e2 : tally_of (e1 ++ e2) = tally_add (tally_of e1) (tally_of e2).
Proof. unfold tally_of, tally_add. simpl. by autorewrite with trace. Qed.

Lemma tally_decrypt d : Forall is_decrypt d → tally_of d = Tally [] [] [] 0.
Proof.
  induction 1 as [|e d He Hd IH]; [done|].
  change (e :: d) with ([e] ++ d). rewrite tally_app, IH. by destruct e.
Qed.

(** Answers to posts of one body, none of them final, or only the last. *)
Definition refused (body : string) (t : tally) : Prop :=
  (∃ l, t = Tally l (replicate (List.length l) body) [] 0) ∧
  Forall (λ res, final_answer res = false) (t_answers t).
Definition accepted (body : string) (t : tally) : Prop :=
  (∃ l, t = Tally l (replicate (List.length l) body) [] 0) ∧
  ∃ l res, t_answers t = l ++ [res] ∧ final_answer res = true ∧ Forall (λ res, final_answer res = false) l.

Lemma refused_add body t1 t2 : refused body t1 → refused body t2 → refused body (tally_add t1 t2).
Proof.
  intros [[l1 ->] H1] [[l2 ->] H2]. split.
  - exists (l1 ++ l2). unfold tally_add. simpl. by rewrite List.length_app, replicate_add.
  - simpl. by apply Forall_app.
Qed.

Lemma refused_accepted body t1 t2 : refused body t1 → accepted body t2 → accepted body (tally_add t1 t2).
Proof.
  intros [[l1 ->] H1] [[l2 ->] (l & res & Hl & Hres & Hall)]. split.
  - exists (l1 ++ l2). unfold tally_add. simpl. by rewrite List.length_app, replicate_add.
  - simpl in *. exists (l1 ++ l), res. rewrite Hl, app_assoc. split; [done|]. split; [done|].
    by apply Forall_app.
Qed.

Lemma attempt_tally body res err d :
  attempt config body res err d →
  (List.length (exchanges d) ≤ 1)%nat ∧
  if not_posted res err then refused body (tally_of d) else accepted body (tally_of d).
Proof.
  intros Ha. destruct Ha as [d e Hd Hu|d n r res Hd Hr Hres].
  - apply tally_decrypt in Hd. pose proof (f_equal t_answers Hd) as Hx. simpl in Hx.
    rewrite Hx, Hd. simpl. split; [lia|]. split; [by exists []|constructor].
  - apply tally_decrypt in Hd. rewrite not_posted_final, tally_app, Hd. simpl. destruct Hr as [_ Hb].
    rewrite exchanges_app. pose proof (f_equal t_answers Hd) as Hx. simpl in Hx. rewrite Hx. split; [simpl; lia|].
    unfold tally_of, tally_add. simpl. rewrite Hb. destruct (final_answer res) eqn:Ht; simpl.
    + split; [by exists [res]|]. by exists [], res.
    + split; [by exists [res]|]. by repeat constructor.
Qed.

Lemma tries_tally body k evs b :
  tries config body k evs b →
  (List.length (exchanges evs) ≤ Z.to_nat (last_try config + 1 - k))%nat ∧
  if b then accepted body (tally_of evs) else refused body (tally_of evs).
Proof.
  induction 1 as [k Hk|k res err d Hk Ha Hn|k res err d evs b Hk Ha Hn Ht [IH1 IH2]].
  - split; [simpl; lia|]. split; [by exists []|constructor].
  - destruct (attempt_tally _ _ _ _ Ha) as [H1 H2]. rewrite Hn in H2. split; [|done].
    simpl. lia.
  - destruct (attempt_tally _ _ _ _ Ha) as [H1 H2]. rewrite Hn in H2. split.
    + simpl. rewrite exchanges_app, List.length_app. lia.
    + change (tally_of (EvSleep (RetrySleepTime config) :: d ++ evs)) with (tally_of (d ++ evs)).
      rewrite tally_app. destruct b; [by apply refused_accepted|by apply refused_add].
Qed.

(** The verdict on a post: the answers, what was stored, the error. *)
Definition verdict (body : string) (t : tally) (err : option error) : Prop :=
  t_bodies t = replicate (List.length (t_answers t)) body ∧
  (List.length (t_answers t) ≤ 1 + Z.to_nat (last_try config))%nat ∧
  (t_closes t ≤ 1)%nat ∧
  Forall (λ res, final_answer res = false) (removelast (t_answers t)) ∧
  if existsb final_answer (t_answers t) then t_uploads t = [] ∧ err = None
  else if EnableFailover config
  then (t_uploads t = [(body, true)] ∧ err = None) ∨
       ((t_uploads t = [] ∨ t_uploads t = [(body, false)]) ∧ err ≠ None)
  else t_uploads t = [] ∧ err = None.

Lemma existsb_final_false l : Forall (λ res, final_answer res = false) l → existsb final_answer l = false.
Proof. induction 1 as [|x l Hx Hl IH]; [done|]. simpl. by rewrite Hx. Qed.

Lemma refused_verdict body t u c err :
  refused body t → (List.length (t_answers t) ≤ 1 + Z.to_nat (last_try config))%nat → (c ≤ 1)%nat →
  (if EnableFailover config
   then (u = [(body, true)] ∧ err = None) ∨ ((u = [] ∨ u = [(body, false)]) ∧ err ≠ None)
   else u = [] ∧ err = None) →
  verdict body (tally_add t (Tally [] [] u c)) err.
Proof.
  intros [[l ->] Hall] Hlen Hc Hu. unfold verdict, tally_add. simpl in *.
  rewrite !app_nil_r, existsb_final_false by done. split_and!; try done.
  apply Forall_forall. intros x Hx. apply Forall_forall with (x := x) in Hall; [done|].
  destruct l as [|y l] using rev_ind; [done|]. rewrite removelast_last in Hx. set_solver.
Qed.

Lemma accepted_verdict body t c :
  accepted body t → (List.length (t_answers t) ≤ 1 + Z.to_nat (last_try config))%nat → (c ≤ 1)%nat →
  verdict body (tally_add t (Tally [] [] [] c)) None.
Proof.
  intros [[l ->] (l' & res & Hl & Hres & Hall)] Hlen Hc. simpl in *. subst l.
  unfold verdict, tally_add. simpl in *. rewrite !app_nil_r.
  split_and!; try done; [by rewrite removelast_last|].
  rewrite existsb_app. simpl. by rewrite Hres, orb_true_r.
Qed.

Lemma closing_tally res : ∃ c, tally_of (closing res) = Tally [] [] [] c ∧ (c ≤ 1)%nat.
Proof. destruct res; eexists; split; try done; simpl; lia. Qed.

Lemma failover_tally body f ferr :
  failover config body f ferr →
  ∃ u, tally_of f = Tally [] [] u 0 ∧
    if EnableFailover config
    then (u = [(body, true)] ∧ ferr = None) ∨ ((u = [] ∨ u = [(body, false)]) ∧ ferr ≠ None)
    else u = [] ∧ ferr = None.
Proof.
  destruct 1 as [H|H|t id H|t id H]; rewrite H; eexists; (split; [done|]);
    [done|by right; eauto|by left|by right; eauto].
Qed.

Lemma delivery_verdict body evs err : delivery config body evs err → verdict body (tally_of evs) err.
Proof.
  destruct 1 as [res e d Ha Hn|res e d evs Ha Hn Ht|res e d evs f ferr Ha Hn Ht Hf];
    destruct (attempt_tally _ _ _ _ Ha) as [H1 H2]; rewrite Hn in H2;
    destruct (closing_tally res) as (c & Hc & Hc1).
  - rewrite tally_app, Hc. apply accepted_verdict; [done|simpl; lia|done].
  - destruct (tries_tally _ _ _ _ Ht) as [H3 H4]. rewrite app_assoc, tally_app, Hc, tally_app.
    apply accepted_verdict; [by apply refused_accepted| |done].
    simpl. rewrite List.length_app. lia.
  - destruct (tries_tally _ _ _ _ Ht) as [H3 H4]. destruct (failover_tally _ _ _ Hf) as (u & Hu & Hv).
    replace (tally_of (d ++ evs ++ f ++ closing res))
      with (tally_add (tally_add (tally_of d) (tally_of evs)) (Tally [] [] u c)).
    + apply refused_verdict; [by apply refused_add| |done|done].
      simpl. rewrite List.length_app. lia.
    + rewrite app_assoc, !tally_app, Hu, Hc. unfold tally_add. simpl.
      by rewrite !app_nil_r, <- ?app_assoc, ?Nat.add_assoc.
Qed.

Context `{!GzipLaws E}.

(** C3. One post follows the protocol [delivery]: an attempt, then after a
    refusal the retries, each after the configured pause, then after the
    last refusal the upload to S3 when the failover is enabled; every
    attempt sends the same gzip encoding of the chunk, with the headers of
    the endpoint. *)
Theorem postToSumo_follows_protocol chunk w :
  NumRetry config < 2 ^ 63 - 1 →
  wpe (postToSumo config chunk)
    (λ err evs _, ∃ body, gunzip body = chunk ∧ delivery config body evs err) w.
Proof. intros H. by apply wpe_postToSumo. Qed.

(** C4. The verdict on a post: at most 1 + min(NumRetry, max(1,
    MaxRetryAttempts)) requests, and no answer but the last is final (200,
    302 or a status of 500 and more); with the failover on, no error means
    that an answer was final or that the chunk is stored in S3; with the
    failover off, a post never reports an error, also when every request was
    refused. *)
Theorem postToSumo_verdict chunk w :
  NumRetry config < 2 ^ 63 - 1 →
  wpe (postToSumo config chunk)
    (λ err evs _, ∃ body, gunzip body = chunk ∧ verdict body (tally_of evs) err) w.
Proof.
  intros H. eapply wpe_mono; [by apply wpe_postToSumo|].
  intros err evs _ (body & Hb & Hd). exists body. split; [done|]. by apply delivery_verdict.
Qed.
End outcome.

(** ** An endpoint whose first answer is always final *)
Section taking.
Context `{E : Env} (config : LambdaExtensionConfig).

Context (Hplain : KMSKeyId config = EmptyString).
Context (Hurl : env_url_ok (SumoHTTPEndpoint config) = true).
Context (Hfinal : ∀ n r, final_answer (env_http n r) = true).

Lemma delivery_final body evs err :
  delivery config body evs err →
  err = None ∧ bodies evs = [body] ∧ uploads evs = [] ∧ List.length (exchanges evs) = 1%nat.
Proof.
  assert (Hatt : ∀ res e d, attempt config body res e d → not_posted res e = false ∧
    (∀ c, bodies (d ++ closing c) = [body] ∧ uploads (d ++ closing c) = [] ∧
    List.length (exchanges (d ++ closing c)) = 1%nat)).
  { destruct 1 as [d e Hd Hu|d n r res Hd Hr Hres]; [rewrite Hu in Hurl by done; done|].
    rewrite not_posted_final, Hres, Hfinal. split; [done|]. intros c.
    apply tally_decrypt in Hd. destruct Hr as [_ Hb _ _ _ _ _ _]. autorewrite with trace.
    injection Hd as -> -> -> _. destruct c; simpl; by rewrite Hb. }
  intros H. destruct H as [res e d Ha Hn|res e d evs Ha Hn Ht|res e d evs f ferr Ha Hn Ht Hf];
    destruct (Hatt _ _ _ Ha) as [Hn' Hc]; [|congruence..].
  split; [done|]. apply Hc.
Qed.
End taking.

Section server_error.
Context `{E : Env} `{!GzipLaws E} (config : LambdaExtensionConfig).

(** C39. A server error (a status of 500 or more) loses the chunk: one
    request, no retry, no upload even with the failover on, and no error. *)
Theorem server_error_drops_chunk chunk w :
  NumRetry config < 2 ^ 63 - 1 → KMSKeyId config = EmptyString →
  env_url_ok (SumoHTTPEndpoint config) = true →
  (∀ n r, ∃ res, env_http n r = Some res ∧ 500 ≤ StatusCode res) →
  wpe (postToSumo config chunk) (λ err evs _,
    err = None ∧ List.length (exchanges evs) = 1%nat ∧ uploads evs = []) w.
Proof.
  intros H1 H2 H3 H4. assert (∀ n r, final_answer (env_http n r) = true) as H5.
  { intros n r. destruct (H4 n r) as (res & -> & Hs). unfold final_answer. simpl.
    apply Z.leb_le in Hs. by rewrite Hs, !orb_true_r. }
  eapply wpe_mono; [by apply wpe_postToSumo|]. intros err evs ? (body & _ & Hd).
  by destruct (delivery_final config H2 H3 H5 _ _ _ Hd) as (-> & _ & Hu & Hl).
Qed.
End server_error.

(** ** The cache of the decrypted endpoint *)
Section kms.
Context `{E : Env} (config : LambdaExtensionConfig).

(** The cache time is not in the future. *)
Definition cache_stale (w : world) : Prop := ∀ n, (tick w ≤ n)%nat → kmsEndpointCacheTime w ≤ env_now n.

Lemma getHttpEndpoint_stale w :
  KMSKeyId config ≠ EmptyString → cache_stale w →
  getHttpEndpoint config w = refreshHttpEndpoint config (set_tick (2 + tick w) w).
Proof.
  intros Hk Hs. unfold getHttpEndpoint. apply String.eqb_neq in Hk as ->.
  unfold time_now, next_tick, go_bind, go_get, go_ret. simpl.
  pose proof (Hs (tick w) ltac:(lia)). pose proof (Hs (S (tick w)) ltac:(lia)).
  destruct (Z.ltb_spec 0 (kmsEndpointCacheTime w - env_now (tick w))); [lia|].
  cbn [tick set_tick].
  destruct (Z.leb_spec (kmsEndpointCacheTime w - env_now (S (tick w))) 0); [done|lia].
Qed.

Lemma refresh_stale `{!MonotoneClock E} w :
  cache_stale w → cache_stale (refreshHttpEndpoint config w).2.
Proof.
  intros Hs. unfold refreshHttpEndpoint, DecodeData, kms_decrypt, time_now, next_tick, emit,
    go_modify, go_bind, go_ret, cache_stale in *. simpl.
  repeat case_match; simplify_eq/=; intros n Hn; try (apply Hs; lia); apply now_mono; lia.
Qed.
End kms.

Section kms_theorem.
Context `{E : Env} (config : LambdaExtensionConfig).

(** The decrypted endpoint is never served from the cache: with a clock
    that does not run backwards, a call with a KMS key is a fresh
    decryption, and leaves the cache as stale as it was. *)
Theorem kms_cache_never_hit w :
  MonotoneClock E → KMSKeyId config ≠ EmptyString → cache_stale w →
  getHttpEndpoint config w = refreshHttpEndpoint config (set_tick (2 + tick w) w) ∧
  cache_stale (getHttpEndpoint config w).2.
Proof.
  intros Hm Hk Hs. rewrite getHttpEndpoint_stale by done. split; [done|].
  apply refresh_stale; [done|]. intros n Hn. apply Hs. simpl in Hn. lia.
Qed.
End kms_theorem.

(** ** Examples *)
Lemma postToSumo_follows_protocol_witness :
  wpe (postToSumo (E := answering 429) (sample_config true 100) "x")
    (λ err evs _, ∃ body, gunzip (E := answering 429) body = "x"%string ∧ delivery (E := answering 429) (sample_config true 100) body evs err) world0.
Proof. apply (postToSumo_follows_protocol (E := answering 429)). simpl. lia. Defined.

Lemma postToSumo_verdict_witness :
  wpe (postToSumo (E := answering 429) (sample_config false 100) "x")
    (λ err evs _, ∃ body, gunzip (E := answering 429) body = "x"%string ∧ verdict (sample_config false 100) body (tally_of evs) err) world0.
Proof. apply (postToSumo_verdict (E := answering 429)). simpl. lia. Defined.

Lemma server_error_drops_chunk_witness :
  wpe (postToSumo (E := answering 503) (sample_config true 100) "x") (λ err evs _,
      err = None ∧ List.length (exchanges evs) = 1%nat ∧ uploads evs = []) world0.
Proof.
  apply (server_error_drops_chunk (E := answering 503)); [simpl; lia|done|done|].
  intros n r. eexists. split; [reflexivity|]. simpl. lia.
Defined.

Lemma kms_cache_never_hit_witness :
  getHttpEndpoint (E := answering 200) kms_config world0 =
    refreshHttpEndpoint (E := answering 200) kms_config (set_tick 2 world0) ∧
  cache_stale (E := answering 200) (getHttpEndpoint (E := answering 200) kms_config world0).2.
Proof.
  apply (kms_cache_never_hit (E := answering 200)); [apply sample_clock|done|].
  intros n _. simpl. lia.
Defined.
