(* ===== verification/SumoCalls.v ===== *)
(** * The three calls of the sender ([SendLogs], [SendAllLogs], [FlushAll])

    What was sent, what became of it (acknowledged, stored, given up), when a
    call panics, and that the client
    implements the interface [LogSenderLaws]. *)
From S2P Require Import Prelude GoStrings GoFloat GoJson Env Utils Config SumoClient SumoChunks SumoEnhance SumoPost.
From Stdlib Require Import Ascii String.
Open Scope Z_scope.

(** ** What became of a body *)
(** The bodies of the requests with an answer of a kind. *)
Definition answered (P : option response → bool) (evs : list event) : list string :=
  omap (λ e, match e with EvHttp r res => if P res then Some (req_body r) else None | _ => None end) evs.

(** A body that the endpoint acknowledged or S3 stored. *)
Definition kept (evs : list event) (body : string) : Prop :=
  body ∈ answered acknowledged evs ∨ (body, true) ∈ uploads evs.

(** A body that an answer made the code give up without an error. *)
Definition given_up (evs : list event) (body : string) : Prop := body ∈ answered lossy evs.

Definition accounted (evs : list event) (body : string) : Prop := kept evs body ∨ given_up evs body.

Lemma answered_app P e1 e2 : answered P (e1 ++ e2) = answered P e1 ++ answered P e2.
Proof. apply omap_app. Qed.

Lemma accounted_app e1 e2 body : accounted (e1 ++ e2) body ↔ accounted e1 body ∨ accounted e2 body.
Proof. unfold accounted, kept, given_up. rewrite !answered_app, uploads_app, !elem_of_app. tauto. Qed.

Lemma given_up_answer evs body : given_up evs body → Exists (λ res, lossy res = true) (exchanges evs).
Proof.
  unfold given_up, answered. intros (e & He & Hb)%list_elem_of_omap. induction evs as [|e' evs IH]; [set_solver|].
  apply elem_of_cons in He as [->|He].
  - destruct e'; try done. simpl in *. destruct (lossy res) eqn:Hl; [by constructor|done].
  - specialize (IH He). destruct e'; simpl; try done. by right.
Qed.

Lemma not_lossy_kept evs body :
  Forall (λ res, lossy res = false) (exchanges evs) → accounted evs body → kept evs body.
Proof.
  intros Hno [Hb|Hb]; [done|]. apply given_up_answer, Exists_exists in Hb as (res & Hin & Hl).
  eapply Forall_forall in Hno; [|exact Hin]. congruence.
Qed.

Section calls.
Context `{E : Env} `{!GzipLaws E} (config : LambdaExtensionConfig).

(** The posts of a list of chunks, and how many reported an error. *)
Inductive deliveries : list string → list event → Z → Prop :=
  | deliveries_nil : deliveries [] [] 0
  | deliveries_cons body err d cs evs n :
      delivery config body d err → deliveries cs evs n →
      deliveries (gunzip body :: cs) (d ++ evs)
        (match err with Some _ => n + 1 | None => n end).

Hypothesis Hretry : NumRetry config < 2 ^ 63 - 1.

Lemma wpe_postChunks cs : ∀ n w,
  wpe (postChunks config n cs) (λ n' evs _, deliveries cs evs (n' - n)) w.
Proof.
  unfold postChunks. induction cs as [|c cs IH]; intros n w; simpl.
  - apply wpe_ret. rewrite Z.sub_diag. constructor.
  - wpe_step. wpe_step. eapply wpe_mono; [by apply wpe_postToSumo|].
    intros err d w1 (body & <- & Hd). wpe_step. eapply wpe_mono; [apply IH|].
    intros n' evs ? Hds. simpl in *. rewrite app_nil_r. pose proof (deliveries_cons _ _ _ _ _ _ Hd Hds) as H.
    destruct err; [|done]. by replace (n' - n) with (n' - (n + 1) + 1) by lia.
Qed.


Lemma undecodable_nonneg ps : 0 ≤ undecodable ps.
Proof. unfold undecodable. lia. Qed.

Lemma undecodable_0 ps : undecodable ps = 0 ↔ Forall (λ p, is_Some (unmarshal_maps p)) ps.
Proof.
  unfold undecodable. induction ps as [|p ps IH]; [by split; constructor|].
  rewrite Forall_cons. simpl. destruct (unmarshal_maps p); simpl.
  - split; [intros H; split; [by eexists|by apply IH]|]. intros [_ H]. by apply IH.
  - split; [lia|]. by intros [[? [=]] _].
Qed.

Lemma decoded_cons p ps : decoded (p :: ps) = default [] (unmarshal_maps p) ++ decoded ps.
Proof. done. Qed.
Lemma undecodable_cons p ps :
  undecodable (p :: ps) = (match unmarshal_maps p with Some _ => 0 | None => 1 end) + undecodable ps.
Proof. unfold undecodable. simpl. destruct (unmarshal_maps p); simpl; lia. Qed.

Lemma wp_collect ps : ∀ n acc w,
  Forall enhanceable (decoded ps) →
  wp (go_fold (collectPayload config) (n, acc) ps)
    (λ r w', quiet w w' ∧ r.1 = n + undecodable ps ∧
             ∃ items, r.2 = acc ++ items ∧ Forall2 (enhances_to config) (decoded ps) items) w.
Proof.
  induction ps as [|p ps IH]; intros n acc w Hall; cbn [go_fold].
  - apply wp_ret. split; [done|]. split; [unfold undecodable; simpl; lia|].
    exists []. by rewrite app_nil_r.
  - apply wp_bind. rewrite decoded_cons, undecodable_cons in *.
    apply Forall_app in Hall as [H1 H2].
    unfold collectPayload at 1, transformBytesToArrayOfMap.
    destruct (unmarshal_maps p) as [[|m ms]|] eqn:Hp; cbn [default from_option id] in *.
    + apply wp_ret. eapply wp_mono; [by apply IH|]. intros [n' acc'] w2 (Hq2 & Hn & H).
      split; [done|]. split; [simpl in *; lia|done].
    + apply wp_bind. eapply wp_mono; [by apply wp_enhanceLogs|]. intros ms' w1 [HF Hq]. apply wp_ret.
      eapply wp_mono; [by apply IH|]. intros [n' acc'] w2 (Hq2 & Hn & items & Hacc & HF2).
      split; [by etrans|]. split; [simpl in *; lia|]. exists (ms' ++ items). simpl in *.
      rewrite Hacc, app_assoc. split; [done|]. by apply (Forall2_app (l1 := m :: ms)).
    + apply wp_ret. eapply wp_mono; [by apply IH|]. intros [n' acc'] w2 (Hq2 & Hn & H).
      split; [done|]. split; [simpl in *; lia|done].
Qed.

(** *** Decoded items stay encodable *)
Definition encodable (m : gomap) : Prop := is_Some (marshal_map m).

Lemma encodable_insert g k v :
  encodable (Some g) → is_Some (marshal v) → encodable (Some (<[k:=v]> g)).
Proof.
  unfold encodable, marshal_map. rewrite !marshal_map_Some. intros H Hv k' x.
  rewrite lookup_insert_Some. naive_solver.
Qed.
Lemma encodable_delete g k : encodable (Some g) → encodable (Some (delete k g)).
Proof.
  unfold encodable, marshal_map. rewrite !marshal_map_Some. intros H k' x.
  rewrite lookup_delete_Some. naive_solver.
Qed.
Lemma encodable_lookup g k v : encodable (Some g) → g !! k = Some v → is_Some (marshal v).
Proof. unfold encodable, marshal_map. rewrite marshal_map_Some. eauto. Qed.
Lemma encodable_str s : is_Some (marshal (VStr s)).
Proof. by eexists. Qed.
Lemma encodable_stamped stream g : encodable (Some g) → encodable (Some (stamped config stream g)).
Proof. intros. unfold stamped. repeat apply encodable_insert; try done; by eexists. Qed.
Lemma encodable_drop_text g : encodable (Some g) → encodable (Some (drop_text g)).
Proof.
  intros H. unfold drop_text. destruct (g !! _) as [[]|]; try done. by apply encodable_delete.
Qed.

Lemma enhances_to_encodable item m : enhances_to config item m → encodable item → encodable m.
Proof.
  intros (g & n & -> & He) Hg. revert He. generalize (log_stream config (env_now n)). intros stream He. apply (encodable_stamped stream) in Hg as Hs.
  unfold enhanced in He. destruct (kind_of g).
  - destruct (ParseJson (function_text g)) as [json [e|]] eqn:Hj; destruct (EnhanceJsonLogs config);
      simplify_eq; try (apply encodable_insert; [by apply encodable_drop_text|]).
    + apply encodable_str.
    + apply encodable_insert; [by eexists|apply encodable_str].
    + unfold ParseJson in Hj. destruct (unmarshal_map _) eqn:Hu; [|done]. simplify_eq.
      by eapply unmarshal_map_marshal.
    + unfold ParseJson in Hj. destruct (unmarshal_map _) eqn:Hu; [|done]. simplify_eq.
      by eapply unmarshal_map_marshal.
  - destruct (metrics_of g) as [[]|]; simplify_eq. apply encodable_insert; [done|apply encodable_str].
  - destruct (g !! "record"%string) as [[| | | | |m']|] eqn:Hr; simplify_eq; try done.
    destruct (map_has m' "spans" && EnableSpanDrops config); [|done].
    apply encodable_insert; [done|]. pose proof (encodable_lookup _ _ _ Hg Hr) as Hm.
    destruct m' as [g'|]; [by apply encodable_delete|by eexists].
  - by simplify_eq.
Qed.

Lemma decoded_encodable ps : Forall encodable (decoded ps).
Proof.
  induction ps as [|p ps IH]; [constructor|]. rewrite decoded_cons. apply Forall_app. split; [|done].
  destruct (unmarshal_maps p) eqn:Hp; [|constructor]. by eapply unmarshal_maps_marshal.
Qed.

Lemma all_encoded ms : Forall encodable ms → map Some (omap marshal_map ms) = map marshal_map ms.
Proof.
  induction 1 as [|m ms [s Hs] Hms IH]; [done|]. csimpl. rewrite Hs. simpl. by rewrite IH.
Qed.

(** The lines a list of items is sent as. *)
Definition encodings (ms : responseBody) (ls : list string) : Prop :=
  map Some ls = map marshal_map ms.

Lemma enhanced_encodings ps items :
  Forall2 (enhances_to config) (decoded ps) items →
  (createChunks config items).2 = None ∧
  encodings items (flat_map payload_lines (createChunks config items).1).
Proof.
  intros HF. assert (Forall encodable items) as Henc.
  { pose proof (decoded_encodable ps) as Hd. clear Hretry. induction HF; [constructor|].
    apply Forall_cons in Hd as [? ?]. constructor; [by eapply enhances_to_encodable|auto]. }
  pose proof (all_encoded items Henc) as Hall. unfold createChunks, encodings. simpl.
  destruct (chunks_inv_all config items) as [-> _ ->]. split; [|done].
  apply (f_equal (@List.length _)) in Hall. rewrite !List.length_map in Hall.
  by rewrite Hall, Nat.sub_diag.
Qed.

(** *** SendLogs and SendAllLogs *)

(** The chunks of the enhanced items of [ps] were posted. *)
Inductive sent (ps : list string) (evs : list event) (lost : Z) : Prop :=
  | Sent (items : responseBody) :
      Forall2 (enhances_to config) (decoded ps) items →
      deliveries (createChunks config items).1 evs lost →
      encodings items (flat_map payload_lines (createChunks config items).1) →
      sent ps evs lost.

Lemma wpe_quiet {A} (m : Go world A) (P : A → Prop) (Q : A → list event → world → Prop) w :
  wp m (λ a w', P a ∧ quiet w w') w →
  (∀ a w', P a → quiet w w' → Q a [] w') →
  wpe m Q w.
Proof.
  intros Hm HQ. apply wpe_silent. eapply wp_mono; [exact Hm|]. intros a w' [HP Hq].
  split; [by destruct Hq|by apply HQ].
Qed.

Lemma wpe_SendAllLogs ps w :
  Forall enhanceable (decoded ps) →
  wpe (sumo_SendAllLogs config ps) (λ err evs _,
    match ps with
    | [] => err = None ∧ evs = []
    | _ => ∃ lost, sent ps evs lost ∧
        err = if 0 <? undecodable ps + lost then Some (ErrSendAllPost (undecodable ps + lost)) else None
    end) w.
Proof.
  intros Hall. unfold sumo_SendAllLogs. destruct ps as [|p ps]; [by apply wpe_ret|].
  wpe_step. eapply wpe_quiet; [eapply wp_mono; [by apply wp_collect|]|].
  { intros r w' (Hq & Hn & Hitems). split; [exact (conj Hn Hitems)|done]. }
  intros [n payload] w1 [Hn (items & Hp & HF)] _. simpl in Hn, Hp. subst n payload.
  destruct (enhanced_encodings _ _ HF) as [Hnone Henc].
  destruct (createChunks config items) as [cs err] eqn:Hc. simpl in Hnone. subst err.
  simpl in Henc. wpe_step. eapply wpe_mono; [apply wpe_postChunks|].
  intros n evs w2 Hd. wpe_step. rewrite app_nil_r. exists (n - undecodable (p :: ps)).
  rewrite Z.add_0_l in Hd. split.
  - apply (Sent _ _ _ items); [done| |]; by rewrite Hc.
  - by replace (undecodable (p :: ps) + (n - undecodable (p :: ps))) with n by lia.
Qed.

Lemma wpe_SendLogs raw w :
  Forall enhanceable (decoded [raw]) →
  wpe (sumo_SendLogs config raw) (λ err evs _,
    if String.eqb raw EmptyString then err = None ∧ evs = []
    else match unmarshal_maps raw with
         | None => err = Some (ErrSendLogsTransform (ErrParsePayload raw)) ∧ evs = []
         | Some _ => ∃ lost, sent [raw] evs lost ∧
             err = if 0 <? lost then Some (ErrSendLogsPost lost) else None
         end) w.
Proof.
  intros Hall. unfold sumo_SendLogs, transformBytesToArrayOfMap.
  destruct (String.eqb_spec raw EmptyString) as [->|Hne]; [by apply wpe_ret|].
  replace (0 <? slen raw) with true by (destruct raw; [done|symmetry; by apply Z.ltb_lt]).
  destruct (unmarshal_maps raw) as [ms|] eqn:Hu; [|by apply wpe_ret].
  assert (decoded [raw] = ms) as Hms.
  { unfold decoded. simpl. rewrite Hu. simpl. by rewrite app_nil_r. }
  wpe_step. eapply wpe_quiet; [apply wp_enhanceLogs; by rewrite <- Hms|].
  intros items w1 HF _. rewrite <- Hms in HF. destruct (enhanced_encodings _ _ HF) as [Hnone Henc].
  destruct (createChunks config items) as [cs err] eqn:Hc. simpl in Hnone. subst err.
  simpl in Henc. wpe_step. eapply wpe_mono; [apply wpe_postChunks|].
  intros n evs w2 Hd. wpe_step. rewrite app_nil_r. exists n. cbv beta in Hd. rewrite Z.sub_0_r in Hd. split; [|done].
  apply (Sent _ _ _ items); [done| |]; by rewrite Hc.
Qed.

(** *** What reached the outside *)

Lemma attempt_accounted body res err d :
  attempt config body res err d → not_posted res err = false → accounted d body.
Proof.
  destruct 1 as [d e Hd Hu|d n r res Hd Hr Hres]; [done|]. rewrite not_posted_final. unfold final_answer. intros Ht.
  apply accounted_app. right. destruct Hr as [_ <- _ _ _ _ _ _].
  apply negb_false_iff, orb_true_iff in Ht as [Ht|Ht]; [left; left|right]; unfold given_up, answered; csimpl;
    rewrite Ht; by apply list_elem_of_singleton.
Qed.

Lemma tries_accounted body k evs : tries config body k evs true → accounted evs body.
Proof.
  intros H. remember true as b eqn:Hb.
  induction H as [|k res err d Hk Ha Hn|k res err d evs b Hk Ha Hn Ht IH]; [done| |].
  - apply (accounted_app [_] d). right. by eapply attempt_accounted.
  - apply (accounted_app (_ :: d) evs). right. by apply IH.
Qed.

Lemma delivery_accounted body evs :
  EnableFailover config = true → delivery config body evs None → accounted evs body.
Proof.
  intros He H. remember None as err eqn:Herr.
  destruct H as [res e d Ha Hn|res e d evs Ha Hn Ht|res e d evs f ferr Ha Hn Ht Hf];
    rewrite ?accounted_app.
  - left. by eapply attempt_accounted.
  - right. left. by eapply tries_accounted.
  - right. right. left. left. right. destruct Hf; try congruence. by apply list_elem_of_singleton.
Qed.

Lemma deliveries_nonneg cs evs n : deliveries cs evs n → 0 ≤ n.
Proof. induction 1 as [|? err]; [done|]. destruct err; lia. Qed.

Lemma deliveries_accounted cs evs :
  EnableFailover config = true → deliveries cs evs 0 →
  Forall (λ c, ∃ body, gunzip body = c ∧ accounted evs body) cs.
Proof.
  intros He H. remember 0 as n eqn:Hn.
  induction H as [|body err d cs evs n Hd Hds IH]; [constructor|].
  pose proof (deliveries_nonneg _ _ _ Hds). destruct err; [lia|]. constructor.
  - exists body. split; [done|]. apply accounted_app. left. by apply delivery_accounted.
  - eapply Forall_impl; [by apply IH|]. intros c (b & Hb & Hk). exists b. split; [done|].
    apply accounted_app. by right.
Qed.

Lemma deliveries_lines cs evs :
  EnableFailover config = true → deliveries cs evs 0 →
  Forall (λ l, ∃ body, l ∈ payload_lines (gunzip body) ∧ accounted evs body) (flat_map payload_lines cs).
Proof.
  intros He Hd. apply Forall_flat_map. eapply Forall_impl; [by apply deliveries_accounted|].
  intros c (body & <- & Hk). apply Forall_forall. eauto.
Qed.

Lemma deliveries_silent cs evs n :
  EnableFailover config = false → deliveries cs evs n → n = 0.
Proof.
  intros He. induction 1 as [|body err d cs evs n Hd Hds IH]; [done|].
  assert (err = None) as ->; [|done]. destruct Hd as [| |? ? ? ? ? ? ? ? ? Hf]; [done..|].
  destruct Hf; congruence.
Qed.

Lemma collect_panics ps : ∀ st w,
  ¬ Forall enhanceable (decoded ps) →
  ∃ p w', go_fold (collectPayload config) st ps w = (Panic p, w').
Proof.
  induction ps as [|p ps IH]; intros [n acc] w H; [destruct H; constructor|].
  rewrite decoded_cons in H. cbn [go_fold]. unfold go_bind at 1.
  unfold collectPayload at 1, transformBytesToArrayOfMap.
  destruct (unmarshal_maps p) as [ms|]; [|by apply IH]. cbn [default from_option id] in H.
  destruct ms as [|m ms]; [by apply IH|]. unfold go_bind at 1.
  destruct (decide (Forall enhanceable (m :: ms))) as [Hms|Hms].
  - pose proof (wp_enhanceLogs config _ w Hms) as Hw. unfold wp in Hw.
    destruct (enhanceLogs config (m :: ms) w) as [[]]; [|done..]. apply IH.
    intros Hps. apply H. by apply (Forall_app_2 _ (m :: ms)).
  - destruct (enhanceLogs_panics_iff config _ w Hms) as (pn & w' & ->). eauto.
Qed.
End calls.

(** ** An endpoint whose first answer is always final *)
Section taking.
Context `{E : Env} `{!GzipLaws E} (config : LambdaExtensionConfig).
Context (Hplain : KMSKeyId config = EmptyString).
Context (Hurl : env_url_ok (SumoHTTPEndpoint config) = true).
Context (Hfinal : ∀ n r, final_answer (env_http n r) = true).

Lemma deliveries_final cs evs n :
  deliveries config cs evs n → n = 0 ∧ map gunzip (bodies evs) = cs ∧ uploads evs = [].
Proof.
  induction 1 as [|body err d cs evs n Hd Hds (IH1 & IH2 & IH3)]; [done|].
  destruct (delivery_final config Hplain Hurl Hfinal _ _ _ Hd) as (-> & Hb & Hu & _).
  rewrite bodies_app, uploads_app, Hb, Hu, IH3. simpl. by rewrite IH2.
Qed.

Lemma wpe_SendAllLogs_final ps w :
  NumRetry config < 2 ^ 63 - 1 → Forall enhanceable (decoded ps) →
  wpe (sumo_SendAllLogs config ps) (λ err evs _, ∃ items,
    Forall2 (enhances_to config) (decoded ps) items ∧
    encodings items (flat_map (payload_lines ∘ gunzip) (bodies evs)) ∧ uploads evs = [] ∧
    (err = None ↔ undecodable ps = 0)) w.
Proof.
  intros H1 H5. eapply wpe_mono; [by apply wpe_SendAllLogs|].
  intros err evs ? H. destruct ps as [|p ps].
  - destruct H as [-> ->]. exists []. by repeat constructor.
  - destruct H as (lost & [items HF Hd Hl] & ->). exists items. split; [done|].
    destruct (deliveries_final _ _ _ Hd) as (-> & Hb & Hu).
    rewrite <- Hb, flat_map_concat_map, map_map, <- flat_map_concat_map in Hl.
    split; [exact Hl|]. split; [done|]. rewrite Z.add_0_r.
    pose proof (undecodable_nonneg (p :: ps)).
    destruct (Z.ltb_spec 0 (undecodable (p :: ps))); split; try done; lia.
Qed.
End taking.

(** ** FlushAll *)
Section flush.
Context `{E : Env} `{!GzipLaws E} (config : LambdaExtensionConfig).

Lemma flush_items items lines : ∀ n s,
  encodings items lines →
  ∃ s', foldl flushItem (n, s) items = (n, s') ∧ payload_lines s' = payload_lines s ++ lines.
Proof.
  revert lines. induction items as [|m items IH]; intros [|l lines] n s; unfold encodings; try done.
  - intros _. exists s. by rewrite app_nil_r.
  - simpl. intros [= Hm Hl]. unfold flushItem at 2. rewrite <- Hm. simpl.
    destruct (IH lines n (s +:+ String nl l) Hl) as (s' & Hs' & Hp).
    exists s'. split; [done|]. symmetry in Hm. rewrite Hp, payload_lines_snoc by eauto with one_line.
    by rewrite <- app_assoc.
Qed.

Lemma enhanced_encoded ms items :
  Forall2 (enhances_to config) ms items → Forall encodable ms →
  ∃ lines, encodings items lines.
Proof.
  intros HF Hms. exists (omap marshal_map items). apply all_encoded.
  induction HF; [constructor|]. apply Forall_cons in Hms as [? ?].
  constructor; [by eapply enhances_to_encodable|auto].
Qed.

Lemma wp_flushPayloads ps : ∀ n s w,
  Forall enhanceable (decoded ps) →
  wp (go_fold (flushPayload config) (n, s) ps)
    (λ r w', quiet w w' ∧ r.1 = n + undecodable ps ∧
      ∃ items lines, Forall2 (enhances_to config) (decoded ps) items ∧ encodings items lines ∧
        payload_lines r.2 = payload_lines s ++ lines) w.
Proof.
  induction ps as [|p ps IH]; intros n s w Hall; cbn [go_fold].
  - apply wp_ret. split; [done|]. split; [unfold undecodable; simpl; lia|].
    exists [], []. rewrite app_nil_r. by repeat constructor.
  - apply wp_bind. rewrite decoded_cons, undecodable_cons in *.
    apply Forall_app in Hall as [H1 H2].
    unfold flushPayload at 1, transformBytesToArrayOfMap.
    destruct (unmarshal_maps p) as [[|m ms]|] eqn:Hp; cbn [default from_option id fst snd] in *.
    + apply wp_ret. by apply IH.
    + apply unmarshal_maps_marshal in Hp.
      apply wp_bind. eapply wp_mono; [by apply wp_enhanceLogs|]. intros ms' w1 [HF Hq]. apply wp_ret.
      destruct (enhanced_encoded _ _ HF Hp) as [ls Hls].
      destruct (flush_items _ _ n s Hls) as (s' & -> & Hs').
      eapply wp_mono; [by apply IH|]. intros r w2 (Hq2 & Hn & items & lines & HF2 & Hl & Hr).
      split; [by etrans|]. split; [lia|]. exists (ms' ++ items), (ls ++ lines).
      split; [by apply (Forall2_app (l1 := m :: ms))|]. unfold encodings in *. rewrite !map_app, Hls, Hl.
      split; [done|]. by rewrite Hr, Hs', app_assoc.
    + apply wp_ret. eapply wp_mono; [by apply IH|]. intros r w2 (Hq2 & Hn & H).
      split; [done|]. split; [lia|done].
Qed.

Lemma wpe_FlushAll ps w :
  Forall enhanceable (decoded ps) →
  wpe (sumo_FlushAll config ps) (λ err evs _,
    if EnableFailover config && negb (bool_decide (ps = []))
    then ∃ items body ferr, Forall2 (enhances_to config) (decoded ps) items ∧
      encodings items (payload_lines (gunzip body)) ∧ failover config body evs ferr ∧
      err = (if (0 <? undecodable ps) || bool_decide (is_Some ferr)
             then Some (ErrFlushAll (undecodable ps) ferr) else None)
    else err = None ∧ evs = []) w.
Proof.
  intros Hall. unfold sumo_FlushAll.
  replace (0 <? Z.of_nat (List.length ps)) with (negb (bool_decide (ps = []))) by (by destruct ps).
  rewrite andb_comm. destruct (EnableFailover config && _); [|by apply wpe_ret].
  wpe_step. eapply wpe_quiet; [eapply wp_mono; [by apply wp_flushPayloads|]|].
  { intros r w' (Hq & Hn & Hitems). split; [exact (conj Hn Hitems)|done]. }
  intros [n payload] w1 [Hn (items & lines & HF & Hl & Hp)] _. simpl in Hn, Hp. subst n.
  destruct (CompressBuffer_total payload) as (body & -> & Hbody).
  wpe_step. eapply wpe_mono; [apply wpe_failoverHandler|]. intros ferr f w2 Hf.
  simpl in Hf. change (payload_lines EmptyString) with (@nil string) in Hp. simpl in Hp. subst lines payload.
  rewrite Z.add_0_l. case_match eqn:Hif; wpe_step; rewrite app_nil_r; exists items, body, ferr; by rewrite Hif.
Qed.
End flush.

(** ** The client implements the interface *)
Section laws.
Context `{E : Env} `{!GzipLaws E} (config : LambdaExtensionConfig).

(** Every payload was decoded and, with the failover on, every line of the
    enhanced items is in a body that was acknowledged, stored or given up. *)
Definition all_accounted (ps : list string) (evs : list event) : Prop :=
  Forall (λ p, is_Some (unmarshal_maps p)) ps ∧
  ∃ items lines, Forall2 (enhances_to config) (decoded ps) items ∧ encodings items lines ∧
    (EnableFailover config = true →
     Forall (λ l, ∃ body, l ∈ payload_lines (gunzip body) ∧ accounted evs body) lines).

Lemma all_accounted_nil : all_accounted [] [].
Proof. split; [done|]. exists [], []. by repeat constructor. Qed.

Lemma sent_nonneg ps evs n : sent config ps evs n → 0 ≤ n.
Proof. intros [items HF Hd Hl]. by eapply deliveries_nonneg. Qed.

Lemma sent_all_accounted ps evs : undecodable ps = 0 → sent config ps evs 0 → all_accounted ps evs.
Proof.
  intros Hu [items HF Hd Hl]. split; [by apply undecodable_0|]. eexists _, _. split; [done|].
  split; [done|]. intros He. by apply (deliveries_lines config).
Qed.

Hypothesis Hretry : NumRetry config < 2 ^ 63 - 1.

Lemma SendAllLogs_accounted ps w :
  Forall enhanceable (decoded ps) →
  wpe (sumo_SendAllLogs config ps) (λ err evs _, err = None → all_accounted ps evs) w.
Proof.
  intros H. eapply wpe_mono; [by apply wpe_SendAllLogs|]. intros err evs ? Hs Herr.
  destruct ps as [|p ps]; [destruct Hs as [_ ->]; apply all_accounted_nil|].
  destruct Hs as (lost & Hsent & He).
  pose proof (undecodable_nonneg (p :: ps)). pose proof (sent_nonneg _ _ _ Hsent).
  assert (undecodable (p :: ps) = 0 ∧ lost = 0) as [Hu ->].
  { destruct (Z.ltb_spec 0 (undecodable (p :: ps) + lost)); [congruence|lia]. }
  by apply sent_all_accounted.
Qed.

Lemma SendLogs_accounted p w :
  Forall enhanceable (decoded [p]) →
  wpe (sumo_SendLogs config p) (λ err evs _, err = None → p ≠ EmptyString → all_accounted [p] evs) w.
Proof.
  intros H. eapply wpe_mono; [by apply wpe_SendLogs|]. intros err evs ? Hs Herr Hp.
  apply String.eqb_neq in Hp. rewrite Hp in Hs.
  destruct (unmarshal_maps p) eqn:Hu; [|by destruct Hs as [-> _]]. destruct Hs as (lost & Hsent & He).
  pose proof (sent_nonneg _ _ _ Hsent).
  assert (lost = 0) as -> by (destruct (Z.ltb_spec 0 lost); [congruence|lia]).
  apply sent_all_accounted; [|done]. apply undecodable_0. repeat constructor. by rewrite Hu.
Qed.

Lemma FlushAll_accounted ps w :
  EnableFailover config = true → Forall enhanceable (decoded ps) →
  wpe (sumo_FlushAll config ps) (λ err evs _, err = None → all_accounted ps evs) w.
Proof.
  intros Hf H. eapply wpe_mono; [by apply wpe_FlushAll|]. intros err evs ? Hs Herr. rewrite Hf in Hs.
  destruct ps as [|p ps]; [destruct Hs as [_ ->]; apply all_accounted_nil|]. simpl in Hs.
  destruct Hs as (items & body & ferr & HF & Hl & Hfail & He).
  destruct (Z.ltb_spec 0 (undecodable (p :: ps))); [by subst|]. simpl in He.
  destruct ferr as [e|]; [by subst|]. pose proof (undecodable_nonneg (p :: ps)).
  split; [apply undecodable_0; lia|]. exists items, (payload_lines (gunzip body)).
  split; [done|]. split; [done|]. intros _. apply Forall_forall. intros l Hin. exists body.
  split; [done|]. left. right. inversion Hfail; subst; try congruence. by apply list_elem_of_singleton.
Qed.

Definition client_delivered (ps : list string) (w w' : world) : Prop :=
  ∃ evs, trace w' = trace w ++ evs ∧ all_accounted ps evs.
Definition client_later (w w' : world) : Prop := ∃ evs, trace w' = trace w ++ evs.

Lemma all_accounted_app ps e1 e2 e3 : all_accounted ps e2 → all_accounted ps (e1 ++ e2 ++ e3).
Proof.
  intros (H & items & lines & HF & Hl & Hk). split; [done|]. exists items, lines.
  split; [done|]. split; [done|]. intros He. eapply Forall_impl; [by apply Hk|].
  intros l (body & Hin & Hb). exists body. split; [done|]. rewrite !accounted_app. tauto.
Qed.

#[refine] Instance client_laws : LogSenderLaws (NewLogSenderClient config) := {|
  handled := λ ps, Forall enhanceable (decoded ps);
  later := client_later;
  delivered := client_delivered;
  stores := EnableFailover config = true |}.
Proof.
  - constructor.
  - split; [intros w; exists []; by rewrite app_nil_r|].
    intros w1 w2 w3 [e1 H1] [e2 H2]. exists (e1 ++ e2). by rewrite H2, H1, app_assoc.
  - intros ps w0 w1 w2 w3 [e1 H1] (e2 & H2 & Hk) [e3 H3]. exists (e1 ++ e2 ++ e3).
    split; [by rewrite H3, H2, H1, !app_assoc|by apply all_accounted_app].
  - intros ps w H. eapply wp_mono; [by apply SendAllLogs_accounted|]. intros err w' (evs & Ht & Hk).
    split; [by exists evs|]. intros Herr. exists evs. auto.
  - intros p w H. eapply wp_mono; [by apply SendLogs_accounted|]. intros err w' (evs & Ht & Hk).
    split; [by exists evs|]. intros Herr Hp. exists evs. auto.
  - intros ps w H. destruct (EnableFailover config) eqn:He.
    + eapply wp_mono; [by apply FlushAll_accounted|]. intros err w' (evs & Ht & Hk).
      split; [by exists evs|]. intros _ Herr. exists evs. auto.
    + eapply wp_mono; [by apply wpe_FlushAll|]. intros err w' (evs & Ht & Hk).
      split; [by exists evs|]. congruence.
Defined.
End laws.

(** ** Theorems *)
Section theorems.
Context `{E : Env} `{!GzipLaws E} (config : LambdaExtensionConfig).

(** C1. [SendAllLogs] of a queue of payloads on whose items [enhanceLogs]
    returns: the items of those that can be decoded are enhanced one by one
    in order, cut into chunks without loss, and each chunk is posted by the
    protocol; the error counts the payloads that cannot be decoded and the
    posts that reported an error. *)
Theorem SendAllLogs_spec ps w :
  NumRetry config < 2 ^ 63 - 1 → ps ≠ [] → Forall enhanceable (decoded ps) →
  wpe (sumo_SendAllLogs config ps) (λ err evs _, ∃ lost, sent config ps evs lost ∧
    let bad := undecodable ps + lost in
    err = if 0 <? bad then Some (ErrSendAllPost bad) else None) w.
Proof.
  intros H1 H2 H3. eapply wpe_mono; [by apply wpe_SendAllLogs|]. by destruct ps.
Qed.

(** [SendLogs] of one payload: nothing for an empty one, an error and
    no request for one that cannot be decoded, else its enhanced items are
    chunked without loss and posted by the protocol. *)
Theorem SendLogs_spec raw w :
  NumRetry config < 2 ^ 63 - 1 → Forall enhanceable (decoded [raw]) →
  wpe (sumo_SendLogs config raw) (λ err evs _,
    if String.eqb raw EmptyString then err = None ∧ evs = []
    else match unmarshal_maps raw with
         | None => err = Some (ErrSendLogsTransform (ErrParsePayload raw)) ∧ evs = []
         | Some _ => ∃ lost, sent config [raw] evs lost ∧
             err = if 0 <? lost then Some (ErrSendLogsPost lost) else None
         end) w.
Proof. intros. by apply wpe_SendLogs. Qed.

(** C2. What no error means: with the failover on, [SendAllLogs] returns nil
    only when every payload was decoded and every enhanced item is a line of
    a body that the endpoint acknowledged with 200, that S3 stored, or that
    the code gave up on an answer of 302 or of 500 and more; so unless such
    an answer came, every item was acknowledged or stored. *)
Theorem SendAllLogs_no_loss ps w :
  NumRetry config < 2 ^ 63 - 1 → EnableFailover config = true →
  Forall enhanceable (decoded ps) →
  wpe (sumo_SendAllLogs config ps) (λ err evs _, err = None →
    Forall (λ p, is_Some (unmarshal_maps p)) ps ∧
    ∃ items lines, Forall2 (enhances_to config) (decoded ps) items ∧ encodings items lines ∧
      Forall (λ l, ∃ body, l ∈ payload_lines (gunzip body) ∧ (kept evs body ∨ given_up evs body)) lines ∧
      (Forall (λ res, lossy res = false) (exchanges evs) →
       Forall (λ l, ∃ body, l ∈ payload_lines (gunzip body) ∧ kept evs body) lines)) w.
Proof.
  intros H1 H2 H3. eapply wpe_mono; [by apply SendAllLogs_accounted|].
  intros err evs ? H Herr. destruct (H Herr) as (Hd & items & lines & HF & Hl & Hk). specialize (Hk H2).
  split; [done|]. exists items, lines. split_and!; [done..|]. intros Hno.
  eapply Forall_impl; [exact Hk|]. intros l (body & Hin & Hb). exists body. split; [done|].
  by apply (not_lossy_kept evs).
Qed.

(** Without the failover the error of [SendAllLogs] says nothing about
    the network: it is nil exactly when every payload can be decoded, also
    when no request was answered. *)
Theorem SendAllLogs_silent_without_failover ps w :
  NumRetry config < 2 ^ 63 - 1 → EnableFailover config = false →
  Forall enhanceable (decoded ps) →
  wpe (sumo_SendAllLogs config ps) (λ err _ _, err = None ↔ Forall (λ p, is_Some (unmarshal_maps p)) ps) w.
Proof.
  intros H1 H2 H3. eapply wpe_mono; [by apply wpe_SendAllLogs|].
  intros err evs ? H. rewrite <- undecodable_0. destruct ps as [|p ps]; [by destruct H as [-> _]|].
  destruct H as (lost & [items HF Hd Hl] & ->). rewrite (deliveries_silent _ _ _ _ H2 Hd), Z.add_0_r.
  pose proof (undecodable_nonneg (p :: ps)). destruct (Z.ltb_spec 0 (undecodable (p :: ps))); split; try done; lia.
Qed.

(** An endpoint whose first answers are final gets every enhanced item
    exactly once and in order: the lines of the posted bodies are the
    encodings of the items; nothing goes to S3. *)
Theorem SendAllLogs_delivers ps w :
  NumRetry config < 2 ^ 63 - 1 → KMSKeyId config = EmptyString →
  env_url_ok (SumoHTTPEndpoint config) = true → (∀ n r, final_answer (env_http n r) = true) →
  Forall enhanceable (decoded ps) →
  wpe (sumo_SendAllLogs config ps) (λ err evs _, ∃ items,
    Forall2 (enhances_to config) (decoded ps) items ∧
    encodings items (flat_map (payload_lines ∘ gunzip) (bodies evs)) ∧ uploads evs = [] ∧
    (err = None ↔ undecodable ps = 0)) w.
Proof.
  intros. by apply wpe_SendAllLogs_final.
Qed.

(** C30. [FlushAll] stores the enhanced items of a non-empty queue in one S3
    object, one line each, and reports the payloads it could not decode and
    a failed upload; without the failover, and for an empty queue, it does
    nothing and reports no error. *)
Theorem FlushAll_spec ps w :
  Forall enhanceable (decoded ps) →
  wpe (sumo_FlushAll config ps) (λ err evs _,
    if EnableFailover config && negb (bool_decide (ps = []))
    then ∃ items body ferr, Forall2 (enhances_to config) (decoded ps) items ∧
      encodings items (payload_lines (gunzip body)) ∧ failover config body evs ferr ∧
      err = (if (0 <? undecodable ps) || bool_decide (is_Some ferr)
             then Some (ErrFlushAll (undecodable ps) ferr) else None)
    else err = None ∧ evs = []) w.
Proof. intros. by apply wpe_FlushAll. Qed.
End theorems.

(** ** Examples *)
Lemma SendAllLogs_spec_witness :
  wpe (sumo_SendAllLogs (E := answering 429) (sample_config true 100) sample_payloads) (λ err evs _, ∃ lost,
    sent (E := answering 429) (sample_config true 100) sample_payloads evs lost ∧
    let bad := undecodable sample_payloads + lost in
    err = if 0 <? bad then Some (ErrSendAllPost bad) else None) world0.
Proof. apply (SendAllLogs_spec (E := answering 429)); [simpl; lia|done|computed]. Defined.

Lemma SendLogs_spec_witness :
  let raw := q "[{'type':'function','record':'hello'}]" in
  wpe (sumo_SendLogs (E := answering 200) (sample_config true 100) raw) (λ err evs _,
      if String.eqb raw EmptyString then err = None ∧ evs = []
      else match unmarshal_maps raw with
           | None => err = Some (ErrSendLogsTransform (ErrParsePayload raw)) ∧ evs = []
           | Some _ => ∃ lost, sent (E := answering 200) (sample_config true 100) [raw] evs lost ∧
               err = if 0 <? lost then Some (ErrSendLogsPost lost) else None
           end) world0.
Proof. apply (SendLogs_spec (E := answering 200)); [simpl; lia|computed]. Defined.

Lemma SendAllLogs_no_loss_witness :
  wpe (sumo_SendAllLogs (E := answering 429) (sample_config true 100) sample_payloads) (λ err evs _, err = None →
      Forall (λ p, is_Some (unmarshal_maps p)) sample_payloads ∧
      ∃ items lines, Forall2 (enhances_to (E := answering 429) (sample_config true 100)) (decoded sample_payloads) items ∧
        encodings items lines ∧
        Forall (λ l, ∃ body, l ∈ payload_lines (gunzip (E := answering 429) body) ∧ (kept evs body ∨ given_up evs body)) lines ∧
        (Forall (λ res, lossy res = false) (exchanges evs) →
         Forall (λ l, ∃ body, l ∈ payload_lines (gunzip (E := answering 429) body) ∧ kept evs body) lines)) world0.
Proof. apply (SendAllLogs_no_loss (E := answering 429)); [simpl; lia|done|computed]. Defined.

Lemma SendAllLogs_silent_without_failover_witness :
  wpe (sumo_SendAllLogs (E := answering 429) (sample_config false 100) sample_payloads)
    (λ err _ _, err = None ↔ Forall (λ p, is_Some (unmarshal_maps p)) sample_payloads) world0.
Proof. apply (SendAllLogs_silent_without_failover (E := answering 429)); [simpl; lia|done|computed]. Defined.

Lemma SendAllLogs_delivers_witness :
  wpe (sumo_SendAllLogs (E := answering 200) (sample_config true 100) sample_payloads) (λ err evs _, ∃ items,
      Forall2 (enhances_to (E := answering 200) (sample_config true 100)) (decoded sample_payloads) items ∧
      encodings items (flat_map (payload_lines ∘ gunzip (E := answering 200)) (bodies evs)) ∧ uploads evs = [] ∧
      (err = None ↔ undecodable sample_payloads = 0)) world0.
Proof. apply (SendAllLogs_delivers (E := answering 200)); [simpl; lia|done|done|done|computed]. Defined.

Lemma FlushAll_spec_witness :
  wpe (sumo_FlushAll (E := answering 200) (sample_config true 100) sample_payloads) (λ err evs _,
      ∃ items body ferr, Forall2 (enhances_to (E := answering 200) (sample_config true 100)) (decoded sample_payloads) items ∧
        encodings items (payload_lines (gunzip (E := answering 200) body)) ∧
        failover (E := answering 200) (sample_config true 100) body evs ferr ∧
        err = (if (0 <? undecodable sample_payloads) || bool_decide (is_Some ferr)
               then Some (ErrFlushAll (undecodable sample_payloads) ferr) else None)) world0.
Proof. apply (FlushAll_spec (E := answering 200) (sample_config true 100) sample_payloads). computed. Defined.
