(* ===== verification/SumoReader.v ===== *)
(** * What a reader of the posted lines gets (sumoclient/sumoclient.go)

    The composition of decoding, enhancing, chunking and encoding: the
    newline-delimited lines of the posted bodies, decoded again, are the items
    that were sent. *)
From S2P Require Import Prelude GoStrings GoFloat GoJson GoFloatShortest GoJsonRoundtrip GoUtf8 Env Utils Config SumoClient SumoChunks SumoEnhance SumoPost SumoCalls.
From Stdlib Require Import String.
Open Scope Z_scope.

(** What a collector decodes from posted bodies: every line, in order. *)
Definition read_bodies (bodies : list string) : list (option gomap) :=
  map unmarshal_map (flat_map payload_lines bodies).

(** An item as JSON carries it: a nil map is written, and read, as null. *)
Definition nil_to_null (v : value) : value := match v with VMap None => VNull | _ => v end.
Definition as_read (m : gomap) : gomap := (λ g : gmap string value, nil_to_null <$> g) <$> m.

(** ** Items that JSON can carry *)

(** The nesting that is left inside an item. *)
Definition inner : nat := Z.to_nat (max_nesting - 1).

Lemma inner_S : Z.to_nat max_nesting = S inner.
Proof. unfold inner. rewrite <- Z2Nat.inj_succ by done. done. Qed.

Lemma faithful_obj n (m : gmap string value) :
  faithful (S n) (VMap (Some m)) = true ↔ map_Forall (λ k v, utf8_valid k = true ∧ faithful n v = true) m.
Proof.
  simpl. rewrite forallb_forall. split.
  - intros H k v Hk. apply elem_of_map_to_list, list_elem_of_In in Hk. by apply H, andb_true_iff in Hk.
  - intros H [k v] Hk%list_elem_of_In%elem_of_map_to_list. apply andb_true_iff. by apply (H k v).
Qed.

Opaque inner.

(** The entries may be nil maps. *)
Definition entry_ok (k : string) (v : value) : Prop :=
  utf8_valid k = true ∧ (v = VMap None ∨ faithful inner v = true).
Definition item_ok (m : gomap) : Prop := match m with None => True | Some g => map_Forall entry_ok g end.

Lemma faithful_item_ok m : faithful_map m = true → item_ok m.
Proof.
  destruct m as [g|]; [|done]. unfold faithful_map. rewrite inner_S, faithful_obj.
  intros H k v Hk. destruct (H k v Hk). split; auto.
Qed.

Lemma marshal_as_read m : marshal_map (as_read m) = marshal_map m.
Proof.
  destruct m as [g|]; [|done]. unfold marshal_map, as_read. cbn [fmap option_fmap option_map marshal].
  rewrite !map_fold_entries, map_to_list_fmap, map_map. f_equal. apply map_ext. intros [k v]. simpl.
  by destruct v as [| | | | |[]].
Qed.

Lemma as_read_faithful m : item_ok m → faithful_map (as_read m) = true.
Proof.
  destruct m as [g|]; [|done]. intros H. unfold faithful_map, as_read. cbn [fmap option_fmap option_map].
  rewrite inner_S, faithful_obj. intros k v Hk. apply lookup_fmap_Some in Hk as (x & <- & Hk).
  destruct (H k x Hk) as [Hu [->|Hx]]; [done|]. split; [done|]. destruct x as [| | | | |[]]; done.
Qed.

Lemma item_ok_reads m t : item_ok m → marshal_map m = Some t → unmarshal_map t = Some (as_read m).
Proof. intros Hm Ht. apply unmarshal_marshal_map; [by apply as_read_faithful|by rewrite marshal_as_read]. Qed.

Lemma encodings_read items lines :
  Forall item_ok items → encodings items lines → map unmarshal_map lines = map (Some ∘ as_read) items.
Proof.
  unfold encodings. intros H. revert lines. induction H as [|m ms Hm Hms IH]; intros [|l lines]; try done; simpl.
  intros [= Hl Hls]. f_equal; [by apply item_ok_reads|by apply IH].
Qed.

Lemma as_read_id m : faithful_map m = true → as_read m = m.
Proof.
  destruct m as [g|]; [|done]. unfold faithful_map. rewrite inner_S, faithful_obj. intros H. unfold as_read.
  cbn [fmap option_fmap option_map]. f_equal. apply map_eq. intros k. rewrite lookup_fmap.
  destruct (g !! k) as [v|] eqn:Hk; [|done]. simpl. destruct (H k v Hk) as [_ Hv]. f_equal.
  destruct v as [| | | | |[]]; try done; by destruct inner.
Qed.

Lemma faithful_encodable ms : Forall (λ m, faithful_map m = true) ms → Forall encodable ms.
Proof. intros H. eapply Forall_impl; [exact H|]. intros m Hm. by apply faithful_map_marshal. Qed.

Lemma decoded_faithful ps : Forall (λ m, faithful_map m = true) (decoded ps).
Proof.
  induction ps as [|p ps IH]; [constructor|]. rewrite decoded_cons. apply Forall_app. split; [|done].
  destruct (unmarshal_maps p) as [ms|] eqn:Hp; [|constructor]. by eapply unmarshal_maps_faithful.
Qed.

(** ** Chunks of decoded items *)
Section reader.
Context (config : LambdaExtensionConfig).

(** C10. Round trip: every payload that can be decoded, cut into chunks as it
    is, gives lines that decode to the same items, one line for each item
    and in order, and no error. *)
Theorem payload_roundtrip rawmsg items :
  transformBytesToArrayOfMap rawmsg = (items, None) →
  (createChunks config items).2 = None ∧ read_bodies (createChunks config items).1 = map Some items.
Proof.
  unfold transformBytesToArrayOfMap. destruct (unmarshal_maps rawmsg) as [ms|] eqn:Hm; [|done]. intros [= ->].
  apply unmarshal_maps_faithful in Hm as Hf. pose proof (all_encoded items (faithful_encodable _ Hf)) as Hall.
  unfold read_bodies, createChunks. simpl. destruct (chunks_inv_all config items) as [-> _ ->]. split.
  - apply (f_equal (@List.length _)) in Hall. rewrite !List.length_map in Hall. by rewrite Hall, Nat.sub_diag.
  - rewrite (encodings_read items).
    + apply map_ext_in. intros m Hin%list_elem_of_In. rewrite Forall_forall in Hf. simpl. by rewrite as_read_id by auto.
    + eapply Forall_impl; [exact Hf|]. apply faithful_item_ok.
    + done.
Qed.
End reader.

(** ** Enhanced items *)

(** At most [depth] levels of nesting. *)
Fixpoint within (depth : nat) (v : value) : bool :=
  match v with
  | VArr l => match depth with O => false | S d => forallb (within d) l end
  | VMap (Some m) => match depth with O => false | S d => forallb (λ p, within d p.2) (map_to_list m) end
  | _ => true
  end.

Lemma faithful_within n : ∀ k v, faithful n v = true → within k v = true → faithful k v = true.
Proof.
  induction n as [|n IH]; intros k [|b|f|s|l|[m|]] Hf Hk; try done; try (by destruct k);
    destruct k as [|k]; try done; simpl in *; rewrite forallb_forall in *; intros x Hx;
    specialize (Hf x Hx); specialize (Hk x Hx); [by apply IH|].
  apply andb_true_iff in Hf as [-> Hf]. simpl. by apply IH.
Qed.

(** The log line of a function, when it is JSON that becomes a part of the
    item, leaves room for one more level of nesting. *)
Definition log_fits (config : LambdaExtensionConfig) (item : gomap) : bool :=
  match item with
  | Some g =>
      if bool_decide (kind_of g = KFunction) && EnhanceJsonLogs config
      then within inner (VMap (ParseJson (function_text g)).1) else true
  | None => true
  end.

Section readable.
Context `{E : Env} (config : LambdaExtensionConfig).

(** The names that are written into the items. *)
Definition names_valid : Prop :=
  utf8_valid (FunctionName config) = true ∧ utf8_valid (FunctionVersion config) = true ∧
  utf8_valid ExtensionName = true.

Context (Hnames : names_valid).

Lemma stream_valid t : utf8_valid (log_stream config t) = true.
Proof. destruct Hnames as (_ & ? & ?). unfold log_stream. auto 20 with utf8. Qed.

Lemma str_ok k s : utf8_valid k = true → utf8_valid s = true → entry_ok k (VStr s).
Proof. intros Hk Hs. split; [done|right]. by destruct inner. Qed.

Lemma stamped_ok stream g :
  utf8_valid stream = true → map_Forall entry_ok g → map_Forall entry_ok (stamped config stream g).
Proof.
  intros Hs Hg. destruct Hnames as (Hn & _ & He). unfold stamped.
  repeat apply map_Forall_insert_2; [|split; [done|right; by destruct inner]|..|done]; apply str_ok; try done.
  unfold SumoLogicExtensionLayerVersionSuffix. auto with utf8.
Qed.

Lemma drop_text_ok g : map_Forall entry_ok g → map_Forall entry_ok (drop_text g).
Proof. intros Hg. unfold drop_text. repeat case_match; try done. by apply map_Forall_delete. Qed.

(** The entries of a decoded item. *)
Lemma lookup_faithful g k v :
  faithful_map (Some g) = true → g !! k = Some v → utf8_valid k = true ∧ faithful inner v = true.
Proof. unfold faithful_map. rewrite inner_S, faithful_obj. intros H Hk. by apply (H k v). Qed.

Lemma function_text_valid g : faithful_map (Some g) = true → utf8_valid (function_text g) = true.
Proof.
  intros Hg. unfold function_text. destruct (g !! "record"%string) as [[| | |s| |]|] eqn:Hr; try done.
  apply trim_space_valid. destruct (lookup_faithful _ _ _ Hg Hr) as [_ Hs]. by destruct inner.
Qed.

Lemma fmt_get_valid n (g : gmap string value) k :
  faithful n (VMap (Some g)) = true → utf8_valid (fmt_v (map_get (Some g) k)) = true.
Proof.
  destruct n as [|n]; [done|]. rewrite faithful_obj. intros H. unfold map_get.
  destruct (g !! k) as [v|] eqn:Hk; [|done]. simpl. destruct (H k v Hk). by eapply fmt_v_valid.
Qed.

Lemma report_line_valid g message metric :
  faithful_map (Some g) = true → metrics_of g = Some (message, metric) → utf8_valid (report_line message metric) = true.
Proof.
  intros Hg. unfold metrics_of. destruct (g !! "record"%string) as [[| | | | |[m|]]|] eqn:Hr; try done.
  destruct (lookup_faithful _ _ _ Hg Hr) as [_ Hm]. destruct inner as [|n]; [done|].
  assert (∀ k, utf8_valid (fmt_v (map_get (Some m) k)) = true) as Hmsg by (intros; by eapply fmt_get_valid).
  unfold map_get at 1. destruct (m !! "metrics"%string) as [x|] eqn:Hx; [|done]. simpl.
  destruct (proj1 (faithful_obj n m) Hm _ _ Hx) as [_ Hf]. destruct x as [| | | | |[g'|]]; try done.
  2: by destruct n.
  intros [= <- <-].
  assert (∀ k, utf8_valid (fmt_v (map_get (Some g') k)) = true) as Hmet by (intros; by eapply fmt_get_valid).
  unfold report_line. repeat apply utf8_valid_app; try done.
  assert (∀ t, utf8_valid t = true → utf8_valid (tab +:+ "Init Duration: " +:+ t +:+ " ms")%string = true) as Hi
    by (intros; repeat apply utf8_valid_app; done).
  specialize (Hi _ (Hmet "initDurationMs"%string)). by destruct (map_get (Some g') "initDurationMs").
Qed.

Lemma message_ok k v g :
  utf8_valid k = true → v = VMap None ∨ faithful inner v = true → map_Forall entry_ok g →
  item_ok (Some (<[k:=v]> g)).
Proof. intros Hk Hv Hg. by apply map_Forall_insert_2. Qed.

Lemma log_fits_message g :
  kind_of g = KFunction → log_fits config (Some g) = true → EnhanceJsonLogs config = true →
  within inner (VMap (ParseJson (function_text g)).1) = true.
Proof. intros Hk Hfit He. unfold log_fits in Hfit. by rewrite (bool_decide_eq_true_2 _ Hk), He in Hfit. Qed.

Lemma faithful_str n s : utf8_valid s = true → faithful n (VStr s) = true.
Proof. intros H. by destruct n. Qed.

(** A function's log line in the item. *)
Lemma function_ok g b :
  faithful_map (Some g) = true → kind_of g = KFunction → log_fits config (Some g) = true →
  map_Forall entry_ok b → ∀ m,
  match ParseJson (function_text g) with
  | (json, None) => if EnhanceJsonLogs config then Some (<["message"%string := VMap json]> (drop_text b)) else json
  | (_, Some _) =>
      if EnhanceJsonLogs config then Some (<["message"%string := VStr (function_text g)]> (drop_text b))
      else Some {["message"%string := VStr (function_text g)]}
  end = m → item_ok m.
Proof.
  intros Hg Hk Hfit Hb m. pose proof (function_text_valid g Hg) as Ht. apply drop_text_ok in Hb.
  pose proof (log_fits_message g Hk Hfit) as Hw. clear Hfit. revert Hw. unfold ParseJson.
  destruct (unmarshal_map (function_text g)) as [json|] eqn:Hj.
  - apply unmarshal_map_faithful in Hj. destruct (EnhanceJsonLogs config); intros Hw <-.
    + apply message_ok; [done| |done]. destruct json as [j|]; [right|by left].
      unfold faithful_map in Hj. eapply faithful_within; [exact Hj|by apply Hw].
    + by apply faithful_item_ok.
  - intros _. destruct (EnhanceJsonLogs config); intros <-; (apply message_ok; [done|right; by apply faithful_str|done]).
Qed.

(** Enhanced items are within what JSON carries. *)
Lemma enhances_to_ok item m :
  enhances_to config item m → faithful_map item = true → log_fits config item = true → item_ok m.
Proof.
  intros (g & n & -> & He) Hg Hfit. unfold enhanced in He. revert He.
  assert (map_Forall entry_ok (stamped config (log_stream config (env_now n)) g)) as Hb.
  { apply stamped_ok; [apply stream_valid|]. by apply faithful_item_ok in Hg. }
  destruct (kind_of g) eqn:Hk.
  - intros [= He]. by eapply function_ok.
  - destruct (metrics_of g) as [[message metric]|] eqn:Hm; [|done]. intros [= <-]. apply message_ok; [done| |done].
    right. pose proof (report_line_valid _ _ _ Hg Hm). by destruct inner.
  - intros [= <-]. destruct (g !! "record"%string) as [[| | | | |m']|] eqn:Hr; try done.
    destruct (_ && _); [|done]. apply message_ok; [done| |done]. destruct m' as [m'|]; [right|by left].
    destruct (lookup_faithful _ _ _ Hg Hr) as [_ Hf]. destruct inner as [|k]; [done|].
    cbn [map_delete fmap option_fmap option_map]. rewrite faithful_obj in *. by apply map_Forall_delete.
  - by intros [= <-].
Qed.

Lemma enhanced_items_ok ps items :
  Forall (λ m, log_fits config m = true) (decoded ps) → Forall2 (enhances_to config) (decoded ps) items →
  Forall item_ok items.
Proof.
  intros Hfit HF. pose proof (decoded_faithful ps) as Hd. revert Hfit Hd.
  induction HF as [|x y xs ys Hxy HF IH]; intros Hfit Hd; constructor;
    apply Forall_cons in Hfit as [? ?], Hd as [? ?]; [by eapply enhances_to_ok|auto].
Qed.

(** C11. To an endpoint whose first answer to every request is final (200, say)
    every enhanced item is sent exactly once and in order: what the posted
    lines decode to is the sequence of the enhanced items (a nil map reads
    back as null); nothing goes to S3, and only undecodable payloads are
    errors. *)
Theorem SendAllLogs_readable `{!GzipLaws E} ps w :
  NumRetry config < 2 ^ 63 - 1 → KMSKeyId config = EmptyString →
  env_url_ok (SumoHTTPEndpoint config) = true → (∀ n r, final_answer (env_http n r) = true) →
  Forall enhanceable (decoded ps) → Forall (λ m, log_fits config m = true) (decoded ps) →
  wpe (sumo_SendAllLogs config ps) (λ err evs _, ∃ items,
    Forall2 (enhances_to config) (decoded ps) items ∧
    read_bodies (map gunzip (bodies evs)) = map (Some ∘ as_read) items ∧
    uploads evs = [] ∧ (err = None ↔ undecodable ps = 0)) w.
Proof.
  intros H1 H2 H3 H4 H5 H6. eapply wpe_mono; [by apply wpe_SendAllLogs_final|].
  intros err evs ? (items & HF & He & Hu & Herr). exists items. split_and!; [done| |done|done].
  unfold read_bodies. rewrite flat_map_concat_map, map_map, <- flat_map_concat_map.
  apply encodings_read; [by eapply enhanced_items_ok|done].
Qed.
End readable.

(** ** Examples *)
Lemma payload_roundtrip_witness :
  let p := q "[{'type':'function','record':'a\u00e9<','n':[1.5,-120000,{'x':null}]},{'k':1e21}]" in
  let items := decoded [p] in
  (createChunks (sample_config true 60) items).2 = None ∧
  read_bodies (createChunks (sample_config true 60) items).1 = map Some items.
Proof.
  apply (payload_roundtrip (sample_config true 60)
    (q "[{'type':'function','record':'a\u00e9<','n':[1.5,-120000,{'x':null}]},{'k':1e21}]")).
  vm_compute. reflexivity.
Defined.

(** The last log line is a JSON null, so its message is a nil map. *)
Definition null_payloads : list string := sample_payloads ++ [q "[{'type':'function','record':'null'}]"].

Lemma SendAllLogs_readable_witness :
  wpe (sumo_SendAllLogs (E := answering 200) (sample_config true 100) null_payloads) (λ err evs _, ∃ items,
      Forall2 (enhances_to (E := answering 200) (sample_config true 100)) (decoded null_payloads) items ∧
      read_bodies (map (gunzip (E := answering 200)) (bodies evs)) = map (Some ∘ as_read) items ∧
      uploads evs = [] ∧ (err = None ↔ undecodable null_payloads = 0)) world0.
Proof.
  apply (SendAllLogs_readable (E := answering 200) (sample_config true 100));
    [repeat split|simpl; lia|done|done|done|computed|computed].
Defined.
