(* ===== verification/GoChan.v ===== *)
(** * Channels of Go

    A channel with its buffer, the values of the goroutines parked in a send,
    and its closed flag.  The receivers of the data queue never park (they
    poll), and those of the signal channel read a buffered one, so a channel
    is never met with a parked receiver.  A blocking send on a full channel
    adds its value to the parked ones and the goroutine stops: [Block]. *)
From S2P Require Import Prelude.
Open Scope Z_scope.

Record chan (A : Type) := Chan {
  chan_cap : Z;
  buf : list A;
  sendq : list A;
  closed : bool }.
Arguments Chan {A}.
Arguments chan_cap {A}.
Arguments buf {A}.
Arguments sendq {A}.
Arguments closed {A}.

Section chan.
Context {A : Type}.

(** [make(chan A, n)] *)
Definition make_chan {W} (n : Z) : Go W (chan A) :=
  if n <? 0 then go_panic MakeChanSize else go_ret (Chan n [] [] false).

(** [len(c)] *)
Definition chan_len (c : chan A) : Z := Z.of_nat (length (buf c)).

Definition has_room (c : chan A) : bool := chan_len c <? chan_cap c.

Definition push (x : A) (c : chan A) : chan A := Chan (chan_cap c) (buf c ++ [x]) (sendq c) (closed c).

(** [c <- x] *)
Definition send (x : A) : Go (chan A) unit := λ c,
  if closed c then (Panic SendOnClosed, c)
  else if has_room c then (Ret tt, push x c)
  else (Block, Chan (chan_cap c) (buf c) (sendq c ++ [x]) (closed c)).

(** [select { case c <- x: true; default: false }] *)
Definition try_send (x : A) : Go (chan A) bool := λ c,
  if closed c then (Panic SendOnClosed, c)
  else if has_room c then (Ret true, push x c)
  else (Ret false, c).

(** [select { case x := <-c: Some x; default: None }]: the freed place
    goes to the first parked sender; a closed and empty channel gives the
    zero value for ever. *)
Definition try_recv (zero : A) : Go (chan A) (option A) := λ c,
  match buf c, sendq c with
  | x :: b, y :: q => (Ret (Some x), Chan (chan_cap c) (b ++ [y]) q (closed c))
  | x :: b, [] => (Ret (Some x), Chan (chan_cap c) b [] (closed c))
  | [], y :: q => (Ret (Some y), Chan (chan_cap c) [] q (closed c))
  | [], [] => (Ret (if closed c then Some zero else None), c)
  end.

(** [close(c)]: the parked senders panic, and their values are gone. *)
Definition close : Go (chan A) unit := λ c,
  if closed c then (Panic CloseOfClosed, c) else (Ret tt, Chan (chan_cap c) (buf c) [] true).

(** [for { select { case x := <-c: l = append(l, x); default: return l } }] *)
Fixpoint collect (fuel : nat) (zero : A) (l : list A) : Go (chan A) (list A) :=
  match fuel with
  | O => go_block
  | S fuel' =>
      let! x := try_recv zero in
      match x with
      | Some x => collect fuel' zero (l ++ [x])
      | None => go_ret l
      end
  end.

(** Every value in the channel, in the order it will be received. *)
Definition contents (c : chan A) : list A := buf c ++ sendq c.

(** One receive per value and a last one that finds the channel empty. *)
Definition recv_all (zero : A) : Go (chan A) (list A) := λ c,
  collect (S (length (contents c))) zero [] c.

(** What a channel always satisfies: the buffer within the capacity, no
    sender parked while there is room. *)
Record chan_ok (c : chan A) : Prop := {
  ok_cap : 0 ≤ chan_cap c;
  ok_len : chan_len c ≤ chan_cap c;
  ok_parked : has_room c = true → sendq c = [] }.

Lemma make_chan_ok {W} n (w : W) c w' : make_chan n w = (Ret c, w') → chan_ok c ∧ contents c = [] ∧ closed c = false.
Proof.
  unfold make_chan. destruct (Z.ltb_spec n 0); [done|]. intros [= <- _]. by split.
Qed.

Lemma chan_len_app c l : chan_len (Chan (chan_cap c) (buf c ++ l) (sendq c) (closed c)) =
  chan_len c + Z.of_nat (length l).
Proof. unfold chan_len. simpl. rewrite length_app. lia. Qed.

Lemma push_ok x c : chan_ok c → has_room c = true → chan_ok (push x c).
Proof.
  intros [H1 H2 H3] Hr. specialize (H3 Hr). unfold has_room in Hr. apply Z.ltb_lt in Hr. split.
  - done.
  - unfold push. rewrite chan_len_app. simpl. lia.
  - done.
Qed.

Lemma contents_push x c : chan_ok c → has_room c = true → contents (push x c) = contents c ++ [x].
Proof. intros [_ _ H] Hr. unfold contents, push. simpl. by rewrite H, !app_nil_r. Qed.

Lemma try_send_ok x : preserves chan_ok (try_send x).
Proof.
  intros c Hc. unfold try_send. destruct (closed c); [done|]. destruct (has_room c) eqn:Hr; [|done].
  by apply push_ok.
Qed.

Lemma send_ok x : preserves chan_ok (send x).
Proof.
  intros c Hc. unfold send. destruct (closed c); [done|]. destruct (has_room c) eqn:Hr.
  - by apply push_ok.
  - destruct Hc as [H1 H2 H3]. split; [done|done|]. unfold has_room in *. simpl in *.
    unfold chan_len in *. simpl. by rewrite Hr.
Qed.

Lemma close_ok : preserves chan_ok close.
Proof. intros c [H1 H2 H3]. unfold close. by destruct (closed c). Qed.

(** A receive takes the first value and keeps the order of the others. *)
Lemma try_recv_spec zero c :
  chan_ok c →
  match contents c with
  | x :: l => ∃ c', try_recv zero c = (Ret (Some x), c') ∧ contents c' = l ∧ chan_ok c' ∧
               chan_cap c' = chan_cap c ∧ closed c' = closed c
  | [] => try_recv zero c = (Ret (if closed c then Some zero else None), c)
  end.
Proof.
  intros [H1 H2 H3]. unfold contents, try_recv. destruct c as [n b q cl]. simpl in *.
  destruct b as [|x b], q as [|y q]; simpl.
  - done.
  - eexists. split; [done|]. split; [done|]. split; [|done]. split; [done|done|].
    intros Hr. by specialize (H3 Hr).
  - rewrite app_nil_r. eexists. split; [done|]. split; [by unfold contents; simpl; rewrite app_nil_r|].
    split; [|done]. unfold chan_len in *. simpl in *. split; [done| |done]. unfold chan_len. simpl. lia.
  - eexists. split; [done|]. split; [unfold contents; simpl; by rewrite <- app_assoc|]. split; [|done].
    unfold has_room, chan_len in *. simpl in *. split; [done| |].
    + unfold chan_len. simpl. rewrite length_app. simpl. lia.
    + unfold has_room, chan_len. simpl. rewrite length_app. simpl. intros Hr.
      apply Z.ltb_lt in Hr. by specialize (H3 ltac:(apply Z.ltb_lt; lia)).
Qed.

Lemma try_recv_ok zero : preserves chan_ok (try_recv zero).
Proof.
  intros c Hc. pose proof (try_recv_spec zero c Hc) as H. destruct (contents c).
  - by rewrite H.
  - by destruct H as (c' & -> & _ & ? & _).
Qed.

(** Polling an open channel empties it, in order. *)
Lemma collect_spec zero fuel : ∀ l c,
  chan_ok c → closed c = false → (length (contents c) < fuel)%nat →
  ∃ c', collect fuel zero l c = (Ret (l ++ contents c), c') ∧ contents c' = [] ∧ chan_ok c' ∧
    chan_cap c' = chan_cap c ∧ closed c' = false.
Proof.
  induction fuel as [|fuel IH]; intros l c Hc Hcl Hf; [lia|]. simpl. unfold go_bind.
  pose proof (try_recv_spec zero c Hc) as H. destruct (contents c) as [|x xs] eqn:E.
  - rewrite H, Hcl, app_nil_r. by exists c.
  - destruct H as (c' & -> & Hx & Hc' & Hcap & Hcl'). simpl in Hf.
    destruct (IH (l ++ [x]) c' Hc') as (c'' & -> & ?); [congruence|rewrite Hx; lia|].
    exists c''. rewrite Hx, <- app_assoc. simpl. by rewrite <- Hcap.
Qed.

Lemma recv_all_spec zero c :
  chan_ok c → closed c = false →
  ∃ c', recv_all zero c = (Ret (contents c), c') ∧ contents c' = [] ∧ chan_ok c' ∧
    chan_cap c' = chan_cap c ∧ closed c' = false.
Proof.
  intros Hc Hcl. apply (collect_spec zero (S (length (contents c))) []); [done|done|lia].
Qed.

(** Polling a closed channel never stops. *)
Lemma collect_closed zero fuel : ∀ l c,
  chan_ok c → closed c = true → (collect fuel zero l c).1 = Block.
Proof.
  induction fuel as [|fuel IH]; intros l c Hc Hcl; [done|]. simpl. unfold go_bind.
  pose proof (try_recv_spec zero c Hc) as H. destruct (contents c) as [|x xs] eqn:E.
  - rewrite H, Hcl. by apply IH.
  - destruct H as (c' & -> & _ & Hc' & _ & Hcl'). apply IH; congruence.
Qed.

(** Blocking sends of a list, in order. *)
Definition send_each (l : list A) : Go (chan A) unit := go_fold (λ _ x, send x) tt l.

(** Polling sends of a list: what does not fit is dropped. *)
Definition try_send_each (l : list A) : Go (chan A) unit :=
  go_fold (λ _ x, let! _ := try_send x in go_ret tt) tt l.

Lemma has_room_app c l :
  has_room (Chan (chan_cap c) (buf c ++ l) (sendq c) (closed c)) = (chan_len c + Z.of_nat (length l) <? chan_cap c).
Proof. unfold has_room. by rewrite chan_len_app. Qed.

(** The values that fit are buffered; the first that does not parks the
    sender, and the later ones are never sent. *)
Lemma send_each_spec l : ∀ c,
  closed c = false → chan_len c ≤ chan_cap c → sendq c = [] →
  let room := Z.to_nat (chan_cap c - chan_len c) in
  send_each l c =
    (if decide (length l ≤ room)%nat then Ret tt else Block,
     Chan (chan_cap c) (buf c ++ take room l) (take 1 (drop room l)) false).
Proof.
  unfold send_each. induction l as [|x l IH]; intros c Hcl Hlen Hq;
    set (room := Z.to_nat (chan_cap c - chan_len c)) in *; cbn [go_fold].
  - rewrite take_nil, drop_nil, app_nil_r, take_nil. rewrite decide_True by (simpl; lia).
    destruct c; simpl in *; by subst.
  - unfold go_bind, send at 1. rewrite Hcl. unfold has_room.
    destruct (Z.ltb_spec (chan_len c) (chan_cap c)) as [Hlt|Hge].
    + assert (∃ n, room = S n) as [n Hn] by (exists (pred room); lia).
      assert (Z.to_nat (chan_cap (push x c) - chan_len (push x c)) = n) as Hn'.
      { unfold push. rewrite chan_len_app. simpl. lia. }
      rewrite IH; [|done|unfold push; rewrite chan_len_app; simpl; lia|done]. rewrite Hn', Hn.
      simpl. rewrite <- app_assoc. simpl. f_equal.
      destruct (decide (length l ≤ n)%nat), (decide (S (length l) ≤ S n)%nat); (done || lia).
    + assert (room = 0%nat) as -> by lia. rewrite Hq, decide_False by (simpl; lia).
      by rewrite !take_0, app_nil_r.
Qed.

(** Sending to an open channel neither panics nor closes it. *)
Lemma send_each_open l : ∀ c,
  closed c = false → let '(r, c') := send_each l c in closed c' = false ∧ match r with Panic _ => False | _ => True end.
Proof.
  unfold send_each. induction l as [|x l IH]; intros c Hc; cbn [go_fold]; [done|].
  unfold go_bind, send at 1. rewrite Hc. destruct (has_room c); [by apply IH|done].
Qed.

Lemma try_send_each_spec l : ∀ c,
  closed c = false → chan_len c ≤ chan_cap c →
  try_send_each l c =
    (Ret tt, Chan (chan_cap c) (buf c ++ take (Z.to_nat (chan_cap c - chan_len c)) l) (sendq c) false).
Proof.
  unfold try_send_each. induction l as [|x l IH]; intros c Hcl Hlen; cbn [go_fold].
  - rewrite take_nil, app_nil_r. destruct c; simpl in *; by subst.
  - unfold go_bind, try_send at 1. rewrite Hcl. unfold has_room.
    destruct (Z.ltb_spec (chan_len c) (chan_cap c)) as [Hlt|Hge]; cbn.
    + assert (Z.to_nat (chan_cap c - chan_len c) = S (Z.to_nat (chan_cap (push x c) - chan_len (push x c)))) as ->.
      { unfold push. rewrite chan_len_app. simpl. lia. }
      rewrite IH; [|done|unfold push; rewrite chan_len_app; simpl; lia].
      simpl. by rewrite <- app_assoc.
    + rewrite IH by done. replace (Z.to_nat (chan_cap c - chan_len c)) with 0%nat by lia. done.
Qed.
End chan.

#[export] Hint Resolve try_send_ok send_ok close_ok try_recv_ok : go.
