(* ===== verification/Workers.v ===== *)
(** * The state of package workers

    What producers and consumers share: the queue of payloads, the channel of
    flush signals (managed mode only) and, behind the [LogSender] interface,
    a state [W] that the workers never look into. *)
From S2P Require Import Prelude GoChan.
From Stdlib Require Import String.
Open Scope Z_scope.

Record wstate (W : Type) := WState {
  ext : W;
  dataQueue : chan string;
  flushSignal : chan string }.
Arguments WState {W}.
Arguments ext {W}.
Arguments dataQueue {W}.
Arguments flushSignal {W}.

Section lifting.
Context {W : Type}.

Definition with_ext (s : wstate W) (w : W) := WState w (dataQueue s) (flushSignal s).
Definition with_queue (s : wstate W) (c : chan string) := WState (ext s) c (flushSignal s).
Definition with_signals (s : wstate W) (c : chan string) := WState (ext s) (dataQueue s) c.

Definition on_ext {A} : Go W A → Go (wstate W) A := zoom ext with_ext.
Definition on_queue {A} : Go (chan string) A → Go (wstate W) A := zoom dataQueue with_queue.
Definition on_signals {A} : Go (chan string) A → Go (wstate W) A := zoom flushSignal with_signals.

(** The queue and the signals are well formed, and the queue is open. *)
Record running (s : wstate W) : Prop := {
  run_queue : chan_ok (dataQueue s);
  run_open : closed (dataQueue s) = false;
  run_signals : chan_ok (flushSignal s);
  run_signals_open : closed (flushSignal s) = false }.
End lifting.
