(* ===== verification/Producers.v ===== *)
(** * The producers of package workers (producer.go, managed_instance_producer.go)

    The HTTP handlers that receive telemetry and put the payloads into the
    data queue.  [Start] binds the address and then serves until the process
    ends; each request, whatever its path, runs the handler on the shared
    state in a goroutine of its own. *)
From S2P Require Import Prelude GoStrings GoFloat GoJson Env GoChan Workers.
From Stdlib Require Import String.
Open Scope Z_scope.

(** What the handlers read of an [http.Request]: [ReadAll] gives the bytes it
    got and whether it failed. *)
Record http_request := HttpRequest {
  url_path : string;
  http_method : string;
  body_data : string;
  body_failed : bool }.

Definition StatusOK : Z := 200.
Definition StatusNotFound : Z := 404.
Definition StatusMethodNotAllowed : Z := 405.
Definition StatusInternalServerError : Z := 500.

(** [type Event struct]: the record stays raw and is never looked at. *)
Record Event := MkEvent { Time : string; Type_ : string; Record_ : option json }.

Definition event_field (name : string) (j : json) (e : Event) : decoding Event :=
  if String.eqb name "time" then decode_string (λ v e, MkEvent v (Type_ e) (Record_ e)) j e
  else if String.eqb name "type" then decode_string (λ v e, MkEvent (Time e) v (Record_ e)) j e
  else if String.eqb name "record" then (MkEvent (Time e) (Type_ e) (Some j), true)
  else (e, true).

Definition unmarshal_events (s : string) : option (list Event) :=
  unmarshal_structs event_field (MkEvent EmptyString EmptyString None) s.

(** *** Addresses *)
Definition receiverIP : string := "0.0.0.0".
Definition receiverPort : Z := 4243.
Definition managedReceiverIP : string := "0.0.0.0".
Definition managedReceiverPort : Z := 4243.

(** [fmt.Sprintf("%s:%d", ip, port)] *)
Definition address (ip : string) (port : Z) : string := ip +:+ ":" +:+ itoa port.

(** [TaskProducer interface] with the handler that its constructor's type
    registers, and the managed one. *)
Record TaskProducer (W : Type) := MkTaskProducer {
  Start : Go world (option error);
  ServeHTTP : http_request → Go (wstate W) Z }.
Arguments MkTaskProducer {W}.
Arguments Start {W}.
Arguments ServeHTTP {W}.

Section start.
Context `{E : Env}.

(** [http.ListenAndServe]: it comes back with an error or not at all. *)
Definition ListenAndServe (addr : string) : Go world error :=
  let! n := next_tick in
  if env_listen n addr then go_block else go_ret ErrListen.

Definition http_Start : Go world (option error) :=
  let! err := ListenAndServe (address receiverIP receiverPort) in
  go_panic (A := unit) ExplicitPanic ;;;
  go_ret (Some err).

Definition managed_Start : Go world (option error) :=
  let! err := ListenAndServe (address managedReceiverIP managedReceiverPort) in
  go_panic (A := unit) ExplicitPanic ;;;
  go_ret (Some err).
End start.

Section producers.
Context {W : Type}.

(** *** The standard producer *)

(** The status of the answer.  A failed read is only logged: what was read
    is queued.  Methods other than POST write nothing, which net/http turns
    into a 200. *)
Definition logsHandler (request : http_request) : Go (wstate W) Z :=
  if negb (String.eqb (url_path request) "/") then go_ret StatusNotFound
  else if String.eqb (http_method request) "POST" then
    let payload := body_data request in
    on_queue (send payload) ;;;
    go_ret StatusOK
  else go_ret StatusOK.

(** *** The producer of managed instances *)

(** [queueThresholdPercent = 0.8] *)
Definition threshold (queueCap : Z) : Z := mul_trunc queueCap four_fifths_m four_fifths_k.

Definition signal (s : string) : Go (wstate W) unit :=
  let! _ := on_signals (try_send s) in go_ret tt.

Definition checkQueueThreshold : Go (wstate W) unit :=
  let! s := go_get in
  let queueLen := chan_len (dataQueue s) in
  let queueCap := chan_cap (dataQueue s) in
  if threshold queueCap <=? queueLen then signal "queue_threshold" else go_ret tt.

Definition signalReports (events : list Event) : Go (wstate W) unit :=
  go_fold (λ _ event, if String.eqb (Type_ event) "platform.report"
                      then signal "platform.report" else go_ret tt) tt events.

Definition managed_logsHandler (request : http_request) : Go (wstate W) Z :=
  if negb (String.eqb (url_path request) "/") then go_ret StatusNotFound
  else if String.eqb (http_method request) "POST" then
    if body_failed request then go_ret StatusInternalServerError
    else
      let payload := body_data request in
      let! _ := on_queue (try_send payload) in
      checkQueueThreshold ;;;
      match unmarshal_events payload with
      | None => go_ret tt
      | Some events => signalReports events
      end ;;;
      go_ret StatusOK
  else go_ret StatusMethodNotAllowed.

Definition NewTaskProducer `{Env} : TaskProducer W := MkTaskProducer http_Start logsHandler.
Definition NewManagedInstanceTaskProducer `{Env} : TaskProducer W := MkTaskProducer managed_Start managed_logsHandler.
End producers.

(** ** Theorems *)
Section theorems.
Context {W : Type}.
Implicit Types s : wstate W.

(** Both servers listen on the same address; [Start] never returns: it serves
    for ever or ends the process. *)
Theorem Start_spec `{E : Env} w :
  Start (W := W) NewTaskProducer w =
    (if env_listen (tick w) "0.0.0.0:4243" then Block else Panic ExplicitPanic, set_tick (S (tick w)) w) ∧
  Start (W := W) NewManagedInstanceTaskProducer w = Start (W := W) NewTaskProducer w.
Proof.
  simpl. unfold http_Start, managed_Start, ListenAndServe, go_bind, next_tick.
  change (address managedReceiverIP managedReceiverPort) with (address receiverIP receiverPort).
  replace (address receiverIP receiverPort) with "0.0.0.0:4243"%string by by vm_compute.
  split; [|done]. by destruct (env_listen (tick w) "0.0.0.0:4243").
Qed.

Definition is_post (r : http_request) : bool :=
  String.eqb (url_path r) "/" && String.eqb (http_method r) "POST".

(** The signals a payload makes the managed producer send, when the queue
    has [len] payloads after it. *)
Definition reports (payload : string) : list string :=
  match unmarshal_events payload with
  | None => []
  | Some events => map (λ _, "platform.report"%string)
      (List.filter (λ e, String.eqb (Type_ e) "platform.report") events)
  end.
Definition wanted_signals (len cap : Z) (payload : string) : list string :=
  (if 4 * cap / 5 <=? len then ["queue_threshold"%string] else []) ++ reports payload.

(** The flush signals after polling sends of a list: those that fit. *)
Definition after_signals (l : list string) (s : wstate W) : wstate W :=
  let c := flushSignal s in
  with_signals s (Chan (chan_cap c) (buf c ++ take (Z.to_nat (chan_cap c - chan_len c)) l) (sendq c) (closed c)).

Lemma after_signals_nil s : after_signals [] s = s.
Proof. unfold after_signals. rewrite take_nil, app_nil_r. by destruct s as [? ? []]. Qed.

Lemma after_signals_app l k s :
  after_signals k (after_signals l s) = after_signals (l ++ k) s.
Proof.
  unfold after_signals, with_signals. destruct s as [w q [n b sq cl]]. unfold chan_len. simpl. do 2 f_equal.
  rewrite <- app_assoc, take_app. f_equal. f_equal. rewrite length_app, length_take. f_equal. lia.
Qed.

Lemma signal_eq x s : closed (flushSignal s) = false → signal x s = (Ret tt, after_signals [x] s).
Proof.
  intros Hc. unfold signal, on_signals, zoom, go_bind, try_send, has_room, after_signals. rewrite Hc.
  destruct s as [w q [n b sq cl]]. simpl in *. subst cl. unfold chan_len. simpl.
  destruct (Z.ltb_spec (Z.of_nat (List.length b)) n) as [H|H].
  - destruct (Z.to_nat (n - Z.of_nat (List.length b))) eqn:E; [lia|]. simpl. by rewrite take_nil.
  - replace (Z.to_nat (n - Z.of_nat (List.length b))) with 0%nat by lia. simpl. by rewrite app_nil_r.
Qed.

Lemma closed_after_signals l s : closed (flushSignal (after_signals l s)) = closed (flushSignal s).
Proof. done. Qed.

Lemma signalReports_eq events s :
  closed (flushSignal s) = false →
  signalReports events s =
    (Ret tt, after_signals (map (λ _, "platform.report"%string)
      (List.filter (λ e, String.eqb (Type_ e) "platform.report") events)) s).
Proof.
  unfold signalReports. revert s. induction events as [|e events IH]; intros s Hc; cbn [go_fold].
  - by rewrite after_signals_nil.
  - unfold go_bind. simpl. destruct (String.eqb (Type_ e) "platform.report").
    + rewrite signal_eq by done. rewrite IH by done. by rewrite after_signals_app.
    + unfold go_ret at 1. by apply IH.
Qed.

(** C28. The standard producer: a POST to the root enqueues its body behind
    what is already waiting; the handler answers 200, or parks with its
    payload when the queue is full: nothing is dropped or reordered.  Other
    requests leave the state alone. *)
Theorem logsHandler_spec r s :
  running s →
  let '(res, s') := logsHandler r s in
  running s' ∧ ext s' = ext s ∧ flushSignal s' = flushSignal s ∧
  if is_post r then
    contents (dataQueue s') = contents (dataQueue s) ++ [body_data r] ∧
    res = if has_room (dataQueue s) then Ret StatusOK else Block
  else s' = s ∧ res = Ret (if String.eqb (url_path r) "/" then StatusOK else StatusNotFound).
Proof.
  intros [H1 H2 H3 H4]. unfold logsHandler, is_post. destruct (String.eqb (url_path r) "/"); simpl; [|done].
  destruct (String.eqb (http_method r) "POST"); [|done].
  unfold go_bind, on_queue, zoom. pose proof (send_ok (body_data r) _ H1) as Hok.
  unfold send in *. rewrite H2 in *. destruct (has_room (dataQueue s)) eqn:Hr; simpl in *.
  - split; [by split|]. split; [done|]. split; [done|]. by rewrite contents_push.
  - split; [by split|]. split; [done|]. split; [done|]. unfold contents. simpl. by rewrite app_assoc.
Qed.

(** The exact effect of a request on the managed producer's state. *)
Lemma managed_logsHandler_eq r s :
  running s → chan_cap (dataQueue s) < 2 ^ 49 →
  managed_logsHandler r s =
    (if is_post r && negb (body_failed r) then
       let q := if has_room (dataQueue s) then push (body_data r) (dataQueue s) else dataQueue s in
       (Ret StatusOK,
        after_signals (wanted_signals (chan_len q) (chan_cap q) (body_data r)) (with_queue s q))
     else (Ret (if negb (String.eqb (url_path r) "/") then StatusNotFound
                else if is_post r then StatusInternalServerError else StatusMethodNotAllowed), s)).
Proof.
  intros [H1 H2 H3 H4] Hcap. unfold managed_logsHandler, is_post.
  destruct (String.eqb (url_path r) "/"); [|done].
  destruct (String.eqb (http_method r) "POST"); [|done].
  destruct (body_failed r); [done|]. simpl.
  set (q := if has_room _ then _ else _).
  assert (closed q = false ∧ chan_cap q = chan_cap (dataQueue s)) as [Hq Hc].
  { subst q. by destruct (has_room (dataQueue s)). }
  assert (on_queue (try_send (body_data r)) s = (Ret (has_room (dataQueue s)), with_queue s q)) as Hsend.
  { apply zoom_eq. unfold try_send. rewrite H2. subst q. by destruct (has_room (dataQueue s)). }
  unfold go_bind at 1. rewrite Hsend. unfold go_bind at 1, checkQueueThreshold, go_bind at 1, go_get.
  unfold threshold. rewrite four_fifths by (simpl; rewrite Hc; destruct H1; lia).
  cbn [dataQueue with_queue]. unfold wanted_signals.
  assert (∀ l s', closed (flushSignal s') = false →
    (match unmarshal_events (body_data r) with Some events => signalReports events | None => go_ret tt end ;;;
     go_ret StatusOK) (after_signals l s') = (Ret StatusOK, after_signals (l ++ reports (body_data r)) s')) as Hrep.
  { intros l s' Hs'. unfold go_bind, reports. destruct (unmarshal_events (body_data r)).
    - rewrite signalReports_eq by done. by rewrite after_signals_app.
    - by rewrite app_nil_r. }
  destruct (_ <=? _).
  - rewrite signal_eq by done. by rewrite Hrep.
  - unfold go_ret at 1. rewrite <- (after_signals_nil (with_queue s q)) at 1. by rewrite Hrep.
Qed.

(** C27. The managed producer never parks: a POST to the root is answered
    200 whether its payload was queued or dropped because the queue was
    full; the consumer is signalled when the queue then holds at least
    floor(4/5 of its capacity) payloads, and once for every platform.report
    event; the signals that do not fit in their channel are dropped. *)
Theorem managed_logsHandler_spec r s :
  running s → chan_cap (dataQueue s) < 2 ^ 49 →
  managed_logsHandler r s =
    (if is_post r && negb (body_failed r) then
       let q := if has_room (dataQueue s) then push (body_data r) (dataQueue s) else dataQueue s in
       (Ret StatusOK,
        after_signals (wanted_signals (chan_len q) (chan_cap q) (body_data r)) (with_queue s q))
     else (Ret (if negb (String.eqb (url_path r) "/") then StatusNotFound
                else if is_post r then StatusInternalServerError else StatusMethodNotAllowed), s)).
Proof. apply managed_logsHandler_eq. Qed.
End theorems.

(** ** Examples *)
Definition idle (cap : Z) (l : list string) : wstate unit :=
  WState tt (Chan cap l [] false) (Chan 10 [] [] false).
Definition post (b : string) : http_request := HttpRequest "/" "POST" b false.

Lemma idle_running cap l : Z.of_nat (List.length l) ≤ cap → running (idle cap l).
Proof. intros H. by split; [split; simpl; lia || done|..|split|]. Qed.

Lemma logsHandler_spec_witness :
  let '(res, s') := logsHandler (post "b") (idle 1 ["a"%string]) in
  running s' ∧ ext s' = tt ∧ flushSignal s' = flushSignal (idle 1 ["a"%string]) ∧
  contents (dataQueue s') = ["a"; "b"]%string ∧ res = Block.
Proof. apply (logsHandler_spec (post "b") (idle 1 ["a"%string])). apply idle_running. simpl. lia. Defined.

Lemma managed_logsHandler_spec_witness :
  managed_logsHandler (post (q "[{'type':'platform.report'}]")) (idle 5 ["1"; "2"; "3"]%string) =
  (Ret 200, WState tt (Chan 5 ["1"; "2"; "3"; q "[{'type':'platform.report'}]"]%string [] false)
     (Chan 10 ["queue_threshold"; "platform.report"]%string [] false)).
Proof.
  etransitivity.
  - apply managed_logsHandler_spec; [apply idle_running|]; simpl; lia.
  - vm_compute. reflexivity.
Defined.
