(* ===== verification/Consumers.v ===== *)
(** * The consumers of package workers (consumer.go, managed_instance_consumer.go)

    Draining and flushing the data queue through the [LogSender] interface.
    The theorems about the consumers rely on [LogSenderLaws] only: what a
    drain or a flush does is stated by the call of the sender that it makes
    and the error of that call ([handed_over]).  The last section puts the
    real client behind the interface. *)
From S2P Require Import Prelude GoStrings GoJson Env Config SumoClient SumoChunks SumoEnhance SumoPost SumoCalls GoChan Workers Producers.
From Stdlib Require Import String.
Open Scope Z_scope.

(** [TaskConsumer interface] *)
Record TaskConsumer (S : Type) := MkTaskConsumer {
  FlushDataQueue : Go S unit;
  DrainQueue : Go S Z }.
Arguments MkTaskConsumer {S}.
Arguments FlushDataQueue {S}.
Arguments DrainQueue {S}.

(** [ManagedInstanceTaskConsumer interface]; of [Start] the body of the
    goroutine that it starts, a function of what its selects choose. *)
Record ManagedInstanceTaskConsumer (S : Type) := MkManagedInstanceTaskConsumer {
  consumer_Start : list bool → Go S unit;
  managed_methods : TaskConsumer S }.
Arguments MkManagedInstanceTaskConsumer {S}.
Arguments consumer_Start {S}.
Arguments managed_methods {S}.

Definition RuntimeDone : string := "platform.runtimeDone".

Section consumers.
Context {W : Type} `{LogSender W} (config : LambdaExtensionConfig).

(** [select] until the queue is empty *)
Definition take_all : Go (wstate W) (list string) := on_queue (recv_all EmptyString).

(** *** The standard consumer *)

(** Putting the messages back with blocking sends. *)
Definition requeue (err : option error) (rawMsgArr : list string) : Go (wstate W) unit :=
  match err with Some _ => on_queue (send_each rawMsgArr) | None => go_ret tt end.

Definition sumo_DrainQueue : Go (wstate W) Z :=
  let! rawMsgArr := take_all in
  let runtime_done := if existsb (λ logsStr, contains logsStr RuntimeDone) rawMsgArr then 1 else 0 in
  let! err := on_ext (SendAllLogs rawMsgArr) in
  requeue err rawMsgArr ;;;
  go_ret runtime_done.

(** [(len(queue) / MaxConcurrentRequests) + 1], a division that truncates
    and panics on zero. *)
Definition drain_calls : Go (wstate W) Z :=
  let! s := go_get in
  if MaxConcurrentRequests config =? 0 then go_panic DivideByZero
  else go_ret (Z.quot (chan_len (dataQueue s)) (MaxConcurrentRequests config) + 1).

(** [for i := 0; i < n; i++ { drain }] *)
Definition repeat_drain (n : Z) (drain : Go (wstate W) Z) : Go (wstate W) unit :=
  go_fold (λ _ _, let! _ := drain in go_ret tt) tt (seq 0 (Z.to_nat n)).

Definition sumo_FlushDataQueue : Go (wstate W) unit :=
  if EnableFailover config then
    let! rawMsgArr := take_all in
    let! err := on_ext (FlushAll rawMsgArr) in
    requeue err rawMsgArr ;;;
    on_queue close
  else
    let! maxCallsNeededForCompleteDraining := drain_calls in
    repeat_drain maxCallsNeededForCompleteDraining sumo_DrainQueue.

(** [consumeTask], without its wait group. *)
Definition consumeTask (rawmsg : string) : Go (wstate W) unit :=
  let! err := on_ext (SendLogs rawmsg) in
  match err with Some _ => on_queue (send rawmsg) | None => go_ret tt end.

Definition NewTaskConsumer : TaskConsumer (wstate W) :=
  MkTaskConsumer sumo_FlushDataQueue sumo_DrainQueue.

(** *** The consumer of managed instances *)

(** Putting the messages back by polling: those that do not fit are lost. *)
Definition managed_requeue (err : option error) (rawMsgArr : list string) : Go (wstate W) unit :=
  match err with Some _ => on_queue (try_send_each rawMsgArr) | None => go_ret tt end.

Definition managed_DrainQueue : Go (wstate W) Z :=
  let! rawMsgArr := take_all in
  match rawMsgArr with
  | [] => go_ret tt
  | _ => let! err := on_ext (SendAllLogs rawMsgArr) in managed_requeue err rawMsgArr
  end ;;;
  go_ret 0.

Definition managed_FlushDataQueue : Go (wstate W) unit :=
  if EnableFailover config then
    let! rawMsgArr := take_all in
    match rawMsgArr with
    | [] => go_ret tt
    | _ => let! err := on_ext (FlushAll rawMsgArr) in managed_requeue err rawMsgArr
    end ;;;
    on_queue close
  else
    let! maxCallsNeededForCompleteDraining := drain_calls in
    repeat_drain maxCallsNeededForCompleteDraining managed_DrainQueue.

Definition handle_signal (signal : string) : Go (wstate W) unit :=
  if String.eqb signal "queue_threshold" then let! _ := managed_DrainQueue in go_ret tt
  else if String.eqb signal "platform.report" then let! _ := managed_DrainQueue in go_ret tt
  else go_ret tt.

(** The signals that start a drain. *)
Definition drains (signal : string) : bool :=
  String.eqb signal "queue_threshold" || String.eqb signal "platform.report".

(** The loop of [processFlushSignals], one element of [selects] for each
    round: whether the select found the context done.  A round that waits
    for a signal that never comes, and the end of the list, are a parked
    goroutine. *)
Fixpoint processFlushSignals (selects : list bool) : Go (wstate W) unit :=
  match selects with
  | [] => go_block
  | true :: _ => managed_FlushDataQueue
  | false :: selects' =>
      let! signal := on_signals (try_recv EmptyString) in
      match signal with
      | None => go_block
      | Some signal => handle_signal signal ;;; processFlushSignals selects'
      end
  end.

Definition NewManagedInstanceTaskConsumer : ManagedInstanceTaskConsumer (wstate W) :=
  MkManagedInstanceTaskConsumer processFlushSignals
    (MkTaskConsumer managed_FlushDataQueue managed_DrainQueue).
End consumers.

(** ** Theorems *)
Section theorems.
Context {W : Type} `{Sender : LogSender W} (config : LambdaExtensionConfig).
Implicit Types s : wstate W.

(** The state with an empty and open queue. *)
Definition emptied (s : wstate W) : wstate W :=
  with_queue s (Chan (chan_cap (dataQueue s)) [] [] false).
(** The queue filled with a list as far as it fits. *)
Definition refilled (l : list string) (s : wstate W) : wstate W :=
  with_queue s (Chan (chan_cap (dataQueue s)) (take (Z.to_nat (chan_cap (dataQueue s))) l) [] false).
Definition queued (s : wstate W) : list string := contents (dataQueue s).

Lemma take_all_eq s : running s → take_all s = (Ret (queued s), emptied s).
Proof.
  intros [H1 H2 H3 H4]. apply zoom_eq.
  destruct (recv_all_spec EmptyString _ H1 H2) as (c' & -> & Hc & _ & Hcap & Hcl).
  f_equal. destruct c' as [n b q cl]. unfold contents in Hc. simpl in *. subst.
  by apply app_nil in Hc as [-> ->].
Qed.

Lemma emptied_running s : running s → running (emptied s).
Proof. intros [[H1 H2 H3] H4 H5 H6]. by split; [split|..]. Qed.

Lemma with_ext_running s w : running s → running (with_ext s w).
Proof. intros []. by split. Qed.

Lemma refilled_running l s : running s → running (refilled l s).
Proof.
  intros [[H1 H2 H3] H4 H5 H6]. split; [split|..]; try done. unfold chan_len. simpl.
  rewrite length_take. lia.
Qed.

Lemma queued_emptied s : queued (emptied s) = [].
Proof. done. Qed.

Lemma requeue_eq e l s :
  running s → queued s = [] →
  requeue (Some e) l s =
    (if decide (Z.of_nat (List.length l) ≤ chan_cap (dataQueue s)) then (Ret tt, refilled l s)
     else (Block, with_queue s (Chan (chan_cap (dataQueue s)) (take (Z.to_nat (chan_cap (dataQueue s))) l)
                    (take 1 (drop (Z.to_nat (chan_cap (dataQueue s))) l)) false))).
Proof.
  intros [H1 H2 H3 H4] [Hb Hq]%app_nil. simpl.
  unfold on_queue, zoom. destruct s as [w c fs]. simpl in *. destruct c as [n b q cl]. simpl in *. subst.
  destruct H1 as [H1 Hlen _]. simpl in H1.
  rewrite send_each_spec by done. unfold chan_len. simpl. rewrite Z.sub_0_r. unfold refilled, with_queue. simpl.
  destruct (decide (List.length l ≤ Z.to_nat n)%nat), (decide (Z.of_nat (List.length l) ≤ n)); try lia; [|done].
  by rewrite drop_ge, take_nil by lia.
Qed.

Lemma managed_requeue_eq e l s :
  running s → queued s = [] → managed_requeue (Some e) l s = (Ret tt, refilled l s).
Proof.
  intros [H1 H2 H3 H4] [Hb Hq]%app_nil. unfold managed_requeue, on_queue, refilled. apply zoom_eq.
  destruct s as [w c fs]. simpl in *. destruct c as [n b q cl]. simpl in *. subst.
  destruct H1 as [H1 Hlen _]. rewrite try_send_each_spec by done. unfold chan_len. simpl. by rewrite Z.sub_0_r.
Qed.

Definition runtime_done (l : list string) : Z :=
  if existsb (λ m, contains m RuntimeDone) l then 1 else 0.

Lemma DrainQueue_eq s :
  running s →
  sumo_DrainQueue s =
    match SendAllLogs (queued s) (ext s) with
    | (Ret None, w) => (Ret (runtime_done (queued s)), with_ext (emptied s) w)
    | (Ret (Some _), w) =>
        if decide (Z.of_nat (List.length (queued s)) ≤ chan_cap (dataQueue s))
        then (Ret (runtime_done (queued s)), with_ext (refilled (queued s) s) w)
        else (Block, with_ext (with_queue s (Chan (chan_cap (dataQueue s))
                (take (Z.to_nat (chan_cap (dataQueue s))) (queued s))
                (take 1 (drop (Z.to_nat (chan_cap (dataQueue s))) (queued s))) false)) w)
    | (Panic p, w) => (Panic p, with_ext (emptied s) w)
    | (Block, w) => (Block, with_ext (emptied s) w)
    end.
Proof.
  intros Hs. unfold sumo_DrainQueue, go_bind at 1. rewrite take_all_eq by done.
  unfold go_bind, on_ext, zoom. change (ext (emptied s)) with (ext s).
  destruct (SendAllLogs (queued s) (ext s)) as [[[e|]|p|] w]; [|done..].
  rewrite requeue_eq; [|by apply with_ext_running, emptied_running|done].
  simpl. by destruct (decide _).
Qed.

Lemma managed_DrainQueue_eq s :
  running s →
  managed_DrainQueue s =
    match queued s with
    | [] => (Ret 0, emptied s)
    | _ => match SendAllLogs (queued s) (ext s) with
           | (Ret None, w) => (Ret 0, with_ext (emptied s) w)
           | (Ret (Some _), w) => (Ret 0, with_ext (refilled (queued s) s) w)
           | (Panic p, w) => (Panic p, with_ext (emptied s) w)
           | (Block, w) => (Block, with_ext (emptied s) w)
           end
    end.
Proof.
  intros Hs. unfold managed_DrainQueue, go_bind at 1. rewrite take_all_eq by done.
  destruct (queued s) as [|m ms] eqn:E; [done|].
  unfold go_bind, on_ext, zoom. change (ext (emptied s)) with (ext s).
  destruct (SendAllLogs (m :: ms) (ext s)) as [[[e|]|p|] w]; [|done..].
  rewrite managed_requeue_eq; [done|by apply with_ext_running, emptied_running|done].
Qed.

(** *** Against the laws of the interface *)
Context `{!LogSenderLaws Sender}.

(** One call of the sender with all that the queue of [s] holds, its error,
    and what that error leaves in the queue: nothing, or everything in the
    order it had; [fin] says whether the queue is closed. *)
Record handed_over (call : list string → Go W (option error)) (fin : bool) (err : option error)
    (s s' : wstate W) : Prop := {
  ho_call : call (queued s) (ext s) = (Ret err, ext s');
  ho_queue : dataQueue s' =
    Chan (chan_cap (dataQueue s)) match err with None => [] | Some _ => queued s end [] fin;
  ho_signals : flushSignal s' = flushSignal s }.

(** A drain of the standard consumer, and of the managed one, which does not
    call the sender for an empty queue. *)
Definition drained (s s' : wstate W) : Prop :=
  ∃ err, handed_over SendAllLogs false err s s' ∧ (err = None → delivered (queued s) (ext s) (ext s')).
Definition managed_drained (s s' : wstate W) : Prop :=
  match queued s with [] => s' = s | _ => drained s s' end.

(** A flush with the failover on. *)
Definition flushed (s s' : wstate W) : Prop :=
  ∃ err, handed_over FlushAll true err s s' ∧ (err = None → delivered (queued s) (ext s) (ext s')).
Definition managed_flushed (s s' : wstate W) : Prop :=
  match queued s with
  | [] => s' = with_queue s (Chan (chan_cap (dataQueue s)) [] [] true)
  | _ => flushed s s'
  end.

(** The queue holds no more than its capacity, and nothing that panics. *)
Definition settled (s : wstate W) : Prop :=
  handled (queued s) ∧ Z.of_nat (List.length (queued s)) ≤ chan_cap (dataQueue s).

Lemma handed_over_queued call fin err s s' :
  handed_over call fin err s s' → queued s' = match err with None => [] | Some _ => queued s end.
Proof. intros [_ Hq _]. unfold queued at 1, contents. rewrite Hq. simpl. by rewrite app_nil_r. Qed.

Lemma drained_queued s s' : drained s s' → queued s' = [] ∨ queued s' = queued s.
Proof. intros (err & ->%handed_over_queued & _). destruct err; auto. Qed.

Lemma drained_cap s s' : drained s s' → chan_cap (dataQueue s') = chan_cap (dataQueue s).
Proof. intros (err & [_ Hq _] & _). by rewrite Hq. Qed.

Lemma drained_running s s' : running s → settled s → drained s s' → running s'.
Proof.
  intros [[H1 _ _] _ H3 H4] [_ Hlen] (err & [_ Hq Hf] & _).
  split; rewrite ?Hq, ?Hf; [|done..]. split; [done| |done]. unfold chan_len. simpl. destruct err; simpl; lia.
Qed.

Lemma drained_settled s s' : settled s → drained s s' → settled s'.
Proof.
  intros [H1 H2] Hd. unfold settled. rewrite (drained_cap _ _ Hd).
  destruct (drained_queued _ _ Hd) as [->| ->]; [|done]. split; [apply handled_nil|]. simpl. lia.
Qed.

Lemma drained_later s s' : settled s → drained s s' → later (ext s) (ext s').
Proof.
  intros [H1 _] (err & [Hc _ _] & _). pose proof (SendAllLogs_law _ (ext s) H1) as Hl.
  unfold wp in Hl. rewrite Hc in Hl. apply Hl.
Qed.

Lemma managed_drained_ok s s' : running s → settled s → managed_drained s s' → running s' ∧ settled s'.
Proof.
  intros H1 H2 H. unfold managed_drained in H. destruct (queued s) eqn:E; [by subst|].
  split; [by eapply drained_running|by eapply drained_settled].
Qed.

Lemma queued_refilled s :
  Z.of_nat (List.length (queued s)) ≤ chan_cap (dataQueue s) → queued (refilled (queued s) s) = queued s.
Proof.
  intros H. unfold queued at 1, refilled, contents. simpl. rewrite app_nil_r. apply take_ge. lia.
Qed.

(** The state after the call, queue and all. *)
Lemma after_call call s (err : option error) w :
  settled s → call (queued s) (ext s) = (Ret err, w) →
  handed_over call false err s (with_ext match err with None => emptied s | Some _ => refilled (queued s) s end w).
Proof.
  intros [_ Hlen] Hc. split; [by destruct err| |by destruct err]. destruct err; [|done].
  simpl. by rewrite take_ge by lia.
Qed.

Lemma running_idle s : running s → queued s = [] → emptied s = s.
Proof.
  intros [_ Ho _ _] [Hb Hq]%app_nil. destruct s as [w [n b q cl] fs]. simpl in *. by subst.
Qed.

Lemma wp_DrainQueue s :
  running s → settled s →
  wp sumo_DrainQueue (λ rd s', rd = runtime_done (queued s) ∧ drained s s') s.
Proof.
  intros Hs Hset. unfold wp. rewrite DrainQueue_eq by done.
  pose proof (SendAllLogs_law _ (ext s) (proj1 Hset)) as Hlaw. unfold wp in Hlaw.
  destruct (SendAllLogs (queued s) (ext s)) as [[err|p|] w] eqn:Hc; [|done..]. destruct Hlaw as [_ Hd].
  pose proof (after_call SendAllLogs s err w Hset Hc) as Ha.
  assert (drained s (with_ext match err with None => emptied s | Some _ => refilled (queued s) s end w)) by by exists err.
  destruct err as [e|]; [|done]. by rewrite decide_True by apply Hset.
Qed.

Lemma wp_managed_DrainQueue s :
  running s → settled s → wp managed_DrainQueue (λ rd s', rd = 0 ∧ managed_drained s s') s.
Proof.
  intros Hs Hset. unfold wp. rewrite managed_DrainQueue_eq by done.
  pose proof (SendAllLogs_law _ (ext s) (proj1 Hset)) as Hlaw. unfold wp in Hlaw. unfold managed_drained.
  destruct (queued s) as [|m ms] eqn:E; [by rewrite running_idle|]. rewrite <- E in *.
  destruct (SendAllLogs (queued s) (ext s)) as [[err|p|] w] eqn:Hc; [|done..]. destruct Hlaw as [_ Hd].
  pose proof (after_call SendAllLogs s err w Hset Hc) as Ha.
  assert (drained s (with_ext match err with None => emptied s | Some _ => refilled (queued s) s end w)) by by exists err.
  by destruct err.
Qed.

(** [n] drains one after the other. *)
Lemma wp_repeat_drain {D : relation (wstate W)} drain n :
  (∀ s, running s → settled s → wp drain (λ _ s', D s s' ∧ running s' ∧ settled s') s) →
  ∀ s, running s → settled s → wp (repeat_drain n drain) (λ _ s', nsteps D (Z.to_nat n) s s') s.
Proof.
  intros Hd. unfold repeat_drain. generalize 0%nat. induction (Z.to_nat n) as [|k IH]; intros i s Hs Hset.
  - apply wp_ret. constructor.
  - cbn [seq go_fold]. apply wp_bind, wp_bind. eapply wp_mono; [by apply Hd|].
    intros rd s1 (H1 & Hs1 & Hset1). apply wp_ret. eapply wp_mono; [by apply IH|].
    intros u s2 H2. by eapply nsteps_l.
Qed.

Lemma drains_later n s s' : settled s → nsteps drained n s s' → later (ext s) (ext s').
Proof.
  intros Hset H. induction H as [s|n s1 s2 s3 H12 _ IH]; [done|]. etrans; [by eapply drained_later|].
  apply IH. by eapply drained_settled.
Qed.

(** Once one of several drains succeeds everything stays delivered. *)
Lemma drains_outcome n s s' :
  settled s → nsteps drained n s s' →
  queued s' = queued s ∨ (queued s' = [] ∧ delivered (queued s) (ext s) (ext s')).
Proof.
  intros Hset H. induction H as [s|n s1 s2 s3 H12 H23 IH]; [by left|]. pose proof (drained_settled _ _ Hset H12) as Hset2.
  specialize (IH Hset2). assert (later (ext s1) (ext s2)) as L12 by by eapply drained_later.
  destruct H12 as (err & Hq2%handed_over_queued & Hd).
  pose proof (drains_later _ _ _ Hset2 H23) as L23. destruct err as [e|]; rewrite Hq2 in IH.
  - destruct IH as [->|[-> Hd3]]; [by left|right]. split; [done|]. by eapply delivered_later.
  - right. split; [by destruct IH as [?|[? _]]|]. eapply delivered_later; [reflexivity|by apply Hd|done].
Qed.

(** The first of the drains decides when there is one. *)
Lemma drain_calls_eq s :
  MaxConcurrentRequests config ≠ 0 →
  drain_calls config s = (Ret (Z.quot (chan_len (dataQueue s)) (MaxConcurrentRequests config) + 1), s).
Proof. intros H. unfold drain_calls, go_bind, go_get. by apply Z.eqb_neq in H as ->. Qed.

Lemma wp_flush_close s (err : option error) w :
  settled s → FlushAll (queued s) (ext s) = (Ret err, w) → (err = None → delivered (queued s) (ext s) w) →
  wp (on_queue close) (λ _ s', flushed s s')
    (with_ext match err with None => emptied s | Some _ => refilled (queued s) s end w).
Proof.
  intros Hset Hc Hd. pose proof (after_call FlushAll s err w Hset Hc) as [H1 H2 H3].
  apply wp_zoom. unfold wp, close. rewrite H2. simpl. exists err. split; [|exact Hd].
  split; [exact H1|done|exact H3].
Qed.

Lemma wp_FlushDataQueue s :
  EnableFailover config = true → stores → running s → settled s →
  wp (sumo_FlushDataQueue config) (λ _ s', flushed s s') s.
Proof.
  intros He Hst Hs Hset. unfold sumo_FlushDataQueue. rewrite He. apply wp_bind.
  unfold wp at 1. rewrite take_all_eq by done. apply wp_bind, wp_zoom.
  pose proof (FlushAll_law _ (ext s) (proj1 Hset)) as Hlaw. unfold wp in Hlaw. unfold wp at 1.
  change (ext (emptied s)) with (ext s). destruct (FlushAll (queued s) (ext s)) as [[err|p|] w] eqn:Hc; [|done..].
  destruct Hlaw as [_ Hd]. pose proof (wp_flush_close s err w Hset Hc (Hd Hst)) as Hf. apply wp_bind.
  destruct err as [e|]; [|by apply wp_ret].
  unfold wp at 1. rewrite requeue_eq; [|by apply with_ext_running, emptied_running|done].
  rewrite decide_True by apply Hset. exact Hf.
Qed.

Lemma wp_managed_FlushDataQueue s :
  EnableFailover config = true → stores → running s → settled s →
  wp (managed_FlushDataQueue config) (λ _ s', managed_flushed s s') s.
Proof.
  intros He Hst Hs Hset. unfold managed_FlushDataQueue, managed_flushed. rewrite He. apply wp_bind.
  unfold wp at 1. rewrite take_all_eq by done. apply wp_bind.
  destruct (queued s) as [|m ms] eqn:E; [by apply wp_ret, wp_zoom|]. rewrite <- E in *. apply wp_bind, wp_zoom.
  pose proof (FlushAll_law _ (ext s) (proj1 Hset)) as Hlaw. unfold wp in Hlaw. unfold wp at 1.
  change (ext (emptied s)) with (ext s). destruct (FlushAll (queued s) (ext s)) as [[err|p|] w] eqn:Hc; [|done..].
  destruct Hlaw as [_ Hd]. pose proof (wp_flush_close s err w Hset Hc (Hd Hst)) as Hf.
  destruct err as [e|]; [|by apply wp_ret].
  unfold wp at 1. rewrite managed_requeue_eq; [exact Hf|by apply with_ext_running, emptied_running|done].
Qed.

(** How often a flush without the failover drains. *)
Definition flush_drains (s : wstate W) : nat :=
  Z.to_nat (Z.quot (chan_len (dataQueue s)) (MaxConcurrentRequests config) + 1).

Lemma wp_FlushDataQueue_off s :
  EnableFailover config = false → MaxConcurrentRequests config ≠ 0 → running s → settled s →
  wp (sumo_FlushDataQueue config) (λ _ s', nsteps drained (flush_drains s) s s') s ∧
  wp (managed_FlushDataQueue config) (λ _ s', nsteps managed_drained (flush_drains s) s s') s.
Proof.
  intros He H0 Hs Hset. unfold sumo_FlushDataQueue, managed_FlushDataQueue. rewrite He.
  split; apply wp_bind; unfold wp at 1; rewrite drain_calls_eq by done;
    apply wp_repeat_drain; try done; intros s1 H1 H2.
  - eapply wp_mono; [by apply wp_DrainQueue|]. intros ? ? [_ Hd].
    split; [done|]. split; [by eapply drained_running|by eapply drained_settled].
  - eapply wp_mono; [by apply wp_managed_DrainQueue|]. intros ? ? [_ Hd].
    split; [done|]. by eapply managed_drained_ok.
Qed.


(** C29. With the failover on, [FlushDataQueue] of both consumers calls
    [FlushAll] exactly once with everything the queue holds and closes the
    queue: without an error it is empty and everything is delivered, after
    an error the payloads stay behind in the closed queue, in their order.
    The managed consumer does not call it for an empty queue. *)
Theorem FlushDataQueue_failover s :
  EnableFailover config = true → stores → running s → settled s →
  wp (sumo_FlushDataQueue config) (λ _ s', ∃ err,
    handed_over FlushAll true err s s' ∧ (err = None → delivered (queued s) (ext s) (ext s'))) s ∧
  wp (managed_FlushDataQueue config) (λ _ s',
    match queued s with
    | [] => s' = with_queue s (Chan (chan_cap (dataQueue s)) [] [] true)
    | _ => ∃ err, handed_over FlushAll true err s s' ∧ (err = None → delivered (queued s) (ext s) (ext s'))
    end) s.
Proof. intros. split; [by apply wp_FlushDataQueue|by apply wp_managed_FlushDataQueue]. Qed.

(** Without the failover, [FlushDataQueue] of both consumers drains
    len / MaxConcurrentRequests + 1 times, unless MaxConcurrentRequests is
    zero: then it panics. *)
Theorem FlushDataQueue_no_failover s :
  EnableFailover config = false → running s → settled s →
  if MaxConcurrentRequests config =? 0
  then sumo_FlushDataQueue config s = (Panic DivideByZero, s) ∧
       managed_FlushDataQueue config s = (Panic DivideByZero, s)
  else wp (sumo_FlushDataQueue config) (λ _ s', nsteps drained (flush_drains s) s s') s ∧
       wp (managed_FlushDataQueue config) (λ _ s', nsteps managed_drained (flush_drains s) s s') s.
Proof.
  intros He Hs Hset. destruct (Z.eqb_spec (MaxConcurrentRequests config) 0) as [H0|H0].
  - unfold sumo_FlushDataQueue, managed_FlushDataQueue. rewrite He.
    unfold go_bind, drain_calls, go_get. unfold go_bind. by rewrite H0.
  - by apply wp_FlushDataQueue_off.
Qed.

(** A negative MaxConcurrentRequests that does not exceed the length of
    the queue in absolute value makes the flush without failover do
    nothing: no payload is sent. *)
Theorem FlushDataQueue_negative_limit s :
  EnableFailover config = false → MaxConcurrentRequests config < 0 →
  - MaxConcurrentRequests config ≤ chan_len (dataQueue s) →
  sumo_FlushDataQueue config s = (Ret tt, s) ∧ managed_FlushDataQueue config s = (Ret tt, s).
Proof.
  intros He Hn Hlen. unfold sumo_FlushDataQueue, managed_FlushDataQueue. rewrite He.
  unfold go_bind. rewrite !drain_calls_eq by lia.
  assert (Z.quot (chan_len (dataQueue s)) (MaxConcurrentRequests config) + 1 ≤ 0) as Hq.
  { replace (MaxConcurrentRequests config) with (- - MaxConcurrentRequests config) by lia.
    rewrite Z.quot_opp_r by lia. rewrite Z.quot_div_nonneg by lia.
    assert (1 ≤ chan_len (dataQueue s) `div` (- MaxConcurrentRequests config)); [|lia].
    apply Z.div_le_lower_bound; lia. }
  unfold repeat_drain. by replace (Z.to_nat _) with 0%nat by lia.
Qed.

(** A producer parked on the full queue and a sender that fails: the
    drain takes one payload more than fits back, so its blocking sends park
    the consumer, which is the only receiver, for ever. *)
Theorem parked_producer_deadlocks_drain r s :
  running s → has_room (dataQueue s) = false → is_post r = true →
  (∀ ps w, ∃ e w', SendAllLogs ps w = (Ret (Some e), w')) →
  (logsHandler r s).1 = Block ∧ (sumo_DrainQueue (logsHandler r s).2).1 = Block.
Proof.
  intros Hs Hr Hp Hfail. unfold is_post in Hp. apply andb_true_iff in Hp as [Hp1 Hp2].
  assert (logsHandler r s = (Block, with_queue s (Chan (chan_cap (dataQueue s)) (buf (dataQueue s))
    (sendq (dataQueue s) ++ [body_data r]) false))) as ->.
  { unfold logsHandler. rewrite Hp1, Hp2. simpl. unfold go_bind, on_queue, zoom, send.
    destruct Hs as [_ Ho _ _]. by rewrite Hr, Ho. }
  split; [done|]. simpl. set (s' := with_queue _ _).
  assert (running s') as Hs'.
  { destruct Hs as [[H1 H2 H3] H4 H5 H6]. split; [split|..]; try done. simpl.
    unfold has_room, chan_len in *. simpl in *. by rewrite Hr. }
  rewrite DrainQueue_eq by done. destruct (Hfail (queued s') (ext s')) as (e & w & ->).
  rewrite decide_False; [done|]. unfold has_room, chan_len in Hr. apply Z.ltb_ge in Hr.
  unfold queued, contents. simpl. rewrite !length_app. simpl. lia.
Qed.

(** The managed consumer never parks on the queue: a failed drain of
    any queue keeps the first payloads up to the capacity and loses the
    others (those of parked producers). *)
Theorem managed_DrainQueue_keeps_capacity s e w :
  running s → queued s ≠ [] → SendAllLogs (queued s) (ext s) = (Ret (Some e), w) →
  ∃ s', managed_DrainQueue s = (Ret 0, s') ∧
    queued s' = take (Z.to_nat (chan_cap (dataQueue s))) (queued s).
Proof.
  intros Hs Hne Hsend. exists (with_ext (refilled (queued s) s) w). rewrite managed_DrainQueue_eq by done.
  split; [|unfold queued at 1, contents; simpl; by rewrite app_nil_r].
  rewrite Hsend. by destruct (queued s).
Qed.

(** One round of the managed loop: a signal is received, and if it is one of
    the two known ones the queue is drained. *)
Definition signal_round (s s' : wstate W) : Prop :=
  ∃ x c, try_recv EmptyString (flushSignal s) = (Ret (Some x), c) ∧
    if drains x then managed_drained (with_signals s c) s' else s' = with_signals s c.

Lemma wp_handle_signal x s :
  running s → settled s →
  wp (handle_signal x) (λ _ s', if drains x then managed_drained s s' else s' = s) s.
Proof.
  intros Hs Hset. unfold handle_signal, drains.
  assert (wp (let! _ := managed_DrainQueue in go_ret tt) (λ _ s', managed_drained s s') s).
  { apply wp_bind. eapply wp_mono; [by apply wp_managed_DrainQueue|]. intros ? ? [_ ?]. by apply wp_ret. }
  destruct (String.eqb x "queue_threshold"); [done|]. by destruct (String.eqb x "platform.report"); [|apply wp_ret].
Qed.

(** The managed loop, as long as the context is not done: a round for each
    signal, and the goroutine parks again when they are used up. *)
Theorem processFlushSignals_rounds n s :
  running s → settled s →
  let '(res, s') := processFlushSignals config (replicate n false) s in
  res = Block ∧ nsteps signal_round (Nat.min n (List.length (contents (flushSignal s)))) s s'.
Proof.
  revert s. induction n as [|n IH]; intros s Hs Hset; [by split; [|constructor]|]. simpl.
  unfold go_bind at 1, on_signals, zoom.
  pose proof Hs as [H1 H2 H3 H4]. pose proof (try_recv_spec EmptyString _ H3) as Hrecv.
  destruct (contents (flushSignal s)) as [|x xs] eqn:E.
  { rewrite Hrecv, H4. split; [done|]. replace (with_signals s (flushSignal s)) with s by by destruct s.
    constructor. }
  destruct Hrecv as (c' & Hr & Hc & Hok & Hcap & Hcl). rewrite Hr.
  set (s1 := with_signals s c'). assert (running s1) as Hs1 by (split; try done; by rewrite <- H4).
  pose proof (wp_handle_signal x s1 Hs1 Hset) as Hw. unfold go_bind. unfold wp in Hw.
  destruct (handle_signal x s1) as [[u|p|] s2]; [|done..].
  assert (running s2 ∧ settled s2 ∧ flushSignal s2 = c') as (Hs2 & Hset2 & Hf2).
  { destruct (drains x); [|by subst]. destruct (managed_drained_ok s1 s2 Hs1 Hset Hw) as [? ?].
    split; [done|]. split; [done|]. unfold managed_drained in Hw. destruct (queued s1); [by subst|].
    by destruct Hw as (err & [_ _ ?] & _). }
  specialize (IH s2 Hs2 Hset2). destruct (processFlushSignals config (replicate n false) s2) as [res s'].
  rewrite Hf2, Hc in IH. destruct IH as [-> IH]. split; [done|]. simpl. eapply nsteps_l; [|exact IH].
  by exists x, c'.
Qed.
End theorems.

(** ** With the real client *)
Section with_client.
Context `{E : Env} `{!GzipLaws E} (config : LambdaExtensionConfig).
#[local] Instance the_client : LogSender world := NewLogSenderClient config.
Implicit Types s : wstate world.

(** C13. With the failover on, a drain by the real client: for an empty queue
    it has no effect; otherwise the chunks of the enhanced items of all
    decodable payloads are posted, and the queue is put back exactly when a
    payload could not be decoded or a post reported an error.  When it is
    left empty each item is a line of a body that the endpoint acknowledged,
    that S3 stored, or that was given up on a 302 or a server error. *)
Theorem client_DrainQueue_no_loss s :
  NumRetry config < 2 ^ 63 - 1 → EnableFailover config = true →
  running s → Forall enhanceable (decoded (queued s)) →
  Z.of_nat (List.length (queued s)) ≤ chan_cap (dataQueue s) →
  wp sumo_DrainQueue (λ _ s', ∃ evs, trace (ext s') = trace (ext s) ++ evs ∧
    match queued s with
    | [] => evs = [] ∧ queued s' = []
    | _ => ∃ items chunks lost,
        Forall2 (enhances_to config) (decoded (queued s)) items ∧
        chunks = (createChunks config items).1 ∧ encodings items (flat_map payload_lines chunks) ∧
        deliveries config chunks evs lost ∧
        let bad := undecodable (queued s) + lost in
        queued s' = (if 0 <? bad then queued s else []) ∧
        (bad = 0 → Forall (λ l, ∃ body, l ∈ payload_lines (gunzip body) ∧ (kept evs body ∨ given_up evs body))
                     (flat_map payload_lines chunks))
    end) s.
Proof.
  intros H1 H2 H3 H4 H5. unfold wp. rewrite DrainQueue_eq by done.
  pose proof (wpe_SendAllLogs config H1 (queued s) (ext s) H4) as Hw. unfold wpe, wp in Hw. simpl.
  destruct (sumo_SendAllLogs config (queued s) (ext s)) as [[err|p|] w]; [|done..].
  destruct Hw as (evs & Ht & Hs). destruct (queued s) as [|m ms] eqn:Eq.
  { destruct Hs as [-> ->]. by exists []. }
  rewrite <- Eq in *. destruct Hs as (lost & [items HF Hd Hl] & ->).
  pose proof (undecodable_nonneg (queued s)). pose proof (deliveries_nonneg _ _ _ _ Hd).
  assert (undecodable (queued s) + lost = 0 →
    Forall (λ l, ∃ body, l ∈ payload_lines (gunzip body) ∧ (kept evs body ∨ given_up evs body))
      (flat_map payload_lines (createChunks config items).1)) as Hk.
  { intros Hbad. assert (lost = 0) as -> by lia. by apply (deliveries_lines config). }
  destruct (0 <? undecodable (queued s) + lost) eqn:Hbad; rewrite ?decide_True by done;
    exists evs; (split; [done|]); exists items, (createChunks config items).1, lost; rewrite Hbad; split_and!; try done.
  unfold queued at 1, contents. simpl. rewrite app_nil_r. apply take_ge. lia.
Qed.

(** C38. A payload that cannot be decoded is never removed: the drain sends
    the items of all the others, to an endpoint whose first answers are
    final, and then puts the whole queue back, to send them again the next
    time. *)
Theorem poison_payload_resends s :
  NumRetry config < 2 ^ 63 - 1 → KMSKeyId config = EmptyString →
  env_url_ok (SumoHTTPEndpoint config) = true → (∀ n r, final_answer (env_http n r) = true) →
  running s → Forall enhanceable (decoded (queued s)) →
  Z.of_nat (List.length (queued s)) ≤ chan_cap (dataQueue s) →
  0 < undecodable (queued s) →
  wp sumo_DrainQueue (λ _ s', queued s' = queued s ∧ ∃ evs items,
    trace (ext s') = trace (ext s) ++ evs ∧
    Forall2 (enhances_to config) (decoded (queued s)) items ∧
    encodings items (flat_map (payload_lines ∘ gunzip) (bodies evs))) s.
Proof.
  intros H1 H2 H3 H4 H5 H6 H7 H8. unfold wp. rewrite DrainQueue_eq by done.
  pose proof (wpe_SendAllLogs_final config H2 H3 H4 (queued s) (ext s) H1 H6) as Hw.
  unfold wpe, wp in Hw. simpl. destruct (sumo_SendAllLogs config (queued s) (ext s)) as [[err|p|] w]; [|done..].
  destruct Hw as (evs & Ht & items & HF & Hl & _ & Herr). destruct err as [e|]; [|pose proof (proj1 Herr eq_refl); lia].
  rewrite decide_True by done. split; [by apply queued_refilled|]. by exists evs, items.
Qed.

(** A null item in a payload makes the drain panic with the queue
    already emptied: its payloads are lost. *)
Theorem null_item_loses_queue s :
  running s → ¬ Forall enhanceable (decoded (queued s)) →
  ∃ p s', sumo_DrainQueue s = (Panic p, s') ∧ queued s' = [].
Proof.
  intros H1 H2. rewrite DrainQueue_eq by done. simpl. unfold sumo_SendAllLogs.
  destruct (queued s) as [|p ps]; [destruct H2; constructor|].
  unfold go_bind at 1. destruct (collect_panics config _ (0, []) (ext s) H2) as (pn & w' & ->). eauto.
Qed.
End with_client.

(** ** Examples *)
Definition filled (cap : Z) (l : list string) : wstate world :=
  WState world0 (Chan cap l [] false) (Chan 10 ["queue_threshold"; "other"]%string [] false).

Lemma filled_running cap l : Z.of_nat (List.length l) ≤ cap → running (filled cap l).
Proof. intros H. split; [split|..|split|]; simpl; unfold chan_len; simpl; try done; lia. Qed.

Definition tidy_payloads : list string :=
  [q "[{'type':'function','record':'hello'}]"; q "[{'type':'platform.runtimeDone'}]"].

Definition sample_laws (failover : bool) : LogSenderLaws (NewLogSenderClient (E := answering 200) (sample_config failover 100)) :=
  client_laws (E := answering 200) (sample_config failover 100) ltac:(simpl; lia).

Lemma tidy_settled failover : settled (LogSenderLaws0 := sample_laws failover) (filled 2 tidy_payloads).
Proof. split; [computed|simpl; lia]. Qed.


Lemma FlushDataQueue_failover_witness :
  let S := NewLogSenderClient (E := answering 200) (sample_config true 100) in
  let s := filled 2 tidy_payloads in
  wp (sumo_FlushDataQueue (H := S) (sample_config true 100)) (λ _ s', ∃ err,
    handed_over (FlushAll (LogSender := S)) true err s s' ∧
    (err = None → delivered (LogSenderLaws := sample_laws true) (queued s) (ext s) (ext s'))) s ∧
  wp (managed_FlushDataQueue (H := S) (sample_config true 100)) (λ _ s', ∃ err,
    handed_over (FlushAll (LogSender := S)) true err s s' ∧
    (err = None → delivered (LogSenderLaws := sample_laws true) (queued s) (ext s) (ext s'))) s.
Proof.
  apply (FlushDataQueue_failover (sample_config true 100) (LogSenderLaws0 := sample_laws true)); [done|done| |apply tidy_settled].
  apply filled_running. simpl. lia.
Defined.

Lemma FlushDataQueue_no_failover_witness :
  let S := NewLogSenderClient (E := answering 200) (sample_config false 100) in
  let n := flush_drains (sample_config false 100) (filled 2 tidy_payloads) in
  wp (sumo_FlushDataQueue (H := S) (sample_config false 100))
    (λ _ s', nsteps (drained (LogSenderLaws0 := sample_laws false)) n (filled 2 tidy_payloads) s') (filled 2 tidy_payloads) ∧
  wp (managed_FlushDataQueue (H := S) (sample_config false 100))
    (λ _ s', nsteps (managed_drained (LogSenderLaws0 := sample_laws false)) n (filled 2 tidy_payloads) s') (filled 2 tidy_payloads).
Proof.
  apply (FlushDataQueue_no_failover (sample_config false 100) (LogSenderLaws0 := sample_laws false)); [done| |apply tidy_settled].
  apply filled_running. simpl. lia.
Defined.

(** A configuration with a limit of -2 requests. *)
Definition negative_config : LambdaExtensionConfig := set_MaxConcurrentRequests (-2) (sample_config false 100).

Lemma FlushDataQueue_negative_limit_witness :
  let S := NewLogSenderClient (E := answering 200) negative_config in
  sumo_FlushDataQueue (H := S) negative_config (filled 2 tidy_payloads) = (Ret tt, filled 2 tidy_payloads) ∧
  managed_FlushDataQueue (H := S) negative_config (filled 2 tidy_payloads) = (Ret tt, filled 2 tidy_payloads).
Proof. apply FlushDataQueue_negative_limit; [done|simpl; lia|]. unfold chan_len. simpl. lia. Defined.

(** A sender that always fails. *)
Definition refusing : LogSender world := {|
  SendLogs := λ _, go_ret (Some ErrTransport);
  SendAllLogs := λ _, go_ret (Some ErrTransport);
  FlushAll := λ _, go_ret (Some ErrTransport) |}.

Lemma parked_producer_deadlocks_drain_witness :
  (logsHandler (post "c") (filled 2 tidy_payloads)).1 = Block ∧
  (sumo_DrainQueue (H := refusing) (logsHandler (post "c") (filled 2 tidy_payloads)).2).1 = Block.
Proof.
  apply parked_producer_deadlocks_drain; [apply filled_running; simpl; lia|done|done|].
  intros ps w. by eexists _, _.
Defined.

Lemma managed_DrainQueue_keeps_capacity_witness :
  let s := WState world0 (Chan 1 ["a"%string] ["b"%string] false) (Chan 10 [] [] false) in
  ∃ s', managed_DrainQueue (H := refusing) s = (Ret 0, s') ∧ queued s' = ["a"%string].
Proof.
  apply (managed_DrainQueue_keeps_capacity (Sender := refusing)
    (WState world0 (Chan 1 ["a"%string] ["b"%string] false) (Chan 10 [] [] false)) ErrTransport world0); [|done|done].
  split; [split|..|split|]; simpl; unfold chan_len; simpl; try done; lia.
Defined.

Lemma processFlushSignals_rounds_witness :
  let '(res, s') := processFlushSignals (H := NewLogSenderClient (E := answering 200) (sample_config true 100))
    (sample_config true 100) (replicate 5 false) (filled 2 tidy_payloads) in
  res = Block ∧ nsteps (signal_round (LogSenderLaws0 := sample_laws true)) 2 (filled 2 tidy_payloads) s'.
Proof.
  apply (processFlushSignals_rounds (sample_config true 100) (LogSenderLaws0 := sample_laws true) 5);
    [|apply tidy_settled]. apply filled_running. simpl. lia.
Defined.

(** A server error on the only chunk: the queue is emptied all the same. *)
Lemma client_DrainQueue_no_loss_witness :
  let s := filled 2 tidy_payloads in
  let config := sample_config true 100 in
  wp (sumo_DrainQueue (H := NewLogSenderClient (E := answering 503) config))
    (λ _ s', ∃ evs, trace (ext s') = trace (ext s) ++ evs ∧ ∃ items chunks lost,
        Forall2 (enhances_to (E := answering 503) config) (decoded (queued s)) items ∧
        chunks = (createChunks config items).1 ∧ encodings items (flat_map payload_lines chunks) ∧
        deliveries (E := answering 503) config chunks evs lost ∧
        let bad := undecodable (queued s) + lost in
        queued s' = (if 0 <? bad then queued s else []) ∧
        (bad = 0 → Forall (λ l, ∃ body, l ∈ payload_lines (gunzip (E := answering 503) body) ∧ (kept evs body ∨ given_up evs body))
                     (flat_map payload_lines chunks))) s.
Proof.
  apply (client_DrainQueue_no_loss (E := answering 503) (sample_config true 100) (filled 2 tidy_payloads));
    [simpl; lia|done| |computed|simpl; lia].
  apply filled_running. simpl. lia.
Defined.

Lemma poison_payload_resends_witness :
  let s := filled 4 sample_payloads in
  wp (sumo_DrainQueue (H := NewLogSenderClient (E := answering 200) (sample_config true 100)))
    (λ _ s', queued s' = queued s ∧ ∃ evs items,
      trace (ext s') = trace (ext s) ++ evs ∧
      Forall2 (enhances_to (E := answering 200) (sample_config true 100)) (decoded (queued s)) items ∧
      encodings items (flat_map (payload_lines ∘ gunzip (E := answering 200)) (bodies evs))) s.
Proof.
  apply (poison_payload_resends (E := answering 200));
    [simpl; lia|done|done|done| |computed|simpl; lia|vm_compute; done].
  apply filled_running. simpl. lia.
Defined.

Lemma null_item_loses_queue_witness :
  ∃ p s', sumo_DrainQueue (H := NewLogSenderClient (E := answering 200) (sample_config true 100))
    (filled 2 ["[null]"; "[]"]%string) = (Panic p, s') ∧ queued s' = [].
Proof.
  apply (null_item_loses_queue (E := answering 200)); [apply filled_running; simpl; lia|computed].
Defined.
