(* ===== verification/LambdaApi.v ===== *)
(** * Package lambdaapi (httpclient.go, extensionapiclient.go, logsapiclient.go, telemetryapiclient.go)

    The client of the Lambda runtime's extension, logs and telemetry APIs.  Its
    only mutable field is [extensionID]; the state of its calls is the
    [world] and that field. *)
From S2P Require Import Prelude GoStrings GoFloat Digits GoJson GoJsonRoundtrip Env.
From Stdlib Require Import String.
Open Scope Z_scope.

(** ** Data *)
Record Client := MkClient {
  baseURL : string;
  extensionID : string;
  extensionName : string }.

Definition extensionNameHeader : string := "Lambda-Extension-Name".
Definition extensionIdentiferHeader : string := "Lambda-Extension-Identifier".
Definition extensionErrorType : string := "Lambda-Extension-Function-Error-Type".

Definition extensionURL : string := "2020-01-01/extension/".
Definition logsURL : string := "2020-08-15/logs".
Definition telemetryURL : string := "2022-07-01/telemetry".
Definition receiverPort : Z := 4243.
Definition timeoutMs : Z := 1000.
Definition maxBytes : Z := 1048576.
Definition maxItems : Z := 10000.

Definition Invoke : string := "INVOKE".
Definition Shutdown : string := "SHUTDOWN".
Definition lambdaEvents : list string := ["INVOKE"; "SHUTDOWN"]%string.
Definition managedInstanceLambdaEvents : list string := ["SHUTDOWN"%string].

Record RegisterResponse := MkRegisterResponse {
  rr_functionName : string; rr_functionVersion : string; rr_handler : string }.
Record Tracing := MkTracing { tr_type : string; tr_value : string }.
Record NextEventResponse := MkNextEventResponse {
  EventType : string; DeadlineMs : Z; RequestID : string; InvokedFunctionArn : string;
  ne_tracing : Tracing }.
Record StatusResponse := MkStatusResponse { sr_status : string }.

(** *** Decoding the responses: the fields by their folded names *)
Definition register_field (name : string) (j : json) (r : RegisterResponse) : decoding RegisterResponse :=
  if String.eqb name "functionname" then
    decode_string (λ v r, MkRegisterResponse v (rr_functionVersion r) (rr_handler r)) j r
  else if String.eqb name "functionversion" then
    decode_string (λ v r, MkRegisterResponse (rr_functionName r) v (rr_handler r)) j r
  else if String.eqb name "handler" then
    decode_string (λ v r, MkRegisterResponse (rr_functionName r) (rr_functionVersion r) v) j r
  else (r, true).

Definition tracing_field (name : string) (j : json) (t : Tracing) : decoding Tracing :=
  if String.eqb name "type" then decode_string (λ v t, MkTracing v (tr_value t)) j t
  else if String.eqb name "value" then decode_string (λ v t, MkTracing (tr_type t) v) j t
  else (t, true).

Definition next_field (name : string) (j : json) (r : NextEventResponse) : decoding NextEventResponse :=
  if String.eqb name "eventtype" then
    decode_string (λ v r, MkNextEventResponse v (DeadlineMs r) (RequestID r) (InvokedFunctionArn r) (ne_tracing r)) j r
  else if String.eqb name "deadlinems" then
    decode_int64 (λ v r, MkNextEventResponse (EventType r) v (RequestID r) (InvokedFunctionArn r) (ne_tracing r)) j r
  else if String.eqb name "requestid" then
    decode_string (λ v r, MkNextEventResponse (EventType r) (DeadlineMs r) v (InvokedFunctionArn r) (ne_tracing r)) j r
  else if String.eqb name "invokedfunctionarn" then
    decode_string (λ v r, MkNextEventResponse (EventType r) (DeadlineMs r) (RequestID r) v (ne_tracing r)) j r
  else if String.eqb name "tracing" then
    let d := decode_struct tracing_field (ne_tracing r) j in
    (MkNextEventResponse (EventType r) (DeadlineMs r) (RequestID r) (InvokedFunctionArn r) d.1, d.2)
  else (r, true).

Definition status_field (name : string) (j : json) (r : StatusResponse) : decoding StatusResponse :=
  if String.eqb name "status" then decode_string (λ v _, MkStatusResponse v) j r else (r, true).

Definition zero_register := MkRegisterResponse EmptyString EmptyString EmptyString.
Definition zero_next := MkNextEventResponse EmptyString 0 EmptyString EmptyString (MkTracing EmptyString EmptyString).
Definition zero_status := MkStatusResponse EmptyString.

(** *** The state of the calls *)
Record api := Api { net : world; client : Client }.
Definition set_net (s : api) (w : world) : api := Api w (client s).
Definition set_extensionID (id : string) (s : api) : api :=
  Api (net s) (MkClient (baseURL (client s)) id (extensionName (client s))).

(** ** Operations *)
Section api.
Context `{E : Env}.

Definition NewClient (awsLambdaRuntimeAPI extensionName : string) : Client :=
  MkClient ("http://" +:+ awsLambdaRuntimeAPI +:+ "/") EmptyString extensionName.

Definition on_net {A} : Go world A → Go api A := zoom net set_net.

(** The deferred close runs on every return after a response. *)
Definition MakeRequestWithContext (headers : gmap string string) (request : string)
    (methodType URL : string) : Go api (string * option error) :=
  if negb (env_url_ok URL) then go_ret (EmptyString, Some ErrBadURL)
  else
    let header := headers ∪ {["Content-Type"%string := "application/json"%string]} in
    let! httpRes := on_net (http_do (Request methodType URL header request)) in
    match httpRes with
    | None => go_ret (EmptyString, Some ErrTransport)
    | Some httpRes =>
        let! result :=
          match res_body httpRes with
          | None => go_ret (EmptyString, Some ErrReadBody)
          | Some body =>
              if negb (StatusCode httpRes =? 200)
              then go_ret (EmptyString, Some (ErrRequestFailed (StatusCode httpRes) body))
              else
                let id := default EmptyString (res_header httpRes !! extensionIdentiferHeader) in
                (if negb (String.eqb id EmptyString) then go_modify (set_extensionID id) else go_ret tt) ;;;
                go_ret (body, None)
          end in
        on_net body_close ;;;
        go_ret result
    end.

Definition MakeRequest (headers : gmap string string) (request : string)
    (methodType URL : string) : Go api (string * option error) :=
  if negb (env_url_ok URL) then go_ret (EmptyString, Some ErrBadURL)
  else
    let header := headers ∪ {["Content-Type"%string := "application/json"%string]} in
    let! httpRes := on_net (http_do (Request methodType URL header request)) in
    match httpRes with
    | None => go_ret (EmptyString, Some ErrTransport)
    | Some httpRes =>
        let! result :=
          match res_body httpRes with
          | None => go_ret (EmptyString, Some ErrReadBody)
          | Some body =>
              if negb (StatusCode httpRes =? 200)
              then go_ret (EmptyString, Some (ErrRequestFailed (StatusCode httpRes) body))
              else
                let id := default EmptyString (res_header httpRes !! extensionIdentiferHeader) in
                (if negb (String.eqb id EmptyString) then go_modify (set_extensionID id) else go_ret tt) ;;;
                go_ret (body, None)
          end in
        on_net body_close ;;;
        go_ret result
    end.

(** [if ctx != nil { MakeRequestWithContext } else { MakeRequest }] *)
Definition request_with (ctx : bool) (headers : gmap string string) (request methodType URL : string) :
    Go api (string * option error) :=
  if ctx then MakeRequestWithContext headers request methodType URL
  else MakeRequest headers request methodType URL.

(** The tail of the calls that decode a struct. *)
Definition decode_response {A} (decode : string → option A) (r : string * option error) : option A * option error :=
  match r with
  | (_, Some e) => (None, Some e)
  | (body, None) => match decode body with Some a => (Some a, None) | None => (None, Some ErrUnmarshal) end
  end.

Definition strings_json (l : list string) : option string := marshal (VArr (map VStr l)).

Definition RegisterExtension (ctx isManagedInstance : bool) : Go api (option RegisterResponse * option error) :=
  let! s := go_get in
  let URL := baseURL (client s) +:+ extensionURL +:+ "register" in
  let events := if isManagedInstance then managedInstanceLambdaEvents else lambdaEvents in
  match encode_object [("events"%string, strings_json events)] with
  | None => go_ret (None, Some ErrMarshal)
  | Some reqBody =>
      let! response := request_with ctx {[extensionNameHeader := extensionName (client s)]} reqBody "POST" URL in
      go_ret (decode_response (unmarshal_struct register_field zero_register) response)
  end.

Definition NextEvent (ctx : bool) : Go api (option NextEventResponse * option error) :=
  let! s := go_get in
  let URL := baseURL (client s) +:+ extensionURL +:+ "event/next" in
  let! response := request_with ctx {[extensionIdentiferHeader := extensionID (client s)]} EmptyString "GET" URL in
  go_ret (decode_response (unmarshal_struct next_field zero_next) response).

Definition error_headers (id errorType : string) : gmap string string :=
  <[extensionErrorType := errorType]> {[extensionIdentiferHeader := id]}.

Definition InitError (ctx : bool) (errorType : string) : Go api (option StatusResponse * option error) :=
  let! s := go_get in
  let URL := baseURL (client s) +:+ extensionURL +:+ "/init/error" in
  let! response := request_with ctx (error_headers (extensionID (client s)) errorType) EmptyString "POST" URL in
  go_ret (decode_response (unmarshal_struct status_field zero_status) response).

Definition ExitError (ctx : bool) (errorType : string) : Go api (option StatusResponse * option error) :=
  let! s := go_get in
  let URL := baseURL (client s) +:+ extensionURL +:+ "/exit/error" in
  let! response := request_with ctx (error_headers (extensionID (client s)) errorType) EmptyString "POST" URL in
  go_ret (decode_response (unmarshal_struct status_field zero_status) response).

(** The body of both subscriptions; json.Marshal sorts the keys. *)
Definition subscription (types : list string) (timeout bytes items : Z) (schemaVersion : string) : option string :=
  encode_object
    [("destination"%string,
        encode_object [("protocol"%string, marshal (VStr "HTTP"));
                       ("URI"%string, marshal (VStr ("http://sandbox:" +:+ itoa receiverPort)))]);
     ("types"%string, strings_json types);
     ("buffering"%string,
        encode_object [("timeoutMs"%string, Some (itoa timeout)); ("maxBytes"%string, Some (itoa bytes));
                       ("maxItems"%string, Some (itoa items))]);
     ("schemaVersion"%string, marshal (VStr schemaVersion))].

Definition subscribe (ctx : bool) (URL : string) (reqBody : option string) : Go api (string * option error) :=
  let! s := go_get in
  match reqBody with
  | None => go_ret (EmptyString, Some ErrMarshal)
  | Some reqBody =>
      let! (response, err) :=
        request_with ctx {[extensionIdentiferHeader := extensionID (client s)]} reqBody "PUT" URL in
      match err with
      | Some e => go_ret (EmptyString, Some e)
      | None => go_ret (response, None)
      end
  end.

Definition SubscribeToLogsAPI (ctx : bool) (logEvents : list string) : Go api (string * option error) :=
  let! s := go_get in
  subscribe ctx (baseURL (client s) +:+ logsURL)
    (subscription logEvents timeoutMs maxBytes maxItems "2021-03-18").

Definition SubscribeToTelemetryAPI (ctx : bool) (logEvents : list string)
    (telemetryTimeoutMs telemetryMaxBytes telemetryMaxItems : Z) (isManagedInstance : bool) :
    Go api (string * option error) :=
  let! s := go_get in
  let schemaVersion := if isManagedInstance then "2025-01-29"%string else "2022-07-01"%string in
  subscribe ctx (baseURL (client s) +:+ telemetryURL)
    (subscription logEvents telemetryTimeoutMs telemetryMaxBytes telemetryMaxItems schemaVersion).
End api.

(** ** Theorems *)
Section theorems.
Context `{E : Env}.
Implicit Types s : api.

(** *** One exchange, as a function of the answer *)
Definition api_result (res : option response) : string * option error :=
  match res with
  | None => (EmptyString, Some ErrTransport)
  | Some r =>
      match res_body r with
      | None => (EmptyString, Some ErrReadBody)
      | Some body => if StatusCode r =? 200 then (body, None)
                     else (EmptyString, Some (ErrRequestFailed (StatusCode r) body))
      end
  end.

(** The identifier the client keeps: that of the answer when there is one
    and the call succeeded. *)
Definition next_id (id : string) (res : option response) : string :=
  match res with
  | Some r =>
      match api_result res, res_header r !! extensionIdentiferHeader with
      | (_, None), Some id' => if String.eqb id' EmptyString then id else id'
      | _, _ => id
      end
  | None => id
  end.

Definition after_exchange (s : api) (r : request) (res : option response) : api :=
  Api (World (S (tick (net s)))
         (trace (net s) ++ EvHttp r res :: match res with Some _ => [EvBodyClose] | None => [] end)
         (isColdStart (net s)) (decryptedSumoHttpEndpoint (net s)) (kmsEndpointCacheTime (net s)))
      (MkClient (baseURL (client s)) (next_id (extensionID (client s)) res) (extensionName (client s))).

Definition api_request (headers : gmap string string) (body methodType URL : string) : request :=
  Request methodType URL (headers ∪ {["Content-Type"%string := "application/json"%string]}) body.

Definition call (headers : gmap string string) (body methodType URL : string) : Go api (string * option error) := λ s,
  if env_url_ok URL then
    let r := api_request headers body methodType URL in
    let res := env_http (tick (net s)) r in
    (Ret (api_result res), after_exchange s r res)
  else (Ret (EmptyString, Some ErrBadURL), s).

Lemma MakeRequestWithContext_eq headers body m URL :
  MakeRequestWithContext headers body m URL ≡ call headers body m URL.
Proof.
  intros s. unfold MakeRequestWithContext, call. destruct (env_url_ok URL); simpl; [|done].
  unfold go_bind, on_net, zoom, http_do, next_tick, emit, go_modify, go_ret, body_close. simpl.
  fold (api_request headers body m URL). unfold after_exchange, next_id, api_result.
  destruct s as [[t tr cs d k] [u i n]]. simpl.
  destruct (env_http t (api_request headers body m URL)) as [[code hdr [b|]]|]; simpl; [|unfold set_net; simpl..].
  - destruct (code =? 200); simpl; [|unfold set_net; simpl; by rewrite <- app_assoc].
    destruct (hdr !! extensionIdentiferHeader) as [id'|]; simpl.
    + destruct (String.eqb id' EmptyString); simpl; unfold set_net, set_extensionID; simpl; by rewrite <- app_assoc.
    + unfold set_net. simpl. by rewrite <- app_assoc.
  - by rewrite <- app_assoc.
  - done.
Qed.

Lemma request_with_eq ctx headers body m URL : request_with ctx headers body m URL ≡ call headers body m URL.
Proof. destruct ctx; exact (MakeRequestWithContext_eq headers body m URL). Qed.

Lemma request_with_at ctx headers body m URL s : request_with ctx headers body m URL s = call headers body m URL s.
Proof. apply request_with_eq. Qed.

Lemma encode_object_is_Some l : Forall (λ p : string * option string, is_Some p.2) l → is_Some (encode_object l).
Proof.
  intros H. unfold encode_object. rewrite fmap_is_Some, all_some_is_Some, Forall_map, by_key_Permutation.
  eapply Forall_impl; [exact H|]. intros [k v] [t Ht]. simpl in *. subst. by eexists.
Qed.

Lemma strings_json_is_Some l : is_Some (strings_json l).
Proof. apply marshal_arr_Some. apply Forall_map, Forall_forall. intros x _. by eexists. Qed.

Lemma marshal_str_is_Some t : is_Some (marshal (VStr t)).
Proof. by exists (json_quote t). Qed.

Lemma subscription_is_Some types t b i v : is_Some (subscription types t b i v).
Proof.
  unfold subscription.
  repeat first [apply encode_object_is_Some | apply Forall_cons; split | apply Forall_nil; exact I
    | apply marshal_str_is_Some | apply strings_json_is_Some | eexists; reflexivity].
Qed.

(** What the telemetry API reads in a subscription. *)
Definition subscription_json (types : list string) (schemaVersion : string) (timeout bytes items : literal) : json :=
  JObj
    [("buffering", JObj [("maxBytes", JNum bytes); ("maxItems", JNum items); ("timeoutMs", JNum timeout)]);
     ("destination", JObj [("URI", JStr ("http://sandbox:" +:+ itoa receiverPort)); ("protocol", JStr "HTTP")]);
     ("schemaVersion", JStr schemaVersion);
     ("types", JArr (map JStr types))]%string.

Lemma subscription_reads types t b i v :
  Forall (λ x, utf8_valid x = true) types → utf8_valid v = true →
  0 ≤ t < 2 ^ 63 → 0 ≤ b < 2 ^ 63 → 0 ≤ i < 2 ^ 63 →
  ∃ body lt lb li, subscription types t b i v = Some body ∧ json_parse body = Some (subscription_json types v lt lb li) ∧
    int_literal t lt ∧ int_literal b lb ∧ int_literal i li.
Proof.
  intros Htypes Hv Ht Hb Hi.
  destruct (reads_int t 2 Ht) as (lt & Hlt & Rt), (reads_int b 2 Hb) as (lb & Hlb & Rb), (reads_int i 2 Hi) as (li & Hli & Ri).
  assert (∀ k x d j, utf8_valid k = true → reads x d j → reads_member d (k, x) (k, j)) as Hm by (intros; split; [done|by split]).
  destruct (encode_object_reads [("timeoutMs", Some (itoa t)); ("maxBytes", Some (itoa b)); ("maxItems", Some (itoa i))]%string
    [("maxBytes", itoa b); ("maxItems", itoa i); ("timeoutMs", itoa t)]%string
    [("maxBytes", JNum lb); ("maxItems", JNum li); ("timeoutMs", JNum lt)]%string 1) as (buf & Hbuf & Rbuf); [done|done| |].
  { by repeat (apply Forall2_cons; split; [by apply Hm|]). }
  set (uri := ("http://sandbox:" +:+ itoa receiverPort)%string).
  destruct (encode_object_reads [("protocol", marshal (VStr "HTTP")); ("URI", marshal (VStr uri))]%string
    [("URI", json_quote uri); ("protocol", json_quote "HTTP")]%string
    [("URI", JStr uri); ("protocol", JStr "HTTP")]%string 1) as (dst & Hdst & Rdst); [done|done| |].
  { by repeat (apply Forall2_cons; split; [by apply Hm; [|apply reads_str]|]). }
  destruct (strings_read types 1 ltac:(done) Htypes) as (ts & Hts & Rts).
  destruct (encode_object_reads [("destination", Some dst); ("types", Some ts); ("buffering", Some buf); ("schemaVersion", marshal (VStr v))]%string
    [("buffering", buf); ("destination", dst); ("schemaVersion", json_quote v); ("types", ts)]%string
    [("buffering", JObj [("maxBytes", JNum lb); ("maxItems", JNum li); ("timeoutMs", JNum lt)]);
     ("destination", JObj [("URI", JStr uri); ("protocol", JStr "HTTP")]);
     ("schemaVersion", JStr v); ("types", JArr (map JStr types))]%string 0) as (body & Hbody & Rbody); [done|done| |].
  { repeat (apply Forall2_cons; split; [apply Hm; [done|]|]); try done. by apply reads_str. }
  exists body, lt, lb, li. split; [|split; [by apply reads_parse|done]].
  unfold subscription. fold uri. unfold strings_json. by rewrite Hdst, Hts, Hbuf.
Qed.

(** C37. [MakeRequest] and [MakeRequestWithContext] do the same: a bad URL
    costs no request; otherwise one request with the given headers and the
    JSON content type; an error for a failed transport, an unreadable body
    or a status other than 200; the body closed after every answer; the
    identifier of the extension updated by a success that carries one. *)
Theorem MakeRequest_spec ctx headers body m URL :
  request_with ctx headers body m URL ≡ call headers body m URL.
Proof. apply request_with_eq. Qed.

(** C36. The identifier handed out by a successful registration is sent by
    the next call: [RegisterExtension] posts the events of the mode with the
    extension's name, and [NextEvent] then carries the new identifier. *)
Theorem Register_then_NextEvent (isManagedInstance : bool) s res id :
  env_url_ok (baseURL (client s) +:+ extensionURL +:+ "register") = true →
  env_url_ok (baseURL (client s) +:+ extensionURL +:+ "event/next") = true →
  (∀ r, env_http (tick (net s)) r = Some res) → StatusCode res = 200 → is_Some (res_body res) →
  res_header res !! extensionIdentiferHeader = Some id → id ≠ EmptyString →
  let s1 := (RegisterExtension true isManagedInstance s).2 in
  let s2 := (NextEvent true s1).2 in
  extensionID (client s1) = id ∧
  ∃ body answer, strings_json (if isManagedInstance then managedInstanceLambdaEvents else lambdaEvents) = Some body ∧
    trace (net s2) = trace (net s) ++
      EvHttp (api_request {[extensionNameHeader := extensionName (client s)]}
                ("{" +:+ json_quote "events" +:+ ":" +:+ body +:+ "}") "POST"
                (baseURL (client s) +:+ extensionURL +:+ "register")) (Some res) :: EvBodyClose ::
      EvHttp (api_request {[extensionIdentiferHeader := id]} EmptyString "GET"
                (baseURL (client s) +:+ extensionURL +:+ "event/next")) answer ::
      match answer with Some _ => [EvBodyClose] | None => [] end.
Proof.
  intros Hu1 Hu2 Hres Hcode [b Hb] Hid Hne s1 s2.
  destruct (strings_json_is_Some (if isManagedInstance then managedInstanceLambdaEvents else lambdaEvents)) as [body Hbody].
  assert (Hs1 : s1 = after_exchange s (api_request {[extensionNameHeader := extensionName (client s)]}
    ("{" +:+ json_quote "events" +:+ ":" +:+ body +:+ "}") "POST"
    (baseURL (client s) +:+ extensionURL +:+ "register")) (Some res)).
  { subst s1. unfold RegisterExtension, go_bind at 1, go_get. rewrite Hbody.
    change (encode_object [("events"%string, Some body)])
      with (Some ("{" +:+ json_quote "events" +:+ ":" +:+ body +:+ "}")).
    unfold go_bind. rewrite request_with_at. unfold call. rewrite Hu1. by rewrite Hres. }
  assert (Hid1 : extensionID (client s1) = id).
  { rewrite Hs1. unfold after_exchange, next_id, api_result. simpl. rewrite Hb, Hcode. simpl. rewrite Hid.
    by apply String.eqb_neq in Hne as ->. }
  split; [done|]. exists body. subst s2. unfold NextEvent, go_bind, go_get. rewrite request_with_at.
  unfold call. replace (baseURL (client s1)) with (baseURL (client s)) by by rewrite Hs1.
  rewrite Hu2. rewrite Hid1. eexists. split; [done|]. simpl. rewrite Hs1. unfold after_exchange at 1. simpl.
  by rewrite <- app_assoc.
Qed.

(** The telemetry subscription as one exchange. *)
Theorem SubscribeToTelemetryAPI_spec ctx types t b i (isManagedInstance : bool) s :
  ∃ body, subscription types t b i (if isManagedInstance then "2025-01-29" else "2022-07-01")%string = Some body ∧
    SubscribeToTelemetryAPI ctx types t b i isManagedInstance s =
      call {[extensionIdentiferHeader := extensionID (client s)]} body "PUT" (baseURL (client s) +:+ telemetryURL) s.
Proof.
  destruct (subscription_is_Some types t b i (if isManagedInstance then "2025-01-29" else "2022-07-01")%string) as [body Hb].
  exists body. split; [done|]. unfold SubscribeToTelemetryAPI, subscribe, go_bind, go_get. rewrite Hb.
  rewrite request_with_at. unfold call. destruct (env_url_ok _); [|done].
  destruct (env_http _ _) as [[code hdr [b'|]]|]; simpl; try done. by destruct (code =? 200).
Qed.

(** The two error reports go to a path with a doubled slash. *)
Theorem error_report_urls ctx e s :
  env_url_ok (baseURL (client s) +:+ "2020-01-01/extension//init/error") = true →
  env_url_ok (baseURL (client s) +:+ "2020-01-01/extension//exit/error") = true →
  (∃ h a k, trace (net (InitError ctx e s).2) = trace (net s) ++
     EvHttp (api_request h EmptyString "POST" (baseURL (client s) +:+ "2020-01-01/extension//init/error")) a :: k) ∧
  (∃ h a k, trace (net (ExitError ctx e s).2) = trace (net s) ++
     EvHttp (api_request h EmptyString "POST" (baseURL (client s) +:+ "2020-01-01/extension//exit/error")) a :: k).
Proof.
  intros H1 H2. unfold InitError, ExitError, go_bind, go_get.
  split; rewrite request_with_at; unfold call;
    change (extensionURL +:+ "/init/error")%string with "2020-01-01/extension//init/error"%string;
    change (extensionURL +:+ "/exit/error")%string with "2020-01-01/extension//exit/error"%string;
    rewrite ?H1, ?H2; simpl; eauto.
Qed.
End theorems.

(** ** Examples *)
Definition registered : option response :=
  Some (Response 200 {[extensionIdentiferHeader := "id-1"%string]}
    (Some (q "{'FunctionName':'f','functionVersion':null,'handler':'h','other':[1]}"))).

Definition sample_api : api := Api world0 (NewClient "127.0.0.1:9001" "ext").

Example decode_next :
  unmarshal_struct next_field zero_next
    (q "{'eventType':'INVOKE','deadlineMs':676051,'requestId':'3da1','tracing':{'type':'t','Value':'v'}}")
  = Some (MkNextEventResponse "INVOKE" 676051 "3da1" EmptyString (MkTracing "t" "v")).
Proof. vm_compute. reflexivity. Qed.
Example decode_next_bad :
  map (unmarshal_struct next_field zero_next)
    [q "{'deadlineMs':1.5}"; q "{'deadlineMs':'1'}"; q "[1]"; q "{'eventType':1}"] = [None; None; None; None].
Proof. vm_compute. reflexivity. Qed.
Example subscription_body :
  subscription ["platform"; "function"]%string 1000 262144 10000 "2022-07-01" =
  Some (q "{'buffering':{'maxBytes':262144,'maxItems':10000,'timeoutMs':1000},'destination':{'URI':'http://sandbox:4243','protocol':'HTTP'},'schemaVersion':'2022-07-01','types':['platform','function']}").
Proof. vm_compute. reflexivity. Qed.

Lemma Register_then_NextEvent_witness :
  let E := sample_env ∅ (always registered) true in
  extensionID (client (RegisterExtension (E := E) true true sample_api).2) = "id-1"%string.
Proof.
  apply (Register_then_NextEvent (E := sample_env ∅ (always registered) true) true sample_api
    (Response 200 {[extensionIdentiferHeader := "id-1"%string]}
      (Some (q "{'FunctionName':'f','functionVersion':null,'handler':'h','other':[1]}"))) "id-1"); try reflexivity.
  - by eexists.
  - discriminate.
Defined.

Lemma error_report_urls_witness :
  let E := sample_env ∅ (always registered) true in
  (∃ h a k, trace (net (InitError (E := E) true "x" sample_api).2) =
       EvHttp (api_request h EmptyString "POST" "http://127.0.0.1:9001/2020-01-01/extension//init/error") a :: k) ∧
  (∃ h a k, trace (net (ExitError (E := E) true "x" sample_api).2) =
       EvHttp (api_request h EmptyString "POST" "http://127.0.0.1:9001/2020-01-01/extension//exit/error") a :: k).
Proof. apply (error_report_urls (E := sample_env ∅ (always registered) true) true "x" sample_api); reflexivity. Defined.
