(* ===== verification/Extension.v ===== *)
(** * Package main (sumologic-extension.go)

    The start of the process, the handshake with the runtime API and the loop
    over its events.  The state is that of the workers and that of the API
    client; both see the same [world].

    While the main goroutine waits in [nextEvent], or yields to the scheduler
    ([runtime.Gosched]), the other goroutines run: the HTTP handlers, and in
    managed mode the consumer.  What they do to the shared state of the
    workers is an arbitrary function, one for each wait and each yield, the
    wait of the deferred recover included.  What they do while the main
    goroutine is inside a drain or a flush is the subject of System.v. *)
From S2P Require Import Prelude GoStrings GoFloat Digits GoJson GoJsonRoundtrip Env Config SumoClient SumoChunks SumoEnhance SumoPost SumoCalls Utils GoChan Workers Producers Consumers LambdaApi.
From Stdlib Require Import String.
Open Scope Z_scope.

Record globals := Globals {
  g_config : LambdaExtensionConfig;
  isManagedInstance : bool;
  producer : option (TaskProducer world);
  consumer : option (TaskConsumer (wstate world));
  managedInstanceProducer : option (TaskProducer world);
  managedInstanceConsumer : option (ManagedInstanceTaskConsumer (wstate world)) }.

Record est := Est { workers : wstate world; extensionClient : Client }.

Definition set_workers (s : est) (w : wstate world) : est := Est w (extensionClient s).
Definition api_of (s : est) : api := Api (ext (workers s)) (extensionClient s).
Definition set_api (s : est) (a : api) : est := Est (with_ext (workers s) (net a)) (client a).

Definition on_workers {A} : Go (wstate world) A → Go est A := zoom workers set_workers.
Definition on_api {A} : Go api A → Go est A := zoom api_of set_api.

(** What the other goroutines do during a wait. *)
Definition others := wstate world → wstate world.

(** What a turn of the event loop meets: whether the select finds the context
    done, and what the others do while the main goroutine yields and while
    it waits for the next event. *)
Record turn := Turn {
  ctx_done : bool;
  at_gosched : others;
  at_wait : others }.

Section extension.
Context `{E : Env}.

(** [init]: an invalid configuration is only logged.  In standard mode the
    signal channel stays nil; nothing uses it. *)
Definition init (w : world) : gores (globals * est) :=
  let config := GetConfig.1 in
  let extensionClient := NewClient (getenv "AWS_LAMBDA_RUNTIME_API") ExtensionName in
  match @make_chan string unit (MaxDataQueueLength config) tt with
  | (Ret dataQueue, _) =>
      if String.eqb (getenv "AWS_LAMBDA_INITIALIZATION_TYPE") "lambda-managed-instances" then
        let flushSignal := Chan 10 [] [] false in
        Ret (Globals config true None None
               (Some NewManagedInstanceTaskProducer)
               (Some (NewManagedInstanceTaskConsumer (H := NewLogSenderClient config) config)),
             Est (WState w dataQueue flushSignal) extensionClient)
      else
        Ret (Globals config false (Some NewTaskProducer)
               (Some (NewTaskConsumer (H := NewLogSenderClient config) config)) None None,
             Est (WState w dataQueue (Chan 0 [] [] false)) extensionClient)
  | (Panic p, _) => Panic p
  | (Block, _) => Block
  end.

(** The packages are initialised before [main]'s [init] runs. *)
Definition boot (w : world) : gores (globals * est) :=
  match (utils_init ;;; package_vars) w with
  | (Ret _, w') => init w'
  | (Panic p, _) => Panic p
  | (Block, _) => Block
  end.

Context (g : globals).

Definition nextEvent (o : others) : Go est (option NextEventResponse * option error) :=
  on_workers (go_modify o) ;;;
  on_api (NextEvent true).

(** A call of a method of the interface value [consumer]. *)
Definition call_consumer {A} (m : TaskConsumer (wstate world) → Go (wstate world) A) : Go est A :=
  match consumer g with
  | None => go_panic NilDereference
  | Some c => on_workers (m c)
  end.

Definition runTimeAPIInit (o : others) : Go est (Z * option error) :=
  let! (_, err) := on_api (RegisterExtension true (isManagedInstance g)) in
  match err with
  | Some e => go_ret (0, Some e)
  | None =>
      let config := g_config g in
      let! (_, err) := on_api (SubscribeToTelemetryAPI true (LogTypes config) (TelemetryTimeoutMs config)
                                 (TelemetryMaxBytes config) (TelemetryMaxItems config) (isManagedInstance g)) in
      match err with
      | Some e => go_ret (0, Some e)
      | None =>
          if negb (isManagedInstance g) then
            let! (nextResponse, err) := nextEvent o in
            match err, nextResponse with
            | Some e, _ => go_ret (0, Some e)
            | None, Some r => go_ret (DeadlineMs r, None)
            | None, None => go_panic NilDereference
            end
          else go_ret (0, None)
      end
  end.

(** [runtime.Gosched()] *)
Definition Gosched (o : others) : Go est unit := on_workers (go_modify o).

(** The end of the list of turns is a wait without an answer. *)
Fixpoint event_loop (turns : list turn) : Go est unit :=
  match turns with
  | [] => go_block
  | t :: turns' =>
      if ctx_done t then call_consumer FlushDataQueue
      else
        (if negb (isManagedInstance g)
         then Gosched (at_gosched t) ;;; let! _ := call_consumer DrainQueue in go_ret tt
         else go_ret tt) ;;;
        let! (nextResponse, err) := nextEvent (at_wait t) in
        match err, nextResponse with
        | Some _, _ => go_ret tt
        | None, None => go_panic NilDereference
        | None, Some r =>
            if String.eqb (EventType r) Shutdown
            then let! _ := call_consumer DrainQueue in go_ret tt
            else event_loop turns'
        end
  end.

Definition processEvents (o : others) (turns : list turn) : Go est unit :=
  let! (_, err) := runTimeAPIInit o in
  match err with
  | Some _ => go_ret tt
  | None => event_loop turns
  end.

(** The deferred recover asks for one more event; the others go on during
    that wait ([o']). *)
Definition main (o : others) (turns : list turn) (o' : others) : Go est unit := λ s,
  match processEvents o turns s with
  | (Panic _, s') => (let! _ := nextEvent o' in go_ret tt) s'
  | r => r
  end.
End extension.

(** ** Theorems *)
Section theorems.
Context `{E : Env}.

(** What [init] builds when the queue can be made. *)
Record initialised (w : world) (g : globals) (s : est) : Prop := {
  in_config : g_config g = GetConfig.1;
  in_mode : isManagedInstance g = String.eqb (getenv "AWS_LAMBDA_INITIALIZATION_TYPE") "lambda-managed-instances";
  in_standard : isManagedInstance g = false →
    producer g = Some NewTaskProducer ∧ managedInstanceProducer g = None ∧ managedInstanceConsumer g = None ∧
    consumer g = Some (NewTaskConsumer (H := NewLogSenderClient GetConfig.1) GetConfig.1);
  in_managed : isManagedInstance g = true →
    producer g = None ∧ managedInstanceProducer g = Some NewManagedInstanceTaskProducer ∧ consumer g = None ∧
    managedInstanceConsumer g = Some (NewManagedInstanceTaskConsumer (H := NewLogSenderClient GetConfig.1) GetConfig.1) ∧
    chan_cap (flushSignal (workers s)) = 10;
  in_running : running (workers s);
  in_empty : queued (workers s) = [];
  in_cap : chan_cap (dataQueue (workers s)) = MaxDataQueueLength GetConfig.1;
  in_world : ext (workers s) = w;
  in_url : baseURL (extensionClient s) = ("http://" +:+ getenv "AWS_LAMBDA_RUNTIME_API" +:+ "/")%string }.

Lemma init_initialised w :
  if MaxDataQueueLength GetConfig.1 <? 0 then init w = Panic MakeChanSize
  else ∃ g s, init w = Ret (g, s) ∧ initialised w g s.
Proof.
  unfold init, make_chan. destruct (Z.ltb_spec (MaxDataQueueLength GetConfig.1) 0); [done|]. simpl.
  destruct (String.eqb _ "lambda-managed-instances") eqn:Hm; eexists _, _; (split; [done|]); split; simpl; try done;
    (split; [split|..|split|]; simpl; unfold chan_len; simpl; try done; lia).
Qed.

(** The start of package main: a negative queue length panics; otherwise the
    configuration is used as far as it was read. *)
Theorem init_spec w :
  if MaxDataQueueLength GetConfig.1 <? 0 then init w = Panic MakeChanSize
  else ∃ g s, init w = Ret (g, s) ∧ g_config g = GetConfig.1 ∧
    isManagedInstance g = String.eqb (getenv "AWS_LAMBDA_INITIALIZATION_TYPE") "lambda-managed-instances" ∧
    (consumer g = None ↔ isManagedInstance g = true) ∧
    (managedInstanceConsumer g = None ↔ isManagedInstance g = false) ∧
    running (workers s) ∧ queued (workers s) = [] ∧
    chan_cap (dataQueue (workers s)) = MaxDataQueueLength GetConfig.1 ∧
    baseURL (extensionClient s) = ("http://" +:+ getenv "AWS_LAMBDA_RUNTIME_API" +:+ "/")%string.
Proof.
  pose proof (init_initialised w) as H. destruct (_ <? 0); [done|]. destruct H as (g & s & H & [H1 H2 H3 H4 H5 H6 H7 H8 H9]).
  exists g, s. split_and!; try done.
  - destruct (isManagedInstance g); [by destruct (H4 eq_refl) as (_ & _ & -> & _)|].
    by destruct (H3 eq_refl) as (_ & _ & _ & ->).
  - destruct (isManagedInstance g); [by destruct (H4 eq_refl) as (_ & _ & _ & -> & _)|].
    by destruct (H3 eq_refl) as (_ & _ & -> & _).
Qed.

(** C23. The start of the process: it panics when the AWS configuration
    cannot be loaded, and when the configured queue length is negative;
    otherwise the configuration is used as far as it was read, errors
    included, only the producer and the consumer of the mode exist, the
    queue is empty and as long as configured, and the cached endpoint has
    expired five minutes ago. *)
Theorem boot_spec w :
  if negb (env_aws_config (tick w)) then boot w = Panic ExplicitPanic
  else if MaxDataQueueLength GetConfig.1 <? 0 then boot w = Panic MakeChanSize
  else ∃ g s w', boot w = Ret (g, s) ∧ initialised w' g s ∧ trace w' = trace w ∧ isColdStart w' = true ∧
    kmsEndpointCacheTime w' = env_now (S (tick w)) - 5 * minute.
Proof.
  unfold boot, utils_init, package_vars, time_now, go_bind, next_tick. simpl.
  destruct (env_aws_config (tick w)); simpl; [|done]. set (w' := World _ _ _ _ _).
  pose proof (init_initialised w') as H. destruct (_ <? 0); [done|]. destruct H as (g & s & H & Hi).
  exists g, s, w'. split; [done|]. split; [done|]. split; [done|]. split; [done|]. subst w'. simpl. lia.
Qed.

(** *** Exchanges *)
Definition urls (evs : list event) : list string :=
  omap (λ e, match e with EvHttp r _ => Some (req_url r) | _ => None end) evs.

(** A call that succeeds is one exchange with its URL. *)
Definition one_exchange (URL : string) (s s' : api) : Prop :=
  (∃ evs, trace (net s') = trace (net s) ++ evs ∧ urls evs = [URL]) ∧
  baseURL (client s') = baseURL (client s).

Lemma call_ok headers body m URL s r s' :
  call headers body m URL s = (Ret (r, None), s') → one_exchange URL s s'.
Proof.
  unfold call. destruct (env_url_ok URL); [|done]. set (rq := api_request _ _ _ _).
  destruct (env_http (tick (net s)) rq) as [res|]; [|done]. intros [= _ <-]. split; [|done].
  by exists [EvHttp rq (Some res); EvBodyClose].
Qed.

Lemma decode_response_ok {A} (decode : string → option A) r a :
  decode_response decode r = (a, None) → ∃ body, r = (body, None) ∧ is_Some a.
Proof. destruct r as [body [e|]]; simpl; [done|]. destruct (decode body); [|done]. intros [= <-]. eauto. Qed.

Lemma RegisterExtension_ok ctx b s r s' :
  RegisterExtension ctx b s = (Ret (r, None), s') →
  one_exchange (baseURL (client s) +:+ "2020-01-01/extension/register") s s'.
Proof.
  unfold RegisterExtension, go_bind at 1, go_get.
  destruct (encode_object _) as [reqBody|]; [|done]. unfold go_bind. rewrite request_with_at.
  destruct (call _ _ _ _ s) as [[x|p|] s1] eqn:Hc; [|done..]. intros [= Hd <-].
  apply decode_response_ok in Hd as (body & -> & _). by eapply call_ok.
Qed.

Lemma NextEvent_ok ctx s r s' :
  NextEvent ctx s = (Ret (r, None), s') →
  one_exchange (baseURL (client s) +:+ "2020-01-01/extension/event/next") s s' ∧ is_Some r.
Proof.
  unfold NextEvent, go_bind, go_get. rewrite request_with_at.
  destruct (call _ _ _ _ s) as [[x|p|] s1] eqn:Hc; [|done..]. intros [= Hd <-].
  apply decode_response_ok in Hd as (body & -> & ?). split; [by eapply call_ok|done].
Qed.

Lemma SubscribeToTelemetryAPI_ok ctx types t b i m s r s' :
  SubscribeToTelemetryAPI ctx types t b i m s = (Ret (r, None), s') →
  one_exchange (baseURL (client s) +:+ "2022-07-01/telemetry") s s'.
Proof.
  unfold SubscribeToTelemetryAPI, subscribe, go_bind, go_get.
  destruct (subscription _ _ _ _ _); [|done]. rewrite request_with_at.
  destruct (call _ _ _ _ s) as [[[x [e|]]|p|] s1] eqn:Hc; [done| |done..]. intros [= _ <-]. by eapply call_ok.
Qed.

(** A call of the API never panics or parks. *)
Lemma request_returns ctx headers body m URL s :
  ∃ r s', request_with ctx headers body m URL s = (Ret r, s').
Proof. rewrite request_with_at. unfold call. destruct (env_url_ok URL); eauto. Qed.

Lemma NextEvent_returns ctx s : ∃ r s', NextEvent ctx s = (Ret r, s').
Proof.
  unfold NextEvent, go_bind, go_get. edestruct request_returns as (r & s' & ->). eauto.
Qed.
Lemma RegisterExtension_returns ctx b s : ∃ r s', RegisterExtension ctx b s = (Ret r, s').
Proof.
  unfold RegisterExtension, go_bind at 1, go_get. destruct (encode_object _); [|eauto].
  unfold go_bind. edestruct request_returns as (r & s' & ->). eauto.
Qed.
Lemma SubscribeToTelemetryAPI_returns ctx types t b i m s :
  ∃ r s', SubscribeToTelemetryAPI ctx types t b i m s = (Ret r, s').
Proof.
  unfold SubscribeToTelemetryAPI, subscribe, go_bind, go_get. destruct (subscription _ _ _ _ _); [|eauto].
  edestruct request_returns as ([x [e|]] & s' & ->); eauto.
Qed.

Lemma on_api_eq {A} (m : Go api A) s r a : m (api_of s) = (r, a) → on_api m s = (r, set_api s a).
Proof. apply zoom_eq. Qed.

Lemma on_workers_eq {A} (m : Go (wstate world) A) s r w :
  m (workers s) = (r, w) → on_workers m s = (r, set_workers s w).
Proof. apply zoom_eq. Qed.

Lemma queued_set_api s a : queued (workers (set_api s a)) = queued (workers s).
Proof. done. Qed.

Lemma nextEvent_eq o s :
  ∃ r a, NextEvent true (api_of (set_workers s (o (workers s)))) = (Ret r, a) ∧
    nextEvent o s = (Ret r, set_api (set_workers s (o (workers s))) a).
Proof.
  destruct (NextEvent_returns true (api_of (set_workers s (o (workers s))))) as (r & a & Ha).
  exists r, a. split; [done|]. unfold nextEvent, go_bind.
  rewrite (on_workers_eq (go_modify o) s (Ret tt) (o (workers s))) by done. by apply on_api_eq.
Qed.

(** The new requests of a run, by URL. *)
Definition asked (us : list string) (s s' : est) : Prop :=
  (∃ evs, trace (ext (workers s')) = trace (ext (workers s)) ++ evs ∧ urls evs = us) ∧
  baseURL (extensionClient s') = baseURL (extensionClient s).

Lemma asked_trans us vs s1 s2 s3 : asked us s1 s2 → asked vs s2 s3 → asked (us ++ vs) s1 s3.
Proof.
  intros [(e1 & H1 & H2) H3] [(e2 & H4 & H5) H6]. split; [|congruence].
  exists (e1 ++ e2). rewrite H4, H1, app_assoc. split; [done|].
  unfold urls in *. by rewrite omap_app, H2, H5.
Qed.

Lemma asked_api URL s a : one_exchange URL (api_of s) a → asked [URL] s (set_api s a).
Proof. done. Qed.

(** C34. The handshake: when it succeeds it has made exactly the requests
    register, telemetry subscription and, in standard mode, the first next
    event, in this order. *)
Theorem handshake_order g o s d s' :
  (∀ x, ext (o x) = ext x) →
  runTimeAPIInit g o s = (Ret (d, None), s') →
  asked ((λ u, baseURL (extensionClient s) +:+ u) <$>
    (["2020-01-01/extension/register"%string; "2022-07-01/telemetry"%string] ++
     if isManagedInstance g then [] else ["2020-01-01/extension/event/next"%string])) s s'.
Proof.
  intros Ho. unfold runTimeAPIInit.
  destruct (RegisterExtension_returns true (isManagedInstance g) (api_of s)) as ([r1 e1] & a1 & Ha1).
  unfold go_bind at 1. rewrite (on_api_eq _ _ _ _ Ha1). destruct e1; [done|].
  apply RegisterExtension_ok, asked_api in Ha1. set (s1 := set_api s a1) in *. simpl in Ha1.
  unfold go_bind at 1. cbv zeta.
  edestruct (SubscribeToTelemetryAPI_returns true) as ([r2 e2] & a2 & Ha2).
  rewrite (on_api_eq _ _ _ _ Ha2). destruct e2; [done|].
  apply SubscribeToTelemetryAPI_ok, asked_api in Ha2. set (s2 := set_api s1 a2) in *.
  pose proof (asked_trans _ _ _ _ _ Ha1 Ha2) as H12. simpl in H12.
  assert (Hb1 : baseURL (client a1) = baseURL (extensionClient s)) by (by destruct Ha1).
  rewrite Hb1 in H12.
  destruct (isManagedInstance g); simpl; [by intros [= _ <-]|].
  unfold go_bind. destruct (nextEvent_eq o s2) as ([r3 e3] & a3 & Ha3 & ->).
  destruct e3; [done|]. apply NextEvent_ok in Ha3 as [Ha3 [r Hr]]. subst r3. intros [= _ <-].
  refine (asked_trans _ [_] _ s2 _ H12 _). destruct Ha3 as [(evs & Ht & Hu) Hb]. split.
  - exists evs. simpl in Ht. rewrite Ho in Ht. split; [done|].
    rewrite Hu. simpl. f_equal. f_equal. destruct H12 as [_ H12]. exact H12.
  - exact Hb.
Qed.

(** A failed registration ends [processEvents] at once: one request, and
    the queue is neither drained nor flushed. *)
Theorem failed_registration_keeps_queue g o rounds s r e a :
  RegisterExtension true (isManagedInstance g) (api_of s) = (Ret (r, Some e), a) →
  processEvents g o rounds s = (Ret tt, set_api s a) ∧
  dataQueue (workers (set_api s a)) = dataQueue (workers s).
Proof.
  intros H. split; [|done]. unfold processEvents, runTimeAPIInit, go_bind at 1. unfold go_bind at 1.
  by rewrite (on_api_eq _ _ _ _ H).
Qed.

Section shutdown.
(** The runtime API answers every request for an event with SHUTDOWN. *)
Context (Hshut : ∀ a, ∃ r a', NextEvent true a = (Ret (Some r, None), a') ∧ EventType r = Shutdown).

Lemma nextEvent_shutdown o s :
  ∃ r a, nextEvent o s = (Ret (Some r, None), set_api (set_workers s (o (workers s))) a) ∧
    EventType r = Shutdown.
Proof.
  destruct (nextEvent_eq o s) as (r & a & Ha & Hn). edestruct Hshut as (r' & a' & Hr & Ht).
  rewrite Ha in Hr. simplify_eq. eauto.
Qed.

Lemma managed_shutdown_loop g t turns s :
  isManagedInstance g = true → consumer g = None → ctx_done t = false →
  ∃ s', event_loop g (t :: turns) s = (Panic NilDereference, s') ∧
    dataQueue (workers s') = dataQueue (at_wait t (workers s)).
Proof.
  intros Hm Hc Ht. cbn [event_loop]. rewrite Hm, Ht. unfold go_bind at 1. unfold go_ret at 1. simpl.
  destruct (nextEvent_shutdown (at_wait t) s) as (r & a & Hn & Hr). unfold go_bind at 1. rewrite Hn, Hr.
  change (String.eqb Shutdown Shutdown) with true. unfold go_bind, call_consumer. rewrite Hc.
  by eexists.
Qed.
End shutdown.

(** C31. In managed mode the shutdown event makes the main goroutine call a
    method of the nil standard consumer: it panics, and what the queue
    holds is neither sent nor stored; a context that is done does the
    same. *)
Theorem managed_shutdown_panics g o o' turns s :
  (∀ a, ∃ r a', NextEvent true a = (Ret (Some r, None), a') ∧ EventType r = Shutdown) →
  isManagedInstance g = true → consumer g = None →
  (∃ s', event_loop g (Turn false o' o :: turns) s = (Panic NilDereference, s') ∧
    dataQueue (workers s') = dataQueue (o (workers s))) ∧
  event_loop g (Turn true o' o :: turns) s = (Panic NilDereference, s).
Proof.
  intros Hshut Hm Hc. split; [by apply (managed_shutdown_loop Hshut g (Turn false o' o))|].
  cbn [event_loop]. simpl. unfold call_consumer. by rewrite Hc.
Qed.

(** A turn after the answer to its request. *)
Definition after_event (g : globals) (turns : list turn) (r : option NextEventResponse) (e : option error) : Go est unit :=
  match e, r with
  | Some _, _ => go_ret tt
  | None, None => go_panic NilDereference
  | None, Some r =>
      if String.eqb (EventType r) Shutdown
      then let! _ := call_consumer g DrainQueue in go_ret tt
      else event_loop g turns
  end.

(** *** The standard mode, against the laws of the interface *)
Section standard.
Context `{Sender : LogSender world} `{!LogSenderLaws Sender} (config : LambdaExtensionConfig) (g : globals).
Context (Hstd : isManagedInstance g = false) (Hcons : consumer g = Some (NewTaskConsumer config)).

Definition good (x : wstate world) : Prop := running x ∧ settled x.
(** The other goroutines keep the queue within its capacity and put
    nothing into it that would panic. *)
Definition keeps (o : others) : Prop := ∀ x, good x → good (o x).

Lemma good_set_api s a : good (workers s) → good (workers (set_api s a)).
Proof. intros [H1 H2]. split; [by apply with_ext_running|done]. Qed.

(** What keeps a whole turn. *)
Definition keeps_turn (t : turn) : Prop := keeps (at_gosched t) ∧ keeps (at_wait t).

Lemma call_DrainQueue s :
  good (workers s) →
  ∃ rd w, call_consumer g DrainQueue s = (Ret rd, set_workers s w) ∧ drained (workers s) w.
Proof.
  intros [H1 H2]. unfold call_consumer. rewrite Hcons.
  pose proof (wp_DrainQueue (workers s) H1 H2) as Hw. unfold wp in Hw.
  destruct (sumo_DrainQueue (workers s)) as [[rd|p|] w] eqn:Hd; [|done..].
  exists rd, w. split; [by apply on_workers_eq|apply Hw].
Qed.

Lemma drained_good x y : good x → drained x y → good y.
Proof. intros [H1 H2] H. split; [by eapply drained_running|by eapply drained_settled]. Qed.

(** What a flush does: with the failover one call of [FlushAll], without it
    drains, as many as the limit says. *)
Definition flush_effect (x y : wstate world) : Prop :=
  if EnableFailover config then flushed x y else nsteps drained (flush_drains config x) x y.

Lemma call_FlushDataQueue s :
  (EnableFailover config = true → stores) → good (workers s) →
  (∃ w, call_consumer g FlushDataQueue s = (Ret tt, set_workers s w) ∧ flush_effect (workers s) w) ∨
  (EnableFailover config = false ∧ MaxConcurrentRequests config = 0 ∧
   call_consumer g FlushDataQueue s = (Panic DivideByZero, s)).
Proof.
  intros Hf [H1 H2]. unfold call_consumer. rewrite Hcons.
  destruct (decide (EnableFailover config = false ∧ MaxConcurrentRequests config = 0)) as [[He H0]|Hne].
  { right. split; [done|]. split; [done|]. rewrite (on_workers_eq _ s (Panic DivideByZero) (workers s)); [by destruct s|].
    simpl. unfold sumo_FlushDataQueue. rewrite He. unfold go_bind, drain_calls, go_get. unfold go_bind. by rewrite H0. }
  left. assert (∃ w, sumo_FlushDataQueue config (workers s) = (Ret tt, w) ∧ flush_effect (workers s) w) as (w & Hw & He).
  { unfold flush_effect. destruct (EnableFailover config) eqn:He.
    - pose proof (wp_FlushDataQueue config (workers s) He (Hf eq_refl) H1 H2) as Hw. unfold wp in Hw.
      destruct (sumo_FlushDataQueue config (workers s)) as [[[]|p|] w]; [eauto|done..].
    - destruct (wp_FlushDataQueue_off config (workers s) He ltac:(tauto) H1 H2) as [Hw _]. unfold wp in Hw.
      destruct (sumo_FlushDataQueue config (workers s)) as [[[]|p|] w]; [eauto|done..]. }
  exists w. split; [by apply on_workers_eq|done].
Qed.

(** A turn that drains, up to the answer to its request. *)
Lemma standard_turn t turns s :
  ctx_done t = false → keeps_turn t → good (workers s) →
  ∃ w1 r e s2, drained (at_gosched t (workers s)) w1 ∧
    nextEvent (at_wait t) (set_workers s w1) = (Ret (r, e), s2) ∧ good (workers s2) ∧
    match e, r with
    | Some _, _ => event_loop g (t :: turns) s = (Ret tt, s2)
    | None, Some resp =>
        if String.eqb (EventType resp) Shutdown
        then ∃ w2, event_loop g (t :: turns) s = (Ret tt, set_workers s2 w2) ∧ drained (workers s2) w2
        else event_loop g (t :: turns) s = event_loop g turns s2
    | None, None => False
    end.
Proof.
  intros Ht [Hg Hw] Hs. assert (good (workers (set_workers s (at_gosched t (workers s))))) as Hs0 by by apply Hg.
  destruct (call_DrainQueue _ Hs0) as (rd & w & Hd & Hdr).
  assert (good (at_wait t w)) as Hgood by (apply Hw; by eapply drained_good).
  destruct (nextEvent_eq (at_wait t) (set_workers s w)) as ([r e] & a & Ha & Hn).
  set (s2 := set_api _ a) in Hn. assert (good (workers s2)) as Hs2 by by apply good_set_api.
  assert (event_loop g (t :: turns) s = after_event g turns r e s2) as ->.
  { cbn [event_loop]. rewrite Hstd, Ht. simpl. unfold go_bind at 1. unfold go_bind at 1, Gosched.
    rewrite (on_workers_eq _ s (Ret tt) (at_gosched t (workers s))) by done.
    unfold go_bind at 1. rewrite Hd. unfold go_ret at 1. unfold go_bind at 1.
    change (set_workers (set_workers s (at_gosched t (workers s))) w) with (set_workers s w). by rewrite Hn. }
  exists w, r, e, s2. split; [done|]. split; [done|]. split; [done|]. unfold after_event.
  destruct e as [e|]; [done|]. apply NextEvent_ok in Ha as [_ [resp ->]].
  destruct (String.eqb (EventType resp) Shutdown); [|done].
  unfold go_bind. destruct (call_DrainQueue s2 Hs2) as (rd2 & w2 & -> & Hdr2). by exists w2.
Qed.

(** The standard loop panics in one way only: a flush without the failover
    that divides by a limit of zero. *)
Theorem standard_loop_panics turns s p :
  (EnableFailover config = true → stores) → Forall keeps_turn turns → good (workers s) →
  (event_loop g turns s).1 = Panic p →
  p = DivideByZero ∧ EnableFailover config = false ∧ MaxConcurrentRequests config = 0 ∧
  Exists (λ t, ctx_done t = true) turns.
Proof.
  intros Hf Hall. revert s. induction Hall as [|t turns Ho Hall IH]; intros s Hs Hp; [done|].
  destruct (ctx_done t) eqn:Ht.
  { cbn [event_loop] in Hp. rewrite Ht in Hp.
    destruct (call_FlushDataQueue s Hf Hs) as [(w & Hc & _)|(He & H0 & Hc)]; rewrite Hc in Hp; simplify_eq/=.
    split_and!; try done. by left. }
  destruct (standard_turn t turns s Ht Ho Hs) as (w1 & r & e & s2 & _ & _ & Hs2 & H).
  destruct e as [e|]; [by rewrite H in Hp|]. destruct r as [r|]; [|done].
  destruct (String.eqb (EventType r) Shutdown); [by destruct H as (w2 & H & _); rewrite H in Hp|].
  rewrite H in Hp. destruct (IH s2 Hs2 Hp) as (? & ? & ? & ?). split_and!; try done. by right.
Qed.

(** Nor does the handshake. *)
Lemma runTimeAPIInit_safe o s :
  keeps o → good (workers s) → ∃ r s', runTimeAPIInit g o s = (Ret r, s') ∧ good (workers s').
Proof.
  intros Ho Hs. unfold runTimeAPIInit. rewrite Hstd.
  destruct (RegisterExtension_returns true false (api_of s)) as ([r1 e1] & a1 & Ha1).
  unfold go_bind at 1. rewrite (on_api_eq _ _ _ _ Ha1). pose proof (good_set_api s a1 Hs) as Hs1.
  destruct e1; [by eexists _, _|]. unfold go_bind at 1. cbv zeta.
  edestruct (SubscribeToTelemetryAPI_returns true) as ([r2 e2] & a2 & Ha2).
  rewrite (on_api_eq _ _ _ _ Ha2). pose proof (good_set_api _ a2 Hs1) as Hs2. destruct e2; [by eexists _, _|].
  simpl. unfold go_bind. destruct (nextEvent_eq o (set_api (set_api s a1) a2)) as ([r3 e3] & a3 & Ha3 & ->).
  assert (good (workers (set_api (set_workers (set_api (set_api s a1) a2) (o (workers (set_api (set_api s a1) a2)))) a3))) as Hs3.
  { apply good_set_api. simpl. by apply Ho. }
  destruct e3; [by eexists _, _|]. apply NextEvent_ok in Ha3 as [_ [resp ->]]. by eexists _, _.
Qed.

Lemma processEvents_panics o turns s p :
  (EnableFailover config = true → stores) → keeps o → Forall keeps_turn turns → good (workers s) →
  (processEvents g o turns s).1 = Panic p →
  p = DivideByZero ∧ EnableFailover config = false ∧ MaxConcurrentRequests config = 0 ∧
  Exists (λ t, ctx_done t = true) turns.
Proof.
  intros Hf Ho Hall Hs. unfold processEvents, go_bind.
  destruct (runTimeAPIInit_safe o s Ho Hs) as ([d [e|]] & s' & -> & Hs'); [done|]. by apply standard_loop_panics.
Qed.

(** C32. A turn of the standard loop.  When the context is not done it drains
    once, after the other goroutines ran, and then asks for the next event;
    a failed request ends the loop; the SHUTDOWN event makes it drain once
    more, with what arrived during the wait, and ends it; any other event
    starts the next turn.  When the context is done it flushes and ends.
    Each drain is one call of [SendAllLogs] with the whole queue, which is
    empty afterwards, or unchanged after an error. *)
Theorem standard_shutdown_drains t turns s :
  (EnableFailover config = true → stores) → keeps_turn t → good (workers s) →
  if ctx_done t then
    (∃ w, event_loop g (t :: turns) s = (Ret tt, set_workers s w) ∧
       if EnableFailover config then flushed (workers s) w
       else nsteps drained (flush_drains config (workers s)) (workers s) w) ∨
    (EnableFailover config = false ∧ MaxConcurrentRequests config = 0 ∧
     event_loop g (t :: turns) s = (Panic DivideByZero, s))
  else ∃ w1 r e s2, drained (at_gosched t (workers s)) w1 ∧
    nextEvent (at_wait t) (set_workers s w1) = (Ret (r, e), s2) ∧
    match e, r with
    | Some _, _ => event_loop g (t :: turns) s = (Ret tt, s2)
    | None, Some resp =>
        if String.eqb (EventType resp) Shutdown
        then ∃ w2, event_loop g (t :: turns) s = (Ret tt, set_workers s2 w2) ∧ drained (workers s2) w2
        else event_loop g (t :: turns) s = event_loop g turns s2
    | None, None => False
    end.
Proof.
  intros Hf Ht Hs. destruct (ctx_done t) eqn:Hd.
  - cbn [event_loop]. rewrite Hd. by apply call_FlushDataQueue.
  - destruct (standard_turn t turns s Hd Ht Hs) as (w1 & r & e & s2 & H1 & H2 & _ & H3). eauto 8.
Qed.
End standard.

(** *** The whole run of the process *)
Lemma boot_initialised w g s : boot w = Ret (g, s) → ∃ w', initialised w' g s.
Proof.
  unfold boot. destruct ((utils_init ;;; package_vars) w) as [[[]|p|] w']; [|done..]. intros Hi. exists w'.
  pose proof (init_initialised w') as H. destruct (_ <? 0); [congruence|].
  destruct H as (g' & s' & H & Hin). rewrite Hi in H. by simplify_eq.
Qed.

(** Every panic of the main goroutine is recovered. *)
Lemma main_returns g o turns o' s p : (main g o turns o' s).1 ≠ Panic p.
Proof.
  unfold main. destruct (processEvents g o turns s) as [[[]|q|] s1]; [done| |done].
  destruct (nextEvent_eq o' s1) as (r & a & _ & Hn). unfold go_bind. by rewrite Hn.
Qed.

(** C22. A whole run in standard mode: from the start of the process,
    whatever the runtime API, the endpoint and S3 answer and however long it
    runs, as long as the other goroutines keep the queue within its capacity
    and free of items that panic, the event processing panics in one way
    only: a flush on a done context, with the failover off and
    MaxConcurrentRequests zero, divides by zero.  In any other configuration
    [main] is [processEvents] and the recover has nothing to do; and [main]
    itself never ends with a panic. *)
Theorem standard_run_never_panics `{!GzipLaws E} w g s o turns o' (Hretry : NumRetry GetConfig.1 < 2 ^ 63 - 1) :
  boot w = Ret (g, s) → isManagedInstance g = false →
  keeps (LogSenderLaws0 := client_laws GetConfig.1 Hretry) o →
  Forall (keeps_turn (LogSenderLaws0 := client_laws GetConfig.1 Hretry)) turns →
  (∀ p, (processEvents g o turns s).1 = Panic p →
     p = DivideByZero ∧ EnableFailover GetConfig.1 = false ∧ MaxConcurrentRequests GetConfig.1 = 0 ∧
     Exists (λ t, ctx_done t = true) turns) ∧
  (EnableFailover GetConfig.1 = true ∨ MaxConcurrentRequests GetConfig.1 ≠ 0 →
     main g o turns o' s = processEvents g o turns s) ∧
  ∀ p, (main g o turns o' s).1 ≠ Panic p.
Proof.
  intros Hb Hm Ho Hall. destruct (boot_initialised _ _ _ Hb) as [w' Hin].
  destruct (in_standard _ _ _ Hin Hm) as (_ & _ & _ & Hc).
  assert (∀ p, (processEvents g o turns s).1 = Panic p →
     p = DivideByZero ∧ EnableFailover GetConfig.1 = false ∧ MaxConcurrentRequests GetConfig.1 = 0 ∧
     Exists (λ t, ctx_done t = true) turns) as Hp.
  { intros p. apply (processEvents_panics (LogSenderLaws0 := client_laws GetConfig.1 Hretry) GetConfig.1); try done.
    pose proof (in_running _ _ _ Hin) as Hr. split; [done|]. unfold settled. rewrite (in_empty _ _ _ Hin).
    split; [apply handled_nil|]. destruct (run_queue _ Hr). simpl. lia. }
  split; [exact Hp|]. split; [|intros p; apply main_returns]. intros Hf. unfold main.
  destruct (processEvents g o turns s) as [[[]|p|] s1]; [done| |done].
  destruct (Hp p eq_refl) as (_ & He & H0 & _). destruct Hf; congruence.
Qed.

(** C24. The telemetry subscription of a started process: one PUT whose body
    the API reads as a subscription of exactly the configured log types, as
    they stand in the variable, to the port on which both producers listen,
    with the schema of the mode, and with buffering limits inside the ranges
    that the API accepts, whatever the environment says, as long as the log
    types are valid UTF-8. *)
Theorem telemetry_subscription w g s a :
  boot w = Ret (g, s) → let c := g_config g in Forall (λ t, utf8_valid t = true) (LogTypes c) →
  ∃ body lt lb li,
    SubscribeToTelemetryAPI true (LogTypes c) (TelemetryTimeoutMs c) (TelemetryMaxBytes c) (TelemetryMaxItems c)
      (isManagedInstance g) a =
      call {[extensionIdentiferHeader := extensionID (client a)]} body "PUT" (baseURL (client a) +:+ telemetryURL) a ∧
    json_parse body = Some (subscription_json (LogTypes c)
      (if isManagedInstance g then "2025-01-29" else "2022-07-01")%string lt lb li) ∧
    (∃ t, int_literal t lt ∧ 25 ≤ t ≤ 30000) ∧ (∃ b, int_literal b lb ∧ 262144 ≤ b ≤ 1048576) ∧
    (∃ i, int_literal i li ∧ 1000 ≤ i ≤ 10000) ∧
    Producers.receiverPort = LambdaApi.receiverPort ∧ managedReceiverPort = LambdaApi.receiverPort.
Proof.
  intros Hb c Htypes. destruct (boot_initialised _ _ _ Hb) as [w' Hin].
  destruct GetConfig_telemetry_bounds as (Ht & Hby & Hi). rewrite <- (in_config _ _ _ Hin) in *. fold c in Ht, Hby, Hi.
  set (v := (if isManagedInstance g then "2025-01-29" else "2022-07-01")%string).
  assert (utf8_valid v = true) as Hv by (subst v; by destruct (isManagedInstance g)).
  destruct (subscription_reads (LogTypes c) (TelemetryTimeoutMs c) (TelemetryMaxBytes c) (TelemetryMaxItems c) v)
    as (body & lt & lb & li & Hbody & Hparse & Hlt & Hlb & Hli); [done|done|lia..|].
  exists body, lt, lb, li. split; [|split_and!; eauto].
  destruct (SubscribeToTelemetryAPI_spec true (LogTypes c) (TelemetryTimeoutMs c) (TelemetryMaxBytes c) (TelemetryMaxItems c)
    (isManagedInstance g) a) as (body' & Hbody' & ->). fold v in Hbody'. rewrite Hbody in Hbody'. by injection Hbody' as ->.
Qed.

(** C33. The end of managed mode: after the handshake of a started process the
    SHUTDOWN event makes the main goroutine call a method of the nil standard
    consumer; [main] recovers, asks for exactly one more event, whatever that
    request gives, and returns; a context that is done does the same without
    the first wait.  What the queue holds is what the other goroutines left:
    [main] neither sends nor stores it.  A failed wait ends [main] without
    another request. *)
Theorem main_recovers w g s0 o s d s1 t turns o' :
  boot w = Ret (g, s0) → isManagedInstance g = true →
  runTimeAPIInit g o s = (Ret (d, None), s1) →
  if ctx_done t then
    ∃ res s3, nextEvent o' s1 = (Ret res, s3) ∧ main g o (t :: turns) o' s = (Ret tt, s3) ∧
      dataQueue (workers s3) = dataQueue (o' (workers s1))
  else ∃ r e s2, nextEvent (at_wait t) s1 = (Ret (r, e), s2) ∧
    match e, r with
    | Some _, _ => main g o (t :: turns) o' s = (Ret tt, s2)
    | None, Some resp =>
        if String.eqb (EventType resp) Shutdown
        then ∃ res s3, nextEvent o' s2 = (Ret res, s3) ∧ main g o (t :: turns) o' s = (Ret tt, s3) ∧
          dataQueue (workers s2) = dataQueue (at_wait t (workers s1)) ∧
          dataQueue (workers s3) = dataQueue (o' (workers s2))
        else main g o (t :: turns) o' s =
          match event_loop g turns s2 with
          | (Panic _, s') => (let! _ := nextEvent o' in go_ret tt) s'
          | res => res
          end
    | None, None => False
    end.
Proof.
  intros Hb Hm Hh. destruct (boot_initialised _ _ _ Hb) as [w' Hin].
  destruct (in_managed _ _ _ Hin Hm) as (_ & _ & Hc & _).
  assert (∀ x, ∃ res s3, nextEvent o' x = (Ret res, s3) ∧
    (let! _ := nextEvent o' in go_ret tt) x = (Ret tt, s3) ∧ dataQueue (workers s3) = dataQueue (o' (workers x))) as Hrec.
  { intros x. destruct (nextEvent_eq o' x) as (r & a & _ & Hn). eexists _, _. split; [exact Hn|].
    unfold go_bind. by rewrite Hn. }
  assert (processEvents g o (t :: turns) s = event_loop g (t :: turns) s1) as Hpe.
  { unfold processEvents, go_bind. by rewrite Hh. }
  unfold main. rewrite Hpe. destruct (ctx_done t) eqn:Ht.
  { cbn [event_loop]. rewrite Ht. unfold call_consumer. rewrite Hc. apply Hrec. }
  destruct (nextEvent_eq (at_wait t) s1) as ([r e] & a & Ha & Hn). set (s2 := set_api _ a) in Hn.
  assert (event_loop g (t :: turns) s1 = after_event g turns r e s2) as ->.
  { cbn [event_loop]. rewrite Hm, Ht. simpl. unfold go_bind at 1. unfold go_ret at 1. unfold go_bind at 1. by rewrite Hn. }
  exists r, e, s2. split; [exact Hn|]. unfold after_event.
  destruct e as [e|]; [done|]. apply NextEvent_ok in Ha as [_ [resp ->]].
  destruct (String.eqb (EventType resp) Shutdown); [|done].
  unfold go_bind at 1. unfold call_consumer. rewrite Hc.
  destruct (Hrec s2) as (res & s3 & ? & ? & ?). by exists res, s3.
Qed.
End theorems.

(** ** Examples *)
Definition shutdown_response : response :=
  Response 200 {[extensionIdentiferHeader := "id-1"%string]} (Some (q "{'eventType':'SHUTDOWN','deadlineMs':1}")).

(** Every request, of the extension API and of the collector, is answered
    with it. *)
Definition shutdown_vars (mode : string) : gmap string string := list_to_map
  [("AWS_LAMBDA_RUNTIME_API", "127.0.0.1:9001"); ("SUMO_HTTP_ENDPOINT", "http://collector/");
   ("AWS_LAMBDA_INITIALIZATION_TYPE", mode)]%string.
Definition shutdown_env (mode : string) : Env :=
  sample_env (shutdown_vars mode) (always (Some shutdown_response)) true.
#[export] Instance shutdown_gzip mode : GzipLaws (shutdown_env mode) := sample_gzip _ _ _.

Lemma always_shutdown mode a :
  ∃ r a', NextEvent (E := shutdown_env mode) true a = (Ret (Some r, None), a') ∧ EventType r = Shutdown.
Proof.
  unfold NextEvent, go_bind, go_get. rewrite request_with_at. unfold call.
  change (env_url_ok (Env := shutdown_env mode) _) with true. cbv iota zeta. unfold go_ret.
  eexists _, _. split; [|].
  - change (env_http (Env := shutdown_env mode) _ _) with (Some shutdown_response).
    reflexivity.
  - vm_compute. reflexivity.
Qed.

Definition std_globals : globals :=
  let config := sample_config true 100 in
  Globals config false (Some (NewTaskProducer (H := shutdown_env "on-demand")))
    (Some (NewTaskConsumer (H := NewLogSenderClient (E := shutdown_env "on-demand") config) config)) None None.
Definition managed_globals : globals := Globals (sample_config true 100) true None None None None.
Definition est0 (l : list string) : est := Est (filled 4 l) (NewClient "127.0.0.1:9001" "ext").

Lemma handshake_order_witness :
  asked ["http://127.0.0.1:9001/2020-01-01/extension/register";
         "http://127.0.0.1:9001/2022-07-01/telemetry";
         "http://127.0.0.1:9001/2020-01-01/extension/event/next"]%string
    (est0 []) (runTimeAPIInit (E := shutdown_env "on-demand") std_globals id (est0 [])).2.
Proof.
  apply (handshake_order (E := shutdown_env "on-demand") std_globals id (est0 []) 1); [done|].
  vm_compute. reflexivity.
Defined.

Lemma failed_registration_keeps_queue_witness :
  ∃ a, processEvents (E := answering 500) std_globals id [] (est0 tidy_payloads) = (Ret tt, set_api (est0 tidy_payloads) a) ∧
  dataQueue (workers (set_api (est0 tidy_payloads) a)) = dataQueue (workers (est0 tidy_payloads)).
Proof.
  eexists. eapply (failed_registration_keeps_queue (E := answering 500) std_globals id [] (est0 tidy_payloads)).
  vm_compute. reflexivity.
Defined.

Lemma managed_shutdown_panics_witness :
  (∃ s', event_loop (E := shutdown_env "lambda-managed-instances") managed_globals [Turn false id id] (est0 tidy_payloads) =
     (Panic NilDereference, s') ∧ dataQueue (workers s') = Chan 4 tidy_payloads [] false) ∧
  event_loop (E := shutdown_env "lambda-managed-instances") managed_globals [Turn true id id] (est0 tidy_payloads) =
    (Panic NilDereference, est0 tidy_payloads).
Proof.
  apply (managed_shutdown_panics (E := shutdown_env "lambda-managed-instances") managed_globals id id [] (est0 tidy_payloads));
    [apply always_shutdown|done|done].
Defined.

Definition shutdown_laws : LogSenderLaws (NewLogSenderClient (E := shutdown_env "on-demand") (sample_config true 100)) :=
  client_laws (E := shutdown_env "on-demand") (sample_config true 100) ltac:(simpl; lia).

Lemma est0_good : good (LogSenderLaws0 := shutdown_laws) (workers (est0 tidy_payloads)).
Proof. split; [apply filled_running; simpl; lia|]. split; [computed|simpl; lia]. Qed.

(** Two turns: one that meets the shutdown event, one with a done context. *)
Definition two_turns : list turn := [Turn false id id; Turn true id id].

Lemma standard_loop_panics_witness :
  let config := set_MaxConcurrentRequests 0 (sample_config false 100) in
  let g := Globals config false None
    (Some (NewTaskConsumer (H := NewLogSenderClient (E := shutdown_env "on-demand") config) config)) None None in
  DivideByZero = DivideByZero ∧ EnableFailover config = false ∧ MaxConcurrentRequests config = 0 ∧
  Exists (λ t, ctx_done t = true) [Turn true id id].
Proof.
  intros config g. assert (NumRetry config < 2 ^ 63 - 1) as Hr by (simpl; lia).
  apply (standard_loop_panics (E := shutdown_env "on-demand") (LogSenderLaws0 := client_laws (E := shutdown_env "on-demand") config Hr)
    config g eq_refl eq_refl [Turn true id id] (est0 tidy_payloads) DivideByZero); [done| | |vm_compute; reflexivity].
  - apply Forall_cons; split; [by split; intros ??|constructor].
  - split; [apply filled_running; simpl; lia|]. split; [computed|simpl; lia].
Defined.

Definition booted : gores (globals * est) := boot (E := shutdown_env "on-demand") world0.

Lemma standard_run_never_panics_witness :
  match booted with
  | Ret (g, s) =>
      main (E := shutdown_env "on-demand") g id two_turns id s =
        processEvents (E := shutdown_env "on-demand") g id two_turns s ∧
      (main (E := shutdown_env "on-demand") g id two_turns id s).1 ≠ Panic NilDereference
  | _ => False
  end.
Proof.
  assert (match booted with Ret (g, _) => negb (isManagedInstance g) | _ => false end = true) as Hm by (vm_compute; reflexivity).
  destruct booted as [[g s]|p|] eqn:Hb; [|discriminate Hm..]. apply negb_true_iff in Hm.
  refine ((λ H, conj (proj1 (proj2 H) _) (proj2 (proj2 H) NilDereference)) (standard_run_never_panics (E := shutdown_env "on-demand")
    world0 g s id two_turns id ltac:(vm_compute; reflexivity) Hb Hm _ _)).
  - right. vm_compute. discriminate.
  - by intros ??.
  - repeat (apply Forall_cons; split; [by split; intros ??|]). constructor.
Defined.

Lemma telemetry_subscription_witness :
  match booted with
  | Ret (g, s) =>
      ∃ body lt lb li, SubscribeToTelemetryAPI (E := shutdown_env "on-demand") true (LogTypes (g_config g))
          (TelemetryTimeoutMs (g_config g)) (TelemetryMaxBytes (g_config g)) (TelemetryMaxItems (g_config g))
          (isManagedInstance g) (api_of s) =
        call (E := shutdown_env "on-demand") {[extensionIdentiferHeader := extensionID (client (api_of s))]} body "PUT"
          (baseURL (client (api_of s)) +:+ telemetryURL) (api_of s) ∧
        json_parse body = Some (subscription_json (LogTypes (g_config g))
          (if isManagedInstance g then "2025-01-29" else "2022-07-01")%string lt lb li)
  | _ => False
  end.
Proof.
  assert (match booted with Ret (g, _) => forallb utf8_valid (LogTypes (g_config g)) | _ => false end = true) as Ht
    by (vm_compute; reflexivity).
  destruct booted as [[g s]|p|] eqn:Hb; [|discriminate Ht..]. rewrite forallb_forall in Ht.
  destruct (telemetry_subscription (E := shutdown_env "on-demand") world0 g s (api_of s) Hb) as (body & lt & lb & li & H1 & H2 & _).
  - apply Forall_forall. intros t Hin. by apply Ht, list_elem_of_In.
  - exists body, lt, lb, li. split; [exact H1|exact H2].
Defined.

Lemma standard_shutdown_drains_witness :
  let s := est0 tidy_payloads in
  ∃ w1 r e s2, drained (LogSenderLaws0 := shutdown_laws) (workers s) w1 ∧
    nextEvent (E := shutdown_env "on-demand") id (set_workers s w1) = (Ret (r, e), s2) ∧
    match e, r with
    | Some _, _ => event_loop (E := shutdown_env "on-demand") std_globals [Turn false id id] s = (Ret tt, s2)
    | None, Some resp =>
        if String.eqb (EventType resp) Shutdown
        then ∃ w2, event_loop (E := shutdown_env "on-demand") std_globals [Turn false id id] s = (Ret tt, set_workers s2 w2) ∧
          drained (LogSenderLaws0 := shutdown_laws) (workers s2) w2
        else event_loop (E := shutdown_env "on-demand") std_globals [Turn false id id] s =
          event_loop (E := shutdown_env "on-demand") std_globals [] s2
    | None, None => False
    end.
Proof.
  apply (standard_shutdown_drains (E := shutdown_env "on-demand") (LogSenderLaws0 := shutdown_laws)
    (sample_config true 100) std_globals eq_refl eq_refl (Turn false id id) [] (est0 tidy_payloads)); [done| |apply est0_good].
  by split; intros ??.
Defined.

Definition booted_managed : gores (globals * est) := boot (E := shutdown_env "lambda-managed-instances") world0.

(** The end of a managed process: the wait meets SHUTDOWN, the recover waits
    once more. *)
Lemma main_recovers_witness :
  match booted_managed with
  | Ret (g, s) =>
      ∃ r e s2, nextEvent (E := shutdown_env "lambda-managed-instances") id
          (runTimeAPIInit (E := shutdown_env "lambda-managed-instances") g id s).2 = (Ret (r, e), s2) ∧
        ∃ s3, main (E := shutdown_env "lambda-managed-instances") g id [Turn false id id] id s = (Ret tt, s3) ∧
          dataQueue (workers s3) = dataQueue (workers s2)
  | _ => False
  end.
Proof.
  assert (match booted_managed with Ret (g, s) => isManagedInstance g && match (runTimeAPIInit (E := shutdown_env "lambda-managed-instances") g id s).1 with Ret (d, None) => (d =? 0)%Z | _ => false end | _ => false end = true) as Hm
    by (vm_compute; reflexivity).
  destruct booted_managed as [[g s]|p|] eqn:Hb; [|discriminate Hm..]. apply andb_true_iff in Hm as [Hm Hh].
  destruct (runTimeAPIInit g id s) as [[[d [e|]]|p|] s1] eqn:Hi; try discriminate Hh. clear Hh.
  pose proof (main_recovers (E := shutdown_env "lambda-managed-instances") world0 g s id s d s1 (Turn false id id) [] id Hb Hm Hi)
    as (r & e & s2 & Hn & H).
  exists r, e, s2. split; [exact Hn|].
  destruct (nextEvent_shutdown (E := shutdown_env "lambda-managed-instances") (always_shutdown _) id s1) as (r' & a & Hn' & Ht).
  simpl in Hn. rewrite Hn' in Hn. injection Hn as <- <- <-. rewrite Ht in H.
  change (String.eqb Shutdown Shutdown) with true in H. destruct H as (res & s3 & _ & Hmain & _ & Hq). exists s3. exact (conj Hmain Hq).
Defined.
