(* ===== verification/System.v ===== *)
(** * The standard mode as a concurrent system

    The consumer of Consumers.v runs each call at once.  Here the goroutines
    interleave: the main goroutine inside [DrainQueue] or, with the failover
    on, inside [FlushDataQueue] ([consumer.go]), one channel operation a
    step, and the HTTP handlers ([producer.go]), each of which sends one
    payload.  (A flush without the failover is a series of drains.)  Whether
    a call of the sender returns without an error, returns one, or panics is
    left open; each such call is visible in the label of its step.

    A flush closes the queue under the handlers: the send of a handler that
    is parked or comes later panics, which net/http recovers, and its payload
    is gone ([rejected]).  The main goroutine is [Crashed] when the sender
    panicked (the deferred recover of main.go then only waits for one more
    event), [Parked] in a blocking send to the queue of which it is the only
    receiver, or [Finished] after a flush.

    The last section shows that the calls of Consumers.v are runs of this
    system in which only the main goroutine moves. *)
From S2P Require Import Prelude GoChan Env Config SumoClient SumoChunks SumoEnhance SumoPost SumoCalls Workers Consumers.
From Stdlib Require Import String.
Open Scope Z_scope.

Inductive job := Drain | Flush.

(** How a call of the sender ends. *)
Inductive outcome := NoError | AnError | Panicked.

(** Where the main goroutine is. *)
Inductive phase :=
  | Polling                                   (* in nextEvent *)
  | Receiving (j : job) (rawMsgArr : list string)
  | Sending (j : job) (rawMsgArr : list string)
  | Requeueing (j : job) (rest : list string)
  | Parked (rest : list string)
  | Crashed (rawMsgArr : list string)
  | Closing
  | Finished.

(** [arrived] are the payloads of all handlers in order, [sent_ok] those the
    sender reported no error for. *)
Record sys := Sys {
  queue : chan string;
  main_at : phase;
  arrived : list string;
  sent_ok : list string;
  rejected : list string }.

Definition with_main (s : sys) (m : phase) : sys := Sys (queue s) m (arrived s) (sent_ok s) (rejected s).
Definition with_chan (s : sys) (c : chan string) (m : phase) : sys := Sys c m (arrived s) (sent_ok s) (rejected s).
Definition add_arrived (s : sys) (c : chan string) (b : string) : sys :=
  Sys c (main_at s) (arrived s ++ [b]) (sent_ok s) (rejected s).
Definition add_rejected (s : sys) (l : list string) : sys :=
  Sys (queue s) (main_at s) (arrived s) (sent_ok s) (rejected s ++ l).
Definition add_sent (s : sys) (l : list string) : sys :=
  Sys (queue s) (main_at s) (arrived s) (sent_ok s ++ l) (rejected s).

(** What follows the call of the sender and the requeue. *)
Definition after (j : job) : phase := match j with Drain => Polling | Flush => Closing end.

Inductive act :=
  | Arrival (b : string)
  | Internal
  | Call (j : job) (rawMsgArr : list string) (o : outcome).

Inductive step : act → sys → sys → Prop :=
  (* a handler *)
  | step_handler s b r c :
      send b (queue s) = (r, c) → (∀ p, r ≠ Panic p) → step (Arrival b) s (add_arrived s c b)
  | step_reject s b p c :
      send b (queue s) = (Panic p, c) → step (Arrival b) s (add_rejected (add_arrived s c b) [b])
  (* the main goroutine *)
  | step_begin s j :
      main_at s = Polling → step Internal s (with_main s (Receiving j []))
  | step_recv s j acc x c :
      main_at s = Receiving j acc → try_recv EmptyString (queue s) = (Ret (Some x), c) →
      step Internal s (with_chan s c (Receiving j (acc ++ [x])))
  | step_received s j acc c :
      main_at s = Receiving j acc → try_recv EmptyString (queue s) = (Ret None, c) →
      step Internal s (with_main s (Sending j acc))
  | step_sent s j acc :
      main_at s = Sending j acc → step (Call j acc NoError) s (add_sent (with_main s (after j)) acc)
  | step_failed s j acc :
      main_at s = Sending j acc → step (Call j acc AnError) s (with_main s (Requeueing j acc))
  | step_crash s j acc :
      main_at s = Sending j acc → step (Call j acc Panicked) s (with_main s (Crashed acc))
  | step_requeue s j x rest c :
      main_at s = Requeueing j (x :: rest) → send x (queue s) = (Ret tt, c) →
      step Internal s (with_chan s c (Requeueing j rest))
  | step_park s j x rest c :
      main_at s = Requeueing j (x :: rest) → send x (queue s) = (Block, c) →
      step Internal s (with_chan s c (Parked rest))
  | step_requeued s j :
      main_at s = Requeueing j [] → step Internal s (with_main s (after j))
  | step_close s c :
      main_at s = Closing → close (queue s) = (Ret tt, c) →
      step Internal s (add_rejected (with_chan s c Finished) (sendq (queue s))).

Definition any_step (s s' : sys) : Prop := ∃ a, step a s s'.

Definition start (cap : Z) : sys := Sys (Chan cap [] [] false) Polling [] [] [].
Definition reachable (cap : Z) (s : sys) : Prop := rtc any_step (start cap) s.

(** The payloads in the hands of the main goroutine. *)
Definition in_flight (m : phase) : list string :=
  match m with
  | Polling | Closing | Finished => []
  | Receiving _ l | Sending _ l | Requeueing _ l | Parked l | Crashed l => l
  end.

Definition finished (m : phase) : bool := match m with Finished => true | _ => false end.

(** ** Invariants *)
Section invariants.
Implicit Types s : sys.

Record sys_ok (cap : Z) (s : sys) : Prop := {
  so_chan : chan_ok (queue s);
  so_open : closed (queue s) = finished (main_at s);
  so_cap : chan_cap (queue s) = cap;
  so_kept : arrived s ≡ₚ sent_ok s ++ in_flight (main_at s) ++ contents (queue s) ++ rejected s;
  so_rejected : finished (main_at s) = false → rejected s = [] }.

Lemma send_contents (b : string) c r c' :
  chan_ok c → closed c = false → send b c = (r, c') →
  chan_ok c' ∧ closed c' = false ∧ chan_cap c' = chan_cap c ∧ contents c' = contents c ++ [b] ∧
  r = if has_room c then Ret tt else Block.
Proof.
  intros Hok Ho Hs. pose proof (send_ok b c Hok) as Hok'. rewrite Hs in Hok'. simpl in Hok'.
  unfold send in Hs. rewrite Ho in Hs. destruct (has_room c) eqn:Hr; simplify_eq.
  - split; [done|]. repeat split; try done. by apply contents_push.
  - split; [done|]. repeat split; try done. unfold contents. simpl. by rewrite app_assoc.
Qed.

Lemma send_closed (b : string) c r c' : closed c = true → send b c = (r, c') → r = Panic SendOnClosed ∧ c' = c.
Proof. intros Ho. unfold send. rewrite Ho. by intros [= <- <-]. Qed.

Lemma recv_contents c x c' :
  chan_ok c → closed c = false → try_recv EmptyString c = (Ret (Some x), c') →
  chan_ok c' ∧ closed c' = false ∧ chan_cap c' = chan_cap c ∧ contents c = x :: contents c'.
Proof.
  intros Hok Ho Hr. pose proof (try_recv_spec EmptyString _ Hok) as H. destruct (contents c) as [|y l] eqn:E.
  - rewrite H, Ho in Hr. congruence.
  - destruct H as (c2 & H2 & Hl & ? & ? & ?). rewrite H2 in Hr. simplify_eq. by split_and!; congruence.
Qed.

Lemma recv_none c c' :
  chan_ok c → closed c = false → try_recv EmptyString c = (Ret None, c') → c' = c ∧ contents c = [].
Proof.
  intros Hok Ho Hr. pose proof (try_recv_spec EmptyString _ Hok) as H. destruct (contents c).
  - rewrite H in Hr. by simplify_eq.
  - destruct H as (c2 & H2 & _). congruence.
Qed.

Lemma sys_ok_start cap : 0 ≤ cap → sys_ok cap (start cap).
Proof. intros H. by split; [split|..]. Qed.

Lemma step_ok cap a s s' : step a s s' → sys_ok cap s → sys_ok cap s'.
Proof.
  intros Hs [H1 H2 H3 H4 H5].
  destruct Hs as [s b r c Hc Hp|s b p c Hc|s j Hm|s j acc x c Hm Hc|s j acc c Hm Hc|s j acc Hm|s j acc Hm|s j acc Hm
    |s j x rest c Hm Hc|s j x rest c Hm Hc|s j Hm|s c Hm Hc];
    rewrite ?Hm in H2; rewrite ?Hm in H4; rewrite ?Hm in H5; simpl in *.
  - destruct (finished (main_at s)) eqn:Hf.
    { destruct (send_closed _ _ _ _ H2 Hc) as [-> _]. by destruct (Hp SendOnClosed). }
    destruct (send_contents _ _ _ _ H1 H2 Hc) as (? & ? & ? & Hcont & _). rewrite H5 in * by done.
    split; simpl; try congruence; [|by rewrite H5]. rewrite Hcont, H4, H5 by done. by rewrite !app_nil_r, !app_assoc.
  - destruct (finished (main_at s)) eqn:Hf.
    2:{ destruct (send_contents _ _ _ _ H1 H2 Hc) as (_ & _ & _ & _ & Hr). by destruct (has_room (queue s)). }
    destruct (send_closed _ _ _ _ H2 Hc) as [_ ->]. split; simpl; rewrite ?Hf; try done. by rewrite H4, !app_assoc.
  - by split; simpl; auto.
  - destruct (recv_contents _ _ _ H1 H2 Hc) as (? & ? & ? & Hcont).
    split; simpl; try congruence; auto. by rewrite H4, Hcont, <- !app_assoc.
  - by split; simpl; auto.
  - assert (in_flight (after j) = [] ∧ finished (after j) = false) as [Hj1 Hj2] by by destruct j.
    split; simpl; rewrite ?Hj1, ?Hj2; auto. by rewrite H4, <- !app_assoc.
  - by split; simpl; auto.
  - by split; simpl; auto.
  - destruct (send_contents _ _ _ _ H1 H2 Hc) as (? & ? & ? & Hcont & _).
    split; simpl; try congruence; auto. rewrite Hcont, H4. f_equiv. simpl. rewrite <- !app_assoc. simpl.
    rewrite app_comm_cons, <- Permutation_middle. by rewrite <- Permutation_middle.
  - destruct (send_contents _ _ _ _ H1 H2 Hc) as (? & ? & ? & Hcont & _).
    split; simpl; try congruence; auto. rewrite Hcont, H4. f_equiv. simpl. rewrite <- !app_assoc. simpl.
    rewrite app_comm_cons, <- Permutation_middle. by rewrite <- Permutation_middle.
  - assert (in_flight (after j) = [] ∧ finished (after j) = false) as [Hj1 Hj2] by by destruct j.
    split; simpl; rewrite ?Hj1, ?Hj2; auto.
  - pose proof (close_ok _ H1) as Hok. rewrite Hc in Hok. unfold close in Hc. rewrite H2 in Hc. simplify_eq.
    split; simpl; try done. unfold contents in *. simpl. rewrite H4, H5, !app_nil_r by done. done.
Qed.

Lemma run_ok cap s s' : rtc any_step s s' → sys_ok cap s → sys_ok cap s'.
Proof. induction 1 as [|s1 s2 s3 [a H] _ IH]; eauto using step_ok. Qed.

Lemma reachable_ok cap s : 0 ≤ cap → reachable cap s → sys_ok cap s.
Proof. intros Hcap Hr. eapply run_ok; [exact Hr|by apply sys_ok_start]. Qed.

(** While no call reports an error the order is kept too. *)
Definition good_step (s s' : sys) : Prop := ∃ a, step a s s' ∧ ∀ j acc, a ≠ Call j acc AnError.

Definition orderly (s : sys) : Prop :=
  arrived s = sent_ok s ++ in_flight (main_at s) ++ contents (queue s) ++ rejected s ∧
  match main_at s with Requeueing _ _ | Parked _ => False | _ => True end.

Lemma good_step_orderly cap s1 s2 : good_step s1 s2 → sys_ok cap s1 → orderly s1 → orderly s2.
Proof.
  intros (a & Hs & Hg) [H1 H2 _ _ Hr] [H4 H5].
  destruct Hs as [s b r c Hc Hp|s b p c Hc|s j Hm|s j acc x c Hm Hc|s j acc c Hm Hc|s j acc Hm|s j acc Hm|s j acc Hm
    |s j x rest c Hm Hc|s j x rest c Hm Hc|s j Hm|s c Hm Hc];
    rewrite ?Hm in H2; rewrite ?Hm in H4; rewrite ?Hm in H5; rewrite ?Hm in Hr; unfold orderly; simpl in *; try done.
  - destruct (finished (main_at s)) eqn:Hf.
    { destruct (send_closed _ _ _ _ H2 Hc) as [-> _]. by destruct (Hp SendOnClosed). }
    destruct (send_contents _ _ _ _ H1 H2 Hc) as (_ & _ & _ & -> & _). rewrite Hr in * by done.
    by rewrite H4, !app_nil_r, !app_assoc.
  - destruct (finished (main_at s)) eqn:Hf.
    2:{ destruct (send_contents _ _ _ _ H1 H2 Hc) as (_ & _ & _ & _ & Hx). by destruct (has_room (queue s)). }
    destruct (send_closed _ _ _ _ H2 Hc) as [_ ->]. by rewrite H4, !app_assoc.
  - destruct (recv_contents _ _ _ H1 H2 Hc) as (_ & _ & _ & Hcont). by rewrite H4, Hcont, <- !app_assoc.
  - rewrite H4. by destruct j; simpl; rewrite <- !app_assoc.
  - by destruct (Hg j acc).
  - unfold close in Hc. rewrite H2 in Hc. simplify_eq. unfold contents in *. simpl.
    by rewrite H4, Hr, !app_nil_r.
Qed.
End invariants.

(** ** The calls of Consumers.v as runs

    A run of the main goroutine alone, with the calls of the sender that it
    makes, each with its payloads and its end. *)
Inductive main_run : list (job * list string * outcome) → sys → sys → Prop :=
  | main_run_nil s : main_run [] s s
  | main_run_internal s1 s2 s3 cs : step Internal s1 s2 → main_run cs s2 s3 → main_run cs s1 s3
  | main_run_call s1 s2 s3 j l o cs :
      step (Call j l o) s1 s2 → main_run cs s2 s3 → main_run ((j, l, o) :: cs) s1 s3.

Section simulation.
Implicit Types s : sys.

Lemma main_run_trans cs1 cs2 s1 s2 s3 :
  main_run cs1 s1 s2 → main_run cs2 s2 s3 → main_run (cs1 ++ cs2) s1 s3.
Proof. induction 1; intros; simpl; eauto using main_run. Qed.

Lemma main_run_step s1 s2 : step Internal s1 s2 → main_run [] s1 s2.
Proof. intros H. eapply main_run_internal; [exact H|constructor]. Qed.

(** The channel empties into the hands of the main goroutine. *)
Lemma run_collect j fuel : ∀ s acc l c',
  main_at s = Receiving j acc → chan_ok (queue s) → closed (queue s) = false →
  collect fuel EmptyString acc (queue s) = (Ret l, c') →
  main_run [] s (with_chan s c' (Sending j l)).
Proof.
  induction fuel as [|fuel IH]; intros s acc l c' Hm Hok Ho Hc; [done|]. simpl in Hc. unfold go_bind in Hc.
  destruct (try_recv EmptyString (queue s)) as [[[x|]|p|] c] eqn:Hr; try done.
  - destruct (recv_contents _ _ _ Hok Ho Hr) as (Hok' & Ho' & _).
    eapply main_run_internal; [by eapply step_recv|].
    by apply (IH (with_chan s c (Receiving j (acc ++ [x]))) (acc ++ [x])).
  - unfold go_ret in Hc. simplify_eq. destruct (recv_none _ _ Hok Ho Hr) as [-> _].
    apply main_run_step. by eapply (step_received s).
Qed.

(** Putting a list back, up to its end or to the send that parks. *)
Lemma run_requeue j : ∀ l s c' r,
  main_at s = Requeueing j l → send_each l (queue s) = (r, c') →
  match r with
  | Ret _ => main_run [] s (with_chan s c' (after j))
  | Block => ∃ rest, main_run [] s (with_chan s c' (Parked rest))
  | Panic _ => True
  end.
Proof.
  unfold send_each. induction l as [|x l IH]; intros s c' r Hm Hc; cbn [go_fold] in Hc.
  - unfold go_ret in Hc. simplify_eq. apply main_run_step. by apply step_requeued.
  - unfold go_bind in Hc. destruct (send x (queue s)) as [[[]|p|] c] eqn:Hs; simplify_eq.
    + specialize (IH (with_chan s c (Requeueing j l)) c' r eq_refl Hc).
      pose proof (step_requeue s j x l c Hm Hs) as Hst. destruct r; [by eapply main_run_internal|done|].
      destruct IH as [rest IH]. exists rest. by eapply main_run_internal.
    + done.
    + exists l. apply main_run_step. by eapply step_park.
Qed.

Context {W : Type} `{LogSender W} (config : LambdaExtensionConfig).
Implicit Types ws : wstate W.

Definition sender_call (j : job) : list string → Go W (option error) :=
  match j with Drain => SendAllLogs | Flush => FlushAll end.

Definition consumer_call (j : job) : Go (wstate W) unit :=
  match j with
  | Drain => let! _ := sumo_DrainQueue in go_ret tt
  | Flush => sumo_FlushDataQueue config
  end.

(** Both calls in one: receive, call, requeue, and for a flush close. *)
Definition finish (j : job) : Go (wstate W) unit := match j with Drain => go_ret tt | Flush => on_queue close end.

Lemma consumer_call_eq j ws :
  (j = Flush → EnableFailover config = true) →
  consumer_call j ws =
    (let! rawMsgArr := take_all in let! err := on_ext (sender_call j rawMsgArr) in requeue err rawMsgArr ;;; finish j) ws.
Proof.
  intros Hj. destruct j; simpl.
  - unfold sumo_DrainQueue, go_bind. destruct (take_all ws) as [[l|p|] ws1]; [|done..].
    destruct (on_ext _ _) as [[err|p|] ws2]; [|done..]. by destruct (requeue _ _ _) as [[]].
  - unfold sumo_FlushDataQueue. by rewrite Hj.
Qed.

(** What a call of the consumer is in the interleaved system. *)
Definition simulates (j : job) ws s (r : gores unit) ws' : Prop :=
  match sender_call j (queued ws) (ext ws) with
  | (Ret err, w') =>
      ext ws' = w' ∧ ∃ s',
        main_run [(j, queued ws, if err then AnError else NoError)] s s' ∧ queue s' = dataQueue ws' ∧
        sent_ok s' = sent_ok s ++ (if err then [] else queued ws) ∧
        match r with
        | Ret _ => main_at s' = match j with Drain => Polling | Flush => Finished end
        | Block => ∃ rest, main_at s' = Parked rest
        | Panic _ => False
        end
  | (Panic p, w') =>
      r = Panic p ∧ ext ws' = w' ∧ ∃ s',
        main_run [(j, queued ws, Panicked)] s s' ∧ queue s' = dataQueue ws' ∧ main_at s' = Crashed (queued ws)
  | (Block, w') =>
      r = Block ∧ ext ws' = w' ∧ ∃ s',
        main_run [] s s' ∧ queue s' = dataQueue ws' ∧ main_at s' = Sending j (queued ws)
  end.

(** A flush closes the queue at its end. *)
Lemma run_finish j ws s cs s0 :
  main_run cs s0 s → main_at s = after j → queue s = dataQueue ws → closed (queue s) = false →
  ∃ ws' s', finish j ws = (Ret tt, ws') ∧ ext ws' = ext ws ∧ main_run cs s0 s' ∧ queue s' = dataQueue ws' ∧
    sent_ok s' = sent_ok s ∧ main_at s' = match j with Drain => Polling | Flush => Finished end.
Proof.
  intros Hr Hm Hq Ho. destruct j; simpl.
  - exists ws, s. by split_and!.
  - assert (close (queue s) = (Ret tt, Chan (chan_cap (queue s)) (buf (queue s)) [] true)) as Hc by (unfold close; by rewrite Ho).
    eexists _, (add_rejected (with_chan s _ Finished) (sendq (queue s))).
    split; [apply zoom_eq; rewrite <- Hq; exact Hc|]. split; [done|]. split; [|done].
    rewrite <- (app_nil_r cs). eapply main_run_trans; [exact Hr|]. apply main_run_step. by apply step_close.
Qed.

Lemma run_consumer_call j ws s :
  (j = Flush → EnableFailover config = true) →
  running ws → main_at s = Polling → queue s = dataQueue ws →
  let '(r, ws') := consumer_call j ws in simulates j ws s r ws'.
Proof.
  intros Hj Hrun Hm Hq. pose proof Hrun as [H1 H2 _ _]. rewrite consumer_call_eq by done.
  destruct (recv_all_spec EmptyString _ H1 H2) as (c & Hc & Hcont & Hok & Hcap & Ho).
  unfold go_bind at 1, take_all, on_queue at 1. rewrite (zoom_eq _ _ _ _ _ _ Hc).
  change (contents (dataQueue ws)) with (queued ws) in *. set (s1 := with_chan s c (Sending j (queued ws))).
  assert (main_run [] s s1) as Hr.
  { eapply main_run_internal; [by apply (step_begin s j)|]. rewrite <- Hq in *.
    eapply (run_collect j _ (with_main s (Receiving j [])) []); [done..|exact Hc]. }
  unfold go_bind at 1, on_ext, zoom at 1, simulates. simpl.
  destruct (sender_call j (queued ws) (ext ws)) as [[[e|]|p|] w].
  - pose proof (step_failed s1 j (queued ws) eq_refl) as Hst.
    set (s2 := with_main s1 (Requeueing j (queued ws))) in *.
    assert (main_run [(j, queued ws, AnError)] s s2) as Hr2.
    { apply (main_run_trans [] [_] s s1); [done|]. eapply main_run_call; [exact Hst|constructor]. }
    unfold go_bind, requeue, on_queue at 1, zoom at 1. simpl. destruct (send_each (queued ws) c) as [r c'] eqn:Hs.
    pose proof (run_requeue j (queued ws) s2 c' r eq_refl Hs) as Hrq.
    pose proof (send_each_open (queued ws) c Ho) as Hopen. rewrite Hs in Hopen. destruct Hopen as [Ho' Hnp].
    destruct r as [[]|p|]; [| done |].
    + assert (main_run [(j, queued ws, AnError)] s (with_chan s2 c' (after j))) as Hr3.
      { apply (main_run_trans [_] [] s s2); [done|exact Hrq]. }
      destruct (run_finish j (with_queue (with_ext (with_queue ws c) w) c') _ _ _ Hr3 eq_refl eq_refl Ho')
        as (ws' & s' & -> & Hw & ?).
      split; [exact Hw|]. exists s'. rewrite app_nil_r. naive_solver.
    + split; [done|]. destruct Hrq as [rest Hrq]. exists (with_chan s2 c' (Parked rest)).
      split; [by apply (main_run_trans [_] [] s s2)|]. split; [done|]. split; [by rewrite app_nil_r|by exists rest].
  - pose proof (step_sent s1 j (queued ws) eq_refl) as Hst.
    assert (main_run [(j, queued ws, NoError)] s (add_sent (with_main s1 (after j)) (queued ws))) as Hr2.
    { apply (main_run_trans [] [_] s s1); [done|]. eapply main_run_call; [exact Hst|constructor]. }
    unfold go_bind, requeue, go_ret. 
    destruct (run_finish j (with_ext (with_queue ws c) w) _ _ _ Hr2 eq_refl eq_refl Ho) as (ws' & s' & -> & Hw & ?).
    split; [exact Hw|]. exists s'. naive_solver.
  - split; [done|]. split; [done|]. exists (with_main s1 (Crashed (queued ws))). split; [|done].
    apply (main_run_trans [] [_] s s1); [done|]. eapply main_run_call; [by apply (step_crash s1)|constructor].
  - split; [done|]. split; [done|]. by exists s1.
Qed.
End simulation.

(** ** Theorems *)

(** C5. Conservation: in every reachable state of the interleaved system each
    payload that arrived was sent without an error, is in the hands of the
    main goroutine, is in the queue, or was turned away by the queue that a
    flush had closed, exactly once; before the end of a flush nothing is
    turned away; the queue stays within its capacity. *)
Theorem system_conserves cap s :
  0 ≤ cap → reachable cap s →
  arrived s ≡ₚ sent_ok s ++ in_flight (main_at s) ++ contents (queue s) ++ rejected s ∧
  (main_at s ≠ Finished → rejected s = []) ∧
  chan_len (queue s) ≤ cap.
Proof.
  intros H1 H2. destruct (reachable_ok _ _ H1 H2) as [[_ Hl _] _ Hc Hk Hr]. rewrite <- Hc.
  split; [done|]. split; [|done]. intros Hm. apply Hr. by destruct (main_at s).
Qed.

(** C25. First in, first out: as long as no call of the sender reports an
    error, the payloads are sent in the order in which they arrived, and
    those that wait or were turned away came last. *)
Theorem system_fifo cap s :
  0 ≤ cap → rtc good_step (start cap) s →
  arrived s = sent_ok s ++ in_flight (main_at s) ++ contents (queue s) ++ rejected s.
Proof.
  intros Hcap Hr.
  assert (∀ s1 s2, rtc good_step s1 s2 → sys_ok cap s1 → orderly s1 → orderly s2) as Hrtc.
  { induction 1 as [|s1 s2 s3 H12 _ IH]; [done|]. intros Hok Ho. apply IH.
    - destruct H12 as (a & H & _). by eapply step_ok.
    - by eapply good_step_orderly. }
  apply (Hrtc _ _ Hr); [by apply sys_ok_start|by split].
Qed.

Lemma fill_queue n : ∀ s,
  chan_ok (queue s) → closed (queue s) = false → Z.of_nat n ≤ chan_cap (queue s) - chan_len (queue s) →
  ∃ s', rtc any_step s s' ∧ main_at s' = main_at s ∧ closed (queue s') = false ∧ chan_ok (queue s') ∧
    chan_cap (queue s') = chan_cap (queue s) ∧ chan_len (queue s') = chan_len (queue s) + Z.of_nat n.
Proof.
  induction n as [|n IH]; intros s Hok Ho Hn; [exists s; split; [done|]; repeat split; try done; try apply Hok; lia|].
  destruct (send "x"%string (queue s)) as [r c] eqn:Hs.
  destruct (send_contents _ _ _ _ Hok Ho Hs) as (Hok' & Ho' & Hc' & _ & Hres).
  assert (chan_len c = chan_len (queue s) + 1) as Hlen.
  { unfold send in Hs. rewrite Ho in Hs. unfold has_room in Hs.
    destruct (Z.ltb_spec (chan_len (queue s)) (chan_cap (queue s))); [|lia]. simplify_eq.
    unfold chan_len, push. simpl. rewrite List.length_app. simpl. lia. }
  destruct (IH (add_arrived s c "x"%string) Hok' Ho') as (s' & Hr & Hm & H1 & H2 & H3 & H4).
  { simpl. rewrite Hc', Hlen. lia. }
  exists s'. split.
  { eapply rtc_l; [|exact Hr]. exists (Arrival "x"). eapply step_handler; [exact Hs|].
    intros p. rewrite Hres. by destruct (has_room (queue s)). }
  simpl in *. repeat split; try done; try apply H2; rewrite ?H3, ?H4; lia.
Qed.

(** Nothing moves a parked main goroutine. *)
Lemma parked_for_ever s s' rest :
  main_at s = Parked rest → rtc any_step s s' → main_at s' = Parked rest ∧ sent_ok s' = sent_ok s.
Proof.
  intros Hm Hr. induction Hr as [|s1 s2 s3 [a H12] _ IH]; [done|].
  assert (main_at s2 = Parked rest ∧ sent_ok s2 = sent_ok s1) as [H1 H2].
  { destruct H12; simplify_eq/=; try congruence; done. }
  rewrite <- H2. by apply IH.
Qed.

Ltac run_act l rule := eapply rtc_l; [exists l; by eapply rule|].

(** C26. Deadlock: for every capacity the main goroutine can end up parked in
    a send to the queue of which it is the only receiver: a send to Sumo
    Logic fails and the queue fills up before the payloads are put back.
    From there on, whatever the handlers do, it never moves again and
    nothing more is sent. *)
Theorem system_can_deadlock cap :
  0 ≤ cap → ∃ s rest, reachable cap s ∧ main_at s = Parked rest ∧
    ∀ s', rtc any_step s s' → main_at s' = Parked rest ∧ sent_ok s' = sent_ok s.
Proof.
  intros Hcap. pose proof (sys_ok_start cap Hcap) as [Hok Ho _ _ _].
  destruct (send "a"%string (queue (start cap))) as [r c] eqn:Hs.
  destruct (send_contents _ _ _ _ Hok Ho Hs) as (Hok1 & Ho1 & Hc1 & Hcont & Hres). simpl in Hcont.
  pose proof (try_recv_spec EmptyString c Hok1) as Hr. rewrite Hcont in Hr.
  destruct Hr as (c2 & Hr & Hcont2 & Hok2 & Hcap2 & Ho2). apply app_nil in Hcont2 as [Hb2 Hq2].
  set (s2 := Sys c2 (Receiving Drain ["a"%string]) ["a"%string] [] []).
  set (s3 := with_main s2 (Sending Drain ["a"%string])).
  assert (rtc any_step (start cap) s3) as Hrun.
  { eapply rtc_l.
    { exists (Arrival "a"). eapply step_handler; [exact Hs|]. intros p. rewrite Hres. by destruct (has_room _). }
    eapply rtc_l; [exists Internal; by apply (step_begin _ Drain)|]. run_act Internal step_recv.
    apply rtc_once. exists Internal. eapply (step_received s2); [done|].
    pose proof (try_recv_spec EmptyString c2 Hok2) as Hr2. unfold contents in Hr2. rewrite Hb2, Hq2 in Hr2. simpl in Hr2.
    change (queue s2) with c2. by rewrite Hr2, Ho2, Ho1. }
  destruct (fill_queue (Z.to_nat cap) s3) as (s4 & Hrun4 & Hm4 & Ho4 & Hok4 & Hc4 & Hl4).
  { done. } { simpl. congruence. } { simpl. rewrite Hcap2, Hc1. unfold chan_len. rewrite Hb2. simpl. lia. }
  set (s5 := with_main s4 (Requeueing Drain ["a"%string])).
  assert (main_at (with_chan s5 (send "a"%string (queue s5)).2 (Parked [])) = Parked []) as Hp by done.
  exists (with_chan s5 (send "a"%string (queue s5)).2 (Parked [])), []. split; [|split; [done|intros s'; by apply parked_for_ever]].
  unfold reachable. etrans; [exact Hrun|]. etrans; [exact Hrun4|].
  eapply rtc_l; [exists (Call Drain ["a"%string] AnError); by apply (step_failed s4 Drain ["a"%string]); rewrite Hm4|]. fold s5.
  apply rtc_once. exists Internal. apply (step_park s5 Drain "a"%string []); [done|].
  assert (has_room (queue s4) = false) as Hfull.
  { unfold has_room. rewrite Hl4, Hc4. simpl. rewrite Hcap2, Hc1. unfold chan_len. rewrite Hb2. apply Z.ltb_ge. simpl. lia. }
  change (queue s5) with (queue s4). destruct (send "a"%string (queue s4)) as [r' c'] eqn:Hs4.
  destruct (send_contents _ _ _ _ Hok4 Ho4 Hs4) as (_ & _ & _ & _ & ->). by rewrite Hfull.
Qed.

(** C14. Refinement: a [DrainQueue] of the standard consumer, and a
    [FlushDataQueue] with the failover on, are runs of the system in which
    only the main goroutine moves and in which it makes exactly one call of
    the sender, with what the queue held.  When the sender returns, the run
    ends with the channel that the consumer leaves, and the payloads count
    as sent exactly when there was no error: the main goroutine is polling
    again, or has closed the queue, or is parked exactly when the consumer
    is.  When the sender panics, or never returns, the payloads are in the
    hands of the main goroutine. *)
Theorem DrainQueue_is_a_run {W} `{LogSender W} config j (ws : wstate W) s :
  (j = Flush → EnableFailover config = true) →
  running ws → main_at s = Polling → queue s = dataQueue ws →
  let '(r, ws') :=
    match j with Drain => let! _ := sumo_DrainQueue in go_ret tt | Flush => sumo_FlushDataQueue config end ws in
  match (match j with Drain => SendAllLogs | Flush => FlushAll end) (queued ws) (ext ws) with
  | (Ret err, w') =>
      ext ws' = w' ∧ ∃ s',
        main_run [(j, queued ws, if err then AnError else NoError)] s s' ∧ queue s' = dataQueue ws' ∧
        sent_ok s' = sent_ok s ++ (if err then [] else queued ws) ∧
        match r with
        | Ret _ => main_at s' = match j with Drain => Polling | Flush => Finished end
        | Block => ∃ rest, main_at s' = Parked rest
        | Panic _ => False
        end
  | (Panic p, w') =>
      r = Panic p ∧ ext ws' = w' ∧ ∃ s',
        main_run [(j, queued ws, Panicked)] s s' ∧ queue s' = dataQueue ws' ∧ main_at s' = Crashed (queued ws)
  | (Block, w') =>
      r = Block ∧ ext ws' = w' ∧ ∃ s',
        main_run [] s s' ∧ queue s' = dataQueue ws' ∧ main_at s' = Sending j (queued ws)
  end.
Proof. apply (run_consumer_call config j). Qed.

(** A flush turns handlers away, also when every call succeeds: those that
    are parked when the queue is closed, and those that come later. *)
Theorem flush_turns_away b1 b2 :
  ∃ s, rtc good_step (start 0) s ∧ main_at s = Finished ∧ rejected s = [b1; b2] ∧ sent_ok s = [].
Proof.
  eexists. split.
  - eapply rtc_l; [exists Internal; split; [by apply (step_begin _ Flush)|done]|].
    eapply rtc_l; [exists Internal; split; [by eapply (step_received _ Flush)|done]|].
    eapply rtc_l; [exists (Arrival b1); split; [by eapply (step_handler _ b1 Block)|done]|].
    eapply rtc_l; [exists (Call Flush [] NoError); split; [by apply (step_sent _ Flush)|done]|].
    eapply rtc_l; [exists Internal; split; [by eapply step_close|done]|].
    apply rtc_once. exists (Arrival b2). split; [by eapply step_reject|done].
  - done.
Qed.

(** ** Examples *)
Definition one_arrived : sys := Sys (Chan 1 ["a"%string] [] false) Polling ["a"%string] [] [].

Lemma one_arrives : step (Arrival "a") (start 1) one_arrived.
Proof. by apply (step_handler (start 1) "a" (Ret tt) (Chan 1 ["a"%string] [] false)). Qed.

Lemma system_conserves_witness :
  let s := one_arrived in
  arrived s ≡ₚ sent_ok s ++ in_flight (main_at s) ++ contents (queue s) ++ rejected s ∧
  (main_at s ≠ Finished → rejected s = []) ∧ chan_len (queue s) ≤ 1.
Proof. apply (system_conserves 1); [lia|]. apply rtc_once. eexists. apply one_arrives. Defined.

Lemma system_fifo_witness :
  let s := one_arrived in
  arrived s = sent_ok s ++ in_flight (main_at s) ++ contents (queue s) ++ rejected s.
Proof. apply (system_fifo 1); [lia|]. apply rtc_once. eexists. split; [apply one_arrives|done]. Defined.

Lemma system_can_deadlock_witness : ∃ s rest, reachable 20 s ∧ main_at s = Parked rest ∧
  ∀ s', rtc any_step s s' → main_at s' = Parked rest ∧ sent_ok s' = sent_ok s.
Proof. apply system_can_deadlock. lia. Defined.

(** A sender that always fails, a queue of one place, and a parked handler. *)
Definition full_ws : wstate world := WState world0 (Chan 1 ["a"%string] ["b"%string] false) (Chan 10 [] [] false).
Definition full_sys : sys := Sys (Chan 1 ["a"%string] ["b"%string] false) Polling ["a"; "b"]%string [] [].

Lemma full_running : running full_ws.
Proof. split; [split|..|split|]; simpl; unfold chan_len; simpl; try done; lia. Qed.

Lemma DrainQueue_is_a_run_witness :
  ∃ s' rest, main_run [(Drain, ["a"; "b"]%string, AnError)] full_sys s' ∧
    queue s' = Chan 1 ["a"%string] ["b"%string] false ∧ main_at s' = Parked rest.
Proof.
  pose proof (DrainQueue_is_a_run (H := refusing) (sample_config true 100) Drain full_ws full_sys
    ltac:(discriminate) full_running eq_refl eq_refl) as Hrun.
  vm_compute in Hrun. destruct Hrun as (_ & s' & H1 & H2 & _ & rest & H3). by exists s', rest.
Defined.
