(* ===== verification/ManagedSystem.v ===== *)
(** * The managed mode as a concurrent system

    The goroutines of managed_instance_producer.go and
    managed_instance_consumer.go interleaved: every POST runs a handler of its
    own, and the consumer goroutine waits for flush signals and drains the
    queue, each channel operation a step.  Whether a send to Sumo Logic
    succeeds is left open; a send that panics ends the process, and is no
    step.  The context of the consumer is [context.Background()], which is
    never done, so its flush is no step; the main goroutine touches neither
    channel before it ends.

    The last section shows that the calls of Producers.v and Consumers.v are
    runs of this system in which no other goroutine moves. *)
From S2P Require Import Prelude GoStrings GoFloat GoJson GoChan Env Config SumoClient SumoChunks SumoEnhance SumoPost SumoCalls Workers Producers Consumers.
From Stdlib Require Import String Relation_Operators Lexicographic_Product.
Open Scope Z_scope.

(** Where a handler is: after the send of its payload, or with the signals
    that it has still to send. *)
Inductive hphase :=
  | Checking (payload : string)
  | Signalling (signals : list string).

(** Where the consumer goroutine is. *)
Inductive cphase :=
  | Waiting
  | Draining (rawMsgArr : list string)
  | Sending (rawMsgArr : list string)
  | Requeueing (rest : list string).

(** The two channels, the goroutines, and what happened so far: the payloads
    queued and dropped by handlers, those sent, and those that a requeue
    dropped. *)
Record msys := MSys {
  queue : chan string;
  signals : chan string;
  handlers : list hphase;
  consumer_at : cphase;
  accepted : list string;
  dropped : list string;
  sent_ok : list string;
  lost : list string }.

Definition set_consumer (s : msys) (c : cphase) : msys :=
  MSys (queue s) (signals s) (handlers s) c (accepted s) (dropped s) (sent_ok s) (lost s).
Definition set_handlers (s : msys) (hs : list hphase) : msys :=
  MSys (queue s) (signals s) hs (consumer_at s) (accepted s) (dropped s) (sent_ok s) (lost s).
Definition set_queue (s : msys) (q : chan string) : msys :=
  MSys q (signals s) (handlers s) (consumer_at s) (accepted s) (dropped s) (sent_ok s) (lost s).
Definition set_signals (s : msys) (q : chan string) : msys :=
  MSys (queue s) q (handlers s) (consumer_at s) (accepted s) (dropped s) (sent_ok s) (lost s).
Definition add_accepted (s : msys) (b : string) : msys :=
  MSys (queue s) (signals s) (handlers s) (consumer_at s) (accepted s ++ [b]) (dropped s) (sent_ok s) (lost s).
Definition add_dropped (s : msys) (b : string) : msys :=
  MSys (queue s) (signals s) (handlers s) (consumer_at s) (accepted s) (dropped s ++ [b]) (sent_ok s) (lost s).
Definition add_sent (s : msys) (l : list string) : msys :=
  MSys (queue s) (signals s) (handlers s) (consumer_at s) (accepted s) (dropped s) (sent_ok s ++ l) (lost s).
Definition add_lost (s : msys) (b : string) : msys :=
  MSys (queue s) (signals s) (handlers s) (consumer_at s) (accepted s) (dropped s) (sent_ok s) (lost s ++ [b]).

(** What a handler will signal, when it looks at a queue. *)
Definition to_signal (q : chan string) (payload : string) : list string :=
  (if threshold (chan_cap q) <=? chan_len q then ["queue_threshold"%string] else []) ++ reports payload.

Inductive label := Arrival | Handler | Consumer | Failure.

#[export] Instance label_eq_dec : EqDecision label.
Proof. solve_decision. Defined.

Inductive mstep : label → msys → msys → Prop :=
  (* a handler sends its payload to the data queue *)
  | step_accept s b q :
      try_send b (queue s) = (Ret true, q) →
      mstep Arrival s (add_accepted (set_queue (set_handlers s (handlers s ++ [Checking b])) q) b)
  | step_drop s b q :
      try_send b (queue s) = (Ret false, q) →
      mstep Arrival s (add_dropped (set_queue (set_handlers s (handlers s ++ [Checking b])) q) b)
  (* [checkQueueThreshold] reads the length *)
  | step_check s i b :
      handlers s !! i = Some (Checking b) →
      mstep Handler s (set_handlers s (<[i := Signalling (to_signal (queue s) b)]> (handlers s)))
  | step_signal s i x l r c :
      handlers s !! i = Some (Signalling (x :: l)) → try_send x (signals s) = (Ret r, c) →
      mstep Handler s (set_signals (set_handlers s (<[i := Signalling l]> (handlers s))) c)
  | step_answer s i :
      handlers s !! i = Some (Signalling []) →
      mstep Handler s (set_handlers s (delete i (handlers s)))
  (* [processFlushSignals] *)
  | step_wake s x c :
      consumer_at s = Waiting → try_recv EmptyString (signals s) = (Ret (Some x), c) →
      mstep Consumer s (set_consumer (set_signals s c) (if drains x then Draining [] else Waiting))
  (* [DrainQueue] *)
  | step_recv s acc x c :
      consumer_at s = Draining acc → try_recv EmptyString (queue s) = (Ret (Some x), c) →
      mstep Consumer s (set_consumer (set_queue s c) (Draining (acc ++ [x])))
  | step_drained s acc c :
      consumer_at s = Draining acc → try_recv EmptyString (queue s) = (Ret None, c) →
      mstep Consumer s (set_consumer s match acc with [] => Waiting | _ => Sending acc end)
  | step_sent s acc :
      consumer_at s = Sending acc → mstep Consumer s (add_sent (set_consumer s Waiting) acc)
  | step_failed s acc :
      consumer_at s = Sending acc → mstep Failure s (set_consumer s (Requeueing acc))
  | step_requeue s x rest c :
      consumer_at s = Requeueing (x :: rest) → try_send x (queue s) = (Ret true, c) →
      mstep Consumer s (set_consumer (set_queue s c) (Requeueing rest))
  | step_lose s x rest c :
      consumer_at s = Requeueing (x :: rest) → try_send x (queue s) = (Ret false, c) →
      mstep Consumer s (add_lost (set_consumer s (Requeueing rest)) x)
  | step_requeued s :
      consumer_at s = Requeueing [] → mstep Consumer s (set_consumer s Waiting).

Definition any_mstep (s s' : msys) : Prop := ∃ l, mstep l s s'.
(** No new request arrives. *)
Definition quiet_mstep (s s' : msys) : Prop := ∃ l, l ≠ Arrival ∧ mstep l s s'.
(** No send to Sumo Logic fails. *)
Definition good_mstep (s s' : msys) : Prop := ∃ l, l ≠ Failure ∧ mstep l s s'.

(** After [init]: an empty queue, a signal channel of ten places. *)
Definition mstart (cap : Z) : msys :=
  MSys (Chan cap [] [] false) (Chan 10 [] [] false) [] Waiting [] [] [] [].
Definition mreachable (cap : Z) (s : msys) : Prop := rtc any_mstep (mstart cap) s.

(** The payloads in the hands of the consumer. *)
Definition in_hands (c : cphase) : list string :=
  match c with Waiting => [] | Draining l | Sending l | Requeueing l => l end.

(** Nothing is going on: no handler, no signal, the consumer waiting. *)
Definition quiescent (s : msys) : Prop :=
  handlers s = [] ∧ buf (signals s) = [] ∧ consumer_at s = Waiting.

(** ** Channels that are only polled *)
Section polled.
Implicit Types c : chan string.

(** Open, within its capacity, with no parked sender. *)
Record polled (cap : Z) (c : chan string) : Prop := {
  po_cap : chan_cap c = cap;
  po_len : chan_len c ≤ cap;
  po_sendq : sendq c = [];
  po_open : closed c = false }.

Lemma polled_contents cap c : polled cap c → contents c = buf c.
Proof. intros [_ _ H _]. unfold contents. by rewrite H, app_nil_r. Qed.

Lemma try_send_polled cap b c : polled cap c → ∃ r c', try_send b c = (Ret r, c').
Proof. intros [_ _ _ H]. unfold try_send. rewrite H. destruct (has_room c); eauto. Qed.

Lemma try_send_true cap b c c' :
  polled cap c → try_send b c = (Ret true, c') → polled cap c' ∧ buf c' = buf c ++ [b].
Proof.
  intros [H1 H2 H3 H4]. unfold try_send, has_room. rewrite H4.
  destruct (Z.ltb_spec (chan_len c) (chan_cap c)); [|done]. intros [= <-]. split; [|done].
  split; [done| |done|done]. unfold push. rewrite chan_len_app. simpl. lia.
Qed.

Lemma try_send_false cap b c c' :
  polled cap c → try_send b c = (Ret false, c') → c' = c ∧ chan_len c = cap.
Proof.
  intros [H1 H2 H3 H4]. unfold try_send, has_room. rewrite H4.
  destruct (Z.ltb_spec (chan_len c) (chan_cap c)); [done|]. intros [= <-]. split; [done|lia].
Qed.

Lemma try_recv_polled cap c :
  polled cap c →
  try_recv EmptyString c =
    match buf c with
    | [] => (Ret None, c)
    | x :: b => (Ret (Some x), Chan cap b [] false)
    end.
Proof. intros [<- H2 H3 H4]. unfold try_recv. rewrite H3, H4. by destruct (buf c). Qed.

Lemma try_recv_some cap c x c' :
  polled cap c → try_recv EmptyString c = (Ret (Some x), c') → polled cap c' ∧ buf c = x :: buf c'.
Proof.
  intros H. rewrite (try_recv_polled cap) by done. destruct H as [H1 H2 _ _].
  destruct (buf c) as [|y b] eqn:E; [done|]. intros [= <- <-]. split; [|done].
  split; try done. unfold chan_len in *. rewrite E in H2. simpl in *. lia.
Qed.

Lemma try_recv_none cap c c' :
  polled cap c → try_recv EmptyString c = (Ret None, c') → buf c = [].
Proof. intros H. rewrite (try_recv_polled cap) by done. by destruct (buf c). Qed.
End polled.

(** ** Invariants *)
Section invariants.
Implicit Types s : msys.

Definition known (x : string) : Prop := drains x = true.
Definition handler_known (h : hphase) : Prop :=
  match h with Checking _ => True | Signalling l => Forall known l end.

Record msys_ok (cap : Z) (s : msys) : Prop := {
  mo_queue : polled cap (queue s);
  mo_signals : polled 10 (signals s);
  mo_known : Forall known (buf (signals s));
  mo_handlers : Forall handler_known (handlers s);
  mo_kept : accepted s ≡ₚ sent_ok s ++ in_hands (consumer_at s) ++ buf (queue s) ++ lost s }.

Lemma reports_known b : Forall known (reports b).
Proof.
  unfold reports. destruct (unmarshal_events b); [|constructor].
  apply Forall_map, Forall_true. done.
Qed.

Lemma to_signal_known q b : Forall known (to_signal q b).
Proof.
  apply Forall_app. split; [|apply reports_known]. destruct (_ <=? _); by repeat constructor.
Qed.

Lemma msys_ok_start cap : 0 ≤ cap → msys_ok cap (mstart cap).
Proof. intros H. by split; [split|split|..]. Qed.

Lemma handlers_update P hs i (h : hphase) : Forall P hs → P h → Forall P (<[i:=h]> hs).
Proof. intros. by apply Forall_insert. Qed.

Lemma msys_ok_handler cap s s' : mstep Handler s s' → msys_ok cap s → msys_ok cap s'.
Proof.
  intros Hs [Hq Hc Hk Hh Hkept]. remember Handler as l eqn:El.
  destruct Hs as [ | |s i b Hi|s i x l' r c Hi Ht|s i Hi| | | | | | | |]; try done.
  - split; try done. apply handlers_update; [done|]. apply to_signal_known.
  - pose proof (Forall_lookup_1 _ _ _ _ Hh Hi) as Hxl. simpl in Hxl. apply Forall_cons in Hxl as [Hx Hl].
    assert (polled 10 c ∧ Forall known (buf c)) as [Hc' Hk'].
    { destruct r.
      - destruct (try_send_true _ _ _ _ Hc Ht) as [? ->]. split; [done|].
        apply Forall_app. split; [done|]. by constructor.
      - by destruct (try_send_false _ _ _ _ Hc Ht) as [-> _]. }
    split; try done. by apply handlers_update.
  - split; try done. by apply Forall_delete.
Qed.

Lemma msys_ok_arrival cap s s' : mstep Arrival s s' → msys_ok cap s → msys_ok cap s'.
Proof.
  intros Hs [Hq Hc Hk Hh Hkept]. remember Arrival as l eqn:El.
  destruct Hs as [s b q Ht|s b q Ht| | | | | | | | | | |]; try done.
  - destruct (try_send_true _ _ _ _ Hq Ht) as [Hq' Hb]. split; simpl; try done.
    + apply Forall_app. split; [done|]. by constructor.
    + rewrite Hb, Hkept. solve_Permutation.
  - destruct (try_send_false _ _ _ _ Hq Ht) as [-> _]. split; simpl; try done.
    apply Forall_app. split; [done|]. by constructor.
Qed.

Lemma msys_ok_consumer cap s s' l :
  l = Consumer ∨ l = Failure → mstep l s s' → msys_ok cap s → msys_ok cap s'.
Proof.
  intros Hl Hs [Hq Hc Hk Hh Hkept].
  destruct Hs as [ | | | | |s x c Hm Ht|s acc x c Hm Ht|s acc c Hm Ht|s acc Hm|s acc Hm
    |s x rest c Hm Ht|s x rest c Hm Ht|s Hm]; try (by destruct Hl); rewrite Hm in Hkept; simpl in Hkept.
  - destruct (try_recv_some _ _ _ _ Hc Ht) as [Hc' Hb]. rewrite Hb in Hk. apply Forall_cons in Hk as [Hx Hk].
    split; try done. simpl. by rewrite Hx.
  - destruct (try_recv_some _ _ _ _ Hq Ht) as [Hq' Hb]. split; try done. simpl.
    rewrite Hkept, Hb. solve_Permutation.
  - split; try done. simpl. by destruct acc.
  - split; try done. simpl. rewrite Hkept. solve_Permutation.
  - by split.
  - destruct (try_send_true _ _ _ _ Hq Ht) as [Hq' Hb]. split; try done. simpl.
    rewrite Hkept, Hb. solve_Permutation.
  - split; try done. simpl. rewrite Hkept. solve_Permutation.
  - by split.
Qed.

Lemma mstep_ok cap l s s' : mstep l s s' → msys_ok cap s → msys_ok cap s'.
Proof.
  destruct l; [apply msys_ok_arrival|apply msys_ok_handler|apply msys_ok_consumer; auto..].
Qed.

Lemma mreachable_ok cap s : 0 ≤ cap → mreachable cap s → msys_ok cap s.
Proof.
  intros Hcap Hr. assert (∀ s1 s2, rtc any_mstep s1 s2 → msys_ok cap s1 → msys_ok cap s2) as Hrtc.
  { induction 1 as [|s1 s2 s3 [l Hs] _ IH]; eauto using mstep_ok. }
  eapply Hrtc; [exact Hr|by apply msys_ok_start].
Qed.
End invariants.

(** ** Progress and termination

    Every goroutine that has something to do can do it: all the channel
    operations poll.  Without new requests the work left decreases, in the
    lexicographic order of what the handlers have to do, the pending signals,
    and what the consumer has to do for the signal at hand. *)
Section termination.
Implicit Types s : msys.

Definition handler_work (h : hphase) : nat :=
  match h with
  | Checking b => 3 + List.length (reports b)
  | Signalling l => 1 + List.length l
  end.
Definition consumer_work (queued : nat) (c : cphase) : nat :=
  match c with
  | Waiting => 0
  | Draining acc => 2 * queued + List.length acc + 3
  | Sending acc => List.length acc + 2
  | Requeueing l => List.length l + 1
  end.

Definition work s : nat * (nat * nat) :=
  (sum_list_with handler_work (handlers s),
   (List.length (buf (signals s)), consumer_work (List.length (buf (queue s))) (consumer_at s))).
Definition less_work : relation (nat * (nat * nat)) := slexprod _ _ lt (slexprod _ _ lt lt).

Lemma less_work_wf : well_founded less_work.
Proof. repeat apply wf_slexprod; apply lt_wf. Qed.

Lemma sum_insert (f : hphase → nat) hs i h h' :
  hs !! i = Some h → (f h' < f h)%nat →
  (sum_list_with f (<[i:=h']> hs) < sum_list_with f hs)%nat.
Proof.
  intros Hi Hf. rewrite <- (take_drop_middle hs i h Hi) at 2.
  rewrite insert_take_drop by by eapply lookup_lt_Some.
  rewrite !sum_list_with_app. simpl. lia.
Qed.

Lemma sum_delete (f : hphase → nat) hs i h :
  hs !! i = Some h → (0 < f h)%nat → (sum_list_with f (delete i hs) < sum_list_with f hs)%nat.
Proof.
  intros Hi Hf. rewrite <- (take_drop_middle hs i h Hi) at 2. rewrite delete_take_drop.
  rewrite !sum_list_with_app. simpl. lia.
Qed.

Lemma to_signal_length q b : (List.length (to_signal q b) ≤ 1 + List.length (reports b))%nat.
Proof. unfold to_signal. rewrite List.length_app. destruct (_ <=? _); simpl; lia. Qed.

Lemma quiet_decreases cap s s' : msys_ok cap s → quiet_mstep s s' → less_work (work s') (work s).
Proof.
  intros [Hq Hc _ _ _] (l & Hl & Hs).
  destruct Hs as [| |s i b Hi|s i x l r c Hi Ht|s i Hi|s x c Hm Ht|s acc x c Hm Ht|s acc c Hm Ht|s acc Hm
    |s acc Hm|s x rest c Hm Ht|s x rest c Hm Ht|s Hm]; try done; unfold work; simpl.
  - apply left_slex. eapply sum_insert; [done|]. pose proof (to_signal_length (queue s) b). simpl. lia.
  - apply left_slex. eapply sum_insert; [done|]. simpl. lia.
  - apply left_slex. eapply sum_delete; [done|]. simpl. lia.
  - destruct (try_recv_some _ _ _ _ Hc Ht) as [_ Hb]. apply right_slex, left_slex. rewrite Hb. simpl. lia.
  - destruct (try_recv_some _ _ _ _ Hq Ht) as [_ Hb]. apply right_slex, right_slex. rewrite Hm, Hb.
    simpl. rewrite List.length_app. simpl. lia.
  - apply right_slex, right_slex. rewrite Hm. destruct acc; simpl; lia.
  - apply right_slex, right_slex. rewrite Hm. simpl. lia.
  - apply right_slex, right_slex. rewrite Hm. simpl. lia.
  - apply right_slex, right_slex. rewrite Hm. simpl. lia.
  - apply right_slex, right_slex. rewrite Hm. simpl. lia.
  - apply right_slex, right_slex. rewrite Hm. simpl. lia.
Qed.

Lemma quiet_sn cap s : msys_ok cap s → sn quiet_mstep s.
Proof.
  remember (work s) as n eqn:En. revert s En.
  induction (less_work_wf n) as [n _ IH]. intros s -> Hs. constructor. intros s' Hs'.
  eapply IH; [by eapply quiet_decreases|done|]. destruct Hs' as (l & _ & Hs'). by eapply mstep_ok.
Qed.

(** A goroutine with something to do can go on, and without a failure. *)
Lemma can_step cap s :
  msys_ok cap s → quiescent s ∨ ∃ l s', mstep l s s' ∧ (l = Handler ∨ l = Consumer).
Proof.
  intros [Hq Hc _ _ _]. destruct (handlers s) as [|h hs] eqn:Eh.
  - destruct (consumer_at s) as [|acc|acc|[|x rest]] eqn:Em.
    + destruct (buf (signals s)) as [|x b] eqn:Eb; [by left|right].
      pose proof (try_recv_polled _ _ Hc) as Hr. rewrite Eb in Hr. do 2 eexists. split; [by eapply step_wake|auto].
    + right. pose proof (try_recv_polled _ _ Hq) as Hr. destruct (buf (queue s)) as [|x b] eqn:Eb.
      * do 2 eexists. split; [by eapply step_drained|auto].
      * do 2 eexists. split; [by eapply step_recv|auto].
    + right. do 2 eexists. split; [by eapply step_sent|auto].
    + right. do 2 eexists. split; [by eapply step_requeued|auto].
    + right. destruct (try_send_polled _ x _ Hq) as ([] & c & Ht).
      * do 2 eexists. split; [by eapply step_requeue|auto].
      * do 2 eexists. split; [by eapply step_lose|auto].
  - assert (handlers s !! 0%nat = Some h) as Hi by by rewrite Eh.
    right. destruct h as [b|[|x l]].
    + do 2 eexists. split; [by eapply step_check|auto].
    + do 2 eexists. split; [by eapply step_answer|auto].
    + destruct (try_send_polled _ x _ Hc) as (r & c & Ht).
      do 2 eexists. split; [by eapply step_signal|auto].
Qed.

Lemma quiescent_idle cap s : msys_ok cap s → quiescent s → ∀ l s', mstep l s s' → l = Arrival.
Proof.
  intros Hok (Hh & Hb & Hm) l s' Hs. pose proof (mo_signals _ _ Hok) as Hc.
  destruct Hs as [| |s i b Hi|s i x l r c Hi Ht|s i Hi|s x c Hm' Ht| | | | | | |]; try done; try congruence;
    try by rewrite Hh, lookup_nil in Hi.
  destruct (try_recv_some _ _ _ _ Hc Ht) as [_ E]. congruence.
Qed.
End termination.

(** ** Runs without a failed send *)
Section good_runs.
Implicit Types s : msys.

(** First in, first out. *)
Record morderly s : Prop := {
  or_kept : accepted s = sent_ok s ++ in_hands (consumer_at s) ++ buf (queue s);
  or_lost : lost s = [];
  or_phase : ∀ l, consumer_at s ≠ Requeueing l }.

Lemma good_morderly cap s s' : good_mstep s s' → msys_ok cap s → morderly s → morderly s'.
Proof.
  intros (l & Hl & Hs) [Hq _ _ _ _] [Ho Hlost Hp].
  destruct Hs as [s b q Ht|s b q Ht|s i b Hi|s i x l r c Hi Ht|s i Hi|s x c Hm Ht|s acc x c Hm Ht|s acc c Hm Ht
    |s acc Hm|s acc Hm|s x rest c Hm Ht|s x rest c Hm Ht|s Hm]; try done;
    try rewrite Hm in Ho; try (by destruct (Hp _ Hm)); simpl in Ho.
  - destruct (try_send_true _ _ _ _ Hq Ht) as [_ Hb]. split; try done. simpl. by rewrite Hb, Ho, !app_assoc.
  - by destruct (try_send_false _ _ _ _ Hq Ht) as [-> _].
  - split; try done; simpl; [|by destruct (drains x)]. rewrite Ho. by destruct (drains x).
  - destruct (try_recv_some _ _ _ _ Hq Ht) as [_ Hb]. split; try done. simpl. by rewrite Ho, Hb, <- !app_assoc.
  - split; try done; simpl; [|by destruct acc]. rewrite Ho. by destruct acc.
  - split; try done. simpl. by rewrite Ho, app_assoc.
Qed.

(** Somebody will still empty the queue: a handler that has not finished
    (one that is checking counts when its payload satisfies [P]), a pending
    signal, or the consumer. *)
Definition awake (P : string → Prop) (h : hphase) : Prop :=
  match h with Checking b => P b | Signalling l => l ≠ [] end.
Definition pending (P : string → Prop) s : Prop :=
  Exists (awake P) (handlers s) ∨ buf (signals s) ≠ [] ∨ ∃ acc, consumer_at s = Draining acc.

Lemma awake_update P hs i h h' :
  Exists (awake P) hs → hs !! i = Some h → (awake P h → awake P h') → Exists (awake P) (<[i:=h']> hs).
Proof.
  intros He Hi Hh. apply Exists_exists in He as (x & Hx & Ha). apply list_elem_of_lookup in Hx as [j Hj].
  apply Exists_exists. destruct (decide (i = j)) as [->|Hij].
  - simplify_eq. exists h'. split; [|by apply Hh]. apply (list_elem_of_lookup_2 _ j).
    apply list_lookup_insert_eq. by eapply lookup_lt_Some.
  - exists x. split; [|done]. apply (list_elem_of_lookup_2 _ j). by rewrite list_lookup_insert_ne.
Qed.

Lemma awake_delete P hs i h :
  Exists (awake P) hs → hs !! i = Some h → ¬ awake P h → Exists (awake P) (delete i hs).
Proof.
  intros He Hi Hh. rewrite delete_take_drop. rewrite <- (take_drop_middle hs i h Hi) in He.
  apply Exists_app in He as [He|He]; apply Exists_app; [by left|right].
  by apply Exists_cons in He as [He|He].
Qed.

(** What is pending goes on until the queue is empty. *)
Lemma pending_step cap P l s s' :
  mstep l s s' → l = Handler ∨ l = Consumer → msys_ok cap s → (∀ r, consumer_at s ≠ Requeueing r) →
  (∀ b, P b → to_signal (queue s) b ≠ []) → pending P s → pending P s' ∨ buf (queue s') = [].
Proof.
  intros Hs Hl [Hq Hc Hk _ _] Hr HP Hpend. unfold pending in *.
  destruct Hs as [s b q Ht|s b q Ht|s i b Hi|s i x l r c Hi Ht|s i Hi|s x c Hm Ht|s acc x c Hm Ht|s acc c Hm Ht
    |s acc Hm|s acc Hm|s x rest c Hm Ht|s x rest c Hm Ht|s Hm]; try (by destruct Hl); simpl;
    try (by destruct (Hr _ Hm)).
  - destruct Hpend as [He|Hd]; [|by left; right]. do 2 left. by eapply awake_update; [done..|apply HP].
  - destruct r.
    + destruct (try_send_true _ _ _ _ Hc Ht) as [_ ->]. left. right. left. by destruct (buf (signals s)).
    + destruct (try_send_false _ _ _ _ Hc Ht) as [-> Hf]. left. right. left.
      intros Hb. unfold chan_len in Hf. rewrite Hb in Hf. done.
  - destruct Hpend as [He|Hd]; [|by left; right]. do 2 left. eapply awake_delete; [done..|]. simpl. auto.
  - left. destruct (try_recv_some _ _ _ _ Hc Ht) as [_ Hb]. rewrite Hb in Hk. apply Forall_cons in Hk as [Hx _].
    rewrite Hx. eauto.
  - left. destruct Hpend as [|[|_]]; eauto.
  - right. by eapply try_recv_none.
  - left. destruct Hpend as [|[|[acc' Hd]]]; [by left|by right; left|congruence].
Qed.

(** Handlers and the consumer only take from the queue. *)
Lemma queue_shrinks cap l s s' :
  mstep l s s' → l = Handler ∨ l = Consumer → msys_ok cap s → (∀ r, consumer_at s ≠ Requeueing r) →
  accepted s' = accepted s ∧ chan_cap (queue s') = chan_cap (queue s) ∧
  chan_len (queue s') ≤ chan_len (queue s) ∧ (buf (queue s) = [] → buf (queue s') = []).
Proof.
  intros Hs Hl [Hq Hc Hk _ _] Hr.
  destruct Hs as [s b q Ht|s b q Ht|s i b Hi|s i x l r c Hi Ht|s i Hi|s x c Hm Ht|s acc x c Hm Ht|s acc c Hm Ht
    |s acc Hm|s acc Hm|s x rest c Hm Ht|s x rest c Hm Ht|s Hm]; try (by destruct Hl); simpl;
    try (by destruct (Hr _ Hm)); try (split_and!; done || lia).
  destruct (try_recv_some _ _ _ _ Hq Ht) as [[Hcap' _ _ _] Hb]. destruct Hq as [Hcap _ _ _].
  split; [done|]. split; [congruence|]. unfold chan_len. rewrite Hb. split; [simpl; lia|done].
Qed.

(** Above the threshold, and behind a report, something is pending. *)
Record watched s : Prop := {
  wa_threshold : threshold (chan_cap (queue s)) ≤ chan_len (queue s) → buf (queue s) ≠ [] → pending (λ _, True) s;
  wa_report b : last (accepted s) = Some b → reports b ≠ [] → buf (queue s) ≠ [] →
                pending (λ b, reports b ≠ []) s }.

Lemma watched_arrival s h q acc dr :
  chan_cap q = chan_cap (queue s) → (∀ b, last acc = Some b → reports b ≠ [] → awake (λ b, reports b ≠ []) h ∨
    (last (accepted s) = Some b ∧ q = queue s)) → awake (λ _, True) h → watched s →
  watched (MSys q (signals s) (handlers s ++ [h]) (consumer_at s) acc dr (sent_ok s) (lost s)).
Proof.
  intros Hcap Hrep Hh [H1 H2]. split; unfold pending; simpl.
  - intros _ _. left. apply Exists_app. right. by constructor.
  - intros b Hb Hr Hq. destruct (Hrep b Hb Hr) as [Ha|[Hl ->]].
    + left. apply Exists_app. right. by constructor.
    + destruct (H2 b Hl Hr Hq) as [He|He]; [left|by right]. apply Exists_app. by left.
Qed.

Lemma good_watched cap s s' : good_mstep s s' → msys_ok cap s → morderly s → watched s → watched s'.
Proof.
  intros (l & Hl & Hs) Hok [_ _ Hp] Hw. destruct (decide (l = Arrival)) as [->|Ha].
  - pose proof Hok as [Hq _ _ _ _]. inversion Hs as [s0 b q Ht|s0 b q Ht| | | | | | | | | | |]; subst.
    + destruct (try_send_true _ _ _ _ Hq Ht) as [[Hc _ _ _] _]. destruct Hq as [Hc' _ _ _].
      apply (watched_arrival s (Checking b)); [cbn; congruence| |done|done]. intros b'. rewrite last_snoc. intros [= ->]. by left.
    + destruct (try_send_false _ _ _ _ Hq Ht) as [-> _].
      apply (watched_arrival s (Checking b)); [done| |done|done]. intros b' Hb' Hr. by right.
  - assert (l = Handler ∨ l = Consumer) as Hl' by (destruct l; auto; done).
    destruct (queue_shrinks _ _ _ _ Hs Hl' Hok Hp) as (Hacc & Hcap & Hlen & Hnil). destruct Hw as [H1 H2]. split.
    + intros Ht Hb. rewrite Hcap in Ht. destruct (pending_step cap (λ _, True) l s s' Hs Hl' Hok Hp) as [|]; [|apply H1; auto; lia|done..].
      intros b _. unfold to_signal. rewrite (proj2 (Z.leb_le _ _)) by lia. done.
    + intros b Hb Hr Hq. rewrite Hacc in Hb.
      destruct (pending_step cap (λ b, reports b ≠ []) l s s' Hs Hl' Hok Hp) as [|]; [|eauto|done..].
      intros b' Hb'. unfold to_signal. by intros [_ ?]%app_nil.
Qed.

Lemma good_run cap s :
  0 ≤ cap → rtc good_mstep (mstart cap) s → msys_ok cap s ∧ morderly s ∧ watched s.
Proof.
  intros Hcap Hr.
  assert (∀ s1 s2, rtc good_mstep s1 s2 → msys_ok cap s1 ∧ morderly s1 ∧ watched s1 →
    msys_ok cap s2 ∧ morderly s2 ∧ watched s2) as Hrtc.
  { induction 1 as [|s1 s2 s3 H12 _ IH]; [done|]. intros (H1 & H2 & H3). apply IH. split; [|split].
    - destruct H12 as (l & _ & H12). by eapply mstep_ok.
    - by eapply good_morderly.
    - by eapply good_watched. }
  apply (Hrtc _ _ Hr). split; [by apply msys_ok_start|]. split; by split.
Qed.
End good_runs.

(** ** The calls of Producers.v and Consumers.v as runs *)

(** A run of the consumer alone, with its calls of the sender: what each was
    given, and whether it returned no error. *)
Inductive mrun : list (list string * bool) → msys → msys → Prop :=
  | mrun_nil s : mrun [] s s
  | mrun_silent s1 s2 s3 cs :
      mstep Consumer s1 s2 → (∀ l, consumer_at s1 ≠ Sending l) → mrun cs s2 s3 → mrun cs s1 s3
  | mrun_sent s1 s2 s3 l cs :
      consumer_at s1 = Sending l → mstep Consumer s1 s2 → mrun cs s2 s3 → mrun ((l, true) :: cs) s1 s3
  | mrun_failed s1 s2 s3 l cs :
      consumer_at s1 = Sending l → mstep Failure s1 s2 → mrun cs s2 s3 → mrun ((l, false) :: cs) s1 s3.

(** The same calls of a sender, one after the other. *)
Inductive called {W} `{LogSender W} : list (list string * bool) → W → W → Prop :=
  | called_nil w : called [] w w
  | called_cons l err w1 w2 w3 cs :
      SendAllLogs l w1 = (Ret err, w2) → called cs w2 w3 →
      called ((l, if err then false else true) :: cs) w1 w3.

Section simulation.
Implicit Types s : msys.

(** The same goroutines but for the consumer's place. *)
Definition same_handlers s s' : Prop := handlers s' = handlers s ∧ signals s' = signals s.

Lemma mrun_trans cs1 cs2 s1 s2 s3 : mrun cs1 s1 s2 → mrun cs2 s2 s3 → mrun (cs1 ++ cs2) s1 s3.
Proof. induction 1; intros; simpl; eauto using mrun. Qed.

Lemma called_trans {W} `{LogSender W} cs1 cs2 w1 w2 w3 : called cs1 w1 w2 → called cs2 w2 w3 → called (cs1 ++ cs2) w1 w3.
Proof. induction 1; intros; simpl; eauto using called. Qed.

Lemma mrun_step s1 s2 : mstep Consumer s1 s2 → (∀ l, consumer_at s1 ≠ Sending l) → mrun [] s1 s2.
Proof. intros H1 H2. eapply mrun_silent; [exact H1|exact H2|constructor]. Qed.

Lemma mrun_handlers cs s s' :
  mrun cs s s' → handlers s' = handlers s ∧ accepted s' = accepted s ∧ dropped s' = dropped s.
Proof.
  assert (∀ l s1 s2, mstep l s1 s2 → l = Consumer ∨ l = Failure →
    handlers s2 = handlers s1 ∧ accepted s2 = accepted s1 ∧ dropped s2 = dropped s1) as Hstep.
  { intros l s1 s2 H. destruct H; intros [|]; done. }
  induction 1 as [s|s1 s2 s3 cs H1 _ _ (-> & -> & ->)|s1 s2 s3 l cs _ H1 _ (-> & -> & ->)|s1 s2 s3 l cs _ H1 _ (-> & -> & ->)];
    eauto.
Qed.

Lemma try_send_each_cons x l (c : chan string) r c' :
  try_send x c = (Ret r, c') → try_send_each (x :: l) c = try_send_each l c'.
Proof. intros H. unfold try_send_each. cbn [go_fold]. unfold go_bind at 1 2. by rewrite H. Qed.

Lemma handler_run s s' :
  rtc (mstep Handler) s s' →
  consumer_at s' = consumer_at s ∧ queue s' = queue s ∧ accepted s' = accepted s ∧ dropped s' = dropped s.
Proof.
  assert (∀ l s1 s2, mstep l s1 s2 → l = Handler →
    consumer_at s2 = consumer_at s1 ∧ queue s2 = queue s1 ∧ accepted s2 = accepted s1 ∧ dropped s2 = dropped s1) as Hstep.
  { intros l s1 s2 H. by destruct H. }
  induction 1 as [s|s1 s2 s3 H _ (-> & -> & -> & ->)]; [done|]. by eapply Hstep.
Qed.

Lemma run_signals i l : ∀ s,
  polled 10 (signals s) → handlers s !! i = Some (Signalling l) →
  ∃ s', rtc (mstep Handler) s s' ∧ signals s' = (try_send_each l (signals s)).2 ∧
    handlers s' = <[i:=Signalling []]> (handlers s).
Proof.
  induction l as [|x l IH]; intros s Hc Hi.
  - exists s. split; [done|]. split_and!; try done. by rewrite list_insert_id.
  - destruct (try_send_polled _ x _ Hc) as (r & c & Ht).
    set (s1 := set_signals (set_handlers s (<[i:=Signalling l]> (handlers s))) c).
    assert (polled 10 c) as Hc'.
    { destruct r; [by destruct (try_send_true _ _ _ _ Hc Ht)|by destruct (try_send_false _ _ _ _ Hc Ht) as [-> _]]. }
    destruct (IH s1 Hc') as (s' & Hr & Hsig & Hh).
    { simpl. apply list_lookup_insert_eq. by eapply lookup_lt_Some. }
    exists s'. split; [eapply rtc_l; [by eapply (step_signal s)|exact Hr]|].
    rewrite (try_send_each_cons _ _ _ _ _ Ht). split; [done|].
    rewrite Hh. simpl. by rewrite list_insert_insert_eq.
Qed.

Lemma collect_run cap b : ∀ s acc,
  polled cap (queue s) → buf (queue s) = b → consumer_at s = Draining acc →
  mrun [] s (set_consumer (set_queue s (Chan cap [] [] false)) (Draining (acc ++ b))).
Proof.
  induction b as [|x b IH]; intros s acc Hq Hb Hm.
  - rewrite app_nil_r. destruct s as [[n b' sq cl] sg hs m a d o l]. destruct Hq as [? _ ? ?]. simpl in *. subst. constructor.
  - pose proof (try_recv_polled _ _ Hq) as Hr. rewrite Hb in Hr.
    eapply mrun_silent; [by eapply step_recv|by rewrite Hm|].
    set (s1 := set_consumer (set_queue s (Chan cap b [] false)) (Draining (acc ++ [x]))).
    destruct (try_recv_some _ _ _ _ Hq Hr) as [Hq' _].
    specialize (IH s1 (acc ++ [x]) Hq' eq_refl eq_refl). by rewrite <- app_assoc in IH.
Qed.

Lemma requeue_run cap l : ∀ s,
  polled cap (queue s) → consumer_at s = Requeueing l →
  ∃ s', mrun [] s s' ∧ queue s' = (try_send_each l (queue s)).2 ∧ signals s' = signals s ∧ consumer_at s' = Waiting.
Proof.
  induction l as [|x l IH]; intros s Hq Hm.
  - exists (set_consumer s Waiting). split; [|by split]. apply mrun_step; [by apply step_requeued|by rewrite Hm].
  - destruct (try_send_polled _ x _ Hq) as ([] & c & Ht); rewrite (try_send_each_cons _ _ _ _ _ Ht).
    + destruct (try_send_true _ _ _ _ Hq Ht) as [Hq' _].
      destruct (IH (set_consumer (set_queue s c) (Requeueing l)) Hq' eq_refl) as (s' & Hr & H).
      exists s'. split; [|exact H]. eapply mrun_silent; [by eapply step_requeue|by rewrite Hm|exact Hr].
    + destruct (try_send_false _ _ _ _ Hq Ht) as [-> _].
      destruct (IH (add_lost (set_consumer s (Requeueing l)) x) Hq eq_refl) as (s' & Hr & H).
      exists s'. split; [|exact H]. eapply mrun_silent; [by eapply step_lose|by rewrite Hm|exact Hr].
Qed.

Context {W : Type} `{LogSender W}.
Implicit Types ws : wstate W.

(** The channels of the two models agree. *)
Record agree ws s : Prop := {
  ag_queue : queue s = dataQueue ws;
  ag_signals : signals s = flushSignal ws;
  ag_polled : polled (chan_cap (queue s)) (queue s);
  ag_polled_signals : polled 10 (signals s) }.

Lemma agree_running ws s : agree ws s → running ws.
Proof.
  intros [Hq Hs [H1 H2 H3 H4] [H5 H6 H7 H8]]. rewrite Hq in *. rewrite Hs in *. unfold chan_len in *.
  split; [split|done|split|done]; unfold chan_len; done || lia.
Qed.

(** How a call of the consumer ends: it returns with the consumer waiting
    again, or inside a call of the sender that does not return. *)
Definition ends {A} (r : gores A) (w w' : W) s (P : Prop) : Prop :=
  (w' = w ∧ consumer_at s = Waiting ∧ P) ∨
  (∃ l, consumer_at s = Sending l ∧
     ((∃ p, r = Panic p ∧ SendAllLogs l w = (Panic p, w')) ∨ (r = Block ∧ SendAllLogs l w = (Block, w')))).

Lemma drain_run ws s :
  agree ws s → consumer_at s = Draining [] →
  let '(r, ws') := managed_DrainQueue ws in
  ∃ cs w s', mrun cs s s' ∧ called cs (ext ws) w ∧ signals s' = signals s ∧ agree ws' s' ∧
    ends r w (ext ws') s' (∃ n, r = Ret n).
Proof.
  intros Hag Hm. pose proof (agree_running _ _ Hag) as Hrun. destruct Hag as [Hq Hsig Hp Hps].
  pose proof (collect_run _ (buf (queue s)) s [] Hp eq_refl Hm) as Hr. simpl in Hr.
  set (s1 := set_consumer (set_queue s (Chan (chan_cap (queue s)) [] [] false)) (Draining (buf (queue s)))) in *.
  assert (polled (chan_cap (queue s)) (queue s1)) as Hp1.
  { destruct Hp as [_ H2 _ _]. split; try done. unfold chan_len in *. simpl. lia. }
  assert (mrun [] s (set_consumer s1 match buf (queue s) with [] => Waiting | _ => Sending (buf (queue s)) end)) as Hr2.
  { apply (mrun_trans [] [] s s1); [exact Hr|]. apply mrun_step; [|done].
    eapply step_drained; [done|]. apply (try_recv_polled _ _ Hp1). }
  assert (queued ws = buf (queue s)) as Hqueued.
  { unfold queued. rewrite <- Hq. by eapply polled_contents. }
  assert (dataQueue (emptied ws) = queue s1) as Hem by (unfold emptied; simpl; by rewrite <- Hq).
  rewrite managed_DrainQueue_eq, Hqueued by done. destruct (buf (queue s)) as [|x b] eqn:Hb.
  { eexists [], (ext ws), _. split; [exact Hr2|]. split; [constructor|]. split; [done|]. split; [by split|]. left. eauto. }
  set (l := x :: b) in *. set (s2 := set_consumer s1 (Sending l)) in *.
  destruct (SendAllLogs l (ext ws)) as [[[e|]|p|] w] eqn:Hcall.
  - destruct (requeue_run _ l (set_consumer s2 (Requeueing l)) Hp1 eq_refl) as (s3 & Hr3 & Hq3 & Hs3 & Hm3).
    exists [(l, false)], w, s3. split.
    { apply (mrun_trans [] [_] s s2); [done|]. eapply mrun_failed; [done|by eapply (step_failed s2)|exact Hr3]. }
    split; [by apply (called_cons l (Some e) _ w _ [] Hcall); constructor|]. split; [done|]. split; [|left; eauto].
    assert (queue s3 = dataQueue (refilled l ws)) as Hq4.
    { rewrite Hq3. simpl. destruct Hp1 as [_ Hl1 _ _]. rewrite try_send_each_spec by done.
      unfold chan_len. simpl. rewrite Z.sub_0_r. by rewrite Hq. }
    split; [done|by rewrite Hs3| |by rewrite Hs3]. rewrite Hq4. unfold refilled. simpl.
    split; [done| |done|done]. rewrite <- Hq. destruct Hp as [_ Hp _ _]. unfold chan_len in *. simpl in *.
    rewrite length_take. lia.
  - exists [(l, true)], w, (add_sent (set_consumer s2 Waiting) l). split.
    { apply (mrun_trans [] [_] s s2); [done|]. eapply mrun_sent; [done|by eapply (step_sent s2)|constructor]. }
    split; [by apply (called_cons l None _ w _ [] Hcall); constructor|]. split; [done|]. split; [by split|left; eauto].
  - exists [], (ext ws), s2. split; [exact Hr2|]. split; [constructor|]. split; [done|]. split; [by split|]. right. exists l. eauto.
  - exists [], (ext ws), s2. split; [exact Hr2|]. split; [constructor|]. split; [done|]. split; [by split|]. right. exists l. eauto.
Qed.

Lemma try_send_each_polled cap l (c : chan string) : polled cap c → polled cap (try_send_each l c).2.
Proof.
  intros [H1 H2 H3 H4]. rewrite try_send_each_spec by lia || done. split; try done. unfold chan_len in *. simpl.
  rewrite List.length_app, length_take. lia.
Qed.

Lemma after_signals_each l ws :
  polled 10 (flushSignal ws) → flushSignal (after_signals l ws) = (try_send_each l (flushSignal ws)).2.
Proof. intros [H1 H2 H3 H4]. rewrite try_send_each_spec by lia || done. simpl. by rewrite H4. Qed.

(** A handler after its send runs to its answer. *)
Lemma run_checking b s hs :
  polled 10 (signals s) → handlers s = hs ++ [Checking b] →
  ∃ s', rtc (mstep Handler) s s' ∧ handlers s' = hs ∧
    signals s' = (try_send_each (to_signal (queue s) b) (signals s)).2.
Proof.
  intros Hps Hh. set (i := List.length hs).
  assert (handlers s !! i = Some (Checking b)) as Hi by (rewrite Hh; by apply list_lookup_middle).
  set (s2 := set_handlers s (<[i := Signalling (to_signal (queue s) b)]> (handlers s))).
  assert (handlers s2 !! i = Some (Signalling (to_signal (queue s) b))) as Hi2.
  { simpl. apply list_lookup_insert_eq. by eapply lookup_lt_Some. }
  destruct (run_signals i (to_signal (queue s) b) s2 Hps Hi2) as (s3 & Hr3 & Hs3 & Hh3).
  exists (set_handlers s3 (delete i (handlers s3))). split_and!; [| |done].
  - eapply rtc_l; [by eapply step_check|]. fold s2. etrans; [exact Hr3|].
    apply rtc_once. apply step_answer. rewrite Hh3.
    apply list_lookup_insert_eq. by eapply lookup_lt_Some.
  - simpl. rewrite Hh3. simpl. rewrite list_insert_insert_eq, Hh. apply delete_insert_snoc.
Qed.

(** The send of a handler, on both branches. *)
Lemma run_arrival b s :
  polled (chan_cap (queue s)) (queue s) →
  ∃ s1, mstep Arrival s s1 ∧ handlers s1 = handlers s ++ [Checking b] ∧ signals s1 = signals s ∧
    consumer_at s1 = consumer_at s ∧ polled (chan_cap (queue s)) (queue s1) ∧
    if has_room (queue s)
    then queue s1 = push b (queue s) ∧ accepted s1 = accepted s ++ [b] ∧ dropped s1 = dropped s
    else queue s1 = queue s ∧ accepted s1 = accepted s ∧ dropped s1 = dropped s ++ [b].
Proof.
  intros Hp. pose proof Hp as [_ _ _ Ho]. destruct (has_room (queue s)) eqn:Hroom.
  - assert (try_send b (queue s) = (Ret true, push b (queue s))) as Ht by (unfold try_send; by rewrite Ho, Hroom).
    destruct (try_send_true _ _ _ _ Hp Ht) as [Hp' _]. eexists. by split; [by eapply step_accept|].
  - assert (try_send b (queue s) = (Ret false, queue s)) as Ht by (unfold try_send; by rewrite Ho, Hroom).
    eexists. by split; [by eapply step_drop|].
Qed.

(** A POST: its handler comes, signals, answers and goes. *)
Lemma run_handler r ws s :
  agree ws s → chan_cap (queue s) < 2 ^ 49 → is_post r = true → body_failed r = false →
  let '(res, ws') := managed_logsHandler r ws in
  res = Ret StatusOK ∧ ext ws' = ext ws ∧ ∃ s1 s',
    mstep Arrival s s1 ∧ handlers s1 = handlers s ++ [Checking (body_data r)] ∧
    (if has_room (queue s)
     then accepted s' = accepted s ++ [body_data r] ∧ dropped s' = dropped s
     else accepted s' = accepted s ∧ dropped s' = dropped s ++ [body_data r]) ∧
    rtc (mstep Handler) s1 s' ∧ handlers s' = handlers s ∧ consumer_at s' = consumer_at s ∧ agree ws' s'.
Proof.
  intros Hag Hcap Hpost Hbody. pose proof (agree_running _ _ Hag) as Hrun. destruct Hag as [Hq Hsig Hp Hps].
  rewrite managed_logsHandler_eq by (rewrite <- ?Hq; done). rewrite Hpost, Hbody. simpl.
  set (b := body_data r). split; [done|]. split; [done|].
  destruct (run_arrival b s Hp) as (s1 & Hs1 & Hh1 & Hsig1 & Hm1 & Hp1 & Hacc).
  destruct (run_checking b s1 _ ltac:(by rewrite Hsig1) Hh1) as (s2 & Hr2 & Hh2 & Hsig2).
  destruct (handler_run _ _ Hr2) as (Hm2 & Hq2 & Ha2 & Hd2).
  set (q := if has_room (dataQueue ws) then push b (dataQueue ws) else dataQueue ws).
  assert (queue s1 = q) as Hq1 by (subst q; rewrite <- Hq; destruct (has_room (queue s)); apply Hacc).
  exists s1, s2. split; [done|]. split; [done|].
  split; [rewrite Ha2, Hd2; destruct (has_room (queue s)); apply Hacc|]. split; [done|]. split; [done|]. split; [congruence|].
  assert (wanted_signals (chan_len q) (chan_cap q) b = to_signal (queue s1) b) as Hw.
  { unfold wanted_signals, to_signal, threshold. rewrite Hq1. rewrite Hq1 in Hp1. destruct Hp1 as [-> Hp1 _ _]. rewrite four_fifths; [done|].
    unfold chan_len in Hp1. lia. }
  split; [by rewrite Hq2| |rewrite Hq2; by destruct Hp1 as [<- ]|rewrite Hsig2, Hsig1; by apply try_send_each_polled].
  rewrite Hsig2, Hsig1, Hsig, Hw. symmetry. by rewrite after_signals_each by (simpl; by rewrite <- Hsig).
Qed.

Lemma handle_known x : known x → handle_signal x = (let! _ := managed_DrainQueue in go_ret tt).
Proof. unfold known, drains, handle_signal. by destruct (String.eqb x _), (String.eqb x _). Qed.

(** The loop of the consumer, signal by signal. *)
Lemma loop_run config n : ∀ ws s,
  agree ws s → consumer_at s = Waiting → Forall known (buf (signals s)) →
  let '(r, ws') := processFlushSignals config (replicate n false) ws in
  ∃ cs w s', mrun cs s s' ∧ called cs (ext ws) w ∧ agree ws' s' ∧
    ends r w (ext ws') s' (r = Block ∧ buf (signals s') = drop n (buf (signals s))).
Proof.
  induction n as [|n IH]; intros ws s Hag Hm Hk; cbn [replicate processFlushSignals].
  { exists [], (ext ws), s. split; [constructor|]. split; [constructor|]. split; [done|]. by left. }
  pose proof Hag as [Hq Hsig Hp Hps]. pose proof (try_recv_polled _ _ Hps) as Hr.
  unfold go_bind at 1, on_signals, zoom at 1. rewrite <- Hsig, Hr. destruct (buf (signals s)) as [|x b] eqn:Eb.
  { exists [], (ext ws), s. split; [constructor|]. split; [constructor|]. split; [by split|]. by left. }
  apply Forall_cons in Hk as [Hx Hk]. set (ws1 := with_signals ws (Chan 10 b [] false)).
  set (s1 := set_consumer (set_signals s (Chan 10 b [] false)) (Draining [])).
  assert (mrun [] s s1) as Hs1.
  { pose proof (step_wake s x (Chan 10 b [] false) Hm Hr) as H1. rewrite Hx in H1. apply mrun_step; [exact H1|by rewrite Hm]. }
  destruct (try_recv_some _ _ _ _ Hps Hr) as [Hps1 _].
  assert (agree ws1 s1) as Hag1 by by split.
  pose proof (drain_run ws1 s1 Hag1 eq_refl) as Hd.
  unfold go_bind at 1. rewrite handle_known by done. unfold go_bind at 1. fold ws1.
  destruct (managed_DrainQueue ws1) as [r1 ws2]. destruct Hd as (cs & w & s2 & Hr2 & Hc2 & Hs2 & Hag2 & Hend).
  assert (mrun cs s s2) as Hrun by by apply (mrun_trans [] _ s s1).
  destruct Hend as [(Hw & Hm2 & rd & ->)|(l & Hl & Hend)].
  - specialize (IH ws2 s2 Hag2 Hm2 ltac:(by rewrite Hs2)). unfold go_ret at 1.
    destruct (processFlushSignals config (replicate n false) ws2) as [r ws3].
    destruct IH as (cs3 & w3 & s3 & Hr3 & Hc3 & Hag3 & Hend3). rewrite Hs2 in Hend3.
    exists (cs ++ cs3), w3, s3. split; [by eapply mrun_trans|]. split; [|done].
    eapply called_trans; [exact Hc2|by rewrite <- Hw].
  - destruct Hend as [(p & -> & Hcall)|[-> Hcall]];
      exists cs, w, s2; (split; [done|]); (split; [done|]); (split; [done|]); right; exists l; eauto.
Qed.
End simulation.

(** ** Theorems *)
Section theorems.
Implicit Types s : msys.

(** C6. Conservation in managed mode: in every reachable state each payload
    that a handler queued was sent, is in the hands of the consumer, is in
    the queue, or was lost when a failed drain was put back; both channels
    stay within their capacities, and a payload is dropped or lost only by a
    step taken while the queue is full. *)
Theorem managed_system_conserves cap s :
  0 ≤ cap → mreachable cap s →
  accepted s ≡ₚ sent_ok s ++ in_hands (consumer_at s) ++ contents (queue s) ++ lost s ∧
  chan_len (queue s) ≤ cap ∧ chan_len (signals s) ≤ 10 ∧
  ∀ l s', mstep l s s' → (dropped s' = dropped s ∧ lost s' = lost s) ∨ chan_len (queue s) = cap.
Proof.
  intros Hcap Hr. destruct (mreachable_ok _ _ Hcap Hr) as [Hq Hc _ _ Hkept].
  rewrite (polled_contents _ _ Hq). split; [done|]. split; [apply Hq|]. split; [apply Hc|].
  intros l s' Hs. destruct Hs; auto; right;
    match goal with H : try_send _ _ = (Ret false, _) |- _ => by destruct (try_send_false _ _ _ _ Hq H) end.
Qed.

(** C9. Managed mode never deadlocks: in every reachable state in which some
    handler has not answered, a signal is pending or the consumer is busy, a
    handler or the consumer can go on; and where nothing of that is left
    only a new request can make the system move. *)
Theorem managed_system_progress cap s :
  0 ≤ cap → mreachable cap s →
  (quiescent s ∨ ∃ l s', mstep l s s' ∧ (l = Handler ∨ l = Consumer)) ∧
  (quiescent s → ∀ l s', mstep l s s' → l = Arrival).
Proof.
  intros Hcap Hr. pose proof (mreachable_ok _ _ Hcap Hr) as Hok. split; [by eapply can_step|].
  by apply (quiescent_idle cap).
Qed.

(** C8. Managed mode settles: from every reachable state every run without
    new requests is finite, whether sends fail or not, and one of them
    answers every request, consumes every signal and leaves the consumer
    waiting. *)
Theorem managed_system_terminates cap s :
  0 ≤ cap → mreachable cap s → sn quiet_mstep s ∧ ∃ s', rtc quiet_mstep s s' ∧ quiescent s'.
Proof.
  intros Hcap Hr. pose proof (mreachable_ok _ _ Hcap Hr) as Hok. pose proof (quiet_sn _ _ Hok) as Hsn.
  split; [done|]. clear Hr. revert Hok. induction Hsn as [s _ IH]. intros Hok.
  destruct (can_step _ _ Hok) as [|(l & s1 & Hs & Hl)]; [by exists s|].
  assert (quiet_mstep s s1) as Hq by (exists l; split; [by destruct Hl as [->| ->]|done]).
  destruct (IH s1 Hq) as (s2 & Hr2 & H2); [by eapply mstep_ok|]. exists s2. split; [by eapply rtc_l|done].
Qed.

(** C7. As long as no send fails, managed mode sends what was queued in the
    order of arrival and loses nothing of it (a payload that meets a full
    queue is dropped on arrival and was never queued); and when it has
    settled the queue is empty or below the threshold, and empty if the last
    payload that was queued carried a platform.report event. *)
Theorem managed_system_delivers cap s :
  0 ≤ cap → rtc good_mstep (mstart cap) s →
  accepted s = sent_ok s ++ in_hands (consumer_at s) ++ contents (queue s) ∧ lost s = [] ∧
  (quiescent s →
    (contents (queue s) = [] ∨ chan_len (queue s) < threshold cap) ∧
    ∀ b, last (accepted s) = Some b → reports b ≠ [] → contents (queue s) = []).
Proof.
  intros Hcap Hr. destruct (good_run _ _ Hcap Hr) as (Hok & [Ho Hl _] & [H1 H2]).
  pose proof (mo_queue _ _ Hok) as Hq. rewrite (polled_contents _ _ Hq). split; [done|]. split; [done|].
  intros (Hh & Hb & Hm). destruct Hq as [Hc _ _ _]. rewrite Hc in H1.
  assert (∀ P, ¬ pending P s) as Hno.
  { intros P [He|[He|[acc He]]]; [by rewrite Hh in He; inversion He|done|congruence]. }
  split.
  - destruct (Z.lt_ge_cases (chan_len (queue s)) (threshold cap)) as [|Hge]; [by right|left].
    destruct (buf (queue s)) eqn:E; [done|]. exfalso. by apply (Hno (λ _, True)), H1.
  - intros b Hb' Hr'. destruct (buf (queue s)) eqn:E; [done|]. exfalso. by apply (Hno (λ b, reports b ≠ [])), (H2 b).
Qed.

(** What is below the threshold waits: a payload without a report can
    stay in the queue when everything has settled and no send failed; only
    another request moves it. *)
Theorem managed_leftover cap b :
  3 ≤ cap < 2 ^ 49 → reports b = [] →
  ∃ s, rtc good_mstep (mstart cap) s ∧ quiescent s ∧ contents (queue s) = [b] ∧
    ∀ l s', mstep l s s' → l = Arrival.
Proof.
  intros Hcap Hb. set (q := Chan cap [b] [] false).
  assert (try_send b (queue (mstart cap)) = (Ret true, q)) as Ht.
  { unfold try_send, has_room, chan_len. simpl. by rewrite (proj2 (Z.ltb_lt _ _)) by lia. }
  assert (to_signal q b = []) as Hsig.
  { unfold to_signal, threshold. rewrite Hb, app_nil_r. rewrite four_fifths by (simpl; lia).
    assert (2 ≤ 4 * cap / 5) by (apply Z.div_le_lower_bound; lia).
    rewrite (proj2 (Z.leb_gt _ _)); [done|]. unfold chan_len. cbn. lia. }
  set (s hs := MSys q (Chan 10 [] [] false) hs Waiting [b] [] [] []).
  assert (rtc good_mstep (mstart cap) (s [])) as Hrun.
  { eapply rtc_l; [exists Arrival; split; [done|by apply (step_accept _ _ _ Ht)]|].
    eapply rtc_l; [exists Handler; split; [done|by apply (step_check (s [Checking b]) 0 b)]|]. simpl. rewrite Hsig.
    apply rtc_once. exists Handler. split; [done|]. by apply (step_answer (s [Signalling []]) 0). }
  exists (s []). split; [done|]. split; [done|]. split; [done|].
  apply (quiescent_idle cap); [|done]. by apply good_run; [lia|].
Qed.

(** C16. Refinement, producer: a POST handled at once by Producers.v is a run
    of the system in which its handler comes with its payload, which is
    queued if there is room and dropped otherwise, then only handlers move,
    and in the end it has sent its signals and is gone, with the channels
    that Producers.v says; the answer is 200. *)
Theorem managed_logsHandler_is_a_run {W} r (ws : wstate W) s :
  agree ws s → chan_cap (queue s) < 2 ^ 49 → is_post r = true → body_failed r = false →
  let '(res, ws') := managed_logsHandler r ws in
  res = Ret StatusOK ∧ ext ws' = ext ws ∧ ∃ s1 s',
    mstep Arrival s s1 ∧ handlers s1 = handlers s ++ [Checking (body_data r)] ∧
    (if has_room (queue s)
     then accepted s' = accepted s ++ [body_data r] ∧ dropped s' = dropped s
     else accepted s' = accepted s ∧ dropped s' = dropped s ++ [body_data r]) ∧
    rtc (mstep Handler) s1 s' ∧ handlers s' = handlers s ∧ consumer_at s' = consumer_at s ∧ agree ws' s'.
Proof. apply run_handler. Qed.

(** C15. Refinement, consumer: [n] rounds of the loop of Consumers.v are a run
    of the system in which only the consumer moves and whose calls of the
    sender are those that the loop makes, with the same payloads, in the
    same order and with the same ends: the consumer is waiting again with
    the first [n] signals consumed, or it is inside the call of the sender
    that panicked or did not come back.  The channels are the same at the
    end. *)
Theorem processFlushSignals_is_a_run {W} `{LogSender W} config n (ws : wstate W) s :
  agree ws s → consumer_at s = Waiting → Forall known (buf (signals s)) →
  let '(r, ws') := processFlushSignals config (replicate n false) ws in
  ∃ cs w s', mrun cs s s' ∧ called cs (ext ws) w ∧ agree ws' s' ∧
    ((ext ws' = w ∧ consumer_at s' = Waiting ∧ r = Block ∧ buf (signals s') = drop n (buf (signals s))) ∨
     ∃ l, consumer_at s' = Sending l ∧
       ((∃ p, r = Panic p ∧ SendAllLogs l w = (Panic p, ext ws')) ∨ (r = Block ∧ SendAllLogs l w = (Block, ext ws')))).
Proof. apply loop_run. Qed.
End theorems.

(** ** Examples *)

(** One payload from its arrival to its delivery, in a queue of one place. *)
Definition delivered_one : msys :=
  MSys (Chan 1 [] [] false) (Chan 10 [] [] false) [] Waiting ["a"%string] [] ["a"%string] [].

Ltac run_good rule := eapply rtc_l; [eexists; split; [|eapply rule; simpl; reflexivity]; discriminate|]; simpl.

Lemma delivered_one_run : rtc good_mstep (mstart 1) delivered_one.
Proof.
  run_good (step_accept (mstart 1) "a"). run_good (λ s, step_check s 0). run_good (λ s, step_signal s 0).
  run_good (λ s, step_answer s 0). run_good step_wake. run_good step_recv. run_good step_drained.
  run_good step_sent. apply rtc_refl.
Qed.

Lemma good_any s s' : rtc good_mstep s s' → rtc any_mstep s s'.
Proof. apply rtc_subrel. intros ?? (l & _ & ?). by exists l. Qed.

Lemma managed_system_conserves_witness :
  let s := delivered_one in
  accepted s ≡ₚ sent_ok s ++ in_hands (consumer_at s) ++ contents (queue s) ++ lost s ∧
  chan_len (queue s) ≤ 1 ∧ chan_len (signals s) ≤ 10 ∧
  ∀ l s', mstep l s s' → (dropped s' = dropped s ∧ lost s' = lost s) ∨ chan_len (queue s) = 1.
Proof. apply (managed_system_conserves 1 delivered_one); [lia|]. apply good_any, delivered_one_run. Defined.

Lemma managed_system_progress_witness :
  let s := delivered_one in
  (quiescent s ∨ ∃ l s', mstep l s s' ∧ (l = Handler ∨ l = Consumer)) ∧
  (quiescent s → ∀ l s', mstep l s s' → l = Arrival).
Proof. apply (managed_system_progress 1 delivered_one); [lia|]. apply good_any, delivered_one_run. Defined.

Lemma managed_system_terminates_witness :
  sn quiet_mstep delivered_one ∧ ∃ s', rtc quiet_mstep delivered_one s' ∧ quiescent s'.
Proof. apply (managed_system_terminates 1 delivered_one); [lia|]. apply good_any, delivered_one_run. Defined.

Lemma managed_system_delivers_witness :
  let s := delivered_one in
  accepted s = sent_ok s ++ in_hands (consumer_at s) ++ contents (queue s) ∧ lost s = [] ∧
  (quiescent s →
    (contents (queue s) = [] ∨ chan_len (queue s) < threshold 1) ∧
    ∀ b, last (accepted s) = Some b → reports b ≠ [] → contents (queue s) = []).
Proof. apply (managed_system_delivers 1 delivered_one); [lia|]. apply delivered_one_run. Defined.

Lemma managed_leftover_witness :
  ∃ s, rtc good_mstep (mstart 20) s ∧ quiescent s ∧ contents (queue s) = ["[]"%string] ∧
    ∀ l s', mstep l s s' → l = Arrival.
Proof. apply (managed_leftover 20 "[]"); [lia|]. vm_compute. reflexivity. Defined.

Lemma start_agrees cap l sg : Z.of_nat (List.length l) ≤ cap → Z.of_nat (List.length sg) ≤ 10 →
  agree (WState world0 (Chan cap l [] false) (Chan 10 sg [] false))
    (MSys (Chan cap l [] false) (Chan 10 sg [] false) [] Waiting l [] [] []).
Proof. intros H1 H2. split; [done|done|by split|by split]. Qed.

Lemma managed_logsHandler_is_a_run_witness :
  let r := post (q "[{'type':'platform.report'}]") in
  let ws := WState world0 (Chan 5 [] [] false) (Chan 10 [] [] false) in
  ∃ s1 s', mstep Arrival (mstart 5) s1 ∧ handlers s1 = [Checking (body_data r)] ∧
    (accepted s' = [body_data r] ∧ dropped s' = []) ∧
    rtc (mstep Handler) s1 s' ∧ handlers s' = [] ∧ consumer_at s' = Waiting ∧ agree (managed_logsHandler r ws).2 s'.
Proof.
  intros r ws. assert (agree ws (mstart 5)) as Hag by (apply start_agrees; simpl; lia).
  pose proof (managed_logsHandler_is_a_run r ws (mstart 5) Hag ltac:(simpl; lia) eq_refl eq_refl) as Hrun.
  destruct (managed_logsHandler r ws) as [res ws']. exact (proj2 (proj2 Hrun)).
Defined.

(** A sender that refuses everything: the drain puts the payload back. *)
Lemma processFlushSignals_is_a_run_witness :
  let ws := WState world0 (Chan 1 ["a"%string] [] false) (Chan 10 ["queue_threshold"%string] [] false) in
  let s := MSys (Chan 1 ["a"%string] [] false) (Chan 10 ["queue_threshold"%string] [] false) [] Waiting ["a"%string] [] [] [] in
  let '(r, ws') := processFlushSignals (H := refusing) (sample_config true 100) (replicate 2 false) ws in
  ∃ cs w s', mrun cs s s' ∧ called (H := refusing) cs world0 w ∧ agree ws' s' ∧
    ((ext ws' = w ∧ consumer_at s' = Waiting ∧ r = Block ∧ buf (signals s') = []) ∨
     ∃ l, consumer_at s' = Sending l ∧
       ((∃ p, r = Panic p ∧ SendAllLogs (LogSender := refusing) l w = (Panic p, ext ws')) ∨
        (r = Block ∧ SendAllLogs (LogSender := refusing) l w = (Block, ext ws')))).
Proof.
  intros ws s. apply (processFlushSignals_is_a_run (H := refusing) (sample_config true 100) 2 ws s).
  - apply start_agrees; simpl; lia.
  - done.
  - by repeat constructor.
Defined.
